(* ===== verification/_CoqProject ===== *)
-Q . S2P
Prelude.v
GoJson.v
GoText.v
GoDecode.v
GoDecodeProps.v
GoPrint.v
Reconcile.v
XrayConfig.v
Store.v
StoreProps.v
StoreTheorems.v
Collector.v
CollectorProps.v
Handler.v
Render.v
RenderProps.v
RenderTheorems.v
JsonText.v
RenderExamples.v
Roster.v
RosterProps.v
RosterTheorems.v
RosterInstances.v
RosterExamples.v
Auth.v
AuthTheorems.v
Advertisements.v
AdvertisementsParse.v
AdvertisementsTokens.v
AdvertisementsTheorems.v
Profiles.v
ProfileTheorems.v
Journal.v
JournalTheorems.v
Listener.v
ListenerLogic.v
ListenerDescriptors.v
ListenerPaths.v
ListenerExamples.v
FileSource.v
FileSourceTheorems.v
Watchers.v
Snapshots.v
XrayStats.v
XrayStatus.v
XrayStatusTheorems.v
GeoIP.v
GoUrl.v
Api.v
ApiTheorems.v
Startup.v
Migrations.v
XrayDecode.v
XrayDecodeTheorems.v
JsonSyntax.v
JsonScan.v
RenderSyntax.v
RenderEntries.v
RenderFates.v
RenderMeaning.v
RenderReads.v
RenderParses.v
RosterQueue.v
RosterReads.v
Shutdown.v
Wiring.v
