(* ===== verification/Prelude.v ===== *)
(** * xform: a verification library for the Panel's core

    xform is a Panel beside one xray process: it reads xray's config, polls
    its counters, keeps users and their traffic in SQLite, and lets an
    Operator add, edit, disable and delete users, writing both the config
    file and the running xray. This library models that core from the Go
    sources under src/internal/ and proves what makes it correct.

    ** The parts, and how they meet

    What the code takes from Go:

    - [Prelude] (this file): results, the state monad, unsigned 64-bit
      arithmetic, and the [GoRuntime] interface, what the code takes from
      Go's Unicode tables, with its laws and an ASCII instance.
    - [GoJson], [GoText]: JSON values, UTF-8, the string literals of
      encoding/json; byte strings and their cutting.
    - [GoDecode], [GoDecodeProps], [GoPrint]: encoding/json's decoder over
      bytes, its tokens, the decoding into structs, and JSON's printing.
      Theorems: what is printed parses back.
    - [GoUrl]: percent decoding, queries, host and port.
    - [JsonSyntax]: a syntax of JSON that keeps every byte. Theorems: what
      the decoder accepts is exactly the texts of such syntaxes.

    The config file, read and written:

    - [XrayDecode], [XrayDecodeTheorems] (xrayconfig/xrayconfig.go): the
      bytes to the config's structs, whose types and tags are data that one
      decoder follows. Theorems: what no field names is not read; a config
      written out reads back.
    - [XrayConfig] (xrayconfig/xrayconfig.go, view.go, source.go): the
      decoded config to the [RosterParse] the collector feeds the store and
      the [View] the roster service reads; the watched source's version. The
      decoding is its argument, [XrayDecode.decode] is the value. Theorems:
      the hand-off email by email; the version counts exactly the changes of
      the roster.
    - [Render], [RenderProps], [RenderTheorems], [JsonText],
      [RenderExamples] (xrayconfig/render.go, roster/render.go): the JSONC
      scanner over bytes, the planned edits, their application, the file's
      replacement. Theorems: every JSON text scans to what it says; an
      additive plan only inserts; a plan of one removal per inbound is a
      simultaneous replacement inside the inbounds array; a satisfied plan
      writes nothing; what is written reads back.
    - [JsonScan]: the scanner and the decoder see the same document.
    - [RenderSyntax], [RenderEntries], [RenderFates], [RenderMeaning]: where in
      a document's syntax an edit lands, the edits of one clients array, and
      the render as one edit of the JSON value the file denotes, for plans
      that say one thing of each email (tame) and whose edits do not meet
      (untangled: of an array neither the last two entries are taken out, nor
      the only one while clients are added). The plans left out are those the
      code gets wrong; [RenderExamples] has them.
    - [RenderReads], [RenderParses]: the reader has exactly those clients
      changed and otherwise what it had; the roster's parse moves only for the
      users the plan names.
    - [RosterQueue]: every plan of a queue with one operation per user and
      inbound is tame, and once it is rendered the file has each user as the
      queue says; an edit's plan keeps that shape; a request that names an
      inbound twice breaks it. [RosterReads]: a queue of new users, rendered
      and read back, gives each the labels seeded for it.

    Users and their traffic:

    - [Reconcile] (reconcile/reconcile.go): one direction's [Tracker], [Add],
      [Speed]. Theorems: the total is a reference reading of the whole
      history of raw counters, and never over-counts across restarts.
    - [Store], [StoreProps], [StoreTheorems], [Migrations] (users/store.go):
      the tables as lists of rows and every statement on them; Open with the
      schema's statements and migrations one by one. Theorems: emails
      and Client IDs stay unique up to case; an add's acceptance; disable
      and enable, mark and purge as inverses or exact removals; a poll's
      writes are additive and lose nothing; adoption only adds; a database of
      any version opens and loses nothing.
    - [Collector], [CollectorProps] (users/collector.go): a poll over the
      [Persistence] interface, which the store implements. Theorems: traffic
      is conserved whatever fails, the snapshot on failure is the last known
      one, the config roster waits until it is written, a purge forgets.
    - [XrayStats] (xraygrpc/xraygrpc.go): the counters by name, their sums,
      presence. [Handler] (xraygrpc/handler.go): the gRPC client behind the
      [Pusher] interface, over a [HandlerService] that stands for xray.
    - [Roster], [RosterProps], [RosterTheorems], [RosterInstances],
      [RosterExamples] (roster/service.go): the handlers, the queue, the
      apply pass, convergence and the event loop, over [RosterStore],
      [Renderer], [Pusher] and [PurgeNotifier]. Theorems: an edit's plan
      converges xray from the half-landed states it allows for; a change made
      during a pass is never settled away, wherever it falls between the
      calls; a failed render pushes nothing; the file is planned from
      the pushes; a delete purges after its removals; convergence overtakes
      no one.
    - [Advertisements], [AdvertisementsParse], [AdvertisementsTokens],
      [AdvertisementsTheorems] (advertisements/view.go, parse.go): the
      operator's records of how inbounds are reached, the strict document
      check and the parse. Theorems: the check is the grammar; every record
      is well formed or says its problem; what is written reads back.
    - [Profiles], [ProfileTheorems] (profiles/profiles.go, uri.go): the
      evaluation of the profiles a User is offered, their vless:// URIs.
      Theorems: a URI reads back as its parts; an available profile is backed
      by one configured inbound and one advertisement that agree.

    The Panel around them:

    - [Auth], [AuthTheorems] (auth/auth.go, session/session.go): admission.
      Theorems: the trusted assertion and the stripped headers; sessions
      follow their history; the API needs a live session.
    - [Api], [ApiTheorems] (api/): every route over the roster's [World], the
      cached sources and the gateway. Theorems: only admitted mutations of
      the Panel's own site change anything; the log requests are three.
    - [FileSource], [FileSourceTheorems], [Watchers] (filesource/, and the
      watchers of xrayconfig/ and advertisements/): a watched file's state,
      reload and event loop. Theorems: the source is the history of its
      loads; no change is missed; a subscriber told nothing is current.
    - [Snapshots] (snapshot/, configsnapshot/), [XrayStatus],
      [XrayStatusTheorems] (xraystatus/), [GeoIP] (geoip/): the caches, the
      bounded read of the config, the service's status with its durable
      totals, the country of an address.
    - [Journal], [JournalTheorems] (journal/): one bounded read of
      journalctl. Theorems: one fixed child at a time; a snapshot is the
      whole of a clean read; the entry of a record, field by field.
    - [Listener], [ListenerLogic], [ListenerDescriptors], [ListenerPaths],
      [ListenerExamples] (listener/listener.go): the listener as trees of
      system calls, and a logic of monitors over their runs. Theorems:
      descriptors balance; only dead or own sockets are touched; a pathname
      that is not its own is put back.
    - [Startup] (config/, cmd/xform/, hoststats/, logging/): the
      configuration, main as a trace of what it opens and starts, the
      dashboard's handler, the host's figures, the log handler. Theorems: a
      configuration that loads starts; main's effects follow its gates.
    - [Shutdown] (cmd/xform/main.go): the end of main, beside the goroutine
      that calls Shutdown and the connections, as a machine whose runs are
      the interleavings. Theorems: a signalled Panel ends after at most
      twelve steps of its own and in order, on the trace [Startup] has; two
      runs show what the end does not get right.
    - [Wiring] (cmd/xform/main.go, profiles/profiles.go): the adapters main
      puts between the watched sources and their readers. Theorems: the
      profiles offered are of the last config and settings that parsed.

    A state of the code is a record here under the code's name; an operation
    is a definition under the function's name that takes the state and
    returns the next one, with an error as a value of [result] or an option.
    The roster service threads one [World] (its own state, the store, the
    file, xray, the collector) through the state monad [M]. The Modules named
    Examples and the files so called hold the theorems applied to concrete
    states, and runs of the definitions where the code does not do what it
    means to: those are named after what goes wrong.

    ** Parameters

    What the sources only call is a class with the behaviour they rely on:
    [GoRuntime] (Unicode case and space), [AuthRuntime] (SHA-256, cookies),
    [HostRuntime] (addresses and internationalised host names),
    [ProfileRuntime] (a Client ID's canonical text, canonical JSON),
    [UrlRuntime] and [NetRuntime] (url.Parse, loopback addresses),
    [HostFiles] (what stat says of an executable), [SystemdBus] (D-Bus),
    [StatsService] and [HandlerService] (xray's API), [Uuid], the sort of the
    renderer's edits ([DescSort]: a permutation in descending order, equal
    offsets in any), the answers of every system call of the listener, what
    each read of a file or a child's pipe delivers, slog's text handler
    ([TextHandler]), the decoded geoip file, and the order in which Go visits
    a map ([po_visit] of a poll, [visit] of a header map). Each has a concrete
    instance that the examples compute with.

    ** Bounds and fuel

    Counters are uint64 with wrap-around ([u64]); the store's totals are
    unbounded integers, so SQLite's 63-bit limit is out of the model, and
    the conservation theorem assumes the readings' sum fits 64 bits. The
    scanner's mutual recursion is fuelled: [parse_fuel], twice the bytes plus
    four, is proved enough for every document whose scan returns at all, and
    running out of it is reported as [Diverges], the code's endless loop; on
    every document the decoder accepts the scan returns. The scanning loops
    over blanks, strings and literals are fuelled by the document's length,
    and every round moves past a byte; [decode_runes] is fuelled by the
    string's length and every rune takes a byte. The decoder's nesting limit
    is encoding/json's own, ten thousand.

    ** Concurrency

    A mutation handler, and each part of an apply pass that holds the lock or
    makes one call to xray, is one step. [apply] is a pass that nobody
    disturbs; [turn] is one user's share of a pass call by call, with the
    mutations of the queue and everything else free to happen between the
    calls ([others]), and an undisturbed turn is [apply]'s. A run of the listener meets arbitrary answers,
    so whatever runs beside it is in them. Overlapping journal collections
    ([collect_step]), a watched file with its events, timer and
    subscribers ([loop_step], [host_step]) and the end of main ([act]) are
    step relations.

    ** Not modelled

    The JSON text of the API's responses (a response is the value encoded);
    which value main hands to which constructor, and the text of slog
    attributes; goroutines and pipes below the steps above; the D-Bus, gRPC
    and HTTP transports; the TypeScript dashboard. *)

From Stdlib Require Export ZArith Lia.
From Stdlib Require Import Ascii String.
From Stdlib.Floats Require Import SpecFloat.
From stdpp Require Export base gmap strings list fin_maps sets option sorting.

(** ** Automation *)

(** Lemmas that close the routine goals of every component, and its
    rewriting companion. *)
Create HintDb xform discriminated.
Create Rewrite HintDb xform.

(** ** Results *)

(** Go's [(value, error)] pair with the error tested first. *)
Inductive result (E A : Type) : Type :=
| Ok (a : A)
| Err (e : E).
Arguments Ok {E A} a.
Arguments Err {E A} e.

Definition is_ok {E A} (r : result E A) : bool :=
  match r with Ok _ => true | Err _ => false end.

Definition result_map {E A B} (f : A → B) (r : result E A) : result E B :=
  match r with Ok a => Ok (f a) | Err e => Err e end.

(** ** State passing

    A computation that reads and changes a world of type [W]. *)
Definition M (W A : Type) : Type := W → W * A.

#[export] Instance M_ret W : MRet (M W) := λ A a w, (w, a).
#[export] Instance M_bind W : MBind (M W) := λ A B k m w, let (w, a) := m w in k a w.

Definition gets {W A} (f : W → A) : M W A := λ w, (w, f w).
Definition modify {W} (f : W → W) : M W () := λ w, (f w, ()).

(** A Go loop whose body may not exit early. *)
Fixpoint forM {W A} (l : list A) (f : A → M W ()) : M W () :=
  match l with [] => mret () | x :: l => f x ;; forM l f end.

(** ** Strings *)

(** strings.Contains. *)
Fixpoint contains (sub s : string) : bool :=
  String.prefix sub s ||
  match s with String _ s' => contains sub s' | EmptyString => false end.

Lemma contains_app_r sub s t : contains sub t = true → contains sub (s +:+ t) = true.
Proof.
  intros Ht. induction s as [|c s IH]; [exact Ht|].
  change (String c s +:+ t) with (String c (s +:+ t)). simpl. rewrite IH. apply orb_true_r.
Qed.

(** ** Machine integers *)

Definition u64_mod : Z := 2 ^ 64.

(** uint64 arithmetic wraps. *)
Definition u64 (z : Z) : Z := z `mod` u64_mod.
Definition u64_add (a b : Z) : Z := u64 (a + b).
Definition u64_sub (a b : Z) : Z := u64 (a - b).

(** A value a uint64 can hold. *)
Definition is_u64 (z : Z) : Prop := (0 ≤ z < u64_mod)%Z.

#[export] Instance is_u64_dec z : Decision (is_u64 z).
Proof. unfold is_u64. apply _. Defined.

(** int64 arithmetic wraps to the signed range. *)
Definition i64 (z : Z) : Z := ((z + 2 ^ 63) `mod` 2 ^ 64 - 2 ^ 63)%Z.

Lemma u64_small z : is_u64 z → u64 z = z.
Proof. unfold is_u64, u64. intros. by apply Z.mod_small. Qed.

Lemma u64_range z : is_u64 (u64 z).
Proof. unfold is_u64, u64. apply Z.mod_pos_bound. done. Qed.

Lemma u64_idem z : u64 (u64 z) = u64 z.
Proof. apply u64_small, u64_range. Qed.

Lemma u64_add_l a b : u64 (u64 a + b) = u64 (a + b).
Proof. unfold u64. apply Z.add_mod_idemp_l. done. Qed.

Lemma u64_add_r a b : u64 (a + u64 b) = u64 (a + b).
Proof. unfold u64. apply Z.add_mod_idemp_r. done. Qed.

(** ** The Go runtime

    What the code uses of Go that depends on the Unicode tables or on the
    processor. [to_lower], [to_upper], [equal_fold] and [trim_space] are
    strings.ToLower, strings.ToUpper, strings.EqualFold and strings.TrimSpace
    on UTF-8 byte strings; [float_overflow] is the value a float64 conversion
    to uint64 yields when the number does not fit, which the language leaves
    to the implementation. *)
Class GoRuntime := {
  to_lower : string → string;
  to_upper : string → string;
  equal_fold : string → string → bool;
  trim_space : string → string;
  float_overflow : spec_float → Z;
}.

Definition ascii_lower_char (c : ascii) : ascii :=
  let n := nat_of_ascii c in
  if (65 <=? n) && (n <=? 90) then ascii_of_nat (n + 32) else c.

Definition ascii_upper_char (c : ascii) : ascii :=
  let n := nat_of_ascii c in
  if (97 <=? n) && (n <=? 122) then ascii_of_nat (n - 32) else c.

Fixpoint string_map (f : ascii → ascii) (s : string) : string :=
  match s with
  | EmptyString => EmptyString
  | String c s => String (f c) (string_map f s)
  end.

(** SQLite's built-in lower(): folds the ASCII letters only. *)
Definition ascii_lower : string → string := string_map ascii_lower_char.
Definition ascii_upper : string → string := string_map ascii_upper_char.

Fixpoint all_ascii (s : string) : bool :=
  match s with
  | EmptyString => true
  | String c s => (nat_of_ascii c <? 128) && all_ascii s
  end.

(** The documented behaviour the theorems rely on. *)
Class GoRuntimeLaws `{GoRuntime} : Prop := {
  equal_fold_refl s : equal_fold s s = true;
  equal_fold_sym s t : equal_fold s t = equal_fold t s;
  equal_fold_trans s t u :
    equal_fold s t = true → equal_fold t u = true → equal_fold s u = true;
  equal_fold_ascii s t :
    ascii_lower s = ascii_lower t → equal_fold s t = true;
  equal_fold_ascii_inv s t :
    all_ascii s = true → all_ascii t = true →
    equal_fold s t = true → ascii_lower s = ascii_lower t;
  to_lower_ascii s : all_ascii s = true → to_lower s = ascii_lower s;
  to_upper_ascii s : all_ascii s = true → to_upper s = ascii_upper s;
  trim_space_idem s : trim_space (trim_space s) = trim_space s;
}.

(** ASCII white space: tab, newline, vertical tab, form feed, carriage
    return and space. *)
Definition ascii_space (c : ascii) : bool :=
  let n := nat_of_ascii c in ((9 <=? n) && (n <=? 13)) || (n =? 32).

Fixpoint drop_spaces (s : string) : string :=
  match s with
  | String c s' => if ascii_space c then drop_spaces s' else s
  | EmptyString => EmptyString
  end.

(** Trims from the right: a suffix of white space disappears. *)
Fixpoint drop_trailing_spaces (s : string) : string :=
  match s with
  | EmptyString => EmptyString
  | String c s' =>
      let t := drop_trailing_spaces s' in
      if ascii_space c && String.eqb t "" then "" else String c t
  end.

Definition ascii_trim (s : string) : string :=
  drop_trailing_spaces (drop_spaces s).

(** A concrete runtime that agrees with Go on ASCII text; it is what the
    closed examples and witnesses evaluate with. Non-ASCII bytes are
    compared as they are. *)
Module AsciiRuntime.
#[export] Instance runtime : GoRuntime := {
  to_lower := ascii_lower;
  to_upper := ascii_upper;
  equal_fold s t := String.eqb (ascii_lower s) (ascii_lower t);
  trim_space := ascii_trim;
  float_overflow _ := (2 ^ 63)%Z;
}.

Lemma drop_spaces_head s :
  match drop_spaces s with String c _ => ascii_space c = false | _ => True end.
Proof.
  induction s as [|c s IH]; simpl; [done|].
  destruct (ascii_space c) eqn:E; [exact IH|exact E].
Qed.

Lemma drop_trailing_spaces_idem s :
  drop_trailing_spaces (drop_trailing_spaces s) = drop_trailing_spaces s.
Proof.
  induction s as [|c s IH]; simpl; [done|].
  destruct (ascii_space c && _) eqn:E; simpl; [done|].
  by rewrite IH, E.
Qed.

Lemma ascii_trim_idem s : ascii_trim (ascii_trim s) = ascii_trim s.
Proof.
  unfold ascii_trim. pose proof (drop_spaces_head s) as Hh.
  destruct (drop_spaces s) as [|c t]; [done|].
  replace (drop_spaces (drop_trailing_spaces (String c t)))
    with (drop_trailing_spaces (String c t)).
  - apply drop_trailing_spaces_idem.
  - simpl. rewrite Hh. simpl. by rewrite Hh.
Qed.

#[export] Instance runtime_laws : GoRuntimeLaws.
Proof.
  split; simpl.
  - intros. apply String.eqb_refl.
  - intros. apply String.eqb_sym.
  - intros s t u. rewrite !String.eqb_eq. congruence.
  - intros s t. by rewrite String.eqb_eq.
  - intros s t _ _. by rewrite String.eqb_eq.
  - done.
  - done.
  - apply ascii_trim_idem.
Qed.
End AsciiRuntime.
