(* ===== verification/GoJson.v ===== *)
(** * What the code uses of Go's encoding/json and unicode/utf8

    Documents are byte strings. This file holds the JSON values a
    json.RawMessage denotes, the UTF-8 decoder, and the string literal
    encoder and decoder (json.Marshal and json.Unmarshal of a string) that
    the raw-span renderer works with. *)

From Stdlib Require Import Ascii String.
From stdpp Require Import pretty.
From S2P Require Import Prelude.

Local Open Scope Z_scope.

Module GoJson.

(** ** Values *)

(** The value a RawMessage denotes. A number keeps its literal. *)
Inductive json :=
| JNull
| JBool (b : bool)
| JNumber (literal : string)
| JString (s : string)
| JArray (items : list json)
| JObject (fields : list (string * json)).

(** ** Bytes *)

Definition byte_of (c : ascii) : Z := Z.of_N (N_of_ascii c).
Definition of_byte (z : Z) : ascii := ascii_of_N (Z.to_N z).

Definition dquote : ascii := of_byte 34.
Definition backslash : ascii := of_byte 92.
Definition newline : ascii := of_byte 10.

Fixpoint bytes_of (s : string) : list Z :=
  match s with EmptyString => [] | String c s => byte_of c :: bytes_of s end.

Fixpoint of_bytes (l : list Z) : string :=
  match l with [] => EmptyString | z :: l => String (of_byte z) (of_bytes l) end.

(** ** Strings *)

(** strings.HasSuffix. *)
Definition has_suffix (suffix s : string) : bool :=
  (String.length suffix <=? String.length s)%nat &&
  String.eqb (String.substring (String.length s - String.length suffix) (String.length suffix) s) suffix.

(** strings.ContainsAny, for ASCII characters. *)
Definition contains_any (chars s : string) : bool :=
  existsb (λ c, existsb (Z.eqb c) (bytes_of chars)) (bytes_of s).

(** ** Integers *)

Fixpoint digits_value (acc : Z) (s : string) : option Z :=
  match s with
  | EmptyString => Some acc
  | String c s =>
      let b := byte_of c in
      if (48 <=? b) && (b <=? 57) then digits_value (acc * 10 + (b - 48)) s else None
  end.

(** A literal unmarshalled into an int: an integer literal within int64. *)
Definition json_int (literal : string) : option Z :=
  let in_range n := if (- 2 ^ 63 <=? n) && (n <? 2 ^ 63) then Some n else None in
  match literal with
  | EmptyString => None
  | String c s =>
      if byte_of c =? 45 then
        match s with
        | EmptyString => None
        | _ => n ← digits_value 0 s; in_range (- n)
        end
      else n ← digits_value 0 literal; in_range n
  end.

(** strconv.Itoa. *)
Definition itoa (n : Z) : string := pretty n.

(** ** UTF-8 *)

Definition rune_error : Z := 65533.

Definition continuation (b : Z) : bool := (128 <=? b) && (b <=? 191).

(** utf8.DecodeRune: the rune and the rest; an invalid first byte yields the
    error rune and consumes one byte. The boolean tells the two apart. *)
Definition decode_rune (l : list Z) : option (Z * bool * list Z) :=
  match l with
  | [] => None
  | b0 :: r0 =>
      let bad := Some (rune_error, false, r0) in
      if b0 <? 128 then Some (b0, true, r0)
      else if (194 <=? b0) && (b0 <=? 223) then
        match r0 with
        | b1 :: r1 => if continuation b1
            then Some ((b0 - 192) * 64 + (b1 - 128), true, r1) else bad
        | _ => bad
        end
      else if (224 <=? b0) && (b0 <=? 239) then
        match r0 with
        | b1 :: b2 :: r2 =>
            if continuation b1 && continuation b2
               && negb ((b0 =? 224) && (b1 <? 160)) && negb ((b0 =? 237) && (159 <? b1))
            then Some ((b0 - 224) * 4096 + (b1 - 128) * 64 + (b2 - 128), true, r2) else bad
        | _ => bad
        end
      else if (240 <=? b0) && (b0 <=? 244) then
        match r0 with
        | b1 :: b2 :: b3 :: r3 =>
            if continuation b1 && continuation b2 && continuation b3
               && negb ((b0 =? 240) && (b1 <? 144)) && negb ((b0 =? 244) && (143 <? b1))
            then Some ((b0 - 240) * 262144 + (b1 - 128) * 4096 + (b2 - 128) * 64 + (b3 - 128),
                       true, r3) else bad
        | _ => bad
        end
      else bad
  end.

(** utf8.EncodeRune; a surrogate or an out-of-range rune encodes the error
    rune. *)
Definition encode_rune (r : Z) : list Z :=
  let r := if (r <? 0) || ((55296 <=? r) && (r <=? 57343)) || (1114111 <? r)
           then rune_error else r in
  if r <? 128 then [r]
  else if r <? 2048 then [192 + r / 64; 128 + r mod 64]
  else if r <? 65536 then [224 + r / 4096; 128 + (r / 64) mod 64; 128 + r mod 64]
  else [240 + r / 262144; 128 + (r / 4096) mod 64; 128 + (r / 64) mod 64; 128 + r mod 64].

Fixpoint decode_runes (fuel : nat) (l : list Z) : list (Z * bool) :=
  match fuel with
  | O => []
  | S fuel =>
      match decode_rune l with
      | None => []
      | Some (r, ok, rest) => (r, ok) :: decode_runes fuel rest
      end
  end.

(** Each rune consumes a byte, so the length is fuel enough. *)
Definition runes (s : string) : list (Z * bool) :=
  let l := bytes_of s in decode_runes (length l) l.

(** unicode.IsSpace. *)
Definition rune_space (r : Z) : bool :=
  ((9 <=? r) && (r <=? 13) || (r =? 32) || (r =? 133) || (r =? 160) || (r =? 5760) ||
   (8192 <=? r) && (r <=? 8202) || (r =? 8232) || (r =? 8233) || (r =? 8239) || (r =? 8287) || (r =? 12288))%Z.

(** utf8.ValidString. *)
Definition utf8_valid (s : string) : bool := forallb snd (runes s).

(** ** String literals *)

Definition hex_digit (n : Z) : Z := if n <? 10 then 48 + n else 87 + n.

Definition u_escape (r : Z) : list Z :=
  [92; 117; hex_digit (r / 4096 mod 16); hex_digit (r / 256 mod 16);
   hex_digit (r / 16 mod 16); hex_digit (r mod 16)].

(** One rune inside json.Marshal's string literal, HTML-escaped. *)
Definition quote_rune (r : Z * bool) : list Z :=
  let '(r, ok) := r in
  if negb ok then u_escape rune_error
  else if r =? 34 then [92; 34]
  else if r =? 92 then [92; 92]
  else if r =? 8 then [92; 98]
  else if r =? 12 then [92; 102]
  else if r =? 10 then [92; 110]
  else if r =? 13 then [92; 114]
  else if r =? 9 then [92; 116]
  else if (r <? 32) || (r =? 60) || (r =? 62) || (r =? 38) || (r =? 8232) || (r =? 8233)
  then u_escape r
  else encode_rune r.

(** json.Marshal of a string. *)
Definition quote (s : string) : string :=
  of_bytes (34 :: concat (quote_rune <$> runes s) ++ [34]).

Definition hex_value (b : Z) : option Z :=
  if (48 <=? b) && (b <=? 57) then Some (b - 48)
  else if (97 <=? b) && (b <=? 102) then Some (b - 87)
  else if (65 <=? b) && (b <=? 70) then Some (b - 55)
  else None.

Definition hex4 (l : list Z) : option (Z * list Z) :=
  match l with
  | a :: b :: c :: d :: rest =>
      a ← hex_value a; b ← hex_value b; c ← hex_value c; d ← hex_value d;
      Some (a * 4096 + b * 256 + c * 16 + d, rest)
  | _ => None
  end.

(** The decoded value of the escape after a backslash. A \u escape of a high
    surrogate joins a following low one; a lone surrogate decodes to the
    error rune. *)
Definition unescape (l : list Z) : option (list Z * list Z) :=
  match l with
  | 34 :: r => Some ([34], r)
  | 92 :: r => Some ([92], r)
  | 47 :: r => Some ([47], r)
  | 98 :: r => Some ([8], r)
  | 102 :: r => Some ([12], r)
  | 110 :: r => Some ([10], r)
  | 114 :: r => Some ([13], r)
  | 116 :: r => Some ([9], r)
  | 117 :: r =>
      '(hi, r1) ← hex4 r;
      if (55296 <=? hi) && (hi <=? 56319) then
        match r1 with
        | 92 :: 117 :: r2 =>
            match hex4 r2 with
            | Some (lo, r3) =>
                if (56320 <=? lo) && (lo <=? 57343)
                then Some (encode_rune (65536 + (hi - 55296) * 1024 + (lo - 56320)), r3)
                else Some (encode_rune rune_error, r1)
            | None => Some (encode_rune rune_error, r1)
            end
        | _ => Some (encode_rune rune_error, r1)
        end
      else Some (encode_rune hi, r1)
  | _ => None
  end.

(** The body of a literal up to its closing quote, which must be last. *)
Fixpoint unquote_body (fuel : nat) (l : list Z) : option (list Z) :=
  match fuel with
  | O => None
  | S fuel =>
      match l with
      | [] => None
      | 34 :: r => match r with [] => Some [] | _ => None end
      | 92 :: r => '(v, r') ← unescape r; t ← unquote_body fuel r'; Some (v ++ t)
      | b :: _ =>
          if b <? 32 then None
          else '(r, _, rest) ← decode_rune l; t ← unquote_body fuel rest;
               Some (encode_rune r ++ t)
      end
  end.

(** json.Unmarshal of a document that is one string literal. *)
Definition unquote (s : string) : option string :=
  match bytes_of s with
  | 34 :: l => of_bytes <$> unquote_body (S (length l)) l
  | _ => None
  end.

Example unquote_quote_example :
  unquote (quote "user@example.com") = Some "user@example.com"%string.
Proof. vm_compute. reflexivity. Qed.

End GoJson.
