(* ===== verification/GoText.v ===== *)
(** * Bytes, runes and string literals

    What is written into a JSON string literal reads back: the UTF-8 round
    trip and the escapes of encoding/json. *)

From Stdlib Require Import Ascii String.
From S2P Require Import Prelude GoJson.

Module GoText.
Import GoJson.

(** ** Bytes *)

Definition is_byte (z : Z) : Prop := (0 ≤ z < 256)%Z.

Lemma byte_of_of_byte z : is_byte z → byte_of (of_byte z) = z.
Proof.
  unfold is_byte, byte_of, of_byte. intros.
  rewrite N_ascii_embedding by lia. lia.
Qed.

Lemma byte_of_range c : is_byte (byte_of c).
Proof. unfold is_byte, byte_of. pose proof (N_ascii_bounded c). lia. Qed.

Lemma of_byte_byte_of c : of_byte (byte_of c) = c.
Proof. unfold of_byte, byte_of. by rewrite N2Z.id, ascii_N_embedding. Qed.

Lemma of_bytes_bytes_of s : of_bytes (bytes_of s) = s.
Proof. induction s as [|c s IH]; simpl; [done|]. by rewrite of_byte_byte_of, IH. Qed.

Lemma bytes_of_of_bytes l : Forall is_byte l → bytes_of (of_bytes l) = l.
Proof. induction 1 as [|z l Hz _ IH]; simpl; [done|]. by rewrite byte_of_of_byte, IH. Qed.

Lemma bytes_of_range s : Forall is_byte (bytes_of s).
Proof. induction s; simpl; constructor; auto using byte_of_range. Qed.

(** ** Runes *)

Definition rune_ok (r : Z) : Prop := (0 ≤ r ≤ 1114111 ∧ ¬ (55296 ≤ r ≤ 57343))%Z.

Ltac zbool := repeat match goal with
  | H : (_ && _)%bool = true |- _ => apply andb_prop in H as [? ?]
  | H : negb _ = true |- _ => apply negb_true_iff in H
  | H : (_ && _)%bool = false |- _ => apply andb_false_iff in H as [?|?]
  | H : (_ <? _)%Z = true |- _ => apply Z.ltb_lt in H
  | H : (_ <? _)%Z = false |- _ => apply Z.ltb_ge in H
  | H : (_ <=? _)%Z = true |- _ => apply Z.leb_le in H
  | H : (_ <=? _)%Z = false |- _ => apply Z.leb_gt in H
  | H : (_ =? _)%Z = true |- _ => apply Z.eqb_eq in H
  | H : (_ =? _)%Z = false |- _ => apply Z.eqb_neq in H
  | H : continuation _ = true |- _ => unfold continuation in H
  end.

Ltac zdiv := (Z.to_euclidean_division_equations; lia).

Lemma encode_rune_1 r : (0 ≤ r < 128)%Z → encode_rune r = [r].
Proof.
  intros. unfold encode_rune.
  replace ((r <? 0) || ((55296 <=? r) && (r <=? 57343)) || (1114111 <? r))%Z with false by lia.
  by replace (r <? 128)%Z with true by lia.
Qed.

Lemma encode_rune_2 r : (128 ≤ r < 2048)%Z → encode_rune r = [192 + r / 64; 128 + r mod 64]%Z.
Proof.
  intros. unfold encode_rune.
  replace ((r <? 0) || ((55296 <=? r) && (r <=? 57343)) || (1114111 <? r))%Z with false by lia.
  replace (r <? 128)%Z with false by lia. by replace (r <? 2048)%Z with true by lia.
Qed.

Lemma encode_rune_3 r : rune_ok r → (2048 ≤ r < 65536)%Z →
  encode_rune r = [224 + r / 4096; 128 + (r / 64) mod 64; 128 + r mod 64]%Z.
Proof.
  unfold rune_ok. intros. unfold encode_rune.
  replace ((r <? 0) || ((55296 <=? r) && (r <=? 57343)) || (1114111 <? r))%Z with false by lia.
  replace (r <? 128)%Z with false by lia. replace (r <? 2048)%Z with false by lia.
  by replace (r <? 65536)%Z with true by lia.
Qed.

Lemma encode_rune_4 r : (65536 ≤ r ≤ 1114111)%Z →
  encode_rune r = [240 + r / 262144; 128 + (r / 4096) mod 64; 128 + (r / 64) mod 64; 128 + r mod 64]%Z.
Proof.
  intros. unfold encode_rune.
  replace ((r <? 0) || ((55296 <=? r) && (r <=? 57343)) || (1114111 <? r))%Z with false by lia.
  replace (r <? 128)%Z with false by lia. replace (r <? 2048)%Z with false by lia.
  by replace (r <? 65536)%Z with false by lia.
Qed.

(** Decoding takes off exactly the rune's encoding. *)
Lemma decode_encode l r rest :
  Forall is_byte l → decode_rune l = Some (r, true, rest) → l = encode_rune r ++ rest ∧ rune_ok r.
Proof.
  unfold rune_ok. intros Hl. destruct l as [|b0 l]; simpl; [done|].
  apply Forall_cons in Hl as [Hb0 Hl]. unfold is_byte in Hb0.
  destruct (b0 <? 128)%Z eqn:E1; [intros [= <- <-]; zbool; rewrite encode_rune_1 by lia; split; [done|lia]|].
  destruct ((194 <=? b0) && (b0 <=? 223))%Z eqn:E2.
  { destruct l as [|b1 l]; [done|]. destruct (continuation b1) eqn:C1; [|done].
    intros [= <- <-]. zbool. rewrite encode_rune_2 by lia. split; [|lia].
    simpl. do 2 f_equal; zdiv. }
  destruct ((224 <=? b0) && (b0 <=? 239))%Z eqn:E3.
  { destruct l as [|b1 [|b2 l]]; [done..|].
    destruct (continuation b1 && continuation b2 && _ && _)%Z eqn:C; [|done].
    intros [= <- <-]. apply andb_prop in C as [[[C1 C2]%andb_prop C3]%andb_prop C4].
    zbool; (assert (rune_ok ((b0 - 224) * 4096 + (b1 - 128) * 64 + (b2 - 128))) by (unfold rune_ok; lia);
      rewrite encode_rune_3 by (done || lia); split; [|done]; simpl; do 3 f_equal; zdiv). }
  destruct ((240 <=? b0) && (b0 <=? 244))%Z eqn:E4; [|done].
  destruct l as [|b1 [|b2 [|b3 l]]]; [done..|].
  destruct (continuation b1 && continuation b2 && continuation b3 && _ && _)%Z eqn:C; [|done].
  intros [= <- <-]. apply andb_prop in C as [[[[C1 C2]%andb_prop C3]%andb_prop C4]%andb_prop C5].
  zbool; (rewrite encode_rune_4 by lia; split; [|lia]; simpl; do 4 f_equal; zdiv).
Qed.

(** And an encoding decodes to its rune, whatever follows. *)
Lemma decode_encode_rune r rest :
  rune_ok r → decode_rune (encode_rune r ++ rest) = Some (r, true, rest).
Proof.
  intros Hr. pose proof Hr as [? ?].
  destruct (decide (r < 128)%Z); [|destruct (decide (r < 2048)%Z); [|destruct (decide (r < 65536)%Z)]].
  - rewrite encode_rune_1 by lia. simpl. by replace (r <? 128)%Z with true by lia.
  - rewrite encode_rune_2 by lia. simpl.
    assert (2 ≤ r / 64 < 32 ∧ 0 ≤ r mod 64 < 64 ∧ r = r / 64 * 64 + r mod 64)%Z by zdiv.
    generalize dependent (r / 64)%Z. generalize dependent (r mod 64)%Z. intros q2 q1 Hq.
    replace (192 + q1 <? 128)%Z with false by lia.
    replace ((194 <=? 192 + q1) && (192 + q1 <=? 223))%Z with true by lia.
    unfold continuation. replace ((128 <=? 128 + q2) && (128 + q2 <=? 191))%Z with true by lia.
    do 3 f_equal. lia.
  - rewrite encode_rune_3 by (done || lia). simpl.
    assert (0 ≤ r / 4096 < 16 ∧ 0 ≤ r / 64 mod 64 < 64 ∧ 0 ≤ r mod 64 < 64 ∧
            r = r / 4096 * 4096 + r / 64 mod 64 * 64 + r mod 64)%Z by zdiv.
    generalize dependent (r / 4096)%Z. generalize dependent (r / 64 mod 64)%Z.
    generalize dependent (r mod 64)%Z. intros q3 q2 q1 Hq.
    replace (224 + q1 <? 128)%Z with false by lia.
    replace ((194 <=? 224 + q1) && (224 + q1 <=? 223))%Z with false by lia.
    replace ((224 <=? 224 + q1) && (224 + q1 <=? 239))%Z with true by lia.
    unfold continuation.
    replace (_ && _ && _ && _)%bool with true by (symmetry; rewrite !andb_true_iff, !negb_true_iff; lia).
    do 3 f_equal. lia.
  - rewrite encode_rune_4 by lia. simpl.
    assert (0 ≤ r / 262144 < 5 ∧ 0 ≤ r / 4096 mod 64 < 64 ∧ 0 ≤ r / 64 mod 64 < 64 ∧
            0 ≤ r mod 64 < 64 ∧
            r = r / 262144 * 262144 + r / 4096 mod 64 * 4096 + r / 64 mod 64 * 64 + r mod 64)%Z by zdiv.
    generalize dependent (r / 262144)%Z. generalize dependent (r / 4096 mod 64)%Z.
    generalize dependent (r / 64 mod 64)%Z. generalize dependent (r mod 64)%Z.
    intros q4 q3 q2 q1 Hq.
    replace (240 + q1 <? 128)%Z with false by lia.
    replace ((194 <=? 240 + q1) && (240 + q1 <=? 223))%Z with false by lia.
    replace ((224 <=? 240 + q1) && (240 + q1 <=? 239))%Z with false by lia.
    replace ((240 <=? 240 + q1) && (240 + q1 <=? 244))%Z with true by lia.
    unfold continuation.
    replace (_ && _ && _ && _ && _)%bool with true
      by (symmetry; rewrite !andb_true_iff, !negb_true_iff; lia).
    do 3 f_equal. lia.
Qed.

(** ** String literals *)

Lemma unquote_body_char f b l :
  b ≠ 34%Z → b ≠ 92%Z →
  unquote_body (S f) (b :: l) =
  if (b <? 32)%Z then None
  else '(r, _, rest) ← decode_rune (b :: l); t ← unquote_body f rest; Some (encode_rune r ++ t).
Proof.
  intros H1 H2. cbn [unquote_body].
  destruct b as [|b|b]; try done.
  do 7 (destruct b as [b|b|]; try done).
Qed.

Lemma hex_round n : (0 ≤ n < 16)%Z → hex_value (hex_digit n) = Some n.
Proof.
  intros. unfold hex_digit, hex_value. destruct (Z.ltb_spec n 10).
  - replace ((48 <=? 48 + n) && (48 + n <=? 57))%Z with true by lia. f_equal. lia.
  - replace ((48 <=? 87 + n) && (87 + n <=? 57))%Z with false by lia.
    replace ((97 <=? 87 + n) && (87 + n <=? 102))%Z with true by lia. f_equal. lia.
Qed.

Lemma hex4_round r X :
  (0 ≤ r < 65536)%Z →
  hex4 (hex_digit (r / 4096 mod 16) :: hex_digit (r / 256 mod 16) ::
        hex_digit (r / 16 mod 16) :: hex_digit (r mod 16) :: X)%Z = Some (r, X).
Proof.
  intros. unfold hex4. rewrite !hex_round by (apply Z.mod_pos_bound; lia). simpl. do 2 f_equal.
  zdiv.
Qed.

Lemma unescape_u r X :
  rune_ok r → (r < 65536)%Z → unescape (tail (u_escape r) ++ X) = Some (encode_rune r, X).
Proof.
  unfold rune_ok. intros. unfold u_escape. cbn [tail app unescape]. rewrite hex4_round by lia.
  simpl. by replace ((55296 <=? r) && (r <=? 56319))%Z with false by lia.
Qed.

Lemma encode_rune_head r :
  rune_ok r → (32 ≤ r)%Z → r ≠ 34%Z → r ≠ 92%Z →
  ∃ b l, encode_rune r = b :: l ∧ b ≠ 34%Z ∧ b ≠ 92%Z ∧ (32 ≤ b)%Z ∧
         Forall (λ c, (128 ≤ c)%Z) l.
Proof.
  intros Hr. pose proof Hr as [? ?]. intros.
  destruct (decide (r < 128)%Z); [|destruct (decide (r < 2048)%Z); [|destruct (decide (r < 65536)%Z)]].
  - rewrite encode_rune_1 by lia. by exists r, [].
  - rewrite encode_rune_2 by lia. eexists _, _. split; [done|]. split_and!; [zdiv..|].
    repeat constructor; zdiv.
  - rewrite encode_rune_3 by (done || lia). eexists _, _. split; [done|]. split_and!; [zdiv..|].
    repeat constructor; zdiv.
  - rewrite encode_rune_4 by lia. eexists _, _. split; [done|]. split_and!; [zdiv..|].
    repeat constructor; zdiv.
Qed.

(** A literal's body: no bare quote, and every backslash takes a byte. *)
Inductive string_body : list Z → Prop :=
| BodyNil : string_body []
| BodyChar b l : b ≠ 34%Z → b ≠ 92%Z → string_body l → string_body (b :: l)
| BodyEscape b l : string_body l → string_body (92%Z :: b :: l).

Lemma string_body_app l k : string_body l → string_body k → string_body (l ++ k).
Proof. induction 1; simpl; intros; [done|apply BodyChar; auto|apply BodyEscape; auto]. Qed.

Lemma string_body_chars l : Forall (λ b, b ≠ 34%Z ∧ b ≠ 92%Z) l → string_body l.
Proof. induction 1 as [|b l [? ?]]; by constructor. Qed.

Lemma hex_digit_char n : (0 ≤ n < 16)%Z → hex_digit n ≠ 34%Z ∧ hex_digit n ≠ 92%Z.
Proof. unfold hex_digit. intros. case_match; lia. Qed.

(** An escaped rune is a backslash and what unescapes to it; another is its
    encoding. *)
Lemma quote_rune_cases r :
  rune_ok r →
  (∃ e, quote_rune (r, true) = 92%Z :: e ∧ string_body (92%Z :: e) ∧
     ∀ X, unescape (e ++ X) = Some (encode_rune r, X)) ∨
  (quote_rune (r, true) = encode_rune r ∧ (32 ≤ r)%Z ∧ r ≠ 34%Z ∧ r ≠ 92%Z).
Proof.
  intros Hr. unfold quote_rune. simpl.
  repeat match goal with
  | |- context [if (r =? ?k)%Z then [92; _]%Z else _] =>
      destruct (Z.eqb_spec r k) as [->|?]; [left; eexists; split; [done|]; split; [apply BodyEscape, BodyNil|by intros X]|]
  end.
  destruct (_ || _)%Z eqn:E.
  - left. exists (tail (u_escape r)). split; [done|]. split.
    { apply BodyEscape, string_body_chars.
      repeat constructor; apply hex_digit_char, Z.mod_pos_bound; lia. }
    intros X. apply unescape_u; [done|].
    rewrite !orb_true_iff, Z.ltb_lt, !Z.eqb_eq in E. lia.
  - right. rewrite !orb_false_iff, Z.ltb_ge in E. split_and!; [done| |done..]. lia.
Qed.

Lemma unquote_rune f r X :
  rune_ok r →
  unquote_body (S f) (quote_rune (r, true) ++ X) =
  (t ← unquote_body f X; Some (encode_rune r ++ t)).
Proof.
  intros Hr. destruct (quote_rune_cases r Hr) as [(e & -> & _ & He)|(-> & ? & ? & ?)].
  - cbn [unquote_body app]. by rewrite He.
  - destruct (encode_rune_head r) as (b & l & E & ? & ? & ? & _); [done..|].
    pose proof (decode_encode_rune r X Hr) as Hd. rewrite E in *. cbn [app] in *.
    rewrite unquote_body_char by done. replace (b <? 32)%Z with false by lia.
    rewrite Hd. cbn [mbind option_bind]. by rewrite E.
Qed.

Lemma unquote_runes rs f :
  Forall (λ r, rune_ok r.1 ∧ r.2 = true) rs → length rs < f →
  unquote_body f (concat (quote_rune <$> rs) ++ [34%Z]) = Some (concat (encode_rune ∘ fst <$> rs)).
Proof.
  intros Hrs. revert f. induction Hrs as [|[r ok] rs [Hr Hok] _ IH]; intros f Hf;
    (destruct f as [|f]; [simpl in *; lia|]); [done|]. simpl in Hr, Hok, Hf. subst ok.
  rewrite !fmap_cons. cbn [concat]. rewrite <-app_assoc, unquote_rune by done.
  rewrite IH by lia. done.
Qed.

(** The runes of a valid string are its bytes, a rune at a time. *)
Lemma decode_runes_spec fuel l :
  Forall is_byte l → length l ≤ fuel → forallb snd (decode_runes fuel l) = true →
  Forall (λ r, rune_ok r.1 ∧ r.2 = true) (decode_runes fuel l) ∧
  concat (encode_rune ∘ fst <$> decode_runes fuel l) = l.
Proof.
  revert l. induction fuel as [|fuel IH]; intros l Hl Hf; simpl.
  { destruct l; simpl in *; [done|lia]. }
  destruct (decode_rune l) as [[[r ok] rest]|] eqn:E; simpl.
  2: { destruct l; [done|]. simpl in E. repeat case_match; done. }
  intros [-> Hv]%andb_prop. apply decode_encode in E as [-> Hr]; [|done].
  apply Forall_app in Hl as [_ Hl].
  assert (0 < length (encode_rune r)) as Hpos.
  { unfold encode_rune. repeat case_match; simpl; lia. }
  rewrite length_app in Hf. destruct (IH rest) as [? Hc]; [done|lia|done|].
  split; [by constructor|]. exact (f_equal (app (encode_rune r)) Hc).
Qed.

Lemma encode_rune_bytes r : rune_ok r → Forall is_byte (encode_rune r).
Proof.
  intros Hr. pose proof Hr as [? ?]. unfold is_byte.
  destruct (decide (r < 128)%Z); [|destruct (decide (r < 2048)%Z); [|destruct (decide (r < 65536)%Z)]].
  - rewrite encode_rune_1 by lia. repeat constructor; lia.
  - rewrite encode_rune_2 by lia. repeat constructor; zdiv.
  - rewrite encode_rune_3 by (done || lia). repeat constructor; zdiv.
  - rewrite encode_rune_4 by lia. repeat constructor; zdiv.
Qed.

Lemma u_escape_bytes r : Forall is_byte (u_escape r).
Proof.
  assert (∀ n, (0 ≤ n < 16)%Z → is_byte (hex_digit n)) as Hh.
  { intros. unfold hex_digit, is_byte. case_match; lia. }
  unfold u_escape. repeat constructor; try (apply Hh, Z.mod_pos_bound; lia); done.
Qed.

Lemma quote_rune_bytes r : rune_ok r → Forall is_byte (quote_rune (r, true)).
Proof.
  intros Hr. unfold quote_rune. simpl.
  repeat (case_match; [by repeat constructor|]).
  case_match; [apply u_escape_bytes|by apply encode_rune_bytes].
Qed.

Definition quote_body (s : string) : list Z := concat (quote_rune <$> runes s).

Lemma valid_runes s :
  utf8_valid s = true →
  Forall (λ r, rune_ok r.1 ∧ r.2 = true) (runes s) ∧ concat (encode_rune ∘ fst <$> runes s) = bytes_of s.
Proof. apply decode_runes_spec; [apply bytes_of_range|done]. Qed.

Lemma bytes_of_quote s :
  utf8_valid s = true → bytes_of (quote s) = (34 :: quote_body s ++ [34])%Z.
Proof.
  intros [Hr _]%valid_runes. unfold quote. rewrite bytes_of_of_bytes; [done|].
  constructor; [done|]. apply Forall_app. split; [|by repeat constructor].
  induction Hr as [|[r ok] rs [? Hok] _ IH]; [done|]. simpl in Hok. subst ok.
  rewrite fmap_cons. cbn [concat]. apply Forall_app. split; [by apply quote_rune_bytes|done].
Qed.

(** A string written into a JSON document reads back as itself:
    json.Unmarshal of json.Marshal, for every valid UTF-8 string. *)
Lemma unquote_quote s :
  utf8_valid s = true → unquote (quote s) = Some s.
Proof.
  intros Hv. unfold unquote. rewrite bytes_of_quote by done.
  destruct (valid_runes s Hv) as [Hr Hc]. unfold quote_body.
  rewrite unquote_runes; [|done|].
  - cbn [fmap option_fmap option_map]. by rewrite Hc, of_bytes_bytes_of.
  - rewrite length_app. simpl. assert (length (runes s) ≤ length (concat (quote_rune <$> runes s))); [|lia].
    clear Hc. induction Hr as [|[r ok] rs [Hr Hok] _ IH]; [done|]. simpl in Hr, Hok. subst ok.
    rewrite fmap_cons. cbn [concat length]. rewrite length_app.
    assert (0 < length (quote_rune (r, true))); [|lia].
    destruct (quote_rune_cases r Hr) as [(e & -> & _)|(-> & _)]; [simpl; lia|].
    unfold encode_rune. repeat case_match; simpl; lia.
Qed.

Lemma quote_rune_body r : rune_ok r → string_body (quote_rune (r, true)).
Proof.
  intros Hr. destruct (quote_rune_cases r Hr) as [(e & -> & He & _)|(-> & ? & ? & ?)]; [done|].
  destruct (encode_rune_head r) as (b & l & -> & ? & ? & _ & Hl); [done..|].
  apply string_body_chars. constructor; [done|]. eapply Forall_impl; [exact Hl|].
  intros; simpl in *; lia.
Qed.

Lemma quote_body_ok s : utf8_valid s = true → string_body (quote_body s).
Proof.
  intros [Hr _]%valid_runes. unfold quote_body.
  induction Hr as [|[r ok] rs [Hr Hok] _ IH]; [constructor|]. simpl in Hr, Hok. subst ok.
  rewrite fmap_cons. cbn [concat]. apply string_body_app; [by apply quote_rune_body|done].
Qed.

End GoText.
