(* ===== verification/GoDecode.v ===== *)
(** * What the code uses of encoding/json's decoder

    JSON texts are read over bytes the way Go reads them: the scanner's
    grammar with its nesting limit, the raw text of every value, the struct
    decoder with its case-insensitive field names, and the token interface
    of json.Decoder. *)

From Stdlib Require Import Ascii String.
From S2P Require Import Prelude GoJson.

Module GoDecode.
Import GoJson.

Local Open Scope Z_scope.

(** ** Documents

    A value as a json.RawMessage holds it: what it denotes, with the text
    it was read from. *)
Inductive doc :=
| DNull
| DBool (b : bool)
| DNumber (literal : string)
| DString (literal s : string)
| DArray (text : string) (items : list doc)
| DObject (text : string) (fields : list (string * doc)).

Definition raw_text (d : doc) : string :=
  match d with
  | DNull => "null"
  | DBool true => "true"
  | DBool false => "false"
  | DNumber literal => literal
  | DString literal _ => literal
  | DArray text _ => text
  | DObject text _ => text
  end.

(** ** Lexing *)

Definition is_space (b : Z) : bool := (b =? 32) || (b =? 9) || (b =? 10) || (b =? 13).
Definition is_digit (b : Z) : bool := (48 <=? b) && (b <=? 57).

Fixpoint skip_space (l : list Z) : list Z :=
  match l with b :: r => if is_space b then skip_space r else l | [] => [] end.

Fixpoint span_digits (l : list Z) : list Z * list Z :=
  match l with
  | b :: r => if is_digit b then let '(ds, rest) := span_digits r in (b :: ds, rest) else ([], l)
  | [] => ([], [])
  end.

Definition digits1 (l : list Z) : option (list Z * list Z) :=
  match span_digits l with ([], _) => None | r => Some r end.

Fixpoint strip (p l : list Z) : option (list Z) :=
  match p, l with
  | [], _ => Some l
  | a :: p, b :: l => if a =? b then strip p l else None
  | _ :: _, [] => None
  end.

Definition head_is (c : Z) (l : list Z) : bool :=
  match l with b :: _ => b =? c | [] => false end.

Definition scan_int (l : list Z) : option (list Z * list Z) :=
  if head_is 48 l then Some ([48], tail l) else digits1 l.

Definition scan_fraction (l : list Z) : option (list Z * list Z) :=
  if head_is 46 l then '(ds, rest) ← digits1 (tail l); Some (46 :: ds, rest) else Some ([], l).

Definition scan_exponent (l : list Z) : option (list Z * list Z) :=
  match l with
  | e :: r =>
      if (e =? 101) || (e =? 69) then
        match r with
        | s :: r' =>
            if (s =? 43) || (s =? 45) then '(ds, rest) ← digits1 r'; Some (e :: s :: ds, rest)
            else '(ds, rest) ← digits1 r; Some (e :: ds, rest)
        | [] => None
        end
      else Some ([], l)
  | [] => Some ([], [])
  end.

(** A number's literal and what follows it. *)
Definition scan_number (l : list Z) : option (list Z * list Z) :=
  let '(sign, l) := if head_is 45 l then ([45], tail l) else ([], l) in
  '(int, l) ← scan_int l;
  '(frac, l) ← scan_fraction l;
  '(exp, l) ← scan_exponent l;
  Some (sign ++ int ++ frac ++ exp, l).

Definition is_hex (b : Z) : bool := match hex_value b with Some _ => true | None => false end.

Definition simple_escape (b : Z) : bool := existsb (Z.eqb b) [34; 92; 47; 98; 102; 110; 114; 116].

(** A string literal after its opening quote: its body and what follows the
    closing quote. *)
Fixpoint scan_string (l : list Z) : option (list Z * list Z) :=
  match l with
  | [] => None
  | b :: r =>
      if b =? 34 then Some ([], r)
      else if b =? 92 then
        match r with
        | [] => None
        | e :: r =>
            if e =? 117 then
              match r with
              | h1 :: h2 :: h3 :: h4 :: r =>
                  if is_hex h1 && is_hex h2 && is_hex h3 && is_hex h4
                  then '(body, rest) ← scan_string r; Some (92 :: 117 :: h1 :: h2 :: h3 :: h4 :: body, rest)
                  else None
              | _ => None
              end
            else if simple_escape e then '(body, rest) ← scan_string r; Some (92 :: e :: body, rest)
            else None
        end
      else if b <? 32 then None
      else '(body, rest) ← scan_string r; Some (b :: body, rest)
  end.

(** The value of a literal the scanner has accepted. *)
Definition string_value (body : list Z) : string :=
  of_bytes (default [] (unquote_body (S (length body + 1)) (body ++ [34]))).

Definition string_literal (body : list Z) : string := of_bytes (34 :: body ++ [34]).

(** ** Parsing *)

Section Containers.
Context (val : list Z → option (doc * list Z)).

(** The items of an array from the first one on, past the closing bracket;
    each round reads past a byte, so the text's length is fuel enough. *)
Fixpoint elements (fuel : nat) (l : list Z) : option (list doc * list Z) :=
  match fuel with
  | O => None
  | S fuel =>
      '(d, l) ← val (skip_space l);
      let l := skip_space l in
      if head_is 44 l then '(ds, l) ← elements fuel (tail l); Some (d :: ds, l)
      else if head_is 93 l then Some ([d], tail l)
      else None
  end.

(** The members of an object, likewise. *)
Fixpoint members (fuel : nat) (l : list Z) : option (list (string * doc) * list Z) :=
  match fuel with
  | O => None
  | S fuel =>
      l ← strip [34] (skip_space l);
      '(key, l) ← scan_string l;
      l ← strip [58] (skip_space l);
      '(d, l) ← val (skip_space l);
      let l := skip_space l in
      if head_is 44 l then '(fs, l) ← members fuel (tail l); Some ((string_value key, d) :: fs, l)
      else if head_is 125 l then Some ([(string_value key, d)], tail l)
      else None
  end.
End Containers.

(** What was read of [l] to leave [rest]. *)
Definition consumed (l rest : list Z) : string := of_bytes (take (length l - length rest) l).

Definition scalar (l : list Z) : option (doc * list Z) :=
  if head_is 34 l then '(body, rest) ← scan_string (tail l); Some (DString (string_literal body) (string_value body), rest)
  else match strip (bytes_of "null") l, strip (bytes_of "true") l, strip (bytes_of "false") l with
  | Some rest, _, _ => Some (DNull, rest)
  | _, Some rest, _ => Some (DBool true, rest)
  | _, _, Some rest => Some (DBool false, rest)
  | _, _, _ => '(lit, rest) ← scan_number l; Some (DNumber (of_bytes lit), rest)
  end.

(** A container from its opening byte on. *)
Definition container {A} (close : Z) (build : string → list A → doc)
    (read : nat → list Z → option (list A * list Z)) (l : list Z) : option (doc * list Z) :=
  let r := skip_space (tail l) in
  if head_is close r then Some (build (consumed l (tail r)) [], tail r)
  else '(items, rest) ← read (length r) r; Some (build (consumed l rest) items, rest).

(** One value at the head of [l], containers nested at most [depth] deep. *)
Fixpoint value (depth : nat) (l : list Z) : option (doc * list Z) :=
  if head_is 91 l then
    match depth with O => None | S depth => container 93 DArray (elements (value depth)) l end
  else if head_is 123 l then
    match depth with O => None | S depth => container 125 DObject (members (value depth)) l end
  else scalar l.

(** The scanner's limit on nesting. *)
Definition maxNestingDepth : nat := Z.to_nat 10000.

(** A text that is one value with white space around it. *)
Definition parse_within (depth : nat) (l : list Z) : option doc :=
  '(d, rest) ← value depth (skip_space l);
  match skip_space rest with [] => Some d | _ => None end.

(** What json.Unmarshal and decodeStrict first demand of a text. *)
Definition parse_document (s : string) : option doc := parse_within maxNestingDepth (bytes_of s).

(** ** Decoding *)

(** A map decodes its members in order: the last of equal keys stays. *)
Definition object_map (fields : list (string * doc)) : gmap string doc :=
  foldl (λ m f, <[f.1 := f.2]> m) ∅ fields.

Section WithRuntime.
Context `{GoRuntime}.

(** The struct field a key names: exactly, or else up to case. *)
Definition field_of (names : list string) (key : string) : option string :=
  match List.find (String.eqb key) names with
  | Some name => Some name
  | None => List.find (λ name, equal_fold name key) names
  end.

(** A struct's fields from an object's members, in order. [set] decodes one
    member into the field it names; [strict] is DisallowUnknownFields. *)
Fixpoint decode_fields {A} (strict : bool) (names : list string) (set : string → doc → A → option A)
    (fields : list (string * doc)) (a : A) : option A :=
  match fields with
  | [] => Some a
  | (key, d) :: fields =>
      match field_of names key with
      | Some name => a ← set name d a; decode_fields strict names set fields a
      | None => if strict then None else decode_fields strict names set fields a
      end
  end.

(** A struct: null leaves it as it is. *)
Definition decode_struct {A} (strict : bool) (names : list string) (set : string → doc → A → option A)
    (d : doc) (a : A) : option A :=
  match d with
  | DNull => Some a
  | DObject _ fields => decode_fields strict names set fields a
  | _ => None
  end.
End WithRuntime.

(** json.Unmarshal into a string, an int and a slice of strings that held
    [old] before: null leaves them. *)
Definition decode_string (d : doc) (old : string) : option string :=
  match d with DNull => Some old | DString _ s => Some s | _ => None end.

Definition decode_int (d : doc) (old : Z) : option Z :=
  match d with DNull => Some old | DNumber lit => json_int lit | _ => None end.

(** An item that is null leaves what the slice held there. *)
Fixpoint decode_items (items : list doc) (old : list string) : option (list string) :=
  match items with
  | [] => Some []
  | d :: items =>
      s ← decode_string d (hd "" old);
      ss ← decode_items items (tl old);
      Some (s :: ss)
  end.

Definition decode_strings (d : doc) (old : list string) : option (list string) :=
  match d with
  | DNull => Some []
  | DArray _ items => decode_items items old
  | _ => None
  end.

(** strconv.ParseFloat of a number literal does not overflow. The exponent
    stops growing once it has five digits. *)
Definition float_exponent (ds : list Z) : Z :=
  foldl (λ e d, if e <? 10000 then e * 10 + (d - 48) else e) 0 ds.

Definition digits_number (ds : list Z) : Z := foldl (λ n d, n * 10 + (d - 48)) 0 ds.

(** A number literal: its sign, its digits without the point, and the power
    of ten they count. *)
Definition float_parts (literal : string) : bool * Z * Z :=
  let l := bytes_of literal in
  let negative := head_is 45 l in
  let l := if negative then tail l else l in
  let '(int, l) := span_digits l in
  let '(frac, l) := if head_is 46 l then span_digits (tail l) else ([], l) in
  let exponent :=
    match l with
    | _ :: s :: r => if s =? 45 then - float_exponent r
                     else if s =? 43 then float_exponent r else float_exponent (s :: r)
    | _ => 0
    end in
  (negative, digits_number (int ++ frac), exponent - Z.of_nat (length frac)).

(** Half an ulp above the largest finite number: this and more round to
    infinity. *)
Definition float_limit : Z := 2 ^ 1024 - 2 ^ 970.

Definition float_finite (literal : string) : bool :=
  let '(_, m, k) := float_parts literal in
  if 0 <=? k then m * 10 ^ k <? float_limit else m <? float_limit * 10 ^ (- k).

(** ** The token interface *)

Inductive tokenState :=
| tokenTopValue
| tokenArrayStart | tokenArrayValue | tokenArrayComma
| tokenObjectStart | tokenObjectKey | tokenObjectColon | tokenObjectValue | tokenObjectComma.

(** What is left to read, and where in the document it stands. *)
Record Decoder := { dc_rest : list Z; dc_state : tokenState; dc_stack : list tokenState }.

Inductive Token := Delim (c : Z) | StringToken (s : string) | ScalarToken.

Definition tokenValueAllowed (st : tokenState) : bool :=
  match st with
  | tokenTopValue | tokenArrayStart | tokenArrayValue | tokenObjectValue => true
  | _ => false
  end.

Definition tokenValueEnd (st : tokenState) : tokenState :=
  match st with
  | tokenArrayStart | tokenArrayValue => tokenArrayComma
  | tokenObjectValue => tokenObjectComma
  | st => st
  end.

Definition expects_key (st : tokenState) : bool :=
  match st with tokenObjectStart | tokenObjectKey => true | _ => false end.

Definition closes_array (st : tokenState) : bool :=
  match st with tokenArrayStart | tokenArrayComma => true | _ => false end.

Definition closes_object (st : tokenState) : bool :=
  match st with tokenObjectStart | tokenObjectComma => true | _ => false end.

Inductive token_error := TokenEOF | TokenSyntax.

(** The separators the decoder steps over before a token. *)
Fixpoint token_prefix (fuel : nat) (l : list Z) (st : tokenState) : option (list Z * tokenState) :=
  match fuel with
  | O => None
  | S fuel =>
      let l := skip_space l in
      if head_is 58 l then
        match st with tokenObjectColon => token_prefix fuel (tail l) tokenObjectValue | _ => None end
      else if head_is 44 l then
        match st with
        | tokenArrayComma => token_prefix fuel (tail l) tokenArrayValue
        | tokenObjectComma => token_prefix fuel (tail l) tokenObjectKey
        | _ => None
        end
      else Some (l, st)
  end.

(** After a closing delimiter the enclosing value goes on. *)
Definition close (c : Z) (l : list Z) (stack : list tokenState) : result token_error (Token * Decoder) :=
  match stack with
  | st :: stack => Ok (Delim c, {| dc_rest := l; dc_state := tokenValueEnd st; dc_stack := stack |})
  | [] => Err TokenSyntax
  end.

(** json.Decoder.Token. *)
Definition next_token (dec : Decoder) : result token_error (Token * Decoder) :=
  match token_prefix (S (length (dc_rest dec))) (dc_rest dec) (dc_state dec) with
  | None => Err TokenSyntax
  | Some ([], _) => Err TokenEOF
  | Some (c :: r, st) =>
      let opened inside := {| dc_rest := r; dc_state := inside; dc_stack := st :: dc_stack dec |} in
      if c =? 91 then
        if tokenValueAllowed st then Ok (Delim 91, opened tokenArrayStart) else Err TokenSyntax
      else if c =? 93 then if closes_array st then close c r (dc_stack dec) else Err TokenSyntax
      else if c =? 123 then
        if tokenValueAllowed st then Ok (Delim 123, opened tokenObjectStart) else Err TokenSyntax
      else if c =? 125 then if closes_object st then close c r (dc_stack dec) else Err TokenSyntax
      else if (c =? 34) && expects_key st then
        match scan_string r with
        | Some (body, rest) =>
            Ok (StringToken (string_value body),
                {| dc_rest := rest; dc_state := tokenObjectColon; dc_stack := dc_stack dec |})
        | None => Err TokenSyntax
        end
      else if tokenValueAllowed st then
        match scalar (c :: r) with
        | Some (d, rest) =>
            Ok (match d with DString _ s => StringToken s | _ => ScalarToken end,
                {| dc_rest := rest; dc_state := tokenValueEnd st; dc_stack := dc_stack dec |})
        | None => Err TokenSyntax
        end
      else Err TokenSyntax
  end.

(** json.Decoder.More. *)
Definition more (dec : Decoder) : bool :=
  match skip_space (dc_rest dec) with
  | [] => false
  | c :: _ => negb (c =? 93) && negb (c =? 125)
  end.

(** json.NewDecoder over a document. *)
Definition new_decoder (s : string) : Decoder :=
  {| dc_rest := bytes_of s; dc_state := tokenTopValue; dc_stack := [] |}.

(** json.Decoder.Decode at the top level: the next value of a stream. *)
Inductive decoded := DecodedEOF | DecodedError | DecodedValue (d : doc) (rest : list Z).

Definition decode_next (l : list Z) : decoded :=
  match skip_space l with
  | [] => DecodedEOF
  | l => match value maxNestingDepth l with
         | Some (d, rest) => DecodedValue d rest
         | None => DecodedError
         end
  end.

End GoDecode.
