(* ===== verification/GoDecodeProps.v ===== *)
(** * Go's JSON decoder: locality

    What a value is read from is its raw text, and the text alone gives the
    value again: a json.RawMessage decodes later to what was seen first. *)

From Stdlib Require Import Ascii String.
From S2P Require Import Prelude GoJson GoText GoDecode.

Module GoDecodeProps.
Import GoJson GoText GoDecode.

Local Open Scope Z_scope.

(** ** White space *)

Lemma skip_space_split l : ∃ ws, Forall (λ b, is_space b = true) ws ∧ l = ws ++ skip_space l.
Proof.
  induction l as [|b l (ws & Hw & IH)]; [by exists []|]. simpl. destruct (is_space b) eqn:E.
  - exists (b :: ws). split; [by constructor|]. simpl. by rewrite <-IH.
  - by exists [].
Qed.

Definition solid_head (l : list Z) : Prop := match l with b :: _ => is_space b = false | [] => True end.

Lemma skip_space_solid l : solid_head (skip_space l).
Proof. induction l as [|b l IH]; [done|]. simpl. destruct (is_space b) eqn:E; [done|]. exact E. Qed.

Lemma skip_space_id l : solid_head l → skip_space l = l.
Proof. destruct l as [|b l]; [done|]. simpl. by intros ->. Qed.

Lemma skip_space_app ws l : Forall (λ b, is_space b = true) ws → skip_space (ws ++ l) = skip_space l.
Proof. induction 1 as [|b ws Hb _ IH]; [done|]. simpl. by rewrite Hb. Qed.

Lemma skip_space_idem l : skip_space (skip_space l) = skip_space l.
Proof. apply skip_space_id, skip_space_solid. Qed.

Lemma skip_space_length l : (length (skip_space l) ≤ length l)%nat.
Proof. destruct (skip_space_split l) as (ws & _ & E). rewrite E at 2. rewrite length_app. lia. Qed.

Lemma skip_space_bytes l : Forall is_byte l → Forall is_byte (skip_space l).
Proof. destruct (skip_space_split l) as (ws & _ & E). rewrite E at 1. by intros [_ ?]%Forall_app. Qed.

Lemma head_is_cons c l : head_is c l = true → ∃ r, l = c :: r.
Proof. destruct l as [|b r]; [done|]. simpl. intros ->%Z.eqb_eq. eauto. Qed.

Lemma strip_app p l r : strip p l = Some r ↔ l = p ++ r.
Proof.
  revert l. induction p as [|a p IH]; intros l; simpl; [split; congruence|].
  destruct l as [|b l]; [done|]. destruct (Z.eqb_spec a b) as [->|Hne].
  - rewrite IH. split; congruence.
  - split; [done|]. intros [=]. congruence.
Qed.

(** ** Numbers *)

(** A byte a number literal could go on with. *)
Definition number_byte (b : Z) : bool := is_digit b || (b =? 46) || (b =? 101) || (b =? 69).

Definition number_stop (l : list Z) : Prop := match l with b :: _ => number_byte b = false | [] => True end.

Lemma number_stop_digit l : number_stop l → span_digits l = ([], l).
Proof.
  destruct l as [|b l]; [done|]. simpl. unfold number_byte. destruct (is_digit b); [done|]. done.
Qed.

Lemma span_digits_spec l ds rest :
  span_digits l = (ds, rest) →
  l = ds ++ rest ∧ Forall (λ b, is_digit b = true) ds ∧
  ∀ k, match k with b :: _ => is_digit b = false | [] => True end → span_digits (ds ++ k) = (ds, k).
Proof.
  revert ds. induction l as [|b l IH]; intros ds; simpl.
  - intros [= <- <-]. split_and!; try done. intros [|c k]; [done|]. simpl. by intros ->.
  - destruct (is_digit b) eqn:E.
    + destruct (span_digits l) as [ds' rest'] eqn:Es. intros [= <- ->].
      destruct (IH ds' eq_refl) as (-> & Hf & Hk). split_and!; [done|by constructor|].
      intros k H. simpl. by rewrite E, Hk.
    + intros [= <- <-]. split_and!; try done. intros [|c k]; [done|]. simpl. by intros ->.
Qed.

Definition no_digit (l : list Z) : Prop := match l with b :: _ => is_digit b = false | [] => True end.

Lemma digits1_spec l ds rest :
  digits1 l = Some (ds, rest) →
  l = ds ++ rest ∧ ds ≠ [] ∧ Forall (λ b, is_digit b = true) ds ∧
  ∀ k, no_digit k → digits1 (ds ++ k) = Some (ds, k).
Proof.
  unfold digits1. destruct (span_digits l) as [[|d ds'] rest'] eqn:E; [done|]. intros [= <- <-].
  apply span_digits_spec in E as (-> & Hf & Hk). split_and!; try done.
  intros k Hs. by rewrite (Hk k Hs).
Qed.

Lemma number_stop_inv k :
  number_stop k → no_digit k ∧ head_is 46 k = false ∧ head_is 101 k = false ∧ head_is 69 k = false.
Proof.
  destruct k as [|b k]; [done|]. unfold number_stop, no_digit, head_is, number_byte.
  destruct (is_digit b), (b =? 46), (b =? 101), (b =? 69); done.
Qed.

Lemma scan_int_spec l int rest :
  scan_int l = Some (int, rest) →
  l = int ++ rest ∧ (∃ b t, int = b :: t ∧ is_digit b = true) ∧
  ∀ k, no_digit k → scan_int (int ++ k) = Some (int, k).
Proof.
  unfold scan_int. destruct (head_is 48 l) eqn:E.
  - apply head_is_cons in E as (r & ->). intros [= <- <-]. split_and!; [done|by exists 48, []|done].
  - intros Hd. apply digits1_spec in Hd as (-> & Hne & Hf & Hk). split_and!; [done| |].
    + destruct int as [|b t]; [done|]. apply Forall_cons in Hf as [? _]. by exists b, t.
    + intros k Hs. destruct int as [|b t]; [done|]. simpl in *. rewrite E. by apply Hk.
Qed.

Lemma scan_fraction_spec l frac rest :
  scan_fraction l = Some (frac, rest) →
  l = frac ++ rest ∧ (frac = [] ∨ ∃ t, frac = 46 :: t) ∧
  ∀ k, no_digit k → head_is 46 k = false → scan_fraction (frac ++ k) = Some (frac, k).
Proof.
  unfold scan_fraction. destruct (head_is 46 l) eqn:E.
  - apply head_is_cons in E as (r & ->). simpl. intros ([ds rest'] & Hd & [= <- <-])%bind_Some.
    apply digits1_spec in Hd as (-> & _ & _ & Hk). split_and!; [done|by right; eexists|].
    intros k Hs _. simpl. by rewrite Hk.
  - intros [= <- <-]. split_and!; [done|by left|]. intros k _ Hh. simpl. by rewrite Hh.
Qed.

Lemma scan_exponent_spec l exp rest :
  scan_exponent l = Some (exp, rest) →
  l = exp ++ rest ∧ (exp = [] ∨ ∃ b t, exp = b :: t ∧ is_digit b = false ∧ b ≠ 46) ∧
  ∀ k, number_stop k → scan_exponent (exp ++ k) = Some (exp, k).
Proof.
  unfold scan_exponent. destruct l as [|e r].
  { intros [= <- <-]. split_and!; [done|by left|]. intros k (_ & _ & H1 & H2)%number_stop_inv.
    destruct k as [|b k]; [done|]. simpl in *. by rewrite H1, H2. }
  destruct ((e =? 101) || (e =? 69)) eqn:E.
  - assert (is_digit e = false ∧ e ≠ 46) as [He1 He2].
    { apply orb_true_iff in E as [->%Z.eqb_eq | ->%Z.eqb_eq]; done. }
    destruct r as [|s r']; [done|].
    destruct ((s =? 43) || (s =? 45)) eqn:Es; intros ([ds rest'] & Hd & [= <- <-])%bind_Some;
      apply digits1_spec in Hd as (Hl & Hne & Hf & Hk).
    + subst r'. split_and!; [done|right; by eexists _, _|]. intros k [Hn _]%number_stop_inv.
      cbn [app]. by rewrite E, Es, Hk.
    + rewrite Hl. split_and!; [done|right; by eexists _, _|]. intros k [Hn _]%number_stop_inv.
      destruct ds as [|b ds]; [done|]. injection Hl as -> ->. cbn [app]. rewrite E, Es.
      change (b :: ds ++ k) with ((b :: ds) ++ k). by rewrite Hk.
  - intros [= <- <-]. split_and!; [done|by left|]. intros k (_ & _ & H1 & H2)%number_stop_inv.
    destruct k as [|b k]; [done|]. simpl in *. by rewrite H1, H2.
Qed.

Lemma scan_number_spec l lit rest :
  scan_number l = Some (lit, rest) →
  l = lit ++ rest ∧ (∃ b t, lit = b :: t ∧ (is_digit b = true ∨ b = 45)) ∧
  ∀ k, number_stop k → scan_number (lit ++ k) = Some (lit, k).
Proof.
  unfold scan_number.
  set (sg := if head_is 45 l then ([45], tail l) else ([], l)).
  assert (∃ sign l', sg = (sign, l') ∧ l = sign ++ l' ∧ (sign = [45] ∨ sign = [] ∧ head_is 45 l = false))
    as (sign & l' & Hsg & Hl & Hsign).
  { unfold sg. destruct (head_is 45 l) eqn:E.
    - apply head_is_cons in E as (r & ->). eexists _, _. eauto.
    - eexists _, _. eauto. }
  clearbody sg. subst sg. intros ([int l1] & Hi & Hb)%bind_Some.
  apply bind_Some in Hb as ([frac l2] & Hf & Hb). apply bind_Some in Hb as ([exp l3] & He & [= <- <-]).
  apply scan_int_spec in Hi as (Hl' & (b & t & Hint & Hd) & Hik).
  apply scan_fraction_spec in Hf as (-> & Hfc & Hfk). apply scan_exponent_spec in He as (-> & Hec & Hek).
  subst l'. split_and!.
  - rewrite Hl, <-!app_assoc. done.
  - destruct Hsign as [->|[-> _]]; subst int; simpl; eauto.
  - intros k Hs. destruct (number_stop_inv k Hs) as (Hn & Hk46 & _).
    assert (no_digit (exp ++ k) ∧ head_is 46 (exp ++ k) = false) as [He1 He2].
    { destruct Hec as [->|(e & t' & -> & ? & Hne)]; [done|]. simpl. split; [done|]. by apply Z.eqb_neq. }
    assert (no_digit (frac ++ exp ++ k)) as Hf1.
    { destruct Hfc as [->|[t' ->]]; done. }
    rewrite <-!app_assoc.
    assert (head_is 45 (sign ++ int ++ frac ++ exp ++ k) = match sign with [] => false | _ => true end) as Hh.
    { destruct Hsign as [->|[-> Hh]]; [done|]. subst int. simpl in *.
      apply Z.eqb_neq. intros ->. done. }
    rewrite Hh. destruct Hsign as [->|[-> _]]; cbn [app tail];
      rewrite Hik by done; cbn [mbind option_bind]; rewrite Hfk by done; cbn [mbind option_bind];
      rewrite Hek by done; done.
Qed.

(** ** Strings *)

Lemma scan_string_spec l body rest :
  scan_string l = Some (body, rest) →
  l = body ++ 34 :: rest ∧ ∀ k, scan_string (body ++ 34 :: k) = Some (body, k).
Proof.
  revert body. induction (Nat.lt_wf_0_projected (length (A:=Z)) l) as [l _ IH]. intros body.
  destruct l as [|b r]; [done|]. cbn [scan_string].
  destruct (Z.eqb_spec b 34) as [->|H34]; [by intros [= <- <-]|].
  destruct (Z.eqb_spec b 92) as [->|H92].
  - destruct r as [|e r]; [done|]. destruct (Z.eqb_spec e 117) as [->|H117].
    + destruct r as [|h1 [|h2 [|h3 [|h4 r]]]]; try done.
      destruct (_ && _ && _ && _) eqn:Eh; [|done].
      intros ([body' rest'] & Hs & [= <- <-])%bind_Some. apply IH in Hs as [-> Hk]; [|simpl; lia].
      split; [done|]. intros k. cbn [app scan_string]. rewrite Eh. simpl. by rewrite Hk.
    + destruct (simple_escape e) eqn:Ee; [|done].
      intros ([body' rest'] & Hs & [= <- <-])%bind_Some. apply IH in Hs as [-> Hk]; [|simpl; lia].
      split; [done|]. intros k. cbn [app scan_string].
      rewrite (proj2 (Z.eqb_neq _ _) H117), Ee. simpl. by rewrite Hk.
  - destruct (b <? 32) eqn:E32; [done|].
    intros ([body' rest'] & Hs & [= <- <-])%bind_Some. apply IH in Hs as [-> Hk]; [|simpl; lia].
    split; [done|]. intros k. cbn [app scan_string].
    rewrite (proj2 (Z.eqb_neq _ _) H34), (proj2 (Z.eqb_neq _ _) H92), E32. simpl. by rewrite Hk.
Qed.

(** ** Values *)

(** Reading with [val]: the raw text is what was consumed, and it reads the
    same before anything that does not go on with a number. *)
Definition local (val : list Z → option (doc * list Z)) : Prop :=
  ∀ l d rest, Forall is_byte l → val l = Some (d, rest) →
    l = bytes_of (raw_text d) ++ rest ∧ bytes_of (raw_text d) ≠ [] ∧ solid_head l ∧
    ∀ k, number_stop k → val (bytes_of (raw_text d) ++ k) = Some (d, k).

Lemma is_digit_solid b : is_digit b = true → is_space b = false ∧ b ≠ 34 ∧ b ≠ 110 ∧ b ≠ 116 ∧ b ≠ 102.
Proof. unfold is_digit, is_space. intros [?%Z.leb_le ?%Z.leb_le]%andb_prop. split_and!; lia. Qed.

Lemma strip_none p l k a b p' l' : p = a :: p' → l = b :: l' → a ≠ b → strip p (l ++ k) = None.
Proof. intros -> -> Hne. simpl. by rewrite (proj2 (Z.eqb_neq _ _) Hne). Qed.

Lemma scalar_local : local scalar.
Proof.
  intros l d rest Hl. unfold scalar. destruct (head_is 34 l) eqn:E.
  { apply head_is_cons in E as (r & ->). simpl. intros ([body rest'] & Hs & [= <- <-])%bind_Some.
    apply scan_string_spec in Hs as [-> Hk]. unfold string_literal. cbn [raw_text].
    rewrite bytes_of_of_bytes.
    2: { apply Forall_cons in Hl as [? Hl]. apply Forall_app in Hl as [? [? _]%Forall_cons].
         constructor; [done|]. apply Forall_app. by split; [|constructor]. }
    split_and!; [by rewrite <-app_comm_cons, <-app_assoc|done|done|].
    intros k _. rewrite <-app_comm_cons, <-app_assoc. cbn [app head_is tail]. simpl. by rewrite Hk. }
  destruct (strip (bytes_of "null") l) as [r|] eqn:E1.
  { intros [= <- <-]. apply strip_app in E1 as ->. done. }
  destruct (strip (bytes_of "true") l) as [r|] eqn:E2.
  { intros [= <- <-]. apply strip_app in E2 as ->. done. }
  destruct (strip (bytes_of "false") l) as [r|] eqn:E3.
  { intros [= <- <-]. apply strip_app in E3 as ->. done. }
  intros ([lit rest'] & Hs & [= <- <-])%bind_Some.
  apply scan_number_spec in Hs as (-> & (b & t & -> & Hb) & Hk).
  apply Forall_app in Hl as [Hlit _]. cbn [raw_text]. rewrite bytes_of_of_bytes by done.
  assert (is_space b = false ∧ b ≠ 34 ∧ b ≠ 110 ∧ b ≠ 116 ∧ b ≠ 102) as (Hsp & H34 & ? & ? & ?).
  { destruct Hb as [Hb| ->]; [by apply is_digit_solid|done]. }
  split_and!; [done|done|done|]. intros k Hks.
  cbn [app head_is]. rewrite (proj2 (Z.eqb_neq _ _) H34).
  change (b :: t ++ k) with ((b :: t) ++ k).
  erewrite (strip_none (bytes_of "null") (b :: t) k) by (done || congruence).
  erewrite (strip_none (bytes_of "true") (b :: t) k) by (done || congruence).
  erewrite (strip_none (bytes_of "false") (b :: t) k) by (done || congruence).
  by rewrite Hk.
Qed.

(** A text whose reading ends with a closing byte, whatever follows it. *)
Definition closed {A} (read : nat → list Z → option (A * list Z)) : Prop :=
  ∀ fuel l a rest, Forall is_byte l → read fuel l = Some (a, rest) →
    ∃ p, l = p ++ rest ∧ p ≠ [] ∧ Forall is_byte p ∧
      ∀ k fuel', (length p ≤ fuel')%nat → read fuel' (p ++ k) = Some (a, k).

(** White space and then a delimiter. *)
Lemma skip_to c l r : is_space c = false → skip_space l = c :: r →
  ∃ ws, l = ws ++ c :: r ∧ Forall (λ b, is_space b = true) ws ∧
    ∀ k, skip_space (ws ++ c :: k) = c :: k.
Proof.
  intros Hc E. destruct (skip_space_split l) as (ws & Hw & Hl). rewrite E in Hl.
  exists ws. split_and!; [done|done|]. intros k. rewrite skip_space_app by done. simpl. by rewrite Hc.
Qed.

Lemma spaces_stop ws c k : Forall (λ b, is_space b = true) ws → number_byte c = false →
  number_stop (ws ++ c :: k).
Proof.
  destruct 1 as [|b ws Hb _]; [done|]. intros _. simpl. unfold is_space in Hb. unfold number_byte, is_digit.
  rewrite !orb_true_iff, !Z.eqb_eq in Hb. destruct Hb as [[[->| ->]| ->]| ->]; done.
Qed.

Section Containers.
Context (val : list Z → option (doc * list Z)) (Hval : local val).

(** One value with white space around it, up to a delimiter. *)
Lemma value_then l d l1 c r :
  Forall is_byte l → val (skip_space l) = Some (d, l1) → is_space c = false → number_byte c = false →
  skip_space l1 = c :: r →
  ∃ p, l = p ++ c :: r ∧ Forall is_byte p ∧ p ≠ [] ∧
    ∀ k, ∃ l1', val (skip_space (p ++ c :: k)) = Some (d, l1') ∧ skip_space l1' = c :: k.
Proof.
  intros Hb Hv Hc Hn Hs. pose proof (skip_space_bytes _ Hb) as Hb'.
  destruct (Hval _ _ _ Hb' Hv) as (E & Hne & Hsolid & Hk).
  destruct (skip_to c l1 r Hc Hs) as (ws & -> & Hws & Hskip).
  destruct (skip_space_split l) as (ws0 & Hws0 & El). rewrite E in El.
  exists (ws0 ++ bytes_of (raw_text d) ++ ws).
  assert (l = (ws0 ++ bytes_of (raw_text d) ++ ws) ++ c :: r) as El'.
  { rewrite El at 1. by rewrite <-!app_assoc. }
  split; [done|]. split; [rewrite El' in Hb; by apply Forall_app in Hb as [? _]|].
  split; [destruct ws0; [|done]; by destruct (bytes_of (raw_text d))|].
  intros k. exists (ws ++ c :: k). split; [|apply Hskip].
  rewrite <-!app_assoc, skip_space_app by done. rewrite skip_space_id.
  - apply Hk. by apply spaces_stop.
  - rewrite E in Hsolid. by destruct (bytes_of (raw_text d)).
Qed.

Lemma elements_closed : closed (elements val).
Proof.
  intros fuel. induction fuel as [|fuel IH]; [done|]. intros l ds rest Hb. cbn [elements].
  intros ([d l1] & Hv & H)%bind_Some.
  destruct (head_is 44 (skip_space l1)) eqn:E44.
  - apply head_is_cons in E44 as (r & Es). rewrite Es in H. cbn [tail] in H.
    apply bind_Some in H as ([ds' l2] & Hr & [= <- <-]).
    destruct (value_then l d l1 44 r) as (p & -> & Hp & Hpne & Hpk); [done..|].
    apply Forall_app in Hb as [_ [_ Hb]%Forall_cons].
    destruct (IH _ _ _ Hb Hr) as (q & -> & Hq & Hqb & Hqk).
    exists (p ++ 44 :: q). rewrite <-app_assoc. split_and!; [done|by destruct p| |].
    { apply Forall_app. split; [done|]. by constructor. }
    intros k fuel' Hf. rewrite length_app in Hf. simpl in Hf.
    destruct fuel' as [|fuel']; [lia|]. cbn [elements]. rewrite <-app_assoc, <-app_comm_cons.
    destruct (Hpk (q ++ k)) as (l1' & -> & E'). cbn [mbind option_bind]. rewrite E'. cbn [head_is tail].
    simpl. by rewrite Hqk by (destruct p; [done|simpl in *; lia]).
  - destruct (head_is 93 (skip_space l1)) eqn:E93; [|done].
    apply head_is_cons in E93 as (r & Es). rewrite Es in H. injection H as <- <-.
    destruct (value_then l d l1 93 r) as (p & -> & Hp & Hpne & Hpk); [done..|].
    exists (p ++ [93]). rewrite <-app_assoc. split_and!; [done|by destruct p| |].
    { apply Forall_app. split; [done|]. by constructor. }
    intros k fuel' Hf. rewrite length_app in Hf. simpl in Hf.
    destruct fuel' as [|fuel']; [lia|]. cbn [elements]. rewrite <-app_assoc.
    destruct (Hpk k) as (l1' & Hv' & E'). simpl app. rewrite Hv'. cbn [mbind option_bind]. by rewrite E'.
Qed.

(** A key and its colon. *)
Lemma key_then l l1 key l2 l3 :
  strip [34] (skip_space l) = Some l1 → scan_string l1 = Some (key, l2) →
  strip [58] (skip_space l2) = Some l3 →
  ∃ p, l = p ++ l3 ∧ p ≠ [] ∧
    ∀ k, ∃ l1' l2', strip [34] (skip_space (p ++ k)) = Some l1' ∧ scan_string l1' = Some (key, l2') ∧
                    strip [58] (skip_space l2') = Some k.
Proof.
  rewrite !strip_app. cbn [app]. intros Hs Hk Hc. destruct (skip_to 34 l l1 eq_refl Hs) as (ws & -> & _ & Hw).
  apply scan_string_spec in Hk as [-> Hk]. destruct (skip_to 58 l2 l3 eq_refl Hc) as (ws' & -> & _ & Hw').
  exists (ws ++ 34 :: key ++ 34 :: ws' ++ [58]). split_and!.
  - by repeat (rewrite <-?app_assoc; cbn [app]).
  - by destruct ws.
  - intros k. exists (key ++ 34 :: ws' ++ 58 :: k), (ws' ++ 58 :: k). rewrite !strip_app.
    repeat (rewrite <-?app_assoc; cbn [app]). split_and!; [by rewrite Hw|apply Hk|apply Hw'].
Qed.

Lemma members_closed : closed (members val).
Proof.
  intros fuel. induction fuel as [|fuel IH]; [done|]. intros l fs rest Hb. cbn [members].
  intros (l1 & H1 & H)%bind_Some. apply bind_Some in H as ([key l2] & H2 & H).
  apply bind_Some in H as (l3 & H3 & H). apply bind_Some in H as ([d l4] & Hv & H).
  destruct (key_then _ _ _ _ _ H1 H2 H3) as (pk & -> & Hpkne & Hkey).
  apply Forall_app in Hb as [Hpkb Hb].
  assert (∀ p c k, (∃ l1', val (skip_space (p ++ c :: k)) = Some (d, l1') ∧ skip_space l1' = c :: k) →
    ∀ fuel', members val (S fuel') ((pk ++ p) ++ c :: k) =
      if head_is 44 (c :: k) then '(fs, l) ← members val fuel' k; Some ((string_value key, d) :: fs, l)
      else if head_is 125 (c :: k) then Some ([(string_value key, d)], k) else None) as Hstep.
  { intros p c k (l1' & Ev & Es) fuel'. cbn [members].
    destruct (Hkey (p ++ c :: k)) as (m1 & m2 & E1 & E2 & E3).
    rewrite <-app_assoc, E1. cbn [mbind option_bind]. rewrite E2. cbn [mbind option_bind].
    rewrite E3. cbn [mbind option_bind]. rewrite Ev. cbn [mbind option_bind]. by rewrite Es. }
  destruct (head_is 44 (skip_space l4)) eqn:E44.
  - apply head_is_cons in E44 as (r & Es). rewrite Es in H. cbn [tail] in H.
    apply bind_Some in H as ([fs' l5] & Hr & [= <- <-]).
    destruct (value_then l3 d l4 44 r) as (p & -> & Hp & Hpne & Hpk); [done..|].
    apply Forall_app in Hb as [_ [_ Hb]%Forall_cons].
    destruct (IH _ _ _ Hb Hr) as (q & -> & Hq & Hqb & Hqk).
    exists ((pk ++ p) ++ 44 :: q). rewrite <-!app_assoc. split_and!; [done|by destruct pk| |].
    { repeat (apply Forall_app; split); [done|done|by constructor]. }
    intros k fuel' Hf. rewrite !length_app in Hf. simpl in Hf. destruct fuel' as [|fuel']; [lia|].
    replace ((pk ++ p ++ 44 :: q) ++ k) with ((pk ++ p) ++ 44 :: q ++ k) by (by rewrite <-!app_assoc).
    rewrite Hstep by done. cbn [head_is]. simpl.
    by rewrite Hqk by (destruct pk; [done|simpl in *; lia]).
  - destruct (head_is 125 (skip_space l4)) eqn:E125; [|done].
    apply head_is_cons in E125 as (r & Es). rewrite Es in H. injection H as <- <-.
    destruct (value_then l3 d l4 125 r) as (p & -> & Hp & Hpne & Hpk); [done..|].
    exists ((pk ++ p) ++ [125]). rewrite <-!app_assoc. split_and!; [done|by destruct pk| |].
    { repeat (apply Forall_app; split); [done|done|by constructor]. }
    intros k fuel' Hf. rewrite !length_app in Hf. simpl in Hf. destruct fuel' as [|fuel']; [lia|].
    replace ((pk ++ p ++ [125]) ++ k) with ((pk ++ p) ++ 125 :: k) by (by rewrite <-!app_assoc).
    by rewrite Hstep by done.
Qed.

End Containers.

Lemma consumed_app (p rest : list Z) : consumed (p ++ rest) rest = of_bytes p.
Proof. unfold consumed. by rewrite length_app, Nat.add_sub, take_app_length. Qed.

Lemma container_local {A} open close (build : string → list A → doc) read r d rest :
  closed read → (∀ t a, raw_text (build t a) = t) → is_byte close → is_space close = false →
  Forall is_byte (open :: r) → container close build read (open :: r) = Some (d, rest) →
  ∃ p, open :: r = (open :: p) ++ rest ∧ bytes_of (raw_text d) = open :: p ∧
    ∀ k, container close build read ((open :: p) ++ k) = Some (d, k).
Proof.
  intros Hread Hraw Hcb Hcs Hb. unfold container. cbn [tail].
  pose proof (Forall_inv Hb) as Hob. apply Forall_inv_tail in Hb.
  destruct (skip_space_split r) as (ws & Hws & Er). pose proof (skip_space_solid r) as Hsol.
  rewrite Er in Hb. apply Forall_app in Hb as [Hwb Hrb].
  assert (∀ q, skip_space r = q ++ rest → Forall is_byte q → q ≠ [] →
    open :: r = (open :: ws ++ q) ++ rest ∧ bytes_of (of_bytes (open :: ws ++ q)) = open :: ws ++ q ∧
    ∀ k, skip_space ((ws ++ q) ++ k) = q ++ k) as Hq.
  { intros q Eq Hqb Hqne. split_and!.
    - rewrite Er, Eq. simpl. by rewrite <-app_assoc.
    - apply bytes_of_of_bytes. constructor; [done|]. by apply Forall_app.
    - intros k. rewrite <-app_assoc, skip_space_app by done. apply skip_space_id.
      rewrite Eq in Hsol. by destruct q. }
  destruct (head_is close (skip_space r)) eqn:Eh.
  - apply head_is_cons in Eh as (r' & E'). rewrite E'. cbn [tail]. intros [= <- <-].
    destruct (Hq [close]) as (El & Ebytes & Hskip); [done|by constructor|done|].
    exists (ws ++ [close]). rewrite El, consumed_app, Hraw. split_and!; [done|done|].
    intros k. cbn [app tail]. rewrite Hskip. cbn [app head_is tail]. rewrite Z.eqb_refl.
    by rewrite app_comm_cons, consumed_app.
  - intros ([items rest'] & He & [= <- <-])%bind_Some.
    destruct (Hread _ _ _ _ Hrb He) as (q & Eq & Hqne & Hqb & Hqk).
    destruct (Hq q) as (El & Ebytes & Hskip); [done..|].
    exists (ws ++ q). rewrite El, consumed_app, Hraw. split_and!; [done|done|].
    intros k. cbn [app tail]. rewrite Hskip.
    assert (head_is close (q ++ k) = false) as -> by (rewrite Eq in Eh; by destruct q).
    rewrite Hqk by (rewrite length_app; lia). cbn [mbind option_bind].
    by rewrite app_comm_cons, consumed_app.
Qed.

Lemma value_local depth : local (value depth).
Proof.
  induction depth as [|depth IH]; intros l d rest Hb Hv; cbn [value] in Hv.
  all: destruct (head_is 91 l) eqn:E1; [|destruct (head_is 123 l) eqn:E2].
  all: try done.
  2: apply head_is_cons in E1 as (r & ->);
    destruct (container_local 91 93 DArray _ r d rest (elements_closed _ IH)) as (p & -> & -> & Hk); try done;
    split_and!; try done; intros k _; exact (Hk k).
  2: apply head_is_cons in E2 as (r & ->);
    destruct (container_local 123 125 DObject _ r d rest (members_closed _ IH)) as (p & -> & -> & Hk); try done;
    split_and!; try done; intros k _; exact (Hk k).
  all: destruct (scalar_local _ _ _ Hb Hv) as (E & Hne & Hso & Hk); split_and!; try done.
  all: intros k Hstop; specialize (Hk k Hstop); destruct (bytes_of (raw_text d)) as [|b t]; [done|].
  all: rewrite E in E1, E2; cbn [app head_is value] in *; by rewrite E1, E2.
Qed.

(** ** Nesting *)

(** Deeper limits read at least as much. *)
Lemma elements_mono (v w : list Z → option (doc * list Z)) fuel l r :
  (∀ l r, v l = Some r → w l = Some r) → elements v fuel l = Some r → elements w fuel l = Some r.
Proof.
  intros Hvw. revert l r. induction fuel as [|fuel IH]; [done|]. intros l r. cbn [elements].
  intros ([d l1] & Hv & H)%bind_Some. rewrite (Hvw _ _ Hv). cbn [mbind option_bind].
  destruct (head_is 44 _); [|done]. apply bind_Some in H as ([ds l2] & Hr & [= <-]).
  by rewrite (IH _ _ Hr).
Qed.

Lemma members_mono (v w : list Z → option (doc * list Z)) fuel l r :
  (∀ l r, v l = Some r → w l = Some r) → members v fuel l = Some r → members w fuel l = Some r.
Proof.
  intros Hvw. revert l r. induction fuel as [|fuel IH]; [done|]. intros l r. cbn [members].
  intros (l1 & -> & H)%bind_Some. cbn [mbind option_bind]. apply bind_Some in H as ([key l2] & -> & H).
  cbn [mbind option_bind]. apply bind_Some in H as (l3 & -> & H). cbn [mbind option_bind].
  apply bind_Some in H as ([d l4] & Hv & H). rewrite (Hvw _ _ Hv). cbn [mbind option_bind].
  destruct (head_is 44 _); [|done]. apply bind_Some in H as ([fs l5] & Hr & [= <-]).
  by rewrite (IH _ _ Hr).
Qed.

Lemma container_mono {A} close (build : string → list A → doc) (v w : nat → list Z → option (list A * list Z)) l r :
  (∀ fuel l r, v fuel l = Some r → w fuel l = Some r) →
  container close build v l = Some r → container close build w l = Some r.
Proof.
  intros Hvw. unfold container. case_match; [done|]. intros ([items rest] & He & [= <-])%bind_Some.
  by rewrite (Hvw _ _ _ He).
Qed.

Lemma value_mono n m l r : (n ≤ m)%nat → value n l = Some r → value m l = Some r.
Proof.
  revert m l r. induction n as [|n IH]; intros m l r Hle; cbn [value].
  - destruct m; cbn [value]; repeat case_match; done.
  - destruct m as [|m]; [lia|]. cbn [value].
    assert (∀ l r, value n l = Some r → value m l = Some r) as Hv by (intros; apply IH; [lia|done]).
    repeat case_match; try done; apply container_mono; intros; [by eapply elements_mono|by eapply members_mono].
Qed.

(** A value inside another. *)
Inductive inside : doc → doc → Prop :=
| InsideRefl d : inside d d
| InsideArray d text items item : item ∈ items → inside d item → inside d (DArray text items)
| InsideObject d text fields key item : (key, item) ∈ fields → inside d item → inside d (DObject text fields).

(** Every value of a document was read somewhere by [value]. *)
Definition readable (depth : nat) (d : doc) : Prop :=
  ∃ l rest, Forall is_byte l ∧ value depth l = Some (d, rest).

Lemma elements_each v fuel l ds rest : elements v fuel l = Some (ds, rest) → Forall is_byte l →
  local v → ∀ d, d ∈ ds → ∃ l' rest', Forall is_byte l' ∧ v l' = Some (d, rest').
Proof.
  intros He Hb Hv. revert l ds rest He Hb. induction fuel as [|fuel IH]; [done|]. intros l ds rest He Hb.
  cbn [elements] in He. apply bind_Some in He as ([d l1] & Hd & H).
  pose proof (skip_space_bytes _ Hb) as Hb'. destruct (Hv _ _ _ Hb' Hd) as (E & _).
  assert (Forall is_byte l1) as Hb1 by (rewrite E in Hb'; by apply Forall_app in Hb' as [_ ?]).
  assert (∀ d', d' ∈ [d] → ∃ l' rest', Forall is_byte l' ∧ v l' = Some (d', rest')) as Hhere.
  { intros d' ->%list_elem_of_singleton. eauto. }
  destruct (head_is 44 _) eqn:E44.
  - apply bind_Some in H as ([ds' l2] & Hr & [= <- <-]). intros d' [->|Hin]%elem_of_cons; [by eauto|].
    eapply IH; [exact Hr| |done]. apply skip_space_bytes in Hb1. destruct (skip_space l1); [done|].
    by apply Forall_inv_tail in Hb1.
  - destruct (head_is 93 _); [|done]. injection H as <- <-. done.
Qed.

Lemma members_each v fuel l fs rest : members v fuel l = Some (fs, rest) → Forall is_byte l →
  local v → ∀ key d, (key, d) ∈ fs → ∃ l' rest', Forall is_byte l' ∧ v l' = Some (d, rest').
Proof.
  intros He Hb Hv. revert l fs rest He Hb. induction fuel as [|fuel IH]; [done|]. intros l fs rest He Hb.
  cbn [members] in He. apply bind_Some in He as (l1 & H1 & H).
  apply bind_Some in H as ([k l2] & H2 & H). apply bind_Some in H as (l3 & H3 & H).
  apply bind_Some in H as ([d l4] & Hd & H).
  destruct (key_then _ _ _ _ _ H1 H2 H3) as (pk & -> & _ & _). apply Forall_app in Hb as [_ Hb].
  pose proof (skip_space_bytes _ Hb) as Hb'. destruct (Hv _ _ _ Hb' Hd) as (E & _).
  assert (Forall is_byte l4) as Hb4 by (rewrite E in Hb'; by apply Forall_app in Hb' as [_ ?]).
  destruct (head_is 44 _) eqn:E44.
  - apply bind_Some in H as ([fs' l5] & Hr & [= <- <-]).
    intros key d' [[= -> ->]|Hin]%elem_of_cons; [by eauto|].
    eapply IH; [exact Hr| |done]. apply skip_space_bytes in Hb4. destruct (skip_space l4); [done|].
    by apply Forall_inv_tail in Hb4.
  - destruct (head_is 125 _); [|done]. injection H as <- <-.
    intros key d' [= -> ->]%list_elem_of_singleton. eauto.
Qed.

Lemma container_inv {A} close (build : string → list A → doc) read l d rest :
  container close build read l = Some (d, rest) →
  ∃ text items, d = build text items ∧
    (items = [] ∨ read (length (skip_space (tail l))) (skip_space (tail l)) = Some (items, rest)).
Proof.
  unfold container. case_match; [intros [= <- <-]; eauto|].
  intros ([items rest'] & He & [= <- <-])%bind_Some. eauto 6.
Qed.

Lemma tail_bytes l : Forall is_byte l → Forall is_byte (tail l).
Proof. destruct l; [done|]. by apply Forall_inv_tail. Qed.

Lemma scalar_build l d rest : scalar l = Some (d, rest) →
  (∀ text items, d ≠ DArray text items) ∧ (∀ text fields, d ≠ DObject text fields).
Proof.
  unfold scalar. intros H. repeat case_match; simplify_option_eq; try (split; congruence).
  all: match goal with x : _ * _ |- _ => destruct x end; simplify_eq; split; congruence.
Qed.

Lemma inside_readable d d' : inside d' d → ∀ depth, readable depth d → readable depth d'.
Proof.
  induction 1 as [d|d' text items item Hin _ IH|d' text fields key item Hin _ IH]; intros depth Hr; [done|..];
    destruct Hr as (l & rest & Hb & Hv); apply IH; clear IH;
    pose proof (tail_bytes _ Hb) as Htb; apply skip_space_bytes in Htb;
    destruct depth as [|depth]; cbn [value] in Hv.
  - repeat case_match; try done. apply scalar_build in Hv as [Ha Ho]. exfalso. (by eapply Ha) || (by eapply Ho).
  - destruct (head_is 91 l); [|destruct (head_is 123 l)].
    + apply container_inv in Hv as (t & its & [= <- <-] & [->|He]); [by apply not_elem_of_nil in Hin|].
      destruct (elements_each _ _ _ _ _ He Htb (value_local depth) item Hin) as (l' & r' & ? & ?).
      exists l', r'. split; [done|]. eapply value_mono; [|done]. lia.
    + by apply container_inv in Hv as (? & ? & ? & _).
    + apply scalar_build in Hv as [Ha Ho]. exfalso. (by eapply Ha) || (by eapply Ho).
  - repeat case_match; try done. apply scalar_build in Hv as [Ha Ho]. exfalso. (by eapply Ha) || (by eapply Ho).
  - destruct (head_is 91 l); [|destruct (head_is 123 l)].
    + by apply container_inv in Hv as (? & ? & ? & _).
    + apply container_inv in Hv as (t & its & [= <- <-] & [->|He]); [by apply not_elem_of_nil in Hin|].
      destruct (members_each _ _ _ _ _ He Htb (value_local depth) key item Hin) as (l' & r' & ? & ?).
      exists l', r'. split; [done|]. eapply value_mono; [|done]. lia.
    + apply scalar_build in Hv as [Ha Ho]. exfalso. (by eapply Ha) || (by eapply Ho).
Qed.

Lemma parse_readable depth l d : Forall is_byte l → parse_within depth l = Some d → readable depth d.
Proof.
  unfold parse_within. intros Hb ([d' rest] & Hv & Hd)%bind_Some. case_match; [|done]. injection Hd as <-.
  exists (skip_space l), rest. split; [by apply skip_space_bytes|done].
Qed.

(** A text's value is the value of its raw text. *)
Lemma readable_parse depth d : readable depth d → parse_within depth (bytes_of (raw_text d)) = Some d.
Proof.
  intros (l & rest & Hb & Hv). destruct (value_local depth _ _ _ Hb Hv) as (E & Hne & Hso & Hk).
  unfold parse_within. rewrite skip_space_id.
  - specialize (Hk [] I). rewrite app_nil_r in Hk. by rewrite Hk.
  - rewrite E in Hso. by destruct (bytes_of (raw_text d)).
Qed.

(** What a json.RawMessage keeps reads back. Every value inside a parsed
    document, decoded again later from the text that was kept of it alone,
    is that value: the two-pass decoding of the code sees one document. *)
Lemma raw_message_rereads s d d' :
  parse_document s = Some d → inside d' d → parse_document (raw_text d') = Some d'.
Proof.
  unfold parse_document. generalize maxNestingDepth. intros n Hp Hin.
  apply readable_parse, (inside_readable d), (parse_readable n (bytes_of s)); [done|apply bytes_of_range|done].
Qed.

End GoDecodeProps.
