(* ===== verification/GoPrint.v ===== *)
(** * Writing JSON the decoder reads back

    The compact text json.Marshal gives a value, and its parse. *)

From Stdlib Require Import Ascii String.
From stdpp Require Import pretty.
From S2P Require Import Prelude GoJson GoText GoDecode GoDecodeProps.

Module GoPrint.
Import GoJson GoText GoDecode GoDecodeProps.

Local Open Scope Z_scope.

(** ** The text of a value *)

Fixpoint separated {A} (sep : Z) (f : A → list Z) (l : list A) : list Z :=
  match l with
  | [] => []
  | [a] => f a
  | a :: l => f a ++ sep :: separated sep f l
  end.

Fixpoint print (j : json) : list Z :=
  match j with
  | JNull => bytes_of "null"
  | JBool true => bytes_of "true"
  | JBool false => bytes_of "false"
  | JNumber literal => bytes_of literal
  | JString s => bytes_of (quote s)
  | JArray items => 91 :: separated 44 print items ++ [93]
  | JObject fields => 123 :: separated 44 (λ f, bytes_of (quote f.1) ++ 58 :: print f.2) fields ++ [125]
  end.

Definition text_of (j : json) : string := of_bytes (print j).

(** The document that text is. *)
Fixpoint doc_of (j : json) : doc :=
  match j with
  | JNull => DNull
  | JBool b => DBool b
  | JNumber literal => DNumber literal
  | JString s => DString (quote s) s
  | JArray items => DArray (text_of j) (doc_of <$> items)
  | JObject fields => DObject (text_of j) ((λ f, (f.1, doc_of f.2)) <$> fields)
  end.

(** Text is UTF-8 and a number's literal is one. *)
Fixpoint printable (j : json) : bool :=
  match j with
  | JNull | JBool _ => true
  | JNumber literal =>
      forallb (λ b, (0 <=? b) && (b <? 128)) (bytes_of literal) &&
      match scan_number (bytes_of literal) with Some (_, []) => true | _ => false end
  | JString s => utf8_valid s
  | JArray items => forallb printable items
  | JObject fields => forallb (λ f, utf8_valid f.1 && printable f.2) fields
  end.

Fixpoint height (j : json) : nat :=
  match j with
  | JArray items => S (list_max (height <$> items))
  | JObject fields => S (list_max ((λ f, height f.2) <$> fields))
  | _ => O
  end.

(** The induction the nested lists need. *)
Lemma json_nested_ind (P : json → Prop) :
  P JNull → (∀ b, P (JBool b)) → (∀ l, P (JNumber l)) → (∀ s, P (JString s)) →
  (∀ items, Forall P items → P (JArray items)) →
  (∀ fields, Forall (λ f, P f.2) fields → P (JObject fields)) → ∀ j, P j.
Proof.
  intros Hn Hb Hnum Hs Ha Ho. fix IH 1. intros [|b|l|s|items|fields]; [done|done|done|done| |].
  - apply Ha. induction items as [|j items IHi]; constructor; [apply IH|exact IHi].
  - apply Ho. induction fields as [|[k j] fields IHf]; constructor; [apply IH|exact IHf].
Qed.

(** ** Strings *)

Lemma scan_string_plain l X : Forall (λ b, 32 ≤ b ∧ b ≠ 34 ∧ b ≠ 92) l →
  scan_string (l ++ X) = ('(body, rest) ← scan_string X; Some (l ++ body, rest)).
Proof.
  induction 1 as [|b l (H1 & H2 & H3) _ IH]; cbn [app]; [by destruct (scan_string X) as [[]|]|].
  cbn [scan_string]. rewrite (proj2 (Z.eqb_neq _ _) H2), (proj2 (Z.eqb_neq _ _) H3).
  replace (b <? 32) with false by lia. rewrite IH. by destruct (scan_string X) as [[]|].
Qed.

Lemma hex_digit_is_hex n : 0 ≤ n < 16 → is_hex (hex_digit n) = true.
Proof. intros. unfold is_hex. by rewrite hex_round. Qed.

Lemma scan_string_rune r X : rune_ok r →
  scan_string (quote_rune (r, true) ++ X) =
  ('(body, rest) ← scan_string X; Some (quote_rune (r, true) ++ body, rest)).
Proof.
  intros Hr. unfold quote_rune. simpl.
  repeat match goal with
  | |- context [if (r =? ?k) then [92; _] else _] =>
      destruct (Z.eqb_spec r k) as [->|?]; [by cbn [app scan_string]; simpl; destruct (scan_string X) as [[]|]|]
  end.
  destruct (_ || _) eqn:E.
  - unfold u_escape. cbn [app scan_string]. simpl.
    rewrite !hex_digit_is_hex by (apply Z.mod_pos_bound; lia). simpl. by destruct (scan_string X) as [[]|].
  - rewrite !orb_false_iff, Z.ltb_ge in E. apply scan_string_plain.
    destruct (encode_rune_head r) as (b & l & -> & ? & ? & ? & Hl); [done|lia|done|done|].
    constructor; [done|]. eapply Forall_impl; [exact Hl|]. simpl. intros. lia.
Qed.

Lemma scan_quote_body s k : utf8_valid s = true →
  scan_string (quote_body s ++ 34 :: k) = Some (quote_body s, k).
Proof.
  intros [Hr _]%valid_runes. unfold quote_body.
  induction Hr as [|[r ok] rs [Hr Hok] _ IH]; [done|]. simpl in Hr, Hok. subst ok.
  rewrite fmap_cons. cbn [concat]. rewrite <-app_assoc, scan_string_rune by done. by rewrite IH.
Qed.

Lemma quote_literal s : utf8_valid s = true → string_literal (quote_body s) = quote s.
Proof. intros Hv. unfold string_literal. rewrite <-bytes_of_quote by done. apply of_bytes_bytes_of. Qed.

Lemma quote_value s : utf8_valid s = true → string_value (quote_body s) = s.
Proof.
  intros Hv. pose proof (unquote_quote s Hv) as Hu. unfold unquote in Hu. rewrite bytes_of_quote in Hu by done.
  apply fmap_Some in Hu as (b & Hb & ->). unfold string_value.
  rewrite length_app in Hb. cbn [length] in Hb. by rewrite Hb.
Qed.

(** ** Parsing what was printed *)

Lemma print_head j : printable j = true → ∃ c r, print j = c :: r ∧ is_space c = false ∧ c ≠ 93 ∧ c ≠ 125 ∧
  (c = 91 → ∃ items, j = JArray items) ∧ (c = 123 → ∃ fields, j = JObject fields).
Proof.
  destruct j as [|[]|l|s|items|fields]; intros Hp; try (by eexists _, _; split_and!).
  - cbn [printable] in Hp. apply andb_prop in Hp as [_ Hp].
    destruct (scan_number (bytes_of l)) as [[lit rest]|] eqn:Es; [|done].
    apply scan_number_spec in Es as (E & (b & t & -> & Hb) & _). destruct rest; [|done].
    cbn [print]. rewrite E, app_nil_r. exists b, t.
    assert (is_space b = false ∧ b ≠ 93 ∧ b ≠ 125 ∧ b ≠ 91 ∧ b ≠ 123) as (?&?&?&?&?).
    { unfold is_digit, is_space in *. destruct Hb as [[?%Z.leb_le ?%Z.leb_le]%andb_prop| ->]; [|done].
      split_and!; lia. }
    done.
  - exists 91. eexists. split_and!; [done..|eauto|done].
  - exists 123. eexists. split_and!; [done..|done|eauto].
Qed.

Lemma print_bytes j : printable j = true → Forall is_byte (print j).
Proof.
  assert (∀ A (f : A → list Z) l, Forall (λ a, Forall is_byte (f a)) l → Forall is_byte (separated 44 f l)) as Hsep.
  { intros A f l. induction 1 as [|a l Ha Hl IH]; [constructor|]. destruct l as [|a' l]; [done|].
    cbn [separated]. apply Forall_app. split; [done|]. by constructor. }
  induction j as [|[]|l|s|items IH|fields IH] using json_nested_ind; intros Hp; cbn [print];
    try apply bytes_of_range.
  - constructor; [done|]. apply Forall_app. split; [|by constructor]. apply Hsep.
    cbn [printable] in Hp. rewrite Forall_forall in IH |- *. rewrite forallb_forall in Hp.
    intros j Hj. apply IH; [done|]. by apply Hp, list_elem_of_In.
  - constructor; [done|]. apply Forall_app. split; [|by constructor]. apply Hsep.
    cbn [printable] in Hp. rewrite Forall_forall in IH |- *. rewrite forallb_forall in Hp.
    intros f Hf. apply Forall_app. split; [apply bytes_of_range|]. constructor; [done|]. apply IH; [done|].
    pose proof (Hp f (proj1 (list_elem_of_In _ _) Hf)) as H. by apply andb_prop in H as [_ ?].
Qed.

Definition reads (depth : nat) (j : json) : Prop :=
  ∀ k, number_stop k → value depth (print j ++ k) = Some (doc_of j, k).

Lemma skip_print j k : printable j = true → skip_space (print j ++ k) = print j ++ k.
Proof. intros (c & r & -> & Hc & _)%print_head. by apply skip_space_id. Qed.

Lemma stop_delimiter c k : c = 44 ∨ c = 93 ∨ c = 125 → number_stop (c :: k).
Proof. by intros [->|[->| ->]]. Qed.

Lemma print_elements depth j items k fuel :
  Forall (λ j, printable j = true ∧ reads depth j) (j :: items) → (length (j :: items) ≤ fuel)%nat →
  elements (value depth) fuel (separated 44 print (j :: items) ++ 93 :: k) = Some (doc_of <$> j :: items, k).
Proof.
  revert j fuel. induction items as [|j' items IH]; intros j fuel [[Hp Hr] Hall]%Forall_cons Hf;
    (destruct fuel as [|fuel]; [simpl in Hf; lia|]).
  - cbn [separated elements]. rewrite skip_print by done. rewrite Hr by (apply stop_delimiter; auto). done.
  - change (separated 44 print (j :: j' :: items)) with (print j ++ 44 :: separated 44 print (j' :: items)).
    assert (length (j' :: items) ≤ fuel)%nat as Hf' by (simpl in *; lia).
    specialize (IH j' fuel Hall Hf'). revert IH. generalize (separated 44 print (j' :: items)). intros S IH.
    cbn [elements]. rewrite <-app_assoc, skip_print by done. cbn [app].
    rewrite Hr by (apply stop_delimiter; auto). cbn [mbind option_bind]. cbn [skip_space is_space head_is tail].
    simpl. by rewrite IH.
Qed.

Definition print_member (f : string * json) : list Z := bytes_of (quote f.1) ++ 58 :: print f.2.

Lemma print_member_app f X : utf8_valid f.1 = true →
  print_member f ++ X = 34 :: quote_body f.1 ++ 34 :: 58 :: print f.2 ++ X.
Proof.
  intros Hv. unfold print_member. rewrite bytes_of_quote by done. by repeat (rewrite <-?app_assoc; cbn [app]).
Qed.

Lemma print_members depth f fields k fuel :
  Forall (λ f, utf8_valid f.1 = true ∧ printable f.2 = true ∧ reads depth f.2) (f :: fields) →
  (length (f :: fields) ≤ fuel)%nat →
  members (value depth) fuel (separated 44 print_member (f :: fields) ++ 125 :: k) =
    Some ((λ f, (f.1, doc_of f.2)) <$> f :: fields, k).
Proof.
  revert f fuel. induction fields as [|f' fields IH]; intros f fuel [(Hv & Hp & Hr) Hall]%Forall_cons Hf;
    (destruct fuel as [|fuel]; [simpl in Hf; lia|]).
  - cbn [separated members]. rewrite print_member_app by done. cbn [skip_space is_space strip]. simpl.
    rewrite scan_quote_body by done. cbn [mbind option_bind skip_space is_space strip]. simpl.
    rewrite skip_print by done. rewrite Hr by (apply stop_delimiter; auto). simpl. by rewrite quote_value.
  - change (separated 44 print_member (f :: f' :: fields)) with (print_member f ++ 44 :: separated 44 print_member (f' :: fields)).
    assert (length (f' :: fields) ≤ fuel)%nat as Hf' by (simpl in *; lia).
    specialize (IH f' fuel Hall Hf'). revert IH. generalize (separated 44 print_member (f' :: fields)). intros S IH.
    cbn [members]. rewrite <-app_assoc, print_member_app by done. cbn [skip_space is_space strip]. simpl.
    rewrite scan_quote_body by done. cbn [mbind option_bind skip_space is_space strip]. simpl.
    rewrite skip_print by done. rewrite Hr by (apply stop_delimiter; auto). cbn [mbind option_bind].
    cbn [skip_space is_space head_is tail]. simpl. rewrite quote_value by done. by rewrite IH.
Qed.

Lemma separated_length {A} (f : A → list Z) l k : (∀ a, a ∈ l → f a ≠ []) →
  (length l ≤ length (separated 44 f l ++ k))%nat.
Proof.
  intros Hne. rewrite length_app. induction l as [|a l IH]; [simpl; lia|].
  assert (f a ≠ []) as Ha by (apply Hne; by left).
  assert (0 < length (f a))%nat by (destruct (f a); [done|simpl; lia]).
  destruct l as [|a' l]; [simpl; lia|].
  assert (length (a' :: l) ≤ length (separated 44 f (a' :: l)) + length k)%nat by (apply IH; intros; apply Hne; by right).
  change (separated 44 f (a :: a' :: l)) with (f a ++ 44 :: separated 44 f (a' :: l)).
  rewrite length_app. simpl in *. lia.
Qed.

Lemma container_print {A} open close (build : string → list A → doc) read content k items :
  (match content with [] => items = [] | c :: _ => is_space c = false ∧ c ≠ close end) → is_space close = false →
  (content ≠ [] → read (length (content ++ close :: k)) (content ++ close :: k) = Some (items, k)) →
  container close build read ((open :: content ++ [close]) ++ k) = Some (build (of_bytes (open :: content ++ [close])) items, k).
Proof.
  intros Hc Hs Hr. unfold container. cbn [app tail]. rewrite <-app_assoc. cbn [app].
  destruct content as [|c content].
  - subst items. cbn [app skip_space]. rewrite Hs. cbn [head_is tail]. rewrite Z.eqb_refl.
    change (open :: close :: k) with ([open; close] ++ k). by rewrite consumed_app.
  - destruct Hc as [Hc Hne]. rewrite skip_space_id by done. cbn [app head_is].
    rewrite (proj2 (Z.eqb_neq _ _) Hne). specialize (Hr ltac:(done)). cbn [app] in Hr. rewrite Hr. cbn [mbind option_bind].
    change (open :: c :: content ++ close :: k) with ((open :: c :: content) ++ [close] ++ k).
    by rewrite app_assoc, consumed_app.
Qed.

Lemma print_member_ne f : print_member f ≠ [].
Proof. unfold print_member. by destruct (bytes_of (quote f.1)). Qed.

Lemma print_reads j depth : printable j = true → (height j ≤ depth)%nat → reads depth j.
Proof.
  revert depth. induction j as [|b|l|s|items IH|fields IH] using json_nested_ind; intros depth Hp Hh k Hk.
  - destruct depth; done.
  - destruct b, depth; done.
  - destruct (print_head _ Hp) as (c & r & E & _ & _ & _ & H91 & H123).
    assert (value depth (print (JNumber l) ++ k) = scalar (print (JNumber l) ++ k)) as ->.
    { rewrite E. cbn [app]. assert (c ≠ 91) by (intros (? & ?)%H91; done).
      assert (c ≠ 123) by (intros (? & ?)%H123; done).
      destruct depth; cbn [value head_is]; by rewrite !(proj2 (Z.eqb_neq _ _)) by done. }
    cbn [printable] in Hp. apply andb_prop in Hp as [_ Hp].
    destruct (scan_number (bytes_of l)) as [[lit [|]]|] eqn:Es; try done.
    assert (scalar (bytes_of l) = Some (DNumber l, [])) as Hs.
    { pose proof Es as (El & (b & t & -> & Hb) & _)%scan_number_spec. rewrite app_nil_r in El.
      unfold scalar. rewrite Es. cbn [mbind option_bind]. rewrite El. cbn [head_is].
      assert (b ≠ 34 ∧ b ≠ 110 ∧ b ≠ 116 ∧ b ≠ 102) as (H1 & H2 & H3 & H4).
      { unfold is_digit in Hb. destruct Hb as [[?%Z.leb_le ?%Z.leb_le]%andb_prop| ->]; [lia|done]. }
      rewrite (proj2 (Z.eqb_neq _ _) H1). change (b :: t) with ([b] ++ t).
      erewrite (strip_none (bytes_of "null") [b] t) by (done || congruence).
      erewrite (strip_none (bytes_of "true") [b] t) by (done || congruence).
      erewrite (strip_none (bytes_of "false") [b] t) by (done || congruence).
      cbn [app]. by rewrite <-El, of_bytes_bytes_of. }
    destruct (scalar_local _ _ _ (bytes_of_range l) Hs) as (_ & _ & _ & Hloc). by apply Hloc.
  - cbn [print printable doc_of] in *. rewrite bytes_of_quote by done. cbn [app].
    assert (value depth (34 :: (quote_body s ++ [34]) ++ k) = scalar (34 :: (quote_body s ++ [34]) ++ k)) as ->
      by (by destruct depth).
    unfold scalar. cbn [head_is tail]. simpl. rewrite <-app_assoc. cbn [app]. rewrite scan_quote_body by done. simpl.
    by rewrite quote_literal, quote_value.
  - destruct depth as [|depth]; [simpl in Hh; lia|]. cbn [print]. cbn [value]. cbn [app head_is]. simpl (91 =? 91).
    assert (Forall (λ j, printable j = true ∧ reads depth j) items) as Hall.
    { cbn [printable] in Hp. rewrite forallb_forall in Hp. rewrite Forall_forall in IH |- *. intros j Hj.
      assert (printable j = true) as Hpj by (by apply Hp, list_elem_of_In). split; [done|].
      apply IH; [done|done|]. cbn [height] in Hh.
      assert (height j ≤ list_max (height <$> items))%nat; [|lia].
      pose proof (proj1 (list_max_le (height <$> items) (list_max (height <$> items))) (le_n _)) as Hm.
      rewrite List.Forall_forall in Hm. apply Hm, list_elem_of_In. by apply list_elem_of_fmap_2. }
    change (91 :: (separated 44 print items ++ [93]) ++ k) with ((91 :: separated 44 print items ++ [93]) ++ k).
    apply container_print; [|done|].
    + destruct items as [|j items]; [done|].
      apply Forall_cons in Hall as [[Hpj _] _]. apply print_head in Hpj as (c & r & E & ? & ? & _).
      destruct items; cbn [separated]; rewrite E; done.
    + intros Hne. destruct items as [|j items]; [done|]. apply print_elements; [done|].
      apply (separated_length print). intros a Ha. rewrite Forall_forall in Hall.
      destruct (Hall _ Ha) as [(c & r & -> & _)%print_head _]. done.
  - destruct depth as [|depth]; [simpl in Hh; lia|]. cbn [print]. cbn [value]. cbn [app head_is]. simpl (123 =? 91). simpl (123 =? 123).
    assert (Forall (λ f, utf8_valid f.1 = true ∧ printable f.2 = true ∧ reads depth f.2) fields) as Hall.
    { cbn [printable] in Hp. rewrite forallb_forall in Hp. rewrite Forall_forall in IH |- *. intros f Hf.
      pose proof (Hp f (proj1 (list_elem_of_In _ _) Hf)) as [Hv Hpf]%andb_prop. split_and!; [done|done|].
      apply IH; [done|done|]. cbn [height] in Hh.
      pose proof (proj1 (list_max_le ((λ f, height f.2) <$> fields) (list_max ((λ f, height f.2) <$> fields))) (le_n _)) as Hm.
      rewrite List.Forall_forall in Hm. specialize (Hm (height f.2)).
      assert (height f.2 ≤ list_max ((λ f, height f.2) <$> fields))%nat; [|lia].
      apply Hm, list_elem_of_In. apply list_elem_of_fmap. eauto. }
    fold print_member. change (λ f : string * json, bytes_of (quote f.1) ++ 58 :: print f.2) with print_member.
    change (123 :: (separated 44 print_member fields ++ [125]) ++ k) with ((123 :: separated 44 print_member fields ++ [125]) ++ k).
    apply container_print; [|done|].
    + destruct fields as [|f fields]; [done|].
      apply Forall_cons in Hall as [(Hv & _) _].
      destruct fields; cbn [separated]; unfold print_member; rewrite bytes_of_quote by done; done.
    + intros Hne. destruct fields as [|f fields]; [done|]. apply print_members; [done|].
      apply (separated_length print_member). intros a _. apply print_member_ne.
Qed.

Lemma print_within j depth : printable j = true → (height j ≤ depth)%nat →
  parse_within depth (bytes_of (text_of j)) = Some (doc_of j).
Proof.
  intros Hp Hh. unfold parse_within, text_of. rewrite bytes_of_of_bytes by (by apply print_bytes).
  pose proof (print_reads j depth Hp Hh [] I) as Hr. rewrite app_nil_r in Hr.
  pose proof (skip_print j [] Hp) as Hs. rewrite app_nil_r in Hs. rewrite Hs, Hr. done.
Qed.

(** What json.Marshal writes, json.Unmarshal reads: within the nesting
    limit every printable value parses to itself. *)
Lemma parse_print j : printable j = true → (Z.of_nat (height j) ≤ 10000)%Z → parse_document (text_of j) = Some (doc_of j).
Proof. intros Hp Hh. apply print_within; [done|]. unfold maxNestingDepth. lia. Qed.

(** ** The text is UTF-8 *)

Definition utf8_bytes (l : list Z) : Prop :=
  ∃ rs, Forall rune_ok rs ∧ l = concat (encode_rune <$> rs).

Lemma utf8_bytes_nil : utf8_bytes [].
Proof. by exists []. Qed.

Lemma utf8_bytes_app l k : utf8_bytes l → utf8_bytes k → utf8_bytes (l ++ k).
Proof.
  intros (rs & Hr & ->) (qs & Hq & ->). exists (rs ++ qs). split; [by apply Forall_app|].
  by rewrite fmap_app, concat_app.
Qed.

Lemma utf8_bytes_rune r : rune_ok r → utf8_bytes (encode_rune r).
Proof. intros Hr. exists [r]. split; [by constructor|]. cbn [fmap list_fmap concat]. by rewrite app_nil_r. Qed.

Lemma utf8_bytes_ascii l : Forall (λ b, 0 ≤ b < 128) l → utf8_bytes l.
Proof.
  induction 1 as [|b l Hb _ IH]; [apply utf8_bytes_nil|]. apply (utf8_bytes_app [b]); [|done].
  rewrite <-encode_rune_1 by done. apply utf8_bytes_rune. unfold rune_ok. lia.
Qed.

Lemma utf8_bytes_range l : utf8_bytes l → Forall is_byte l.
Proof.
  intros (rs & Hr & ->). induction Hr as [|r rs Hr _ IH]; [constructor|].
  rewrite fmap_cons. cbn [concat]. apply Forall_app. split; [by apply encode_rune_bytes|done].
Qed.

Lemma utf8_bytes_valid l : utf8_bytes l → utf8_valid (of_bytes l) = true.
Proof.
  intros Hl. unfold utf8_valid, runes. rewrite bytes_of_of_bytes by (by apply utf8_bytes_range).
  destruct Hl as (rs & Hr & ->). generalize (le_n (length (concat (encode_rune <$> rs)))).
  generalize (length (concat (encode_rune <$> rs))) at 2 3. intros fuel. revert fuel.
  induction Hr as [|r rs Hr _ IH]; intros fuel Hf; [by destruct fuel|].
  rewrite fmap_cons in *. cbn [concat] in *. rewrite length_app in Hf.
  assert (0 < length (encode_rune r))%nat by (unfold encode_rune; repeat case_match; simpl; lia).
  destruct fuel as [|fuel]; [lia|]. cbn [decode_runes]. rewrite decode_encode_rune by done.
  cbn [forallb snd]. apply IH. lia.
Qed.

Lemma quote_utf8 s : utf8_valid s = true → utf8_bytes (bytes_of (quote s)).
Proof.
  intros Hv. rewrite bytes_of_quote by done. apply (utf8_bytes_app [34]); [by apply utf8_bytes_ascii; repeat constructor|].
  apply utf8_bytes_app; [|by apply utf8_bytes_ascii; repeat constructor].
  apply valid_runes in Hv as [Hr _]. unfold quote_body.
  induction Hr as [|[r ok] rs [Hr Hok] _ IH]; [apply utf8_bytes_nil|]. simpl in Hr, Hok. subst ok.
  rewrite fmap_cons. cbn [concat]. apply utf8_bytes_app; [|done]. unfold quote_rune. simpl.
  repeat (case_match; [by apply utf8_bytes_ascii; repeat constructor|]).
  case_match; [|by apply utf8_bytes_rune]. apply utf8_bytes_ascii.
  assert (∀ n, 0 ≤ n < 16 → 0 ≤ hex_digit n < 128) as Hh by (intros; unfold hex_digit; case_match; lia).
  unfold u_escape. repeat constructor; try lia; apply Hh, Z.mod_pos_bound; lia.
Qed.

Lemma separated_utf8 {A} (f : A → list Z) l : Forall (λ a, utf8_bytes (f a)) l → utf8_bytes (separated 44 f l).
Proof.
  induction 1 as [|a l Ha Hl IH]; [apply utf8_bytes_nil|]. destruct l as [|a' l]; [done|].
  change (separated 44 f (a :: a' :: l)) with (f a ++ [44] ++ separated 44 f (a' :: l)).
  apply utf8_bytes_app; [done|]. apply utf8_bytes_app; [by apply utf8_bytes_ascii; repeat constructor|done].
Qed.

Lemma print_utf8 j : printable j = true → utf8_bytes (print j).
Proof.
  assert (∀ c, 0 ≤ c < 128 → utf8_bytes [c]) as Hc by (intros; apply utf8_bytes_ascii; by constructor).
  induction j as [|[]|l|s|items IH|fields IH] using json_nested_ind; intros Hp; cbn [print printable] in *.
  - by apply utf8_bytes_ascii; repeat constructor.
  - by apply utf8_bytes_ascii; repeat constructor.
  - by apply utf8_bytes_ascii; repeat constructor.
  - apply andb_prop in Hp as [Ha _]. apply utf8_bytes_ascii. rewrite forallb_forall in Ha. apply Forall_forall.
    intros b Hb%list_elem_of_In. apply Ha in Hb as [?%Z.leb_le ?%Z.ltb_lt]%andb_prop. lia.
  - by apply quote_utf8.
  - apply (utf8_bytes_app [91]); [by apply Hc|]. apply utf8_bytes_app; [|by apply Hc]. apply separated_utf8.
    rewrite forallb_forall in Hp. rewrite Forall_forall in IH |- *. intros j Hj. apply IH; [done|].
    by apply Hp, list_elem_of_In.
  - apply (utf8_bytes_app [123]); [by apply Hc|]. apply utf8_bytes_app; [|by apply Hc]. apply separated_utf8.
    rewrite forallb_forall in Hp. rewrite Forall_forall in IH |- *. intros f Hf.
    pose proof (Hp f (proj1 (list_elem_of_In _ _) Hf)) as [Hv Hpf]%andb_prop.
    apply utf8_bytes_app; [by apply quote_utf8|]. apply (utf8_bytes_app [58]); [by apply Hc|]. by apply IH.
Qed.

Lemma text_utf8 j : printable j = true → utf8_valid (text_of j) = true.
Proof. intros. by apply utf8_bytes_valid, print_utf8. Qed.

(** ** Positive integers *)

Lemma digit_char x : (x < 10)%N → byte_of (pretty_N_char x) = 48 + Z.of_N x.
Proof.
  intros Hx. assert (x ∈ [0; 1; 2; 3; 4; 5; 6; 7; 8; 9]%N) as Hin.
  { rewrite !elem_of_cons. assert (x = 0 ∨ x = 1 ∨ x = 2 ∨ x = 3 ∨ x = 4 ∨ x = 5 ∨ x = 6 ∨ x = 7 ∨ x = 8 ∨ x = 9)%N by lia.
    tauto. }
  rewrite !elem_of_cons in Hin. repeat destruct Hin as [->|Hin]; try done. by apply not_elem_of_nil in Hin.
Qed.

Lemma digits_value_go x s : digits_value 0 (pretty_N_go x s) = digits_value (Z.of_N x) s.
Proof.
  revert s. induction x as [x IH] using (well_founded_induction N.lt_wf_0). intros s.
  destruct (decide (x = 0)%N) as [->|]; [by rewrite pretty_N_go_0|].
  rewrite pretty_N_go_step by lia. rewrite IH by (apply N.div_lt; lia). cbn [digits_value].
  rewrite digit_char by (apply N.mod_lt; lia).
  assert (0 ≤ Z.of_N (x `mod` 10) < 10) by (rewrite N2Z.inj_mod; apply Z.mod_pos_bound; lia).
  assert (Z.of_N x = Z.of_N (x `div` 10) * 10 + Z.of_N (x `mod` 10)) as ->.
  { rewrite N2Z.inj_div, N2Z.inj_mod. change (Z.of_N 10) with 10. zdiv. }
  revert H. generalize (Z.of_N (x `mod` 10)). intros m H.
  replace ((48 <=? 48 + m) && (48 + m <=? 57)) with true by lia. f_equal. lia.
Qed.

Lemma go_head x s : (0 < x)%N → ∃ c t, pretty_N_go x s = String c t ∧ 49 ≤ byte_of c ≤ 57.
Proof.
  revert s. induction x as [x IH] using (well_founded_induction N.lt_wf_0). intros s Hx.
  rewrite pretty_N_go_step by done. destruct (decide (x / 10 = 0)%N) as [E|].
  - rewrite E, pretty_N_go_0. eexists _, _. split; [done|]. apply N.div_small_iff in E; [|done].
    rewrite N.mod_small, digit_char by done. lia.
  - apply IH; [apply N.div_lt; lia|by apply N.neq_0_lt_0].
Qed.

Lemma digits_value_digits acc s n : digits_value acc s = Some n → Forall (λ b, is_digit b = true) (bytes_of s).
Proof.
  revert acc. induction s as [|c s IH]; intros acc; [constructor|]. cbn [digits_value bytes_of].
  destruct ((48 <=? byte_of c) && (byte_of c <=? 57)) eqn:E; [|done]. intros. constructor; [exact E|by eapply IH].
Qed.

Lemma span_all l : Forall (λ b, is_digit b = true) l → span_digits l = (l, []).
Proof. induction 1 as [|b l Hb _ IH]; [done|]. simpl. by rewrite Hb, IH. Qed.

Lemma itoa_spec n : 0 < n → ∃ c t, itoa n = String c t ∧ 49 ≤ byte_of c ≤ 57 ∧ digits_value 0 (itoa n) = Some n.
Proof.
  intros Hn. destruct n as [|p|p]; [lia| |lia]. unfold itoa.
  change (pretty (Z.pos p)) with (pretty_N_go (Npos p) "").
  destruct (go_head (Npos p) "") as (c & t & E & Hc); [lia|]. exists c, t. split_and!; [done|lia|lia|].
  by rewrite digits_value_go.
Qed.

Lemma printable_itoa n : 0 < n → printable (JNumber (itoa n)) = true.
Proof.
  intros (c & t & E & Hc & Hd)%itoa_spec. cbn [printable]. apply digits_value_digits in Hd.
  apply andb_true_intro. split.
  - apply forallb_forall. intros b Hb%list_elem_of_In. rewrite Forall_forall in Hd. specialize (Hd b Hb).
    unfold is_digit in Hd. apply andb_prop in Hd as [?%Z.leb_le ?%Z.leb_le]. lia.
  - rewrite E in *. cbn [bytes_of] in *. unfold scan_number. cbn [head_is].
    rewrite (proj2 (Z.eqb_neq _ 45)) by lia. unfold scan_int. cbn [head_is]. rewrite (proj2 (Z.eqb_neq _ 48)) by lia.
    unfold digits1. by rewrite span_all.
Qed.

Lemma json_int_itoa n : 0 < n < 2 ^ 63 → json_int (itoa n) = Some n.
Proof.
  intros [Hn Hlt]. destruct (itoa_spec n Hn) as (c & t & E & Hc & Hd). unfold json_int. rewrite E in *.
  rewrite (proj2 (Z.eqb_neq _ 45)) by lia. rewrite Hd. cbn [mbind option_bind].
  by replace ((- 2 ^ 63 <=? n) && (n <? 2 ^ 63)) with true by lia.
Qed.

End GoPrint.
