(* ===== verification/Reconcile.v ===== *)
(** * Counter reconciliation (internal/reconcile/reconcile.go)

    xray's raw counters reset on every xray restart; a [Tracker] turns one
    direction's readings into a durable total and a speed estimate. The
    theorems compare it with a reference reading of the whole history. *)

From Stdlib.Floats Require Import SpecFloat.
From S2P Require Import Prelude.

Local Open Scope Z_scope.

Module Reconcile.

(** ** State *)

(** One poll's reconciled delta with its elapsed window; [ds_elapsed] is a
    time.Duration, int64 nanoseconds. *)
Record deltaSample := DeltaSample { ds_bytes : Z; ds_elapsed : Z }.

Record Tracker := {
  creditBaseline : bool;
  seen : bool;
  lastRaw : Z;
  lastDelta : Z;
  total : Z;
  window : list deltaSample;  (* [2]deltaSample, the ring of recent deltas *)
  samples : nat;
}.

Definition zeroSample : deltaSample := DeltaSample 0 0.

Definition NewTracker (credit : bool) : Tracker := {|
  creditBaseline := credit; seen := false; lastRaw := 0; lastDelta := 0;
  total := 0; window := [zeroSample; zeroSample]; samples := 0%nat;
|}.

(** ** Operations *)

Definition reconcile_delta (last raw : Z) : Z :=
  if last <=? raw then u64_sub raw last else raw.

Definition Add (raw elapsed : Z) (t : Tracker) : Tracker :=
  if negb (seen t) then
    {| creditBaseline := creditBaseline t; seen := true; lastRaw := raw;
       lastDelta := lastDelta t;
       total := if creditBaseline t then raw else total t;
       window := window t; samples := samples t |}
  else
    let delta := reconcile_delta (lastRaw t) raw in
    {| creditBaseline := creditBaseline t; seen := true; lastRaw := raw;
       lastDelta := delta;
       total := u64_add (total t) delta;
       window := <[(samples t `mod` 2)%nat := DeltaSample delta elapsed]> (window t);
       samples := S (samples t) |}.

Definition Total (t : Tracker) : Z := total t.
Definition LastDelta (t : Tracker) : Z := lastDelta t.

(** *** Speed: float64 arithmetic in the standard's exact software form *)

Definition prec := 53.
Definition emax := 1024.

(** float64(n): round to nearest, ties to even. *)
Definition float64_of_Z (n : Z) : spec_float := binary_normalize prec emax n 0 false.

Definition billion : Z := 1000000000.

(** time.Duration.Seconds. *)
Definition Seconds (d : Z) : spec_float :=
  SFadd prec emax (float64_of_Z (Z.quot d billion))
    (SFdiv prec emax (float64_of_Z (Z.rem d billion)) (float64_of_Z billion)).

Section WithRuntime.
Context `{GoRuntime}.

(** uint64(f): truncation towards zero where the result fits. *)
Definition uint64_of_float (f : spec_float) : Z :=
  match f with
  | S754_zero _ => 0
  | S754_finite false m e =>
      let n := Z.shiftl (Zpos m) e in
      if n <? u64_mod then n else float_overflow f
  | S754_finite true m e =>
      if Z.shiftl (Zpos m) e =? 0 then 0 else float_overflow f
  | _ => float_overflow f
  end.

(** The loop's sums: bytes wrap as uint64, elapsed as int64. *)
Definition sum_samples (l : list deltaSample) : Z * Z :=
  fold_left (λ acc s, (u64_add acc.1 (ds_bytes s), i64 (acc.2 + ds_elapsed s))) l (0, 0).

Definition speed_of (l : list deltaSample) : Z :=
  let '(bytes, elapsed) := sum_samples l in
  if elapsed <=? 0 then 0
  else uint64_of_float (SFdiv prec emax (float64_of_Z bytes) (Seconds elapsed)).

(** for i := max(samples-2, 0); i < samples; i++ reads window[i%2]. *)
Definition recent (t : Tracker) : list deltaSample :=
  (λ i, nth (i `mod` 2)%nat (window t) zeroSample) <$>
    seq (samples t - 2) (samples t - (samples t - 2)).

Definition Speed (t : Tracker) : Z :=
  if (samples t =? 0)%nat then 0 else speed_of (recent t).

End WithRuntime.

(** ** The reference: a whole history at once *)

(** A reading is the raw counter with the time elapsed since the poll before. *)
Definition reading : Type := Z * Z.

Definition run (h : list reading) (t : Tracker) : Tracker :=
  fold_left (λ t r, Add r.1 r.2 t) h t.

(** The deltas of the readings that follow [last]: the growth of the
    counter, or all of it when it fell. *)
Fixpoint deltas (last : Z) (h : list reading) : list deltaSample :=
  match h with
  | [] => []
  | (raw, elapsed) :: h' =>
      DeltaSample (if last <=? raw then u64_sub raw last else raw) elapsed :: deltas raw h'
  end.

Definition sum_bytes (l : list deltaSample) : Z := foldr (λ s acc, ds_bytes s + acc) 0 l.

(** The last two elements, in order. *)
Definition last_two {A} (l : list A) : list A := drop (length l - 2) l.

Fixpoint last_raw (r0 : Z) (h : list reading) : Z :=
  match h with [] => r0 | (raw, _) :: h' => last_raw raw h' end.

(** ** Lemmas *)

Lemma deltas_app r0 h raw e :
  deltas r0 (h ++ [(raw, e)]) =
    deltas r0 h ++ [DeltaSample (reconcile_delta (last_raw r0 h) raw) e].
Proof. revert r0. induction h as [|[r e'] h IH]; intros; simpl; [|rewrite IH]; done. Qed.

Lemma length_deltas r0 h : length (deltas r0 h) = length h.
Proof. revert r0. induction h as [|[r e] h IH]; intros; simpl; auto. Qed.

Lemma sum_bytes_app l1 l2 : sum_bytes (l1 ++ l2) = sum_bytes l1 + sum_bytes l2.
Proof. unfold sum_bytes. induction l1; simpl; lia. Qed.

Lemma last_raw_snoc r0 h raw e : last_raw r0 (h ++ [(raw, e)]) = raw.
Proof. revert r0. induction h as [|[r e'] h IH]; intros; simpl; auto. Qed.

Lemma run_snoc h raw e t : run (h ++ [(raw, e)]) t = Add raw e (run h t).
Proof. unfold run. by rewrite fold_left_app. Qed.

(** What a tracker holds after the baseline [r0] and the readings [h]. *)
Record tracks (credit : bool) (r0 : Z) (h : list reading) (t : Tracker) : Prop := {
  tracks_credit : creditBaseline t = credit;
  tracks_seen : seen t = true;
  tracks_last : lastRaw t = last_raw r0 h;
  tracks_total :
    total t = u64 ((if credit then r0 else 0) + sum_bytes (deltas r0 h));
  tracks_delta :
    lastDelta t = default 0 (ds_bytes <$> last (deltas r0 h));
  tracks_samples : samples t = length h;
  tracks_window_len : length (window t) = 2%nat;
  tracks_window i :
    (length h - 2 ≤ i < length h)%nat →
    window t !! (i mod 2)%nat = deltas r0 h !! i;
}.

Lemma tracks_baseline credit r0 e :
  is_u64 r0 → tracks credit r0 [] (Add r0 e (NewTracker credit)).
Proof.
  intros. split; try done; simpl.
  - destruct credit; rewrite ?Z.add_0_r; [by rewrite u64_small|done].
  - intros i ?. lia.
Qed.

Lemma mod2_neq i n :
  (n - 1 ≤ i < n)%nat → (i mod 2)%nat ≠ (n mod 2)%nat.
Proof.
  intros ?. assert (n = S i) as -> by lia.
  rewrite <-!Nat.bit0_mod, Nat.bit0_odd, Nat.bit0_odd, Nat.odd_succ.
  rewrite <-Nat.negb_odd. by destruct (Nat.odd i).
Qed.

Lemma tracks_step credit r0 h t raw e :
  tracks credit r0 h t → tracks credit r0 (h ++ [(raw, e)]) (Add raw e t).
Proof.
  intros [Hc Hs Hl Ht Hd Hn Hw Hi]. unfold Add. rewrite Hs. simpl.
  split; simpl; rewrite ?deltas_app, ?last_raw_snoc, ?length_app; try done.
  - unfold u64_add. rewrite Ht, Hl, u64_add_l, sum_bytes_app. simpl. f_equal. lia.
  - rewrite last_snoc. simpl. by rewrite Hl.
  - simpl. lia.
  - by rewrite length_insert.
  - intros i Hlt. simpl in Hlt. rewrite Hn, Hl.
    destruct (decide (i = length h)) as [->|Hne].
    + rewrite list_lookup_insert_eq, lookup_app_r, length_deltas, Nat.sub_diag;
        rewrite ?length_deltas; [done|lia|].
      pose proof (Nat.mod_upper_bound (length h) 2). lia.
    + rewrite list_lookup_insert_ne, lookup_app_l by
        (rewrite ?length_deltas; try apply not_eq_sym, mod2_neq; lia).
      apply Hi. lia.
Qed.

Lemma tracks_run credit r0 e h :
  is_u64 r0 → tracks credit r0 h (run ((r0, e) :: h) (NewTracker credit)).
Proof.
  intros Hr. induction h as [|[raw e'] h IH] using rev_ind.
  - by apply tracks_baseline.
  - change ((r0, e) :: h ++ [(raw, e')]) with (((r0, e) :: h) ++ [(raw, e')]).
    rewrite run_snoc. by apply tracks_step.
Qed.

Lemma lookup_seq_map_ext {A} (f : nat → A) (l : list A) k n :
  (k + n = length l)%nat →
  (∀ i, (k ≤ i < length l)%nat → l !! i = Some (f i)) →
  f <$> seq k n = drop k l.
Proof.
  intros Hlen Hf. apply list_eq. intros i. rewrite lookup_drop, list_lookup_fmap.
  destruct (decide (i < n)%nat).
  - rewrite lookup_seq_lt by done. simpl. rewrite Hf by lia. done.
  - rewrite lookup_seq_ge by lia. simpl. symmetry. apply lookup_ge_None. lia.
Qed.

Lemma tracks_recent credit r0 h t :
  tracks credit r0 h t → recent t = last_two (deltas r0 h).
Proof.
  intros [_ _ _ _ _ Hn Hw Hi]. unfold recent, last_two.
  rewrite Hn, length_deltas. apply lookup_seq_map_ext; rewrite length_deltas; [lia|].
  intros i Hlt. rewrite <-Hi by lia. rewrite nth_lookup.
  destruct (window t !! (i mod 2)%nat) as [s|] eqn:E; [done|].
  apply lookup_ge_None in E. pose proof (Nat.mod_upper_bound i 2). lia.
Qed.

(** ** The contract of a tracker *)

(** C8: after a baseline reading and any sequence of further readings the
    tracker refines the reference: its durable total is the credited
    baseline plus the sum of the per-poll deltas (as a uint64), its last
    delta is the newest one (0 on the baseline poll), and its speed is
    computed from exactly the last two deltas and their windows. *)
Theorem tracker_refines_history `{GoRuntime} credit r0 e h :
  is_u64 r0 →
  let t := run ((r0, e) :: h) (NewTracker credit) in
  Total t = u64 ((if credit then r0 else 0) + sum_bytes (deltas r0 h)) ∧
  LastDelta t = default 0 (ds_bytes <$> last (deltas r0 h)) ∧
  Speed t = (if bool_decide (h = []) then 0 else speed_of (last_two (deltas r0 h))).
Proof.
  intros Hr t. pose proof (tracks_run credit r0 e h Hr) as Ht. fold t in Ht.
  split; [apply (tracks_total _ _ _ _ Ht)|]. split; [apply (tracks_delta _ _ _ _ Ht)|].
  unfold Speed. rewrite (tracks_recent _ _ _ _ Ht), (tracks_samples _ _ _ _ Ht).
  by destruct h.
Qed.

(** ** Restarts *)

(** What really happened between two polls, which the panel cannot see:
    the counter moved on by [d], or xray restarted — [lost] bytes were
    counted after the last poll and before the restart, and the new
    counter stands at [raw]. *)
Inductive movement := Moved (d : Z) | Restarted (lost raw : Z).

Definition raw_after (last : Z) (m : movement) : Z :=
  match m with Moved d => last + d | Restarted _ raw => raw end.

Definition moved_bytes (m : movement) : Z :=
  match m with Moved d => d | Restarted lost raw => lost + raw end.

(** The movement is one of real uint64 counters. *)
Definition movement_ok (last : Z) (m : movement) : Prop :=
  is_u64 (raw_after last m) ∧
  match m with Moved d => 0 ≤ d | Restarted lost raw => 0 ≤ lost end.

(** A restart the next reading gives away, without unseen traffic. *)
Definition movement_visible (last : Z) (m : movement) : Prop :=
  match m with Moved _ => True | Restarted lost raw => lost = 0 ∧ raw < last end.

Fixpoint movements_ok (last : Z) (ms : list movement) : Prop :=
  match ms with
  | [] => True
  | m :: ms => movement_ok last m ∧ movements_ok (raw_after last m) ms
  end.

Fixpoint movements_visible (last : Z) (ms : list movement) : Prop :=
  match ms with
  | [] => True
  | m :: ms => movement_visible last m ∧ movements_visible (raw_after last m) ms
  end.

(** The readings the panel takes while [ms] happen. *)
Fixpoint observed (last e : Z) (ms : list movement) : list reading :=
  match ms with
  | [] => []
  | m :: ms => (raw_after last m, e) :: observed (raw_after last m) e ms
  end.

Definition true_bytes (ms : list movement) : Z :=
  foldr (λ m acc, moved_bytes m + acc) 0 ms.

Lemma delta_le_moved last m :
  is_u64 last → movement_ok last m →
  0 ≤ (if last <=? raw_after last m then u64_sub (raw_after last m) last else raw_after last m)
    ≤ moved_bytes m.
Proof.
  unfold u64_sub. intros Hl [Hr Hm].
  destruct (last <=? raw_after last m) eqn:E.
  - apply Z.leb_le in E. rewrite u64_small by (unfold is_u64 in *; lia).
    destruct m; simpl in *; unfold is_u64 in *; lia.
  - apply Z.leb_gt in E. destruct m; simpl in *; unfold is_u64 in *; lia.
Qed.

Lemma delta_visible last m :
  is_u64 last → movement_ok last m → movement_visible last m →
  (if last <=? raw_after last m then u64_sub (raw_after last m) last else raw_after last m) =
    moved_bytes m.
Proof.
  unfold u64_sub. intros Hl [Hr Hm] Hv.
  destruct (last <=? raw_after last m) eqn:E.
  - apply Z.leb_le in E. rewrite u64_small by (unfold is_u64 in *; lia).
    destruct m; simpl in *; lia.
  - apply Z.leb_gt in E. destruct m; simpl in *; lia.
Qed.

Lemma deltas_bounds r0 e ms :
  is_u64 r0 → movements_ok r0 ms →
  0 ≤ sum_bytes (deltas r0 (observed r0 e ms)) ≤ true_bytes ms ∧
  (movements_visible r0 ms →
   sum_bytes (deltas r0 (observed r0 e ms)) = true_bytes ms).
Proof.
  revert r0. induction ms as [|m ms IH]; intros r0 Hr Hok; [simpl; lia|].
  destruct Hok as [Hm Hok]. simpl.
  pose proof (delta_le_moved _ _ Hr Hm) as Hd.
  destruct (IH (raw_after r0 m) (proj1 Hm) Hok) as [Hb Hv].
  split; [lia|]. intros [Hvm Hvs]. rewrite (delta_visible _ _ Hr Hm Hvm), Hv; done.
Qed.

(** Reconciliation never over-counts, whatever restarts happen: a
    durable tracker's total is at most the traffic that really moved since
    its baseline, and it is exactly that traffic when every restart is
    visible to the next reading and lost nothing. *)
Theorem deltas_sound r0 e ms :
  is_u64 r0 → movements_ok r0 ms → true_bytes ms < u64_mod →
  let t := run ((r0, e) :: observed r0 e ms) (NewTracker false) in
  0 ≤ Total t ≤ true_bytes ms ∧ (movements_visible r0 ms → Total t = true_bytes ms).
Proof.
  intros Hr Hok Hlt t. pose proof (tracks_run false r0 e (observed r0 e ms) Hr) as Ht. fold t in Ht.
  destruct (deltas_bounds r0 e ms Hr Hok) as [Hb Hv].
  unfold Total. rewrite (tracks_total _ _ _ _ Ht). simpl.
  rewrite u64_small by (unfold is_u64; lia). done.
Qed.

(** ** Closed runs *)

Lemma tracker_refines_history_witness :
  is_u64 5 ∧
  let t := run ((5, 0) :: [(9, 7); (3, 7)]) (NewTracker true) in
  Total t = 12 ∧ LastDelta t = 3.
Proof.
  split; [unfold is_u64, u64_mod; lia|].
  assert (is_u64 5) as H5 by (unfold is_u64, u64_mod; lia).
  destruct (tracker_refines_history (H:=AsciiRuntime.runtime) true 5 0 [(9, 7); (3, 7)] H5)
    as (Ht & Hd & _).
  split; [rewrite Ht; reflexivity|rewrite Hd; reflexivity].
Defined.

Lemma deltas_sound_witness :
  movements_ok 5 [Moved 4; Restarted 0 3] ∧
  Total (run ((5, 7) :: observed 5 7 [Moved 4; Restarted 0 3]) (NewTracker false)) = 7.
Proof.
  assert (movements_ok 5 [Moved 4; Restarted 0 3]) as Hok
    by (vm_compute; intuition discriminate).
  split; [exact Hok|].
  assert (is_u64 5) as H5 by (unfold is_u64, u64_mod; lia).
  apply (deltas_sound 5 7 [Moved 4; Restarted 0 3] H5 Hok); [reflexivity|].
  vm_compute. intuition discriminate.
Defined.

(** 3 MB in two 5-second polls is 300000 bytes per second. *)
Example speed_example :
  Speed (H:=AsciiRuntime.runtime)
    (run [(100, 0); (1000100, 5 * billion); (3000100, 5 * billion)] (NewTracker false))
  = 300000.
Proof. vm_compute. reflexivity. Qed.

End Reconcile.
