(* ===== verification/XrayConfig.v ===== *)
(** * The parsed xray config (internal/xrayconfig/xrayconfig.go, view.go, source.go)

    From the decoded [config] (the decoding itself is the argument [decode],
    [XrayDecode.decode] in production) to the two values the rest of the Panel reads:
    the [RosterParse] (table labels and adoptable VLESS clients) and the
    [View] (ordered inbounds for profiles and mutations), plus the watched
    source's parse step with its roster version. *)

From Stdlib Require Import Ascii String.
From S2P Require Import Prelude GoJson.


Module XrayConfig.
Import GoJson.

(** ** Data *)

Record Label := { l_protocol : string; l_security : string; l_transport : string }.

#[export] Instance Label_eq_dec : EqDecision Label.
Proof. solve_decision. Defined.

(** One config-defined user's table labels. *)
Record User := { u_labels : list Label }.

Record Client := { c_client_id : string; c_inbounds : list string }.

#[export] Instance User_eq_dec : EqDecision User.
Proof. solve_decision. Defined.
#[export] Instance Client_eq_dec : EqDecision Client.
Proof. solve_decision. Defined.

(** [rp_labels] is None for Go's nil map, the zero value before any parse. *)
Record RosterParse := {
  rp_labels : option (gmap string User);
  rp_clients : gmap string Client;
}.

(** The decoded document: only the fields the Panel reads. A RawMessage is
    the value it denotes, None when the key is absent. *)
Record clientConfig := {
  cc_email : string; cc_id : string; cc_flow : string; cc_reverse : option json;
}.

Record inboundSettings := {
  is_clients : list clientConfig; is_flow : string; is_decryption : string;
}.

Record rawConfig := { rc_header : option json }.

Record httpTransportConfig := {
  htc_path : string; htc_host : string;
  htc_headers : list (string * string);  (* a map, in iteration order *)
}.

Record grpcConfig := { gc_service_name : string; gc_authority : string; gc_multi_mode : bool }.

Record xhttpConfig := {
  xc_path : string; xc_host : string; xc_mode : string; xc_extra : option json;
}.

Record tlsConfig := {
  tc_server_name : string; tc_alpn : list string; tc_reject_unknown_sni : bool;
}.

Record realityConfig := { rc_server_names : list string; rc_short_ids : list string }.

Record streamSettingsConfig := {
  ss_network : string; ss_security : string; ss_final_mask : option json;
  ss_tls : tlsConfig; ss_reality : realityConfig;
  ss_raw : option rawConfig; ss_tcp : option rawConfig;
  ss_websocket : httpTransportConfig; ss_httpupgrade : httpTransportConfig;
  ss_grpc : grpcConfig;
  ss_xhttp : option xhttpConfig; ss_splithttp : option xhttpConfig;
}.

Record inboundConfig := {
  ic_tag : string; ic_protocol : string; ic_port : option json;
  ic_settings : inboundSettings; ic_stream : streamSettingsConfig;
}.

Record config := { cfg_inbounds : list inboundConfig }.

(** *** The inbound view *)

Record InboundUser := {
  iu_email : string; iu_client_id : string; iu_flow : string; iu_reverse : bool;
}.

Record HTTPTransportSettings := { hts_path : string; hts_host : string }.
Record GRPCTransportSettings := {
  gts_service_name : string; gts_authority : string; gts_multi_mode : bool;
}.
Record XHTTPTransportSettings := {
  xts_path : string; xts_host : string; xts_mode : string; xts_extra_configured : bool;
}.

Record TransportSettings := {
  ts_type : string; ts_raw_header_configured : bool; ts_raw_header_type : string;
  ts_final_mask_configured : bool;
  ts_websocket : HTTPTransportSettings; ts_httpupgrade : HTTPTransportSettings;
  ts_grpc : GRPCTransportSettings; ts_xhttp : XHTTPTransportSettings;
}.

Record TLSSettings := {
  tls_server_name : string; tls_reject_unknown_sni : bool; tls_alpn : list string;
}.
Record RealitySettings := { re_server_names : list string; re_short_ids : list string }.

Record SecuritySettings := {
  sec_type : string; sec_tls : TLSSettings; sec_reality : RealitySettings;
}.

Record Inbound := {
  ib_tag : string; ib_protocol : string; ib_port : string;
  ib_flow : string; ib_decryption : string;
  ib_transport : TransportSettings; ib_security : SecuritySettings;
  ib_users : list InboundUser;
}.

(** The accessors clone; with immutable values the view is its list. *)
Record View := { v_inbounds : list Inbound }.

Definition emptyView : View := {| v_inbounds := [] |}.

Section WithRuntime.
Context `{GoRuntime}.

(** ** Field readers *)

Definition configured (value : option json) : bool :=
  match value with None | Some JNull => false | Some _ => true end.

Definition portLabel (raw : option json) : string :=
  match raw with
  | Some (JNumber literal) =>
      match json_int literal with Some port => itoa port | None => "" end
  | Some (JString portRange) => portRange
  | _ => ""
  end.

(** The struct field "type" of an object document: an exact or case-folded
    key, the last one winning; any other shape reads as empty. *)
Definition rawHeaderType (document : option json) : string :=
  match document with
  | Some (JObject fields) =>
      let read (acc : option string) (field : string * json) :=
        acc ← acc;
        if equal_fold field.1 "type" then
          match field.2 with
          | JString s => Some s
          | JNull => Some acc
          | _ => None
          end
        else Some acc in
      default "" (foldl read (Some "") fields)
  | _ => ""
  end.

(** The header map is visited in an order Go leaves open: the first match of
    the list's order is one such visit. *)
Definition effectiveWebSocketHost (settings : httpTransportConfig) : string :=
  if negb (String.eqb (htc_host settings) "") then htc_host settings
  else match list_find (λ h : string * string, equal_fold h.1 "host" = true)
               (htc_headers settings) with
       | Some (_, (_, value)) => value
       | None => ""
       end.

(** ** Labels *)

Definition TransportLabel (network : string) : string :=
  let n := to_lower network in
  if bool_decide (n = "" ∨ n = "tcp" ∨ n = "raw") then "tcp"
  else if bool_decide (n = "splithttp") then "xhttp"
  else n.

(** strings.HasPrefix. *)
Definition has_prefix (s p : string) : bool := String.prefix p s.

(** The first rune upper-cased; the rest of the string follows. *)
Definition upper_first (s : string) : string :=
  match decode_rune (bytes_of s) with
  | None => ""
  | Some (r, _, rest) => to_upper (of_bytes (encode_rune r)) +:+ of_bytes rest
  end.

Definition SecurityLabel (security flow : string) : string :=
  let s := to_lower security in
  let label :=
    if bool_decide (s = "" ∨ s = "none") then "None"
    else if bool_decide (s = "tls") then "TLS"
    else upper_first security in
  if negb (String.eqb label "None") && has_prefix (to_lower flow) "xtls"
  then "XTLS-" +:+ label else label.

(** ** The roster parse *)

Definition roster_state : Type := gmap string User * gmap string Client.

Definition client_label (inbound : inboundConfig) (client : clientConfig) : Label := {|
  l_protocol := to_upper (ic_protocol inbound);
  l_security := SecurityLabel (ss_security (ic_stream inbound)) (cc_flow client);
  l_transport := TransportLabel (ss_network (ic_stream inbound));
|}.

(** slices.Contains then append. *)
Definition append_new {A} `{EqDecision A} (l : list A) (x : A) : list A :=
  if bool_decide (x ∈ l) then l else l ++ [x].

Definition roster_client (inbound : inboundConfig) (st : roster_state)
    (client : clientConfig) : roster_state :=
  let '(labels, clients) := st in
  let email := cc_email client in
  if String.eqb email "" then st
  else
    let old := default [] (u_labels <$> labels !! email) in
    let label := client_label inbound client in
    let labels :=
      if bool_decide (label ∈ old) then labels
      else <[email := {| u_labels := old ++ [label] |}]> labels in
    if negb (String.eqb (to_upper (ic_protocol inbound)) "VLESS") then (labels, clients)
    else
      let collected := default {| c_client_id := cc_id client; c_inbounds := [] |}
                         (clients !! email) in
      let tags :=
        if negb (String.eqb (ic_tag inbound) "")
        then append_new (c_inbounds collected) (ic_tag inbound)
        else c_inbounds collected in
      (labels, <[email := {| c_client_id := c_client_id collected; c_inbounds := tags |}]> clients).

Definition roster_inbound (st : roster_state) (inbound : inboundConfig) : roster_state :=
  if String.eqb (ic_protocol inbound) "" then st
  else foldl (roster_client inbound) st (is_clients (ic_settings inbound)).

Definition buildRosterParse (cfg : config) : RosterParse :=
  let '(labels, clients) := foldl roster_inbound (∅, ∅) (cfg_inbounds cfg) in
  {| rp_labels := Some labels; rp_clients := clients |}.

(** ** The view *)

(** The newer spelling of a settings object wins over the older one. *)
Definition newer {A} (new old : option A) : option A :=
  match new with Some _ => new | None => old end.

Definition buildUser (source : clientConfig) : option InboundUser :=
  if String.eqb (cc_email source) "" then None
  else Some {| iu_email := cc_email source; iu_client_id := cc_id source;
               iu_flow := cc_flow source; iu_reverse := configured (cc_reverse source) |}.

Definition buildInbound (source : inboundConfig) : Inbound :=
  let ss := ic_stream source in
  let raw := newer (ss_raw ss) (ss_tcp ss) in
  let xhttp := newer (ss_xhttp ss) (ss_splithttp ss) in
  {| ib_tag := ic_tag source;
     ib_protocol := ic_protocol source;
     ib_port := portLabel (ic_port source);
     ib_flow := is_flow (ic_settings source);
     ib_decryption := is_decryption (ic_settings source);
     ib_transport := {|
       ts_type := ss_network ss;
       ts_raw_header_configured := default false ((λ r, configured (rc_header r)) <$> raw);
       ts_raw_header_type := default "" ((λ r, rawHeaderType (rc_header r)) <$> raw);
       ts_final_mask_configured := configured (ss_final_mask ss);
       ts_websocket := {| hts_path := htc_path (ss_websocket ss);
                          hts_host := effectiveWebSocketHost (ss_websocket ss) |};
       ts_httpupgrade := {| hts_path := htc_path (ss_httpupgrade ss);
                            hts_host := htc_host (ss_httpupgrade ss) |};
       ts_grpc := {| gts_service_name := gc_service_name (ss_grpc ss);
                     gts_authority := gc_authority (ss_grpc ss);
                     gts_multi_mode := gc_multi_mode (ss_grpc ss) |};
       ts_xhttp := match xhttp with
         | Some x => {| xts_path := xc_path x; xts_host := xc_host x; xts_mode := xc_mode x;
                        xts_extra_configured := configured (xc_extra x) |}
         | None => {| xts_path := ""; xts_host := ""; xts_mode := "";
                      xts_extra_configured := false |}
         end;
     |};
     ib_security := {|
       sec_type := ss_security ss;
       sec_tls := {| tls_server_name := tc_server_name (ss_tls ss);
                     tls_reject_unknown_sni := tc_reject_unknown_sni (ss_tls ss);
                     tls_alpn := tc_alpn (ss_tls ss) |};
       sec_reality := {| re_server_names := rc_server_names (ss_reality ss);
                         re_short_ids := rc_short_ids (ss_reality ss) |};
     |};
     ib_users := omap buildUser (is_clients (ic_settings source)) |}.

Definition buildView (cfg : config) : View :=
  {| v_inbounds := buildInbound <$> cfg_inbounds cfg |}.

(** ** Managed inbounds *)

Definition Managed (inbound : Inbound) : bool :=
  negb (String.eqb (ib_tag inbound) "") && equal_fold (ib_protocol inbound) "vless".

Definition DefaultFlow (inbound : Inbound) : string :=
  match ib_users inbound with
  | user :: _ => iu_flow user
  | [] =>
      if negb (String.eqb (sec_type (ib_security inbound)) "reality") then ""
      else if bool_decide (ts_type (ib_transport inbound) = "tcp" ∨
                           ts_type (ib_transport inbound) = "raw")
      then "xtls-rprx-vision" else ""
  end.

(** ** The watched source's parse *)

Inductive ErrorReason := ReadFailed | ParseFailed.

Record Parsed := { p_roster : RosterParse; p_version : Z; p_view : View }.

(** The zero value before any parse. *)
Definition zeroParsed : Parsed := {|
  p_roster := {| rp_labels := None; rp_clients := ∅ |}; p_version := 0; p_view := emptyView;
|}.

(** maps.EqualFunc: a nil map equals an empty one. *)
Definition sameRoster (a b : RosterParse) : bool :=
  bool_decide (default ∅ (rp_labels a) = default ∅ (rp_labels b)) &&
  bool_decide (rp_clients a = rp_clients b).

Definition next_parsed (previous : Parsed) (roster : RosterParse) (view : View) : Parsed :=
  {| p_roster := roster;
     p_version :=
       if bool_decide (rp_labels (p_roster previous) = None)
          || negb (sameRoster (p_roster previous) roster)
       then u64_add (p_version previous) 1 else p_version previous;
     p_view := view |}.

Section Decode.
(** json.Unmarshal of a document into [config]. *)
Variable decode : string → option config.

Definition parse (document : string) : option (RosterParse * View) :=
  cfg ← decode document; Some (buildRosterParse cfg, buildView cfg).

Definition Parse (document : string) : option (gmap string User) :=
  cfg ← decode document; rp_labels (buildRosterParse cfg).

Definition ParseView (document : string) : option View :=
  cfg ← decode document; Some (buildView cfg).

Definition parseSource (previous : Parsed) (document : string) : result ErrorReason Parsed :=
  match parse document with
  | None => Err ParseFailed
  | Some (roster, view) => Ok (next_parsed previous roster view)
  end.

End Decode.

(** ** Reference readings of a config *)

(** Every client entry of an inbound with a protocol, in config order. *)
Definition entries (inbounds : list inboundConfig) : list (inboundConfig * clientConfig) :=
  inbounds ≫= λ ib,
    if String.eqb (ic_protocol ib) "" then [] else pair ib <$> is_clients (ic_settings ib).

Definition entries_for (email : string) (es : list (inboundConfig * clientConfig)) :=
  filter (λ p, cc_email p.2 = email) es.

Definition vless_entry (p : inboundConfig * clientConfig) : Prop :=
  to_upper (ic_protocol p.1) = "VLESS".

#[export] Instance vless_entry_dec p : Decision (vless_entry p).
Proof. unfold vless_entry. apply _. Defined.

(** Duplicates collapsed onto their first occurrence. *)
Definition dedupe {A} `{EqDecision A} (l : list A) : list A := foldl append_new [] l.

Definition labels_of (es : list (inboundConfig * clientConfig)) : list Label :=
  dedupe ((λ p, client_label p.1 p.2) <$> es).

Definition tags_of (es : list (inboundConfig * clientConfig)) : list string :=
  dedupe (filter (λ t, t ≠ "") ((λ p, ic_tag p.1) <$> es)).

Definition user_of (es : list (inboundConfig * clientConfig)) : option User :=
  match es with [] => None | _ => Some {| u_labels := labels_of es |} end.

Definition client_of (es : list (inboundConfig * clientConfig)) : option Client :=
  match es with
  | [] => None
  | p :: _ => Some {| c_client_id := cc_id p.2; c_inbounds := tags_of es |}
  end.

(** ** Lemmas *)

Lemma append_new_NoDup {A} `{EqDecision A} (l : list A) x :
  NoDup l → NoDup (append_new l x).
Proof.
  unfold append_new. intros Hl. case_bool_decide as Hx; [done|].
  apply NoDup_app. split_and!; [done| |apply NoDup_singleton].
  intros y Hy ->%list_elem_of_singleton. done.
Qed.

Lemma elem_of_append_new {A} `{EqDecision A} (l : list A) x y :
  y ∈ append_new l x ↔ y ∈ l ∨ y = x.
Proof.
  unfold append_new. case_bool_decide as Hx; [split; [by left|]; by intros [?| ->]|].
  by rewrite elem_of_app, list_elem_of_singleton.
Qed.

Lemma elem_of_append_new_all {A} `{EqDecision A} (l xs : list A) y :
  y ∈ foldl append_new l xs ↔ y ∈ l ∨ y ∈ xs.
Proof.
  revert l. induction xs as [|x xs IH]; intros l; simpl.
  - split; [by left|]. by intros [?|?%not_elem_of_nil].
  - rewrite IH, elem_of_append_new, elem_of_cons. tauto.
Qed.

Lemma append_new_all_absorb {A} `{EqDecision A} (l xs : list A) :
  (∀ x, x ∈ xs → x ∈ l) → foldl append_new l xs = l.
Proof.
  induction xs as [|x xs IH]; intros Hx; simpl; [done|].
  unfold append_new at 2. rewrite bool_decide_eq_true_2 by (apply Hx; by left).
  apply IH. intros y Hy. apply Hx. by right.
Qed.

Lemma append_new_all_prefix {A} `{EqDecision A} (l xs : list A) :
  ∃ k, foldl append_new l xs = l ++ k.
Proof.
  revert l. induction xs as [|x xs IH]; intros l; simpl; [exists []; by rewrite app_nil_r|].
  destruct (IH (append_new l x)) as [k ->]. unfold append_new.
  case_bool_decide; [by exists k|]. exists ([x] ++ k). by rewrite <-app_assoc.
Qed.

Lemma dedupe_snoc {A} `{EqDecision A} (l : list A) x :
  dedupe (l ++ [x]) = append_new (dedupe l) x.
Proof. unfold dedupe. by rewrite foldl_app. Qed.

Lemma dedupe_NoDup {A} `{EqDecision A} (l : list A) : NoDup (dedupe l).
Proof.
  induction l as [|x l IH] using rev_ind; [apply NoDup_nil_2|].
  rewrite dedupe_snoc. by apply append_new_NoDup.
Qed.

Lemma elem_of_dedupe {A} `{EqDecision A} (l : list A) y : y ∈ dedupe l ↔ y ∈ l.
Proof.
  induction l as [|x l IH] using rev_ind; [done|].
  rewrite dedupe_snoc, elem_of_append_new, IH.
  by rewrite elem_of_app, list_elem_of_singleton.
Qed.

Lemma roster_fold inbounds st :
  foldl roster_inbound st inbounds =
    foldl (λ st p, roster_client p.1 st p.2) st (entries inbounds).
Proof.
  revert st. induction inbounds as [|ib inbounds IH]; intros st; [done|].
  unfold entries. simpl. rewrite foldl_app. fold (entries inbounds). rewrite <-IH. f_equal.
  unfold roster_inbound. destruct (String.eqb _ ""); [done|].
  generalize (is_clients (ic_settings ib)) as cs.
  intros cs. revert st. induction cs as [|c cs IHc]; intros st; simpl; auto.
Qed.

Lemma entries_for_snoc email es p :
  entries_for email (es ++ [p]) =
    entries_for email es ++ (if decide (cc_email p.2 = email) then [p] else []).
Proof.
  unfold entries_for. rewrite filter_app, filter_cons. by case_decide.
Qed.

Lemma user_of_snoc es p :
  user_of (es ++ [p]) =
    Some {| u_labels := append_new (default [] (u_labels <$> user_of es)) (client_label p.1 p.2) |}.
Proof.
  assert (labels_of (es ++ [p]) = append_new (labels_of es) (client_label p.1 p.2)) as E.
  { unfold labels_of. rewrite fmap_app. apply dedupe_snoc. }
  unfold user_of at 1. rewrite E. by destruct es.
Qed.

Lemma tags_of_snoc es p :
  tags_of (es ++ [p]) =
    if String.eqb (ic_tag p.1) "" then tags_of es else append_new (tags_of es) (ic_tag p.1).
Proof.
  unfold tags_of. rewrite fmap_app, filter_app. simpl. rewrite filter_cons.
  destruct (String.eqb_spec (ic_tag p.1) "") as [->|Hne]; simpl.
  - by rewrite app_nil_r.
  - rewrite decide_True by done. apply dedupe_snoc.
Qed.

Lemma client_of_snoc es p :
  let collected := default {| c_client_id := cc_id p.2; c_inbounds := [] |} (client_of es) in
  client_of (es ++ [p]) = Some {|
    c_client_id := c_client_id collected;
    c_inbounds := if String.eqb (ic_tag p.1) "" then c_inbounds collected
                  else append_new (c_inbounds collected) (ic_tag p.1) |}.
Proof.
  intros collected.
  assert (client_of (es ++ [p]) = Some {| c_client_id := c_client_id collected;
    c_inbounds := tags_of (es ++ [p]) |}) as ->.
  { unfold collected. by destruct es. }
  rewrite tags_of_snoc. unfold collected. destruct es; done.
Qed.

(** The state after any prefix of the entries, email by email. *)
Lemma roster_state_spec es st email :
  st = foldl (λ st p, roster_client p.1 st p.2) (∅, ∅) es →
  email ≠ "" →
  st.1 !! email = user_of (entries_for email es) ∧
  st.2 !! email = client_of (filter vless_entry (entries_for email es)).
Proof.
  intros -> Hne. induction es as [|p es IH] using rev_ind; [done|].
  rewrite foldl_app, entries_for_snoc. simpl.
  destruct (foldl _ _ es) as [labels clients] eqn:E. simpl in IH. destruct IH as [IHl IHc].
  unfold roster_client. destruct (String.eqb_spec (cc_email p.2) "") as [He|He].
  { rewrite decide_False by congruence. by rewrite app_nil_r. }
  case_decide as Hp.
  - subst email. rewrite user_of_snoc, filter_app, filter_cons. rewrite <-IHl.
    assert ((if bool_decide (client_label p.1 p.2 ∈ default [] (u_labels <$> labels !! cc_email p.2))
             then labels else <[cc_email p.2 := {| u_labels :=
               default [] (u_labels <$> labels !! cc_email p.2) ++ [client_label p.1 p.2] |}]> labels)
            !! cc_email p.2 = Some {| u_labels := append_new
               (default [] (u_labels <$> labels !! cc_email p.2)) (client_label p.1 p.2) |}) as EL.
    { unfold append_new. case_bool_decide as Hin; [|by rewrite lookup_insert_eq].
      destruct (labels !! cc_email p.2) as [[u]|]; [done|].
      simpl in Hin. by apply not_elem_of_nil in Hin. }
    destruct (String.eqb_spec (to_upper (ic_protocol p.1)) "VLESS") as [Hv|Hv]; simpl.
    + rewrite decide_True by done. rewrite filter_nil, client_of_snoc, <-IHc.
      split; [exact EL|]. rewrite lookup_insert_eq. by destruct (String.eqb (ic_tag p.1) "").
    + rewrite decide_False by done. rewrite filter_nil, app_nil_r. done.
  - rewrite app_nil_r.
    destruct (negb _); simpl; rewrite ?lookup_insert_ne by done;
      case_bool_decide; simpl; rewrite ?lookup_insert_ne by done; done.
Qed.

Lemma roster_no_empty_email es :
  let st := foldl (λ st p, roster_client p.1 st p.2) (∅, ∅) es in
  st.1 !! "" = None ∧ st.2 !! "" = None.
Proof.
  induction es as [|p es IH] using rev_ind; [done|].
  cbv zeta in *. rewrite foldl_app. simpl. destruct (foldl _ _ es) as [labels clients].
  unfold roster_client. destruct (String.eqb_spec (cc_email p.2) ""); [done|].
  destruct (negb _); simpl; rewrite ?lookup_insert_ne by done;
    case_bool_decide; simpl; rewrite ?lookup_insert_ne by done; done.
Qed.

(** Rosters the successive documents parse to, and how often they change. *)
Fixpoint roster_changes (current : option RosterParse) (rs : list RosterParse) : Z :=
  match rs with
  | [] => 0
  | r :: rs =>
      let moved := match current with Some c => negb (sameRoster c r) | None => true end in
      ((if moved then 1 else 0) + roster_changes (Some r) rs)%Z
  end.

Section Loads.
Variable decode : string → option config.

(** A failed parse keeps the last valid value. *)
Definition load (previous : Parsed) (document : string) : Parsed :=
  match parseSource decode previous document with Ok p => p | Err _ => previous end.

Definition rosters (documents : list string) : list RosterParse :=
  omap (λ d, fst <$> parse decode d) documents.

Lemma buildRosterParse_some cfg : ∃ m, rp_labels (buildRosterParse cfg) = Some m.
Proof. unfold buildRosterParse. destruct (foldl _ _ _). eauto. Qed.

Definition current_roster (p : Parsed) : option RosterParse :=
  match rp_labels (p_roster p) with Some _ => Some (p_roster p) | None => None end.

Lemma load_version p document :
  is_u64 (p_version p) →
  is_u64 (p_version (load p document)) ∧
  ∃ n, p_version (load p document) = u64 (p_version p + n) ∧
    ∀ rest, roster_changes (current_roster p) (rosters (document :: rest)) =
      (n + roster_changes (current_roster (load p document)) (rosters rest))%Z.
Proof.
  intros Hv. unfold load, parseSource, rosters. simpl.
  destruct (decode document) as [cfg|] eqn:E; simpl; last first.
  { unfold parse. rewrite E. simpl. split; [done|]. exists 0%Z.
    rewrite Z.add_0_r, u64_small by done. done. }
  unfold parse. rewrite E. simpl. destruct (buildRosterParse_some cfg) as [m Hm].
  set (b := _ || _). split.
  { destruct b; [apply u64_range|done]. }
  exists (if b then 1 else 0)%Z. split.
  { destruct b; [done|]. by rewrite Z.add_0_r, u64_small. }
  intros rest. unfold current_roster at 2. simpl. rewrite Hm. f_equal.
  unfold b, current_roster. destruct (rp_labels (p_roster p)); done.
Qed.

End Loads.

(** ** Properties *)

(** The roster hand-off lists, for every email, one label per inbound
    entry in config order with exact duplicates collapsed, and adopts the
    VLESS entries only: the first VLESS entry's Client ID and the distinct
    non-empty tags in config order. Nothing is keyed by an empty email. *)
Theorem buildRosterParse_spec cfg email :
  let es := entries_for email (entries (cfg_inbounds cfg)) in
  let rp := buildRosterParse cfg in
  ∃ labels, rp_labels rp = Some labels ∧
    labels !! email = (if String.eqb email "" then None else user_of es) ∧
    rp_clients rp !! email =
      (if String.eqb email "" then None else client_of (filter vless_entry es)).
Proof.
  cbv zeta. unfold buildRosterParse. rewrite roster_fold.
  pose proof (roster_no_empty_email (entries (cfg_inbounds cfg))) as H0.
  pose proof (roster_state_spec (entries (cfg_inbounds cfg)) _ email eq_refl) as H1.
  destruct (foldl _ _ _) as [labels clients]. simpl in *. exists labels.
  split; [done|]. destruct (String.eqb_spec email "") as [->|Hne]; [done|by apply H1].
Qed.

(** The roster version is exactly the count of roster changes (as a
    uint64): documents that fail to parse and edits that leave the roster
    alone do not move it, the first successful parse and every real change
    do. *)
Theorem roster_version_counts decode documents :
  p_version (foldl (load decode) zeroParsed documents) =
    u64 (roster_changes None (rosters decode documents)).
Proof.
  enough (∀ p, is_u64 (p_version p) →
    p_version (foldl (load decode) p documents) =
      u64 (p_version p + roster_changes (current_roster p) (rosters decode documents))) as H1
    by (rewrite H1; [done|by vm_compute]).
  induction documents as [|d documents IH]; intros p Hp; cbn [foldl].
  { by rewrite Z.add_0_r, u64_small. }
  destruct (load_version decode p d Hp) as [Hp' (n & Hn & Hc)].
  rewrite IH, Hn, Hc, u64_add_l by done. f_equal. lia.
Qed.

End WithRuntime.

(** ** Closed runs *)

Module Examples.
Import AsciiRuntime.

Definition plainStream (network security : string) : streamSettingsConfig := {|
  ss_network := network; ss_security := security; ss_final_mask := None;
  ss_tls := {| tc_server_name := ""; tc_alpn := []; tc_reject_unknown_sni := false |};
  ss_reality := {| rc_server_names := []; rc_short_ids := [] |};
  ss_raw := None; ss_tcp := None;
  ss_websocket := {| htc_path := ""; htc_host := ""; htc_headers := [] |};
  ss_httpupgrade := {| htc_path := ""; htc_host := ""; htc_headers := [] |};
  ss_grpc := {| gc_service_name := ""; gc_authority := ""; gc_multi_mode := false |};
  ss_xhttp := None; ss_splithttp := None;
|}.

Definition plainInbound (tag protocol network security : string)
    (clients : list clientConfig) : inboundConfig := {|
  ic_tag := tag; ic_protocol := protocol; ic_port := Some (JNumber "443");
  ic_settings := {| is_clients := clients; is_flow := ""; is_decryption := "none" |};
  ic_stream := plainStream network security;
|}.

Definition client (email id flow : string) : clientConfig :=
  {| cc_email := email; cc_id := id; cc_flow := flow; cc_reverse := None |}.

Definition sample : config := {| cfg_inbounds := [
  plainInbound "vision" "vless" "raw" "reality" [client "a@x" "id-a" "xtls-rprx-vision"];
  plainInbound "ws" "VLESS" "ws" "tls" [client "a@x" "other" ""; client "" "id" ""];
  plainInbound "tr" "trojan" "tcp" "tls" [client "b@x" "" ""]
] |}.

Example sample_clients :
  rp_clients (buildRosterParse sample) =
    {["a@x" := {| c_client_id := "id-a"; c_inbounds := ["vision"; "ws"] |}]}.
Proof. vm_compute. reflexivity. Qed.

Example sample_label :
  (u_labels <$> default ∅ (rp_labels (buildRosterParse sample)) !! "a@x") =
    Some [ {| l_protocol := "VLESS"; l_security := "XTLS-Reality"; l_transport := "tcp" |};
           {| l_protocol := "VLESS"; l_security := "TLS"; l_transport := "ws" |} ].
Proof. vm_compute. reflexivity. Qed.

End Examples.
End XrayConfig.
