(* ===== verification/Store.v ===== *)
(** * The durable store (internal/users/store.go, users.go)

    The SQLite tables as lists of rows in rowid order, and each operation as
    the function its statements compute. An operation that returns an error
    leaves the database as it was: the deferred rollback. SQLite's lower()
    folds ASCII letters only; text comparison is bytewise. *)

From Stdlib Require Import Ascii String.
From stdpp Require Import sorting.
From S2P Require Import Prelude XrayConfig.

Local Open Scope Z_scope.

Module Store.
Import XrayConfig.

(** ** Rows *)

(** A TEXT column holding json.Marshal of a value, or bytes that are not
    JSON (the reads tolerate those and keep what they had). *)
Inductive jsonText (A : Type) := JsonText (a : A) | JsonMalformed.
Arguments JsonText {A} a.
Arguments JsonMalformed {A}.

Definition unmarshal_or {A} (old : A) (t : jsonText A) : A :=
  match t with JsonText a => a | JsonMalformed => old end.

Record usersRow := UsersRow {
  ur_email : string;
  ur_labels : option (jsonText (list Label));  (* None is SQL NULL *)
  ur_up : Z;
  ur_down : Z;
  ur_last_seen : option Z;
  ur_last_ips : option (jsonText (list string));
  ur_disabled : bool;
  ur_first_seen : Z;
}.

Record rosterRow := RosterRow {
  rr_email : string;
  rr_client_id : string;
  rr_inbounds : jsonText (list string);
  rr_disabled : bool;
  rr_deleting : bool;
  rr_created_at : Z;
  rr_updated_at : Z;
}.

Record db := Db {
  t_users : list usersRow;
  t_roster : list rosterRow;
  t_totals : option (Z * Z);  (* the one xray_totals row *)
}.

Definition emptyDb : db := Db [] [] None.

(** A fresh users row: the column defaults. *)
Definition new_users_row (email : string) (first_seen : Z) : usersRow :=
  UsersRow email None 0 0 None None false first_seen.

Definition ur_set_disabled (b : bool) (r : usersRow) : usersRow :=
  UsersRow (ur_email r) (ur_labels r) (ur_up r) (ur_down r) (ur_last_seen r)
    (ur_last_ips r) b (ur_first_seen r).

Definition ur_set_labels (l : list Label) (r : usersRow) : usersRow :=
  UsersRow (ur_email r) (Some (JsonText l)) (ur_up r) (ur_down r) (ur_last_seen r)
    (ur_last_ips r) (ur_disabled r) (ur_first_seen r).

Definition rr_set_flags (disabled deleting : bool) (stamp : Z) (r : rosterRow) : rosterRow :=
  RosterRow (rr_email r) (rr_client_id r) (rr_inbounds r) disabled deleting
    (rr_created_at r) stamp.

Definition rr_set_inbounds (inbounds : list string) (stamp : Z) (r : rosterRow) : rosterRow :=
  RosterRow (rr_email r) (rr_client_id r) (JsonText inbounds) (rr_disabled r)
    (rr_deleting r) (rr_created_at r) stamp.

Definition rr_set_client_id (id : string) (r : rosterRow) : rosterRow :=
  RosterRow (rr_email r) id (rr_inbounds r) (rr_disabled r) (rr_deleting r)
    (rr_created_at r) (rr_updated_at r).

(** ** SQL *)

(** lower(a) = lower(b). *)
Definition lower_eq (a b : string) : bool := String.eqb (ascii_lower a) (ascii_lower b).

(** The first matching row: what QueryRow scans. *)
Fixpoint find_first {A} (p : A → bool) (l : list A) : option A :=
  match l with [] => None | x :: l => if p x then Some x else find_first p l end.

(** UPDATE ... WHERE p. *)
Definition update_where {A} (p : A → bool) (f : A → A) (l : list A) : list A :=
  (λ x, if p x then f x else x) <$> l.

(** DELETE ... WHERE p. *)
Definition delete_where {A} (p : A → bool) (l : list A) : list A :=
  filter (λ x, p x = false) l.

(** INSERT ... ON CONFLICT(key) DO UPDATE: [f] where the key is taken. *)
Definition upsert {A} (key : A → string) (k : string) (fresh : A) (f : A → A)
    (l : list A) : list A :=
  if existsb (λ x, String.eqb (key x) k) l
  then update_where (λ x, String.eqb (key x) k) f l
  else l ++ [fresh].

Definition set_users (u : list usersRow) (d : db) : db := Db u (t_roster d) (t_totals d).
Definition set_roster (r : list rosterRow) (d : db) : db := Db (t_users d) r (t_totals d).

(** ** Errors and records *)

Inductive storeError :=
| ErrEmailTaken (email : string)
| ErrClientIDTaken (email : string)
| ErrRosterNotFound
| ErrUnavailable.  (* the engine failed: the transaction rolled back *)

Record NewRosterUser := {
  nu_email : string; nu_client_id : string; nu_inbounds : list string; nu_labels : list Label;
}.

Record RosterRecord := MkRecord {
  rec_email : string; rec_client_id : string; rec_inbounds : list string;
  rec_created_at : Z; rec_updated_at : Z;
}.

(** [None] fields keep the stored value. *)
Record RosterEdit := {
  ed_client_id : option string; ed_inbounds : option (list string); ed_labels : list Label;
}.

(** One reconciled poll's traffic for a user. *)
Record Delta := { d_email : string; d_up : Z; d_down : Z; d_seen_now : bool }.

(** One online user: the bound IPs and the newest per-IP activity. *)
Record Presence := { pr_email : string; pr_ips : list string; pr_last_seen : Z }.

Section WithRuntime.
Context `{GoRuntime}.

(** ** The mutations *)

(** INSERT ... ON CONFLICT(email) DO UPDATE SET labels, disabled = 0. *)
Definition relabel_user (email : string) (labels : list Label) (stamp : Z)
    (u : list usersRow) : list usersRow :=
  upsert ur_email email
    (ur_set_labels labels (new_users_row email stamp))
    (λ r, ur_set_disabled false (ur_set_labels labels r)) u.

Definition AddRosterUser (user : NewRosterUser) (now : Z) (d : db)
    : result storeError (RosterRecord * db) :=
  let existing := find_first (λ r, lower_eq (rr_email r) (nu_email user)) (t_roster d) in
  let existing_disabled := default false (rr_disabled <$> existing) in
  let emailConflict :=
    match existing with
    | Some r =>
        if rr_deleting r then Some (ErrEmailTaken (rr_email r))  (* delete in progress *)
        else if negb (rr_disabled r) then Some (ErrEmailTaken (rr_email r))
        else None
    | None => None
    end in
  let idConflict :=
    match find_first (λ r, lower_eq (rr_client_id r) (nu_client_id user)) (t_roster d) with
    | Some taken =>
        if negb (equal_fold (rr_email taken) (nu_email user)) || negb existing_disabled
        then Some (ErrClientIDTaken (rr_email taken)) else None
    | None => None
    end in
  match emailConflict, idConflict with
  | Some e, _ => Err e
  | None, Some e => Err e
  | None, None =>
      let created := if existing_disabled then default now (rr_created_at <$> existing) else now in
      let roster :=
        if existing_disabled
        then update_where (λ r, lower_eq (rr_email r) (nu_email user))
               (λ r, rr_set_flags false (rr_deleting r) now
                       (rr_set_inbounds (nu_inbounds user) now
                         (rr_set_client_id (nu_client_id user) r)))
               (t_roster d)
        else t_roster d ++
               [RosterRow (nu_email user) (nu_client_id user) (JsonText (nu_inbounds user))
                  false false now now] in
      let users := relabel_user (nu_email user) (nu_labels user) now (t_users d) in
      Ok (MkRecord (nu_email user) (nu_client_id user) (nu_inbounds user) created now,
          Db users roster (t_totals d))
  end.

Definition mark_users_disabled (email : string) (u : list usersRow) : list usersRow :=
  update_where (λ r, lower_eq (ur_email r) email && negb (ur_disabled r))
    (ur_set_disabled true) u.

Definition DisableRosterUser (email : string) (now : Z) (d : db) : db :=
  Db (mark_users_disabled email (t_users d))
     (update_where (λ r, lower_eq (rr_email r) email && negb (rr_disabled r)
                         && negb (rr_deleting r))
        (rr_set_flags true false now) (t_roster d))
     (t_totals d).

Definition MarkRosterDeleting (email : string) (now : Z) (d : db) : db :=
  Db (mark_users_disabled email (t_users d))
     (update_where (λ r, lower_eq (rr_email r) email && negb (rr_deleting r))
        (rr_set_flags true true now) (t_roster d))
     (t_totals d).

(** The roster row that licenses a purge of the users row. *)
Definition has_deleting_row (email : string) (roster : list rosterRow) : bool :=
  existsb (λ r, lower_eq (rr_email r) email && rr_deleting r) roster.

Definition PurgeRosterUser (email : string) (d : db) : db :=
  Db (delete_where (λ r, lower_eq (ur_email r) email
                         && has_deleting_row (ur_email r) (t_roster d)) (t_users d))
     (delete_where (λ r, lower_eq (rr_email r) email && rr_deleting r) (t_roster d))
     (t_totals d).

(** ** The reads *)

(** ORDER BY email, bytewise. *)
Definition by_email {A} (key : A → string) : relation A := λ a b, String.leb (key a) (key b) = true.

#[export] Instance by_email_dec {A} (key : A → string) a b : Decision (by_email key a b).
Proof. unfold by_email. apply _. Defined.

(** The record of a row whose stamps are read too. *)
Definition record_of_row (r : rosterRow) : RosterRecord :=
  MkRecord (rr_email r) (rr_client_id r) (unmarshal_or [] (rr_inbounds r))
    (rr_created_at r) (rr_updated_at r).

(** The listing reads leave the stamps zero. *)
Definition listed_record (r : rosterRow) : RosterRecord :=
  MkRecord (rr_email r) (rr_client_id r) (unmarshal_or [] (rr_inbounds r)) 0 0.

Definition DeletingRosterRecords (d : db) : list RosterRecord :=
  listed_record <$> merge_sort (by_email rr_email)
    (filter (λ r, rr_deleting r = true) (t_roster d)).

Definition rosterRecord (email : string) (disabled : bool) (d : db)
    : result storeError RosterRecord :=
  match find_first (λ r, lower_eq (rr_email r) email && Bool.eqb (rr_disabled r) disabled
                         && negb (rr_deleting r)) (t_roster d) with
  | Some r => Ok (record_of_row r)
  | None => Err ErrRosterNotFound
  end.

Definition DisabledRosterRecord (email : string) (d : db) := rosterRecord email true d.
Definition RosterRecord_ (email : string) (d : db) := rosterRecord email false d.

Definition RosterRecords (d : db) : list RosterRecord :=
  listed_record <$> merge_sort (by_email rr_email)
    (filter (λ r, rr_disabled r = false ∧ rr_deleting r = false) (t_roster d)).

Definition EnableRosterUser (email : string) (now : Z) (d : db)
    : result storeError (RosterRecord * bool * db) :=
  match RosterRecord_ email d with
  | Ok record => Ok (record, false, d)
  | Err _ =>
  match rosterRecord email true d with
  | Err e => Err e
  | Ok record =>
      let roster := update_where (λ r, lower_eq (rr_email r) (rec_email record))
                      (λ r, rr_set_flags false (rr_deleting r) now r) (t_roster d) in
      let users := update_where (λ r, lower_eq (ur_email r) (rec_email record))
                     (ur_set_disabled false) (t_users d) in
      Ok (MkRecord (rec_email record) (rec_client_id record) (rec_inbounds record)
            (rec_created_at record) now, true,
          Db users roster (t_totals d))
  end end.

(** The labels of the first users row, None when there is no row. *)
Definition stored_labels (email : string) (u : list usersRow) : option (list Label) :=
  (λ r, default [] (unmarshal_or [] <$> ur_labels r)) <$>
    find_first (λ r, lower_eq (ur_email r) email) u.

Definition EditRosterUser (email : string) (edit : RosterEdit) (now : Z) (d : db)
    : result storeError (RosterRecord * db) :=
  match RosterRecord_ email d with
  | Err e => Err e
  | Ok before =>
      let taken := id ← ed_client_id edit;
        find_first (λ r, lower_eq (rr_client_id r) id
                         && negb (lower_eq (rr_email r) (rec_email before))) (t_roster d) in
      match taken with
      | Some t => Err (ErrClientIDTaken (rr_email t))
      | None =>
      let clientID := match ed_client_id edit with
        | Some id => if equal_fold (rec_client_id before) id then rec_client_id before else id
        | None => rec_client_id before
        end in
      let inbounds := default (rec_inbounds before) (ed_inbounds edit) in
      if bool_decide (clientID = rec_client_id before ∧ inbounds = rec_inbounds before ∧
           stored_labels (rec_email before) (t_users d) = Some (ed_labels edit))
      then Ok (before, d)
      else
        let roster := update_where (λ r, String.eqb (rr_email r) (rec_email before))
              (λ r, rr_set_inbounds inbounds now (rr_set_client_id clientID r)) (t_roster d) in
        let users := relabel_user (rec_email before) (ed_labels edit) now (t_users d) in
        Ok (MkRecord (rec_email before) clientID inbounds (rec_created_at before) now,
            Db users roster (t_totals d))
      end
  end.

(** ** The poll transaction *)

(** CASE WHEN excluded.last_seen IS NULL THEN last_seen
    ELSE MAX(COALESCE(last_seen, 0), excluded.last_seen) END. *)
Definition lastSeenGrow (old excluded : option Z) : option Z :=
  match excluded with
  | None => old
  | Some e => Some (Z.max (default 0 old) e)
  end.

Definition ur_add_delta (up down : Z) (seen : option Z) (r : usersRow) : usersRow :=
  UsersRow (ur_email r) (ur_labels r) (ur_up r + up) (ur_down r + down)
    (lastSeenGrow (ur_last_seen r) seen) (ur_last_ips r) (ur_disabled r) (ur_first_seen r).

Definition apply_delta (now : Z) (u : list usersRow) (delta : Delta) : list usersRow :=
  let seen := if d_seen_now delta then Some now else None in
  upsert ur_email (d_email delta)
    (UsersRow (d_email delta) None (d_up delta) (d_down delta) seen None false now)
    (ur_add_delta (d_up delta) (d_down delta) seen) u.

Definition ur_add_presence (seen : option Z) (ips : option (jsonText (list string)))
    (r : usersRow) : usersRow :=
  UsersRow (ur_email r) (ur_labels r) (ur_up r) (ur_down r)
    (lastSeenGrow (ur_last_seen r) seen)
    (match ips with Some _ => ips | None => ur_last_ips r end)  (* COALESCE *)
    (ur_disabled r) (ur_first_seen r).

Definition presence_seen (user : Presence) : option Z :=
  if 0 <? pr_last_seen user then Some (pr_last_seen user) else None.

Definition presence_ips (user : Presence) : option (jsonText (list string)) :=
  match pr_ips user with [] => None | ips => Some (JsonText ips) end.

Definition apply_presence (now : Z) (u : list usersRow) (user : Presence) : list usersRow :=
  upsert ur_email (pr_email user)
    (UsersRow (pr_email user) None 0 0 (presence_seen user) (presence_ips user) false now)
    (ur_add_presence (presence_seen user) (presence_ips user)) u.

(** EXISTS (SELECT 1 FROM roster WHERE lower(email) = ... AND disabled = flag). *)
Definition roster_has (email : string) (flag : bool) (roster : list rosterRow) : bool :=
  existsb (λ r, lower_eq (rr_email r) email && Bool.eqb (rr_disabled r) flag) roster.

(** The parse's labels come as a map; [labels] is the order of one visit. *)
Definition syncLabels (labels : list (string * User)) (now : Z) (d : db) : db :=
  let marked := update_where
    (λ r, negb (ur_disabled r) && negb (roster_has (ur_email r) false (t_roster d)))
    (ur_set_disabled true) (t_users d) in
  let sync u (entry : string * User) :=
    upsert ur_email entry.1
      (ur_set_labels (u_labels entry.2) (new_users_row entry.1 now))
      (λ r, let r' := ur_set_labels (u_labels entry.2) r in
            if roster_has (ur_email r) true (t_roster d) then r' else ur_set_disabled false r')
      u in
  set_users (foldl sync marked labels) d.

(** The stored rows the adoption compares with, read before it writes. *)
Definition stored_row (email : string) (roster : list rosterRow) : option rosterRow :=
  find_first (λ r, String.eqb (rr_email r) email) roster.

Definition adopt_client (stamp : Z) (before : list rosterRow) (roster : list rosterRow)
    (entry : string * Client) : list rosterRow :=
  let '(email, client) := entry in
  match stored_row email before with
  | Some row =>
      if rr_disabled row then roster  (* a disabled user stays disabled *)
      else
        let tags := unmarshal_or [] (rr_inbounds row) in
        let merged := foldl append_new tags (c_inbounds client) in
        if bool_decide (length merged = length tags) then roster
        else update_where (λ r, String.eqb (rr_email r) email) (rr_set_inbounds merged stamp) roster
  | None =>
      roster ++ [RosterRow email (c_client_id client) (JsonText (c_inbounds client))
                   false false stamp stamp]
  end.

(** slices.Sort over the emails. *)
Definition sorted_clients (clients : gmap string Client) : list (string * Client) :=
  merge_sort (by_email fst) (map_to_list clients).

Definition adoptClients (clients : gmap string Client) (now : Z) (d : db) : db :=
  set_roster (foldl (adopt_client now (t_roster d)) (t_roster d) (sorted_clients clients)) d.

(** A parse handed to the store: the labels in visiting order and the
    clients. *)
Record RosterFeed := { rf_labels : list (string * User); rf_clients : gmap string Client }.

Definition ApplyPoll (deltas : list Delta) (presence : list Presence)
    (roster : option RosterFeed) (now : Z) (d : db) : db :=
  let u := foldl (apply_delta now) (t_users d) deltas in
  let u := foldl (apply_presence now) u presence in
  let d := set_users u d in
  match roster with
  | None => d
  | Some feed => adoptClients (rf_clients feed) now (syncLabels (rf_labels feed) now d)
  end.

(** ** The users read *)

(** One row of the users table (users.go). [us_client_id] and
    [us_inbounds] are the live roster row's, absent otherwise. *)
Record userView := UserView {
  us_email : string; us_labels : list Label;
  us_client_id : option string; us_inbounds : list string;
  us_up : Z; us_down : Z; us_online : bool; us_ips : list string;
  us_ip_countries : gmap string string;
  us_speed_up : Z; us_speed_down : Z; us_last_seen : option Z;
  us_disabled : bool; us_first_seen : Z;
}.

(** ORDER BY up + down DESC, email. *)
Definition heavier : relation usersRow := λ a b,
  ur_up b + ur_down b < ur_up a + ur_down a ∨
  (ur_up a + ur_down a = ur_up b + ur_down b ∧ by_email ur_email a b).

#[export] Instance heavier_dec a b : Decision (heavier a b).
Proof. unfold heavier. apply _. Defined.

Definition join_roster (roster : list rosterRow) (r : usersRow) : userView :=
  let live := find_first (λ x, String.eqb (rr_email x) (ur_email r) && negb (rr_disabled x)) roster in
  UserView (ur_email r) (default [] (unmarshal_or [] <$> ur_labels r))
    (rr_client_id <$> live) (default [] ((λ x, unmarshal_or [] (rr_inbounds x)) <$> live))
    (ur_up r) (ur_down r) false (default [] (unmarshal_or [] <$> ur_last_ips r)) ∅ 0 0
    (ur_last_seen r) (ur_disabled r) (ur_first_seen r).

Definition Users (d : db) : list userView :=
  join_roster (t_roster d) <$> merge_sort heavier (t_users d).

Definition LoadTrafficTotals (d : db) : option (Z * Z) := t_totals d.
Definition SaveTrafficTotals (up down : Z) (d : db) : db :=
  Db (t_users d) (t_roster d) (Some (up, down)).

Definition ExistingEmails (d : db) : gset string := list_to_set (ur_email <$> t_users d).

End WithRuntime.
End Store.
