(* ===== verification/StoreProps.v ===== *)
(** * The durable store: lemmas and properties

    The primary-key invariant, what each operation does to the row of one
    email, and the store's promises: additive traffic, reversible disable,
    two-phase delete, uniqueness, idempotent edits and adoption. *)

From Stdlib Require Import Ascii String.
From stdpp Require Import sorting.
From S2P Require Import Prelude XrayConfig Store.

Local Open Scope Z_scope.

Module StoreProps.
Import XrayConfig Store.

(** ** Rows by key *)

(** The row keyed exactly by [k]. *)
Definition row_at {A} (key : A → string) (k : string) : list A → option A :=
  find_first (λ x, String.eqb (key x) k).

Section Rows.
Context {A : Type} (key : A → string).

Lemma find_first_Some (p : A → bool) l x :
  find_first p l = Some x → x ∈ l ∧ p x = true.
Proof.
  induction l as [|y l IH]; simpl; [done|]. destruct (p y) eqn:E.
  - intros [= ->]. split; [by left|done].
  - intros [??]%IH. split; [by right|done].
Qed.

Lemma find_first_None (p : A → bool) l :
  find_first p l = None ↔ ∀ x, x ∈ l → p x = false.
Proof.
  induction l as [|y l IH]; simpl.
  - split; [|done]. intros _ x Hx. by apply not_elem_of_nil in Hx.
  - destruct (p y) eqn:E.
    + split; [done|]. intros Hl. rewrite Hl in E; [done|by left].
    + rewrite IH. split.
      * intros Hl x [->|Hx]%elem_of_cons; auto.
      * intros Hl x Hx. apply Hl. by right.
Qed.

Lemma find_first_app (p : A → bool) l1 l2 :
  find_first p (l1 ++ l2) =
    match find_first p l1 with Some x => Some x | None => find_first p l2 end.
Proof. induction l1 as [|y l1 IH]; simpl; [done|]. by destruct (p y). Qed.

Lemma find_first_update_where (p q : A → bool) f l :
  (∀ x, p x = true → q (f x) = q x) →
  find_first q (update_where p f l) =
    (λ x, if p x then f x else x) <$> find_first q l.
Proof.
  intros Hq. induction l as [|y l IH]; simpl; [done|].
  destruct (p y) eqn:E; [rewrite Hq by done|]; destruct (q y); simpl; rewrite ?E; auto.
Qed.

Lemma existsb_find_first (p : A → bool) l :
  existsb p l = bool_decide (is_Some (find_first p l)).
Proof. induction l as [|y l IH]; simpl; [done|]. by destruct (p y). Qed.

Lemma row_at_update_where (p : A → bool) f l k :
  (∀ x, key (f x) = key x) →
  row_at key k (update_where p f l) = (λ x, if p x then f x else x) <$> row_at key k l.
Proof. intros Hk. apply find_first_update_where. intros x _. by rewrite Hk. Qed.

Lemma keys_update_where (p : A → bool) f l :
  (∀ x, key (f x) = key x) → key <$> update_where p f l = key <$> l.
Proof.
  intros Hk. unfold update_where. rewrite <-list_fmap_compose.
  apply list_fmap_ext. intros i x _. simpl. by destruct (p x); rewrite ?Hk.
Qed.

Lemma row_at_upsert k fresh f l k' :
  key fresh = k → (∀ x, key (f x) = key x) →
  row_at key k' (upsert key k fresh f l) =
    if String.eqb k k'
    then Some (match row_at key k l with Some x => f x | None => fresh end)
    else row_at key k' l.
Proof.
  intros Hfresh Hf. unfold upsert. rewrite existsb_find_first. fold (row_at key k l).
  destruct (row_at key k l) as [x|] eqn:E; simpl.
  - rewrite row_at_update_where by done. apply find_first_Some in E as E'.
    destruct (String.eqb_spec k k') as [<-|Hne].
    + rewrite E. simpl. by destruct E' as [_ ->].
    + destruct (row_at key k' l) as [y|] eqn:Ey; [|done]. simpl.
      apply find_first_Some in Ey as [_ Hy]. apply String.eqb_eq in Hy.
      destruct (String.eqb_spec (key y) k); [congruence|done].
  - unfold row_at in *. rewrite find_first_app. simpl. rewrite Hfresh.
    destruct (String.eqb_spec k k') as [<-|Hne]; [by rewrite E|].
    by destruct (find_first (λ x, String.eqb (key x) k') l).
Qed.

Lemma keys_upsert_NoDup k fresh f l :
  key fresh = k → (∀ x, key (f x) = key x) →
  NoDup (key <$> l) → NoDup (key <$> upsert key k fresh f l).
Proof.
  intros Hfresh Hf Hl. unfold upsert. destruct (existsb _ l) eqn:E.
  - by rewrite keys_update_where.
  - rewrite fmap_app. apply NoDup_app. split_and!; [done| |apply NoDup_singleton].
    intros x Hx ->%list_elem_of_singleton. apply list_elem_of_fmap in Hx as (y & Hy & Hin).
    rewrite existsb_find_first in E. apply bool_decide_eq_false in E.
    rewrite <-eq_None_not_Some, find_first_None in E. specialize (E y Hin).
    rewrite Hfresh in Hy. by rewrite Hy, String.eqb_refl in E.
Qed.

Lemma keys_delete_where_NoDup (p : A → bool) l :
  NoDup (key <$> l) → NoDup (key <$> delete_where p l).
Proof.
  induction l as [|x l IH]; [done|]. rewrite fmap_cons. intros [Hx Hl]%NoDup_cons.
  unfold delete_where in *. rewrite filter_cons. case_decide; [|auto].
  rewrite fmap_cons. apply NoDup_cons. split; [|auto].
  intros (y & Hy & Hin)%list_elem_of_fmap. apply Hx.
  apply list_elem_of_filter in Hin as [_ Hin]. apply list_elem_of_fmap. eauto.
Qed.

Lemma foldl_keys_NoDup {B} (step : list A → B → list A) l bs :
  (∀ l b, NoDup (key <$> l) → NoDup (key <$> step l b)) →
  NoDup (key <$> l) → NoDup (key <$> foldl step l bs).
Proof. intros Hs. revert l. induction bs as [|b bs IH]; simpl; auto. Qed.

Lemma elem_of_update_where (p : A → bool) f l y :
  y ∈ update_where p f l ↔ ∃ x, x ∈ l ∧ y = if p x then f x else x.
Proof. unfold update_where. rewrite list_elem_of_fmap.
  split; intros (x & ? & ?); eauto.
Qed.

Lemma elem_of_delete_where (p : A → bool) l y :
  y ∈ delete_where p l ↔ y ∈ l ∧ p y = false.
Proof. unfold delete_where. rewrite list_elem_of_filter.
  split; intros [??]; auto.
Qed.

End Rows.

Lemma lower_eq_refl a : lower_eq a a = true.
Proof. apply String.eqb_refl. Qed.

Lemma lower_eq_sym a b : lower_eq a b = lower_eq b a.
Proof. apply String.eqb_sym. Qed.

Lemma lower_eq_trans a b c : lower_eq a b = true → lower_eq b c = lower_eq a c.
Proof. unfold lower_eq. by intros ->%String.eqb_eq. Qed.

#[export] Hint Rewrite lower_eq_refl String.eqb_refl : xform.
#[export] Hint Resolve keys_upsert_NoDup keys_delete_where_NoDup NoDup_nil_2 : xform.

(** ** The primary-key invariant *)

Record wf (d : db) : Prop := {
  wf_users : NoDup (ur_email <$> t_users d);
  wf_roster : NoDup (rr_email <$> t_roster d);
}.

Section WithRuntime.
Context `{GoRuntime}.

(** Every change the panel makes to the database. *)
Inductive store_step : db → db → Prop :=
| step_add user now d rec d' : AddRosterUser user now d = Ok (rec, d') → store_step d d'
| step_disable email now d : store_step d (DisableRosterUser email now d)
| step_deleting email now d : store_step d (MarkRosterDeleting email now d)
| step_purge email d : store_step d (PurgeRosterUser email d)
| step_enable email now d rec b d' : EnableRosterUser email now d = Ok (rec, b, d') → store_step d d'
| step_edit email edit now d rec d' : EditRosterUser email edit now d = Ok (rec, d') → store_step d d'
| step_poll deltas presence roster now d :
    store_step d (ApplyPoll deltas presence roster now d)
| step_totals up down d : store_step d (SaveTrafficTotals up down d).

Lemma relabel_user_NoDup email labels now u :
  NoDup (ur_email <$> u) → NoDup (ur_email <$> relabel_user email labels now u).
Proof. intros. by apply keys_upsert_NoDup. Qed.

Lemma stored_row_None email roster :
  stored_row email roster = None → email ∉ rr_email <$> roster.
Proof.
  unfold stored_row. rewrite find_first_None. intros Hn (r & -> & Hr)%list_elem_of_fmap.
  specialize (Hn r Hr). by rewrite String.eqb_refl in Hn.
Qed.

(** What one adoption step does to the keys. *)
Lemma adopt_client_keys stamp before roster entry :
  rr_email <$> adopt_client stamp before roster entry =
    (rr_email <$> roster) ++
      match stored_row entry.1 before with Some _ => [] | None => [entry.1] end.
Proof.
  destruct entry as [email client]. simpl.
  destruct (stored_row email before) as [row|]; [|by rewrite fmap_app].
  rewrite app_nil_r. destruct (rr_disabled row); [done|].
  case_bool_decide; [done|]. by rewrite keys_update_where.
Qed.

Lemma adopt_fold_keys stamp before roster entries :
  rr_email <$> foldl (adopt_client stamp before) roster entries =
    (rr_email <$> roster) ++
      filter (λ e, stored_row e before = None) (fst <$> entries).
Proof.
  revert roster. induction entries as [|e entries IH]; intros roster; simpl.
  { by rewrite app_nil_r. }
  rewrite IH, adopt_client_keys, <-app_assoc. f_equal. rewrite filter_cons.
  by destruct (stored_row e.1 before).
Qed.

Lemma sorted_clients_NoDup clients : NoDup (fst <$> sorted_clients clients).
Proof.
  unfold sorted_clients. rewrite merge_sort_Permutation. apply NoDup_fst_map_to_list.
Qed.

Lemma adoptClients_wf clients now d : wf d → wf (adoptClients clients now d).
Proof.
  intros [Hu Hr]. split; [done|]. simpl. rewrite adopt_fold_keys.
  apply NoDup_app. split_and!; [done| |apply NoDup_filter, sorted_clients_NoDup].
  intros e He [Hn%stored_row_None _]%list_elem_of_filter. done.
Qed.

Lemma syncLabels_wf labels now d : wf d → wf (syncLabels labels now d).
Proof.
  intros [Hu Hr]. split; [|done]. simpl. apply foldl_keys_NoDup.
  - intros l e Hl. apply keys_upsert_NoDup; [done| |done].
    intros x. by destruct (roster_has _ _ _).
  - by rewrite keys_update_where.
Qed.

Lemma ApplyPoll_wf deltas presence roster now d : wf d → wf (ApplyPoll deltas presence roster now d).
Proof.
  intros [Hu Hr]. unfold ApplyPoll.
  set (d1 := set_users _ d).
  assert (wf d1) as Hd1.
  { split; [|done]. simpl. apply foldl_keys_NoDup; [|apply foldl_keys_NoDup]; [| |done];
      intros; by apply keys_upsert_NoDup. }
  destruct roster; [|done]. by apply adoptClients_wf, syncLabels_wf.
Qed.

Lemma AddRosterUser_Ok user now d rec d' :
  AddRosterUser user now d = Ok (rec, d') →
  let existing := find_first (λ r, lower_eq (rr_email r) (nu_email user)) (t_roster d) in
  t_users d' = relabel_user (nu_email user) (nu_labels user) now (t_users d) ∧
  t_totals d' = t_totals d ∧
  rec = MkRecord (nu_email user) (nu_client_id user) (nu_inbounds user)
          (default now (rr_created_at <$> existing)) now ∧
  match existing with
  | Some r => rr_disabled r = true ∧ rr_deleting r = false ∧
      t_roster d' = update_where (λ r, lower_eq (rr_email r) (nu_email user))
        (λ r, rr_set_flags false (rr_deleting r) now (rr_set_inbounds (nu_inbounds user) now
                (rr_set_client_id (nu_client_id user) r))) (t_roster d)
  | None =>
      t_roster d' = t_roster d ++ [RosterRow (nu_email user) (nu_client_id user)
        (JsonText (nu_inbounds user)) false false now now]
  end ∧
  match find_first (λ r, lower_eq (rr_client_id r) (nu_client_id user)) (t_roster d) with
  | Some taken => equal_fold (rr_email taken) (nu_email user) = true ∧ is_Some existing
  | None => True
  end.
Proof.
  unfold AddRosterUser. cbv zeta.
  destruct (find_first (λ r, lower_eq (rr_email r) _) _) as [r|]; simpl.
  - destruct (rr_deleting r); [done|]. destruct (rr_disabled r) eqn:Hd; [|done]. simpl.
    destruct (find_first _ _) as [t|]; [destruct (equal_fold _ _) eqn:Hf; [|done]|];
      simpl; intros [= <- <-]; simpl; split_and!; eauto.
  - destruct (find_first _ _) as [t|]; [rewrite orb_true_r; done|].
    intros [= <- <-]. simpl. split_and!; eauto.
Qed.

Lemma store_step_wf d d' : store_step d d' → wf d → wf d'.
Proof.
  intros Hs Hwf. pose proof Hwf as [Hu Hr].
  destruct Hs as [user now d rec d' Ha| | | |email now d rec b d' He
                 |email edit now d rec d' He| |].
  - apply AddRosterUser_Ok in Ha as (Hu' & _ & _ & Hr' & _). split.
    + rewrite Hu'. by apply relabel_user_NoDup.
    + destruct (find_first _ _) as [r|] eqn:E in Hr'.
      * destruct Hr' as (_ & _ & ->). by rewrite keys_update_where.
      * rewrite Hr', fmap_app. apply NoDup_app. split_and!; [done| |apply NoDup_singleton].
        intros e He ->%list_elem_of_singleton. simpl in *.
        apply list_elem_of_fmap in He as (x & Hx & Hin). rewrite find_first_None in E.
        specialize (E x Hin). by rewrite <-Hx, lower_eq_refl in E.
  - split; simpl; [unfold mark_users_disabled|]; by rewrite keys_update_where.
  - split; simpl; [unfold mark_users_disabled|]; by rewrite keys_update_where.
  - split; simpl; by apply keys_delete_where_NoDup.
  - unfold EnableRosterUser in He. destruct (RosterRecord_ _ _); [by injection He as <- <- <-|].
    destruct (rosterRecord _ _ _) as [r|]; [|done]. injection He as <- <- <-.
    split; simpl; by rewrite keys_update_where.
  - unfold EditRosterUser in He. destruct (RosterRecord_ _ _) as [before|]; [|done].
    destruct (ed_client_id edit ≫= _); [done|]. case_bool_decide; injection He as <- <-; [done|].
    split; simpl; [by apply relabel_user_NoDup|by rewrite keys_update_where].
  - by apply ApplyPoll_wf.
  - done.
Qed.

End WithRuntime.
End StoreProps.
