(* ===== verification/StoreTheorems.v ===== *)
(** * The durable store: what it promises

    Uniqueness of emails and Client IDs across the Panel's mutations, the
    reversible disable, the two-phase delete, additive traffic, and adoption
    that only adds. *)

From Stdlib Require Import Ascii String.
From stdpp Require Import sorting.
From S2P Require Import Prelude XrayConfig Store StoreProps.

Local Open Scope Z_scope.

Module StoreTheorems.
Import XrayConfig Store StoreProps.

(** ** What the statements speak of *)

(** No two roster rows share an email or a Client ID up to ASCII case, and
    emails are ASCII (where SQLite's and Go's case folding agree). *)
Record uniq (d : db) : Prop := {
  uniq_wf : wf d;
  uniq_email a b : a ∈ t_roster d → b ∈ t_roster d →
    lower_eq (rr_email a) (rr_email b) = true → a = b;
  uniq_id a b : a ∈ t_roster d → b ∈ t_roster d →
    lower_eq (rr_client_id a) (rr_client_id b) = true → a = b;
  uniq_ascii a : a ∈ t_roster d → all_ascii (rr_email a) = true;
}.

(** A roster mutation the Panel requests, and its effect: an error leaves
    the database unchanged. *)
Inductive mutation :=
| MAdd (user : NewRosterUser)
| MDisable (email : string)
| MDelete (email : string)
| MPurge (email : string)
| MEnable (email : string)
| MEdit (email : string) (edit : RosterEdit).

Definition mutate `{GoRuntime} (now : Z) (m : mutation) (d : db) : db :=
  match m with
  | MAdd user => match AddRosterUser user now d with Ok (_, d') => d' | Err _ => d end
  | MDisable email => DisableRosterUser email now d
  | MDelete email => MarkRosterDeleting email now d
  | MPurge email => PurgeRosterUser email d
  | MEnable email => match EnableRosterUser email now d with Ok (_, _, d') => d' | Err _ => d end
  | MEdit email edit => match EditRosterUser email edit now d with Ok (_, d') => d' | Err _ => d end
  end.

(** A request the handlers let through names an ASCII email. *)
Definition ascii_request (m : mutation) : bool :=
  match m with MAdd user => all_ascii (nu_email user) | _ => true end.

Definition total_up (email : string) (d : db) : Z :=
  default 0 (ur_up <$> row_at ur_email email (t_users d)).
Definition total_down (email : string) (d : db) : Z :=
  default 0 (ur_down <$> row_at ur_email email (t_users d)).

Definition sum_for (f : Delta → Z) (email : string) (deltas : list Delta) : Z :=
  foldr (λ x s, (if String.eqb (d_email x) email then f x else 0) + s) 0 deltas.

(** Forgetting when a row was last written. *)
Definition same_but_stamp (email : string) (now : Z) (roster : list rosterRow) : list rosterRow :=
  update_where (λ r, lower_eq (rr_email r) email)
    (λ r, RosterRow (rr_email r) (rr_client_id r) (rr_inbounds r) (rr_disabled r)
            (rr_deleting r) (rr_created_at r) now) roster.

(** ** Lemmas on rows *)

Lemma find_first_uniq {A} (p : A → bool) l r :
  r ∈ l → p r = true → (∀ x, x ∈ l → p x = true → x = r) → find_first p l = Some r.
Proof.
  intros Hr Hp Hu. destruct (find_first p l) as [x|] eqn:E.
  - apply find_first_Some in E as [Hx Hpx]. by rewrite (Hu x).
  - rewrite find_first_None in E. by rewrite E in Hp.
Qed.

Lemma uniq_find d email r :
  uniq d → r ∈ t_roster d → lower_eq (rr_email r) email = true →
  find_first (λ r, lower_eq (rr_email r) email) (t_roster d) = Some r.
Proof.
  intros Hu Hr He. apply find_first_uniq; [done|done|]. intros x Hx Hxe.
  apply (uniq_email d Hu); [done|done|]. unfold lower_eq in *.
  apply String.eqb_eq in He, Hxe. apply String.eqb_eq. congruence.
Qed.

Lemma uniq_find_id d id r :
  uniq d → r ∈ t_roster d → lower_eq (rr_client_id r) id = true →
  find_first (λ r, lower_eq (rr_client_id r) id) (t_roster d) = Some r.
Proof.
  intros Hu Hr He. apply find_first_uniq; [done|done|]. intros x Hx Hxe.
  apply (uniq_id d Hu); [done|done|]. unfold lower_eq in *.
  apply String.eqb_eq in He, Hxe. apply String.eqb_eq. congruence.
Qed.

Lemma lower_eq_iff a b : lower_eq a b = true ↔ ascii_lower a = ascii_lower b.
Proof. apply String.eqb_eq. Qed.

Lemma fold_lower_eq `{GoRuntimeLaws} a b :
  all_ascii a = true → all_ascii b = true → equal_fold a b = lower_eq a b.
Proof.
  intros Ha Hb. apply eq_bool_prop_intro. rewrite !Is_true_true, lower_eq_iff.
  split; [by apply equal_fold_ascii_inv|apply equal_fold_ascii].
Qed.

Lemma update_where_id {A} (p : A → bool) f l :
  (∀ x, x ∈ l → p x = true → f x = x) → update_where p f l = l.
Proof.
  intros Hf. unfold update_where. rewrite <-(list_fmap_id l) at 2. apply list_fmap_ext.
  intros i x Hx%list_elem_of_lookup_2. simpl. destruct (p x) eqn:E; [by apply Hf|done].
Qed.

Lemma update_where_ext {A} (p q : A → bool) f g (l : list A) :
  (∀ x, x ∈ l → (if p x then f x else x) = (if q x then g x else x)) →
  update_where p f l = update_where q g l.
Proof.
  intros Hf. unfold update_where. apply list_fmap_ext.
  intros i x Hx%list_elem_of_lookup_2. by apply Hf.
Qed.

Lemma update_where_twice {A} (p q : A → bool) f g (l : list A) :
  update_where q g (update_where p f l) =
    (λ x, let y := if p x then f x else x in if q y then g y else y) <$> l.
Proof. unfold update_where. by rewrite <-list_fmap_compose. Qed.

(** ** Uniqueness *)

Lemma uniq_map d d' (p : rosterRow → bool) (f : rosterRow → rosterRow) :
  uniq d → wf d' → (∀ x, rr_email (f x) = rr_email x) →
  (∀ a b, a ∈ t_roster d → b ∈ t_roster d →
     lower_eq (rr_client_id (if p a then f a else a)) (rr_client_id (if p b then f b else b)) = true →
     a = b) →
  t_roster d' = update_where p f (t_roster d) → uniq d'.
Proof.
  intros Hu Hwf He Hid Hr.
  assert (∀ x, rr_email (if p x then f x else x) = rr_email x) as He' by (intros x; destruct (p x); auto).
  split; [done|..]; rewrite Hr.
  - intros a b (x & Hx & ->)%elem_of_update_where (y & Hy & ->)%elem_of_update_where.
    rewrite !He'. intros E. by rewrite (uniq_email d Hu x y).
  - intros a b (x & Hx & ->)%elem_of_update_where (y & Hy & ->)%elem_of_update_where E.
    by rewrite (Hid x y).
  - intros a (x & Hx & ->)%elem_of_update_where. rewrite He'. by apply (uniq_ascii d Hu).
Qed.

Lemma uniq_map_same d d' (p : rosterRow → bool) (f : rosterRow → rosterRow) :
  uniq d → wf d' → (∀ x, rr_email (f x) = rr_email x) →
  (∀ x, rr_client_id (f x) = rr_client_id x) →
  t_roster d' = update_where p f (t_roster d) → uniq d'.
Proof.
  intros Hu Hwf He Hc Hr. apply (uniq_map d d' p f); [done..| |done].
  intros a b Ha Hb Hl. apply (uniq_id d Hu); [done..|].
  by destruct (p a), (p b); rewrite ?Hc in Hl.
Qed.

Lemma uniq_delete d d' (p : rosterRow → bool) :
  uniq d → wf d' → t_roster d' = delete_where p (t_roster d) → uniq d'.
Proof.
  intros Hu Hwf Hr. split; [done|..]; rewrite Hr; intros a.
  - intros b [??]%elem_of_delete_where [??]%elem_of_delete_where. by apply (uniq_email d Hu).
  - intros b [??]%elem_of_delete_where [??]%elem_of_delete_where. by apply (uniq_id d Hu).
  - intros [??]%elem_of_delete_where. by apply (uniq_ascii d Hu).
Qed.

Section WithRuntime.
Context `{GoRuntimeLaws}.

Lemma mutate_wf now m d : wf d → wf (mutate now m d).
Proof.
  intros Hwf. destruct m; simpl; try (eapply store_step_wf; [|done]; by constructor).
  - destruct (AddRosterUser user now d) as [[r d']|] eqn:E; [|done].
    eapply store_step_wf; [by eapply step_add|done].
  - destruct (EnableRosterUser email now d) as [[[r b] d']|] eqn:E; [|done].
    eapply store_step_wf; [by eapply step_enable|done].
  - destruct (EditRosterUser email edit now d) as [[r d']|] eqn:E; [|done].
    eapply store_step_wf; [by eapply step_edit|done].
Qed.

(** The ID check, read as a property of every row. *)
Lemma taken_others d id email :
  uniq d → all_ascii email = true →
  match find_first (λ r, lower_eq (rr_client_id r) id) (t_roster d) with
  | Some taken => equal_fold (rr_email taken) email = true
  | None => True
  end ↔ ∀ r, r ∈ t_roster d → lower_eq (rr_client_id r) id = true →
        lower_eq (rr_email r) email = true.
Proof.
  intros Hu Ha. split.
  - intros Ht r Hr Hid. rewrite (uniq_find_id d id r) in Ht by done.
    rewrite <-fold_lower_eq; [done|by apply (uniq_ascii d Hu)|done].
  - intros Hall. destruct (find_first _ _) as [t|] eqn:E; [|done].
    apply find_first_Some in E as [Ht Hid]. rewrite fold_lower_eq; auto.
    by apply (uniq_ascii d Hu).
Qed.

Lemma mutate_add_uniq now user d :
  uniq d → all_ascii (nu_email user) = true → uniq (mutate now (MAdd user) d).
Proof.
  intros Hu Ha. pose proof (mutate_wf now (MAdd user) d (uniq_wf d Hu)) as Hwf. simpl in *.
  destruct (AddRosterUser user now d) as [[rec d']|] eqn:E; [|done].
  apply AddRosterUser_Ok in E as (_ & _ & _ & Hr & Hid).
  assert (∀ r, r ∈ t_roster d → lower_eq (rr_client_id r) (nu_client_id user) = true →
     lower_eq (rr_email r) (nu_email user) = true) as Hoth.
  { apply taken_others; [done..|]. destruct (find_first _ _) as [t|] in Hid |- *; [apply Hid|done]. }
  destruct (find_first (λ r, lower_eq (rr_email r) _) _) as [r|] eqn:Hf.
  - destruct Hr as (_ & _ & Hr). eapply uniq_map; [done|done|..|exact Hr]; [done|].
    intros a b Hina Hinb. destruct (lower_eq (rr_email a) (nu_email user)) eqn:Ea,
      (lower_eq (rr_email b) (nu_email user)) eqn:Eb;
      simpl; intros Hl.
    + apply (uniq_email d Hu); [done..|]. rewrite lower_eq_iff in *. congruence.
    + rewrite lower_eq_sym in Hl. by rewrite Hoth in Eb.
    + by rewrite Hoth in Ea.
    + by apply (uniq_id d Hu).
  - rewrite find_first_None in Hf. split; [done|..]; rewrite Hr.
    + intros a b [?| ->%list_elem_of_singleton]%elem_of_app [?| ->%list_elem_of_singleton]%elem_of_app;
        simpl; intros Hl; [by apply (uniq_email d Hu)|..|done].
      * by rewrite Hf in Hl.
      * rewrite lower_eq_sym in Hl. by rewrite Hf in Hl.
    + intros a b [Hin| ->%list_elem_of_singleton]%elem_of_app
        [Hin'| ->%list_elem_of_singleton]%elem_of_app; simpl; intros Hl; [by apply (uniq_id d Hu)|..|done].
      * specialize (Hf a Hin). by rewrite Hoth in Hf.
      * rewrite lower_eq_sym in Hl. specialize (Hf b Hin'). by rewrite Hoth in Hf.
    + intros a [?| ->%list_elem_of_singleton]%elem_of_app; [by apply (uniq_ascii d Hu)|done].
Qed.

Lemma rosterRecord_Ok email b d rec :
  rosterRecord email b d = Ok rec →
  ∃ r, r ∈ t_roster d ∧ rec = record_of_row r ∧ lower_eq (rr_email r) email = true ∧
       rr_disabled r = b ∧ rr_deleting r = false.
Proof.
  unfold rosterRecord. destruct (find_first _ _) as [r|] eqn:E; [|done].
  intros [= <-]. apply find_first_Some in E as [Hr Hp].
  apply andb_prop in Hp as [[Hp Hd]%andb_prop Hn%negb_true_iff].
  apply eqb_prop in Hd. eauto 10.
Qed.

Lemma mutate_edit_uniq now email edit d : uniq d → uniq (mutate now (MEdit email edit) d).
Proof.
  intros Hu. pose proof (mutate_wf now (MEdit email edit) d (uniq_wf d Hu)) as Hwf. simpl in *.
  unfold EditRosterUser in *. destruct (RosterRecord_ email d) as [before|] eqn:Eb; [|done].
  destruct (ed_client_id edit ≫= _) eqn:Et; [done|]. case_bool_decide; [done|].
  apply rosterRecord_Ok in Eb as (r0 & Hr0 & -> & _). simpl in *.
  eapply uniq_map; [done|done|..|reflexivity]; [done|].
  (* the new Client ID belongs to no other row *)
  assert (∀ b, b ∈ t_roster d → lower_eq (rr_client_id b)
      (match ed_client_id edit with
       | Some id => if equal_fold (rr_client_id r0) id then rr_client_id r0 else id
       | None => rr_client_id r0 end) = true → rr_email b = rr_email r0) as Hmine.
  { intros b Hb Hl. f_equal. destruct (ed_client_id edit) as [id|]; simpl in Et;
      [|by apply (uniq_id d Hu)].
    destruct (equal_fold _ id); [by apply (uniq_id d Hu)|].
    rewrite find_first_None in Et. specialize (Et b Hb). rewrite Hl in Et. simpl in Et.
    apply negb_false_iff in Et. by apply (uniq_email d Hu). }
  intros a b Ha Hb. cbn beta. destruct (String.eqb_spec (rr_email a) (rr_email r0)),
    (String.eqb_spec (rr_email b) (rr_email r0)); simpl; intros Hl.
  - apply (uniq_email d Hu); [done..|]. rewrite lower_eq_iff. congruence.
  - rewrite lower_eq_sym in Hl. by apply Hmine in Hl.
  - by apply Hmine in Hl.
  - by apply (uniq_id d Hu).
Qed.

Lemma mutate_enable_uniq now email d : uniq d → uniq (mutate now (MEnable email) d).
Proof.
  intros Hu. pose proof (mutate_wf now (MEnable email) d (uniq_wf d Hu)) as Hwf. simpl in *.
  unfold EnableRosterUser in *. destruct (RosterRecord_ email d); [done|].
  destruct (rosterRecord email true d); [|done].
  eapply uniq_map_same; [done|done|..|reflexivity]; done.
Qed.

(** C6: no history of requests makes two roster rows share an email or a
    Client ID, up to case. From a roster where they are unique and the emails
    are ASCII, any sequence of adds, disables, deletes, purges, enables and
    edits, refused ones included, ends in one where they are. The schema does
    not see to it: its key is the exact email, and nothing in it is unique by
    Client ID, so this rests on the look-ups each transaction makes before it
    writes. The added emails are ASCII (SQLite's lower folds no other letter);
    polls are not among the requests (adoption takes a config's clients with
    the IDs they have). *)
Theorem mutations_keep_unique now ms d :
  forallb ascii_request ms = true → uniq d → uniq (foldl (λ d m, mutate now m d) d ms).
Proof.
  revert d. induction ms as [|m ms IH]; intros d; [done|]; simpl.
  intros [Hm Hms]%andb_prop Hu. apply IH; [done|].
  pose proof (mutate_wf now m d (uniq_wf d Hu)) as Hwf. destruct m.
  - by apply mutate_add_uniq.
  - eapply uniq_map_same; [done|done|..|reflexivity]; done.
  - eapply uniq_map_same; [done|done|..|reflexivity]; done.
  - eapply uniq_delete; [done|done|reflexivity].
  - by apply mutate_enable_uniq.
  - by apply mutate_edit_uniq.
Qed.

(** An add succeeds exactly when every roster row of the email (any
    case) is disabled with no delete in progress, and every holder of the
    Client ID is that email's own row: an active email, an unfinished delete
    and a foreign Client ID are each a conflict, and nothing else is. *)
Theorem add_accepts_iff user now d :
  uniq d → all_ascii (nu_email user) = true →
  is_ok (AddRosterUser user now d) = true ↔
    (∀ r, r ∈ t_roster d → lower_eq (rr_email r) (nu_email user) = true →
       rr_disabled r = true ∧ rr_deleting r = false) ∧
    (∀ r, r ∈ t_roster d → lower_eq (rr_client_id r) (nu_client_id user) = true →
       lower_eq (rr_email r) (nu_email user) = true).
Proof.
  intros Hu Ha. rewrite <-taken_others by done. unfold AddRosterUser. cbv zeta.
  destruct (find_first (λ r, lower_eq (rr_email r) _) _) as [r|] eqn:Ef; simpl.
  - apply find_first_Some in Ef as Hr. destruct Hr as [Hr Hre].
    assert ((∀ r, r ∈ t_roster d → lower_eq (rr_email r) (nu_email user) = true →
       rr_disabled r = true ∧ rr_deleting r = false) ↔ rr_disabled r = true ∧ rr_deleting r = false)
      as ->.
    { split; [by intros Hall; apply Hall|]. intros Hflags x Hx Hxe.
      rewrite (uniq_find d _ x) in Ef by done. by injection Ef as ->. }
    destruct (rr_deleting r), (rr_disabled r); simpl; try (split; [done|by intros [[??] ?]]).
    destruct (find_first (λ r, lower_eq (rr_client_id r) (nu_client_id user)) _) as [t|];
      [destruct (equal_fold (rr_email t) (nu_email user))|]; simpl; naive_solver.
  - rewrite find_first_None in Ef.
    assert (∀ r, r ∈ t_roster d → lower_eq (rr_email r) (nu_email user) = true →
       rr_disabled r = true ∧ rr_deleting r = false) as Hv by (intros r Hr; by rewrite Ef).
    destruct (find_first (λ r, lower_eq (rr_client_id r) (nu_client_id user)) _) as [t|] eqn:Et;
      [|simpl; naive_solver].
    rewrite orb_true_r. split; [done|]. intros [_ Ht].
    apply find_first_Some in Et as [Hin _]. specialize (Ef t Hin).
    rewrite fold_lower_eq, Ef in Ht; [done|by apply (uniq_ascii d Hu)|done].
Qed.

(** ** Disable and enable, delete and purge *)

Lemma rosterRecord_unique b d r :
  uniq d → r ∈ t_roster d →
  ∀ email, lower_eq (rr_email r) email = true →
  rosterRecord email b d =
    (if Bool.eqb (rr_disabled r) b && negb (rr_deleting r)
     then Ok (record_of_row r) else Err ErrRosterNotFound).
Proof.
  intros Hu Hr email He. unfold rosterRecord.
  destruct (find_first _ _) as [x|] eqn:E.
  - apply find_first_Some in E as [Hx [[Hxe Hxb]%andb_prop Hxd]%andb_prop].
    assert (x = r) as ->.
    { apply (uniq_email d Hu); [done..|]. rewrite lower_eq_iff in *. congruence. }
    by rewrite Hxb, Hxd.
  - rewrite find_first_None in E. specialize (E r Hr). rewrite He in E. simpl in E. by rewrite E.
Qed.

(** Disabling a user and enabling it again restores the database: every
    column of both tables is what it was, the roster row's updated_at apart. *)
Theorem disable_enable_restores email now1 now2 d rec :
  uniq d → RosterRecord_ email d = Ok rec →
  (∀ u, u ∈ t_users d → lower_eq (ur_email u) email = true → ur_disabled u = false) →
  EnableRosterUser email now2 (DisableRosterUser email now1 d) =
    Ok (MkRecord (rec_email rec) (rec_client_id rec) (rec_inbounds rec) (rec_created_at rec) now2,
        true,
        Db (t_users d) (same_but_stamp email now2 (t_roster d)) (t_totals d)).
Proof.
  intros Hu Hrec Hlive. apply rosterRecord_Ok in Hrec as (r & Hr & -> & He & Hd & Hdel).
  pose proof (mutate_wf now1 (MDisable email) d (uniq_wf d Hu)) as Hwf. simpl in Hwf.
  set (d1 := DisableRosterUser email now1 d) in *.
  assert (uniq d1) as Hu1 by (eapply uniq_map_same; [done|done|..|reflexivity]; done).
  set (r1 := rr_set_flags true false now1 r).
  assert (r1 ∈ t_roster d1) as Hr1.
  { simpl. apply elem_of_update_where. exists r. split; [done|]. by rewrite He, Hd, Hdel. }
  unfold EnableRosterUser, RosterRecord_.
  rewrite !(rosterRecord_unique _ d1 r1) by done. simpl.
  do 3 f_equal.
  - (* the users table *)
    unfold mark_users_disabled. rewrite update_where_twice. rewrite <-(list_fmap_id (t_users d)) at 2.
    apply list_fmap_ext. intros i u Hin%list_elem_of_lookup_2. simpl.
    destruct (lower_eq (ur_email u) email) eqn:Eu; simpl.
    + assert (lower_eq (ur_email u) (rr_email r) = true) as Er
        by (rewrite lower_eq_iff in *; congruence).
      rewrite (Hlive u) by done. simpl. rewrite Er.
      specialize (Hlive _ Hin Eu). destruct u; simpl in *. by rewrite Hlive.
    + destruct (lower_eq (ur_email u) (rr_email r)) eqn:Er; [|done].
      rewrite lower_eq_iff in Er, He. rewrite <-not_true_iff_false, lower_eq_iff in Eu. congruence.
  - unfold same_but_stamp. rewrite update_where_twice. unfold update_where.
    apply list_fmap_ext. intros i x Hin%list_elem_of_lookup_2. simpl.
    destruct (lower_eq (rr_email x) email) eqn:Ex; simpl.
    + assert (x = r) as ->.
      { apply (uniq_email d Hu); [done..|]. rewrite lower_eq_iff in *. congruence. }
      rewrite Hd, Hdel. simpl. rewrite lower_eq_refl. done.
    + destruct (lower_eq (rr_email x) (rr_email r)) eqn:Er; [|done].
      rewrite lower_eq_iff in Er, He. rewrite <-not_true_iff_false, lower_eq_iff in Ex. congruence.
Qed.

Lemma existsb_update_where {A} (p : A → bool) (f : A → A) q l :
  existsb q (update_where p f l) = existsb (λ x, q (if p x then f x else x)) l.
Proof. induction l as [|x l IH]; simpl; [done|]. by rewrite IH. Qed.

Lemma existsb_ext {A} (p q : A → bool) l : (∀ x, p x = q x) → existsb p l = existsb q l.
Proof. intros Hp. induction l as [|x l IH]; simpl; [done|]. by rewrite Hp, IH. Qed.

Lemma delete_update_where {A} (p q s : A → bool) (f : A → A) (l : list A) :
  (∀ x, x ∈ l → q (if p x then f x else x) = s x ∧ (s x = false → p x = false)) →
  delete_where q (update_where p f l) = delete_where s l.
Proof.
  unfold delete_where, update_where. induction l as [|x l IH]; intros Hl; [done|].
  rewrite fmap_cons, !filter_cons. destruct (Hl x) as [Hq Hs]; [by left|].
  rewrite IH by (intros y Hy; apply Hl; by right). rewrite Hq.
  destruct (s x) eqn:E; simpl; [done|]. by rewrite Hs.
Qed.

(** Marking a user for deletion and purging it removes exactly that
    email's rows (any case) from both tables, provided the roster held it,
    and leaves every other row of the database as it was. *)
Theorem mark_then_purge email now d :
  existsb (λ r, lower_eq (rr_email r) email) (t_roster d) = true →
  PurgeRosterUser email (MarkRosterDeleting email now d) =
    Db (delete_where (λ u, lower_eq (ur_email u) email) (t_users d))
       (delete_where (λ r, lower_eq (rr_email r) email) (t_roster d))
       (t_totals d).
Proof.
  intros Hex. unfold PurgeRosterUser. simpl. f_equal.
  - unfold mark_users_disabled. apply delete_update_where. intros u _.
    replace (ur_email (if _ : bool then _ else _)) with (ur_email u)
      by (by destruct (lower_eq _ _ && _)).
    destruct (lower_eq (ur_email u) email) eqn:Eu; simpl; [|done].
    split; [|done]. unfold has_deleting_row. rewrite existsb_update_where, <-Hex.
    apply existsb_ext. intros r. rewrite (lower_eq_sym (rr_email _) (ur_email u)).
    destruct (lower_eq (rr_email r) email) eqn:Er; simpl.
    + assert (lower_eq (ur_email u) (rr_email r) = true) as Hur
        by (rewrite lower_eq_iff in *; congruence).
      destruct (rr_deleting r) eqn:Ed; simpl; by rewrite Hur, ?Ed.
    + destruct (lower_eq (ur_email u) (rr_email r)) eqn:Hur; [|done].
      rewrite lower_eq_iff in Eu, Hur. rewrite <-not_true_iff_false, lower_eq_iff in Er. congruence.
  - apply delete_update_where. intros r _.
    destruct (lower_eq (rr_email r) email) eqn:Er; simpl; [|by rewrite Er].
    destruct (rr_deleting r) eqn:Ed; simpl; by rewrite Er, ?Ed.
Qed.

(** While a delete is in progress its roster row keeps the email and the
    Client ID claimed: no add of that email, nor of that Client ID by an
    email the row does not fold to, goes through. *)
Theorem delete_keeps_claims user now d r :
  uniq d → r ∈ t_roster d → rr_deleting r = true →
  lower_eq (rr_email r) (nu_email user) = true ∨
    (lower_eq (rr_client_id r) (nu_client_id user) = true ∧
     equal_fold (rr_email r) (nu_email user) = false) →
  is_ok (AddRosterUser user now d) = false.
Proof.
  intros Hu Hr Hdel Hclaim. unfold AddRosterUser. cbv zeta. destruct Hclaim as [He|[Hid Hf]].
  - rewrite (uniq_find d _ r) by done. by rewrite Hdel.
  - rewrite (uniq_find_id d _ r) by done. rewrite Hf. simpl.
    by destruct (match find_first _ _ with Some _ => _ | None => _ end).
Qed.

(** ** The poll *)

(** What a step may do to a users row: history never shrinks, and the day
    the user was first seen stays. *)
Definition grows (r r' : usersRow) : Prop :=
  ur_first_seen r' = ur_first_seen r ∧
  ∀ t, ur_last_seen r = Some t → ∃ t', ur_last_seen r' = Some t' ∧ t <= t'.

#[local] Instance grows_preorder : PreOrder grows.
Proof.
  split.
  - intros r. split; [done|]. intros t ->. by exists t.
  - intros a b c [Hf1 Hl1] [Hf2 Hl2]. split; [congruence|]. intros t Ht.
    destruct (Hl1 t Ht) as (t' & Ht' & ?). destruct (Hl2 t' Ht') as (t'' & ? & ?).
    exists t''. split; [done|lia].
Qed.

Lemma lastSeenGrow_ge old excluded t :
  old = Some t → ∃ t', lastSeenGrow old excluded = Some t' ∧ t <= t'.
Proof. intros ->. destruct excluded; simpl; eexists; (split; [done|lia]). Qed.

(** A relation every step puts between a row and its successor holds
    between the first and the last. *)
Section RowRelation.
Context (R : relation usersRow) `{!PreOrder R}.

Definition row_step (k : string) (u u' : list usersRow) : Prop :=
  ∀ r, row_at ur_email k u = Some r → ∃ r', row_at ur_email k u' = Some r' ∧ R r r'.

Lemma row_step_trans k u1 u2 u3 : row_step k u1 u2 → row_step k u2 u3 → row_step k u1 u3.
Proof.
  intros H1 H2 r Hr. destruct (H1 r Hr) as (r1 & Hr1 & ?). destruct (H2 r1 Hr1) as (r2 & ? & ?).
  exists r2. split; [done|by etrans].
Qed.

Lemma row_step_foldl {B} (step : list usersRow → B → list usersRow) bs k u :
  (∀ u b, row_step k u (step u b)) → row_step k u (foldl step u bs).
Proof.
  intros Hs. revert u. induction bs as [|b bs IH]; intros u; simpl.
  - intros r Hr. by exists r.
  - by eapply row_step_trans.
Qed.

Lemma row_step_upsert k email fresh f u :
  ur_email fresh = email → (∀ x, ur_email (f x) = ur_email x) →
  (∀ x, ur_email x = k → R x (f x)) → row_step k u (upsert ur_email email fresh f u).
Proof.
  intros Hf Hk Hg r Hr. rewrite row_at_upsert by done.
  destruct (String.eqb_spec email k) as [->|]; [|by exists r].
  rewrite Hr. eexists. split; [done|]. apply Hg.
  apply find_first_Some in Hr as [_ Hr]. by apply String.eqb_eq.
Qed.

Lemma row_step_update k (p : usersRow → bool) f u :
  (∀ x, ur_email (f x) = ur_email x) → (∀ x, ur_email x = k → p x = true → R x (f x)) →
  row_step k u (update_where p f u).
Proof.
  intros Hk Hg r Hr. rewrite row_at_update_where, Hr by done. simpl. eexists. split; [done|].
  apply find_first_Some in Hr as [_ Hr%String.eqb_eq]. destruct (p r) eqn:E; [by apply Hg|done].
Qed.

(** The poll's statements: the traffic, the presence, the labels. *)
Lemma row_step_poll k deltas presence roster now d :
  (∀ up down s x, R x (ur_add_delta up down s x)) →
  (∀ s i x, R x (ur_add_presence s i x)) →
  (∀ l x, R x (ur_set_labels l x)) →
  (∀ x, ur_email x = k → roster_has k false (t_roster d) = false → R x (ur_set_disabled true x)) →
  (∀ x, ur_email x = k → roster_has k true (t_roster d) = false → R x (ur_set_disabled false x)) →
  row_step k (t_users d) (t_users (ApplyPoll deltas presence roster now d)).
Proof.
  intros Hdelta Hpres Hlab Hoff Hon. unfold ApplyPoll.
  assert (row_step k (t_users d)
    (foldl (apply_presence now) (foldl (apply_delta now) (t_users d) deltas) presence)) as Htraffic.
  { apply (row_step_trans k _ (foldl (apply_delta now) (t_users d) deltas));
      apply row_step_foldl; intros; by apply row_step_upsert. }
  destruct roster as [feed|]; [|done]. eapply row_step_trans; [done|].
  simpl. match goal with |- row_step _ _ (foldl _ ?u _) => apply (row_step_trans k _ u) end;
    [|apply row_step_foldl].
  - apply row_step_update; [done|]. intros x Hx [_ Hn%negb_true_iff]%andb_prop.
    apply Hoff; [done|]. by rewrite <-Hx.
  - intros u e. apply row_step_upsert; [done|..]; intros x.
    + by case_match.
    + intros Hx. case_match eqn:E; [done|].
      etrans; [apply Hlab|]. apply Hon; [done|]. simpl in *. by rewrite <-Hx.
Qed.
End RowRelation.

(** A poll never loses history. Whatever deltas, presence and parse it
    writes, a stored user keeps its row and its first-seen day, and its
    last-seen time only moves forward. *)
Theorem poll_keeps_history deltas presence roster now d email r :
  row_at ur_email email (t_users d) = Some r →
  ∃ r', row_at ur_email email (t_users (ApplyPoll deltas presence roster now d)) = Some r' ∧
    ur_first_seen r' = ur_first_seen r ∧
    ∀ t, ur_last_seen r = Some t → ∃ t', ur_last_seen r' = Some t' ∧ t <= t'.
Proof.
  revert r. apply (row_step_poll grows); intros; try (split; simpl; by eauto using Z.le_refl).
  - split; [done|]. intros t Ht. by apply lastSeenGrow_ge.
  - split; [done|]. intros t Ht. by apply lastSeenGrow_ge.
Qed.

(** Reading one counter of a row through the poll's statements. *)
Section Counter.
Context (f : usersRow → Z) (fd : Delta → Z).
Context (Hlab : ∀ l r, f (ur_set_labels l r) = f r).
Context (Hdis : ∀ b r, f (ur_set_disabled b r) = f r).
Context (Hpres : ∀ s i r, f (ur_add_presence s i r) = f r).
Context (Hzero : ∀ e l s i d t, f (UsersRow e l 0 0 s i d t) = 0).
Context (Hadd : ∀ x s r, f (ur_add_delta (d_up x) (d_down x) s r) = f r + fd x).
Context (Hnew : ∀ x e l s i d t, f (UsersRow e l (d_up x) (d_down x) s i d t) = fd x).

Definition counter (email : string) (u : list usersRow) : Z :=
  default 0 (f <$> row_at ur_email email u).

Lemma counter_upsert k email fresh g u :
  ur_email fresh = email → (∀ x, ur_email (g x) = ur_email x) →
  f fresh = 0 → (∀ x, f (g x) = f x) →
  counter k (upsert ur_email email fresh g u) = counter k u.
Proof.
  intros He Hk H0' Hg. unfold counter. rewrite row_at_upsert by done.
  destruct (String.eqb_spec email k) as [->|]; [|done].
  destruct (row_at ur_email k u); simpl; auto.
Qed.

Lemma counter_deltas k now u deltas :
  counter k (foldl (apply_delta now) u deltas) = counter k u + sum_for fd k deltas.
Proof.
  revert u. induction deltas as [|x xs IH]; intros u; simpl; [lia|].
  rewrite IH. unfold counter at 1, apply_delta. rewrite row_at_upsert by done.
  destruct (String.eqb_spec (d_email x) k) as [->|].
  - unfold counter. destruct (row_at ur_email k u) as [r|]; simpl; rewrite ?Hadd, ?Hnew; lia.
  - unfold counter. lia.
Qed.

Lemma counter_fold {B} (step : list usersRow → B → list usersRow) k u bs :
  (∀ u b, counter k (step u b) = counter k u) → counter k (foldl step u bs) = counter k u.
Proof. intros Hs. revert u. induction bs as [|b bs IH]; intros u; simpl; [done|]. by rewrite IH. Qed.

Lemma counter_poll k deltas presence roster now d :
  counter k (t_users (ApplyPoll deltas presence roster now d)) =
    counter k (t_users d) + sum_for fd k deltas.
Proof.
  rewrite <-(counter_deltas k now). unfold ApplyPoll.
  assert (∀ u, counter k (foldl (apply_presence now) u presence) = counter k u) as Hp.
  { intros u. apply counter_fold. intros v b. apply counter_upsert; auto. }
  destruct roster as [feed|]; simpl; [|done].
  rewrite <-(Hp (foldl (apply_delta now) (t_users d) deltas)).
  match goal with |- counter k (foldl ?s ?u ?l) = _ => rewrite (counter_fold s k u l) end.
  { unfold counter. rewrite row_at_update_where by done.
    destruct (row_at ur_email k _) as [r|]; simpl; [|done]. by destruct (negb _ && _). }
  intros u e. apply counter_upsert; [done|..].
  - intros x. by destruct (roster_has _ _ _).
  - rewrite Hlab. apply Hzero.
  - intros x. destruct (roster_has _ _ _); by rewrite ?Hdis, Hlab.
Qed.
End Counter.

(** A poll adds exactly its reconciled deltas. For every email, stored
    or not, both totals afterwards are the old totals (zero for a new row)
    plus the sum of that email's deltas; presence, labels and adoption move
    no traffic. *)
Theorem poll_adds_exactly deltas presence roster now d email :
  let d' := ApplyPoll deltas presence roster now d in
  total_up email d' = total_up email d + sum_for d_up email deltas ∧
  total_down email d' = total_down email d + sum_for d_down email deltas.
Proof. split; by apply counter_poll. Qed.

(** ** Adoption *)

(** What adopting one config client makes of its stored row. *)
Definition adopted (stamp : Z) (email : string) (stored : option rosterRow) (client : Client)
    : rosterRow :=
  match stored with
  | None => RosterRow email (c_client_id client) (JsonText (c_inbounds client))
              false false stamp stamp
  | Some row =>
      let tags := unmarshal_or [] (rr_inbounds row) in
      if rr_disabled row then row
      else if forallb (λ t, bool_decide (t ∈ tags)) (c_inbounds client) then row
      else rr_set_inbounds (foldl append_new tags (c_inbounds client)) stamp row
  end.

Lemma merged_length (tags xs : list string) :
  bool_decide (length (foldl append_new tags xs) = length tags) =
    forallb (λ t, bool_decide (t ∈ tags)) xs.
Proof.
  destruct (forallb _ xs) eqn:E.
  - apply bool_decide_eq_true_2. rewrite forallb_forall in E.
    rewrite append_new_all_absorb; [done|]. intros x Hx.
    apply (bool_decide_eq_true_1 (x ∈ tags)), E. by apply list_elem_of_In.
  - apply bool_decide_eq_false_2. intros Hlen.
    destruct (append_new_all_prefix tags xs) as [k Hk].
    assert (k = []) as ->.
    { apply nil_length_inv. rewrite Hk, length_app in Hlen. lia. }
    rewrite app_nil_r in Hk. apply not_true_iff_false in E. apply E.
    apply forallb_forall. intros x Hx%list_elem_of_In. apply bool_decide_eq_true_2.
    rewrite <-Hk. apply elem_of_append_new_all. by right.
Qed.

Lemma row_at_app k (l1 l2 : list rosterRow) :
  row_at rr_email k (l1 ++ l2) =
    match row_at rr_email k l1 with Some x => Some x | None => row_at rr_email k l2 end.
Proof. apply find_first_app. Qed.

#[local] Arguments adopt_client : simpl never.

(** One step, seen from any key. *)
Lemma adopt_client_row stamp before roster email client k :
  row_at rr_email email roster = stored_row email before →
  row_at rr_email k (adopt_client stamp before roster (email, client)) =
    if String.eqb email k then Some (adopted stamp email (stored_row email before) client)
    else row_at rr_email k roster.
Proof.
  intros Hag. unfold adopt_client, adopted. rewrite <-Hag.
  destruct (row_at rr_email email roster) as [row|] eqn:E.
  - apply find_first_Some in E as Hrow. destruct Hrow as [_ Hkey].
    destruct (rr_disabled row).
    { destruct (String.eqb_spec email k) as [<-|]; [by rewrite E|done]. }
    rewrite merged_length. destruct (forallb _ _).
    { destruct (String.eqb_spec email k) as [<-|]; [by rewrite E|done]. }
    rewrite row_at_update_where by done.
    destruct (String.eqb_spec email k) as [<-|Hne]; [by rewrite E; simpl; rewrite Hkey|].
    destruct (row_at rr_email k roster) as [x|] eqn:Ex; [|done]. simpl.
    apply find_first_Some in Ex as [_ Hx]. apply String.eqb_eq in Hx.
    destruct (String.eqb_spec (rr_email x) email); [congruence|done].
  - rewrite row_at_app. unfold row_at at 2. simpl.
    destruct (String.eqb_spec email k) as [<-|]; [by rewrite E|].
    by destruct (row_at rr_email k roster).
Qed.

Lemma adopt_fold_row stamp before entries roster k :
  NoDup entries.*1 →
  (∀ e, e ∈ entries.*1 → row_at rr_email e roster = stored_row e before) →
  row_at rr_email k (foldl (adopt_client stamp before) roster entries) =
    match find_first (λ e, String.eqb (fst e) k) entries with
    | Some e => Some (adopted stamp k (stored_row k before) (snd e))
    | None => row_at rr_email k roster
    end.
Proof.
  revert roster. induction entries as [|[email client] entries IH]; intros roster; simpl; [done|].
  intros [Hn Hnd]%NoDup_cons Hag. rewrite IH; [|done|].
  - rewrite adopt_client_row by (apply Hag; by left).
    destruct (String.eqb_spec email k) as [<-|Hne]; [|done].
    destruct (find_first _ entries) as [e|] eqn:E; [|done].
    apply find_first_Some in E as [Hin He%String.eqb_eq]. exfalso. apply Hn.
    rewrite <-He. by apply list_elem_of_fmap_2.
  - intros e He. rewrite adopt_client_row by (apply Hag; by left).
    destruct (String.eqb_spec email e) as [<-|]; [done|]. apply Hag. by right.
Qed.

Lemma find_sorted_clients clients k :
  snd <$> find_first (λ e : string * Client, String.eqb (fst e) k) (sorted_clients clients) =
    clients !! k.
Proof.
  assert (∀ e : string * Client, e ∈ sorted_clients clients ↔ clients !! (fst e) = Some (snd e)) as Hin.
  { intros [x c]. unfold sorted_clients. rewrite merge_sort_Permutation. apply elem_of_map_to_list. }
  destruct (find_first _ _) as [e|] eqn:E; simpl.
  - apply find_first_Some in E as [He Hk%String.eqb_eq]. apply Hin in He. by rewrite <-Hk.
  - rewrite find_first_None in E. destruct (clients !! k) as [c|] eqn:Ec; [|done].
    specialize (E (k, c)). rewrite Hin in E. specialize (E Ec). simpl in E.
    by rewrite String.eqb_refl in E.
Qed.

Lemma adopt_row clients now d k :
  row_at rr_email k (t_roster (adoptClients clients now d)) =
    match clients !! k with
    | Some c => Some (adopted now k (row_at rr_email k (t_roster d)) c)
    | None => row_at rr_email k (t_roster d)
    end.
Proof.
  simpl. rewrite adopt_fold_row; [|apply sorted_clients_NoDup|done].
  rewrite <-find_sorted_clients. by destruct (find_first _ (sorted_clients clients)).
Qed.

(** Adoption only adds. The row of each config client is created with
    the file's Client ID and tags when the store had none; an active row
    gains the missing tags at its end and keeps its Client ID; a disabled row
    and every row the config does not name stay as they are. *)
Theorem adoption_row_spec clients now d email :
  row_at rr_email email (t_roster (adoptClients clients now d)) =
    match clients !! email, row_at rr_email email (t_roster d) with
    | None, stored => stored
    | Some c, None => Some (RosterRow email (c_client_id c) (JsonText (c_inbounds c))
                              false false now now)
    | Some c, Some row =>
        let tags := unmarshal_or [] (rr_inbounds row) in
        Some (if rr_disabled row || forallb (λ t, bool_decide (t ∈ tags)) (c_inbounds c)
              then row
              else rr_set_inbounds (foldl append_new tags (c_inbounds c)) now row)
    end.
Proof.
  rewrite adopt_row. destruct (clients !! email) as [c|]; [|done].
  destruct (row_at _ _ _) as [row|]; simpl; [|done]. by destruct (rr_disabled row).
Qed.

Lemma adopted_again s1 s2 email stored c :
  adopted s2 email (Some (adopted s1 email stored c)) c = adopted s1 email stored c.
Proof.
  destruct stored as [row|]; simpl.
  - destruct (rr_disabled row) eqn:Hd; simpl; [by rewrite Hd|].
    destruct (forallb _ _) eqn:Hf; simpl; rewrite Hd; [by rewrite Hf|].
    rewrite (proj2 (forallb_forall _ _)); [done|]. intros x Hx%list_elem_of_In.
    apply bool_decide_eq_true_2, elem_of_append_new_all. by right.
  - rewrite (proj2 (forallb_forall _ _)); [done|]. intros x Hx%list_elem_of_In.
    by apply bool_decide_eq_true_2.
Qed.

Lemma adopt_client_fixed stamp before roster email client :
  stored_row email before = Some (adopted stamp email (stored_row email before) client) →
  adopt_client stamp before roster (email, client) = roster.
Proof.
  unfold adopt_client, adopted. destruct (stored_row email before) as [row|]; [|done].
  destruct (rr_disabled row); [done|]. rewrite merged_length. destruct (forallb _ _) eqn:E; [done|].
  intros [= Hr]. exfalso. apply not_true_iff_false in E. apply E.
  apply forallb_forall. intros x Hx%list_elem_of_In. apply bool_decide_eq_true_2.
  rewrite Hr. simpl. apply elem_of_append_new_all. by right.
Qed.

(** Adopting the same parse again writes nothing, whatever the clock
    says: the second pass leaves every table as the first one left it. *)
Theorem adoption_idempotent clients now1 now2 d :
  adoptClients clients now2 (adoptClients clients now1 d) = adoptClients clients now1 d.
Proof.
  set (d1 := adoptClients clients now1 d).
  assert (∀ k, stored_row k (t_roster d1) = match clients !! k with
    | Some c => Some (adopted now1 k (row_at rr_email k (t_roster d)) c)
    | None => row_at rr_email k (t_roster d)
    end) as Hrow by (intros k; apply adopt_row).
  clearbody d1.
  assert (∀ l, (∀ e, e ∈ l → e ∈ sorted_clients clients) →
    foldl (adopt_client now2 (t_roster d1)) (t_roster d1) l = t_roster d1) as Hfix.
  { induction l as [|[email c] l IH]; intros Hl; simpl; [done|].
    rewrite adopt_client_fixed; [apply IH; intros e He; apply Hl; by right|].
    assert (clients !! email = Some c) as Hc.
    { apply elem_of_map_to_list. specialize (Hl (email, c)). unfold sorted_clients in Hl.
      rewrite merge_sort_Permutation in Hl. apply Hl. by left. }
    by rewrite !Hrow, Hc, adopted_again. }
  unfold adoptClients, set_roster. rewrite Hfix by done. by destruct d1.
Qed.

Lemma roster_has_elem k b roster r :
  r ∈ roster → lower_eq (rr_email r) k = true → rr_disabled r = b → roster_has k b roster = true.
Proof.
  intros Hr Hk Hb. unfold roster_has. apply existsb_exists. exists r.
  split; [by apply list_elem_of_In|]. rewrite Hk, Hb. by destruct b.
Qed.

Lemma row_at_wf {A} (key : A → string) l r :
  NoDup (key <$> l) → r ∈ l → row_at key (key r) l = Some r.
Proof.
  induction l as [|x l IH]; intros Hnd Hr; [by apply not_elem_of_nil in Hr|].
  rewrite fmap_cons in Hnd. apply NoDup_cons in Hnd as [Hx Hnd]. unfold row_at in *. simpl.
  apply elem_of_cons in Hr as [->|Hr]; [by rewrite String.eqb_refl|].
  destruct (String.eqb_spec (key x) (key r)) as [E|]; [|by apply IH].
  exfalso. apply Hx. rewrite E. by apply list_elem_of_fmap_2.
Qed.

Definition stays_disabled (a b : usersRow) : Prop :=
  ur_disabled a = true → ur_disabled b = true.

#[local] Instance stays_disabled_preorder : PreOrder stays_disabled.
Proof. split; [by intros ??|intros ???; unfold stays_disabled; auto]. Qed.

(** A poll never revives a disabled user. Its roster row stays as it
    is, whatever the parse says about that email, and its users row, once
    marked disabled, stays so even when the config still names it. *)
Theorem poll_keeps_disabled deltas presence roster now d r u :
  wf d → r ∈ t_roster d → rr_disabled r = true →
  row_at ur_email (rr_email r) (t_users d) = Some u → ur_disabled u = true →
  let d' := ApplyPoll deltas presence roster now d in
  r ∈ t_roster d' ∧
  ∃ u', row_at ur_email (rr_email r) (t_users d') = Some u' ∧ ur_disabled u' = true.
Proof.
  intros Hwf Hr Hd Hu Hdis d'. split.
  - unfold d', ApplyPoll. destruct roster as [feed|]; [|done].
    pose proof (row_at_wf rr_email _ r (wf_roster d Hwf) Hr) as Hrow.
    eapply (find_first_Some (λ x, String.eqb (rr_email x) (rr_email r))).
    etrans; [apply adopt_row|]. change (t_roster (syncLabels _ _ _)) with (t_roster d).
    destruct (rf_clients feed !! rr_email r); [|done]. rewrite Hrow. simpl. by rewrite Hd.
  - assert (row_step stays_disabled (rr_email r) (t_users d) (t_users d')) as Hs.
    { apply row_step_poll; [apply _|by intros ?????|by intros ????|by intros ???|by intros ????|].
      intros x _ Hn. by rewrite (roster_has_elem _ _ _ r) in Hn by auto using lower_eq_refl. }
    destruct (Hs u Hu) as (u' & Hu' & Hb). exists u'. auto.
Qed.

(** ** Edits *)

Lemma find_first_ext_in {A} (p q : A → bool) l :
  (∀ x, x ∈ l → p x = q x) → find_first p l = find_first q l.
Proof.
  induction l as [|x l IH]; intros Hl; simpl; [done|].
  rewrite Hl by (by left). rewrite IH; [done|]. intros y Hy. apply Hl. by right.
Qed.

Lemma stored_labels_relabel email labels now u :
  (∀ x, x ∈ u → lower_eq (ur_email x) email = true → ur_email x = email) →
  stored_labels email (relabel_user email labels now u) = Some labels.
Proof.
  intros Hx. unfold stored_labels.
  rewrite (find_first_ext_in _ (λ x, String.eqb (ur_email x) email)).
  - fold (row_at ur_email email (relabel_user email labels now u)).
    unfold relabel_user. rewrite row_at_upsert by done. rewrite String.eqb_refl.
    by destruct (row_at ur_email email u).
  - intros x Hin. destruct (String.eqb_spec (ur_email x) email) as [->|Hne]; [apply lower_eq_refl|].
    apply not_true_iff_false. intros Hl. apply Hne.
    unfold relabel_user, upsert in Hin. destruct (existsb _ u) in Hin.
    + apply elem_of_update_where in Hin as (y & Hy & ->).
      destruct (String.eqb _ _); simpl in *; by apply Hx.
    + apply elem_of_app in Hin as [Hin| ->%list_elem_of_singleton]; [by apply Hx|done].
Qed.

(** An edit is idempotent. Saving the same form again, at any later
    time, returns the same record and writes nothing, so it is no roster
    change. *)
Theorem edit_idempotent email edit now1 now2 d rec d1 :
  uniq d →
  (∀ u r, u ∈ t_users d → r ∈ t_roster d →
     lower_eq (ur_email u) (rr_email r) = true → ur_email u = rr_email r) →
  EditRosterUser email edit now1 d = Ok (rec, d1) →
  EditRosterUser email edit now2 d1 = Ok (rec, d1).
Proof.
  intros Hu Hcase He. pose proof (mutate_edit_uniq now1 email edit d Hu) as Hu1.
  simpl in Hu1. rewrite He in Hu1. unfold EditRosterUser in He.
  destruct (RosterRecord_ email d) as [before|] eqn:Eb; [|done].
  destruct (ed_client_id edit ≫= _) eqn:Et; [done|].
  case_bool_decide as Hsame; injection He as <- <-.
  { unfold EditRosterUser. rewrite Eb, Et. by rewrite bool_decide_eq_true_2. }
  apply rosterRecord_Ok in Eb as (r & Hr & -> & Hre & Hd & Hdel). simpl in *.
  set (id1 := match ed_client_id edit with Some _ => _ | None => _ end) in *.
  set (inb := default _ (ed_inbounds edit)) in *.
  set (f := λ r, rr_set_inbounds inb now1 (rr_set_client_id id1 r)) in *.
  set (d1 := Db _ _ _) in *.
  assert (f r ∈ t_roster d1) as Hr1.
  { simpl. apply elem_of_update_where. exists r. by rewrite String.eqb_refl. }
  unfold EditRosterUser, RosterRecord_. rewrite (rosterRecord_unique _ d1 (f r)) by done.
  simpl. rewrite Hd, Hdel. simpl.
  replace (ed_client_id edit ≫= _) with (@None rosterRow).
  - rewrite bool_decide_eq_true_2; [done|]. split_and!.
    + unfold id1. destruct (ed_client_id edit) as [id|]; [|done].
      destruct (equal_fold (rr_client_id r) id) eqn:Ef; [by rewrite Ef|]. by rewrite equal_fold_refl.
    + unfold inb. by destruct (ed_inbounds edit).
    + apply stored_labels_relabel. intros x Hx. by apply Hcase.
  - destruct (ed_client_id edit) as [id|]; [|done]. simpl in *. symmetry.
    apply find_first_None. intros y (x & Hx & ->)%elem_of_update_where.
    rewrite find_first_None in Et. specialize (Et x Hx).
    destruct (String.eqb_spec (rr_email x) (rr_email r)) as [E|]; [|done].
    simpl. rewrite E, lower_eq_refl. apply andb_false_r.
Qed.

End WithRuntime.

(** ** Witnesses

    A database with an active user (alice), a disabled one (bob) and one
    whose delete is in progress (carol). *)
Module Examples.
Import AsciiRuntime.
Local Open Scope string_scope.

Definition vlessLabel : Label := {| l_protocol := "vless"; l_security := "tls"; l_transport := "tcp" |}.

Definition sampleDb : db := Db
  [ UsersRow "alice@x" (Some (JsonText [vlessLabel])) 10 20 (Some 50%Z) None false 1;
    UsersRow "bob@x" None 5 6 None None true 2;
    UsersRow "carol@x" None 0 0 None None true 3 ]
  [ RosterRow "alice@x" "id-a" (JsonText ["in-1"]) false false 1 1;
    RosterRow "bob@x" "id-b" (JsonText ["in-1"]) true false 2 2;
    RosterRow "carol@x" "id-c" (JsonText ["in-1"]) true true 3 3 ]
  (Some (15, 26))%Z.

Definition dave : NewRosterUser := {| nu_email := "dave@x"; nu_client_id := "id-d";
  nu_inbounds := ["in-1"]; nu_labels := [vlessLabel] |}.
Definition carolAgain : NewRosterUser := {| nu_email := "CAROL@x"; nu_client_id := "id-e";
  nu_inbounds := ["in-1"]; nu_labels := [vlessLabel] |}.
Definition bobShouted : NewRosterUser := {| nu_email := "BOB@x"; nu_client_id := "id-b";
  nu_inbounds := ["in-1"]; nu_labels := [vlessLabel] |}.
Definition aliceEdit : RosterEdit := {| ed_client_id := Some "id-a2"; ed_inbounds := Some ["in-2"];
  ed_labels := [vlessLabel] |}.
Definition aliceFeed : RosterFeed := {|
  rf_labels := [("alice@x", {| u_labels := [vlessLabel] |}); ("bob@x", {| u_labels := [vlessLabel] |})];
  rf_clients := {["bob@x" := {| c_client_id := "id-b"; c_inbounds := ["in-9"] |}]} |}.

(** Membership in a literal list, one case per element. *)
Ltac cases_in H :=
  repeat (apply elem_of_cons in H as [->|H]); [..|by apply not_elem_of_nil in H].

Lemma sample_uniq : uniq sampleDb.
Proof.
  split; [split; by apply (bool_decide_unpack _)|..]; intros a.
  - intros b Ha Hb. cases_in Ha; cases_in Hb; done.
  - intros b Ha Hb. cases_in Ha; cases_in Hb; done.
  - intros Ha. cases_in Ha; done.
Qed.

(** Every kind of request: two of them are refused for a Client ID another
    row holds in another case. *)
Definition history : list mutation := [
  MAdd dave;
  MAdd {| nu_email := "erin@x"; nu_client_id := "ID-A"; nu_inbounds := []; nu_labels := [] |};
  MEdit "DAVE@x" {| ed_client_id := Some "Id-A"; ed_inbounds := None; ed_labels := [] |};
  MEdit "alice@x" aliceEdit; MDisable "dave@x"; MEnable "BOB@x"; MDelete "Alice@x";
  MPurge "carol@x"; MPurge "alice@x"; MAdd carolAgain].

Lemma mutations_keep_unique_witness :
  (rr_email <$> t_roster (foldl (λ d m, mutate 9 m d) sampleDb history),
   rr_client_id <$> t_roster (foldl (λ d m, mutate 9 m d) sampleDb history)) =
    (["bob@x"; "dave@x"; "CAROL@x"], ["id-b"; "id-d"; "id-e"]) ∧
  uniq (foldl (λ d m, mutate 9 m d) sampleDb history).
Proof.
  split; [vm_compute; reflexivity|].
  apply (mutations_keep_unique 9); [reflexivity|apply sample_uniq].
Defined.

Lemma add_accepts_iff_witness :
  is_ok (AddRosterUser dave 9 sampleDb) = true ↔
    (∀ r, r ∈ t_roster sampleDb → lower_eq (rr_email r) "dave@x" = true →
       rr_disabled r = true ∧ rr_deleting r = false) ∧
    (∀ r, r ∈ t_roster sampleDb → lower_eq (rr_client_id r) "id-d" = true →
       lower_eq (rr_email r) "dave@x" = true).
Proof. apply (add_accepts_iff dave 9 sampleDb); [apply sample_uniq|reflexivity]. Defined.

Lemma disable_enable_restores_witness :
  EnableRosterUser "ALICE@x" 9 (DisableRosterUser "ALICE@x" 8 sampleDb) =
    Ok (MkRecord "alice@x" "id-a" ["in-1"] 1 9, true,
        Db (t_users sampleDb) (same_but_stamp "ALICE@x" 9 (t_roster sampleDb)) (t_totals sampleDb)).
Proof.
  apply (disable_enable_restores "ALICE@x" 8 9 sampleDb (MkRecord "alice@x" "id-a" ["in-1"] 1 1));
    [apply sample_uniq|vm_compute; reflexivity|].
  intros u Hu. cases_in Hu; done.
Defined.

Lemma mark_then_purge_witness :
  PurgeRosterUser "alice@x" (MarkRosterDeleting "alice@x" 9 sampleDb) =
    Db (delete_where (λ u, lower_eq (ur_email u) "alice@x") (t_users sampleDb))
       (delete_where (λ r, lower_eq (rr_email r) "alice@x") (t_roster sampleDb))
       (t_totals sampleDb).
Proof. apply (mark_then_purge "alice@x" 9 sampleDb). reflexivity. Defined.

Lemma delete_keeps_claims_witness : is_ok (AddRosterUser carolAgain 9 sampleDb) = false.
Proof.
  eapply (delete_keeps_claims carolAgain 9 sampleDb
            (RosterRow "carol@x" "id-c" (JsonText ["in-1"]) true true 3 3));
    [apply sample_uniq|right; right; left|reflexivity|left; reflexivity].
Defined.

Lemma poll_keeps_history_witness :
  ∃ r', row_at ur_email "alice@x" (t_users (ApplyPoll [] [] (Some aliceFeed) 60 sampleDb)) = Some r' ∧
    ur_first_seen r' = 1%Z ∧
    ∀ t, Some 50%Z = Some t → ∃ t', ur_last_seen r' = Some t' ∧ (t <= t')%Z.
Proof.
  apply (poll_keeps_history [] [] (Some aliceFeed) 60 sampleDb "alice@x"
    (UsersRow "alice@x" (Some (JsonText [vlessLabel])) 10 20 (Some 50%Z) None false 1)).
  reflexivity.
Defined.

Lemma poll_keeps_disabled_witness :
  let d' := ApplyPoll [] [] (Some aliceFeed) 60 sampleDb in
  RosterRow "bob@x" "id-b" (JsonText ["in-1"]) true false 2 2 ∈ t_roster d' ∧
  ∃ u', row_at ur_email "bob@x" (t_users d') = Some u' ∧ ur_disabled u' = true.
Proof.
  apply (poll_keeps_disabled [] [] (Some aliceFeed) 60 sampleDb
    (RosterRow "bob@x" "id-b" (JsonText ["in-1"]) true false 2 2)
    (UsersRow "bob@x" None 5 6 None None true 2));
    [apply sample_uniq|right; left|reflexivity..].
Defined.

Lemma edit_idempotent_witness :
  match EditRosterUser "alice@x" aliceEdit 8 sampleDb with
  | Ok (rec, d1) => EditRosterUser "alice@x" aliceEdit 9 d1 = Ok (rec, d1)
  | Err _ => False
  end.
Proof.
  destruct (EditRosterUser "alice@x" aliceEdit 8 sampleDb) as [[rec d1]|e] eqn:E;
    [|vm_compute in E; discriminate E].
  apply (edit_idempotent "alice@x" aliceEdit 8 9 sampleDb rec d1); [apply sample_uniq| |exact E].
  intros u r Hu Hr. cases_in Hu; cases_in Hr; done.
Defined.

(** Re-adding a disabled email in another case revives its roster row under
    the stored spelling, while the users row is inserted under the new one:
    the history stays behind, and the returned record names an email the
    roster does not carry. *)
Lemma respelled_readd_splits_history :
  match AddRosterUser bobShouted 9 sampleDb with
  | Ok (rec, d') =>
      rec_email rec = "BOB@x" ∧
      row_at rr_email "BOB@x" (t_roster d') = None ∧
      total_up "BOB@x" d' = 0%Z ∧ total_up "bob@x" d' = 5%Z ∧
      (ur_disabled <$> row_at ur_email "bob@x" (t_users d')) = Some true
  | Err _ => False
  end.
Proof. vm_compute. repeat split. Qed.
End Examples.

End StoreTheorems.
