(* ===== verification/Collector.v ===== *)
(** * The users collector (internal/users/collector.go)

    One poll samples the config roster, the traffic counters and the online
    set, reconciles the counters and hands everything to the store in one
    transaction. What cannot be written stays pending. The collector talks to
    the store through the [Persistence] interface; the SQLite store
    implements it at the end of the file. *)

From Stdlib Require Import String.
From S2P Require Import Prelude Reconcile XrayConfig Store StoreProps StoreTheorems.

Local Open Scope Z_scope.

Module Collector.
Import Reconcile XrayConfig Store StoreProps StoreTheorems.

(** ** The store seam *)

Inductive direction := Uplink | Downlink.

Definition d_bytes (d : direction) : Delta → Z :=
  match d with Uplink => d_up | Downlink => d_down end.

(** The persistence interface: the operations' effects when they succeed. *)
Class Persistence (S : Type) := {
  existingEmails : S → gset string;
  applyPoll : list Delta → list Presence → option RosterFeed → Z → S → S;
  listUsers : S → list userView;
  (* the durable total the laws speak of *)
  durable : direction → string → S → Z;
}.

(** What the collector relies on: the poll transaction adds the deltas and
    nothing else, and no row disappears in it. *)
Class PersistenceLaws (S : Type) `{Persistence S} : Prop := {
  applyPoll_durable d email deltas presence roster now s :
    durable d email (applyPoll deltas presence roster now s) =
      durable d email s + sum_for (d_bytes d) email deltas;
  applyPoll_existing deltas presence roster now s :
    existingEmails s ⊆ existingEmails (applyPoll deltas presence roster now s);
}.

(** ** State *)

Record pendingDelta := PendingDelta { pd_up : Z; pd_down : Z; pd_seen_now : bool }.

Definition zeroPending : pendingDelta := PendingDelta 0 0 false.

(** xray's raw cumulative counters of one user. *)
Record RawTraffic := { rt_email : string; rt_up : Z; rt_down : Z }.

(** Times are nanoseconds since the Unix epoch. *)
Record Collector := {
  c_up : gmap string Tracker;
  c_down : gmap string Tracker;
  c_seeded : gset string;
  c_pending : gmap string pendingDelta;
  c_pendingRoster : option RosterParse;
  c_pendingRosterVersion : Z;
  c_rosterVersion : Z;
  c_lastPoll : Z;
  c_collectedAt : Z;
  c_stale : bool;
  c_pollErr : string;
  c_storeErr : string;
  c_presenceErr : string;
  c_rosterErr : string;
  c_notedUnsupported : bool;
}.

(** time.Time's zero value, January 1 of year 1. *)
Definition zeroTime : Z := -62135596800 * 1000000000.

Definition NewCollector : Collector := {|
  c_up := ∅; c_down := ∅; c_seeded := ∅; c_pending := ∅;
  c_pendingRoster := None; c_pendingRosterVersion := 0; c_rosterVersion := 0;
  c_lastPoll := zeroTime; c_collectedAt := 0; c_stale := false;
  c_pollErr := ""; c_storeErr := ""; c_presenceErr := ""; c_rosterErr := "";
  c_notedUnsupported := false;
|}.

(** Assigning one field at a time. *)
Definition set_stale (b : bool) (c : Collector) : Collector :=
  {| c_up := c_up c; c_down := c_down c; c_seeded := c_seeded c; c_pending := c_pending c;
     c_pendingRoster := c_pendingRoster c; c_pendingRosterVersion := c_pendingRosterVersion c;
     c_rosterVersion := c_rosterVersion c; c_lastPoll := c_lastPoll c;
     c_collectedAt := c_collectedAt c; c_stale := b; c_pollErr := c_pollErr c;
     c_storeErr := c_storeErr c; c_presenceErr := c_presenceErr c; c_rosterErr := c_rosterErr c;
     c_notedUnsupported := c_notedUnsupported c |}.

Definition set_traffic (up down : gmap string Tracker) (seeded : gset string)
    (pending : gmap string pendingDelta) (c : Collector) : Collector :=
  {| c_up := up; c_down := down; c_seeded := seeded; c_pending := pending;
     c_pendingRoster := c_pendingRoster c; c_pendingRosterVersion := c_pendingRosterVersion c;
     c_rosterVersion := c_rosterVersion c; c_lastPoll := c_lastPoll c;
     c_collectedAt := c_collectedAt c; c_stale := c_stale c; c_pollErr := c_pollErr c;
     c_storeErr := c_storeErr c; c_presenceErr := c_presenceErr c; c_rosterErr := c_rosterErr c;
     c_notedUnsupported := c_notedUnsupported c |}.

Definition set_roster_slot (roster : option RosterParse) (pendingVersion version : Z)
    (c : Collector) : Collector :=
  {| c_up := c_up c; c_down := c_down c; c_seeded := c_seeded c; c_pending := c_pending c;
     c_pendingRoster := roster; c_pendingRosterVersion := pendingVersion;
     c_rosterVersion := version; c_lastPoll := c_lastPoll c;
     c_collectedAt := c_collectedAt c; c_stale := c_stale c; c_pollErr := c_pollErr c;
     c_storeErr := c_storeErr c; c_presenceErr := c_presenceErr c; c_rosterErr := c_rosterErr c;
     c_notedUnsupported := c_notedUnsupported c |}.

Definition set_times (lastPoll collectedAt : Z) (c : Collector) : Collector :=
  {| c_up := c_up c; c_down := c_down c; c_seeded := c_seeded c; c_pending := c_pending c;
     c_pendingRoster := c_pendingRoster c; c_pendingRosterVersion := c_pendingRosterVersion c;
     c_rosterVersion := c_rosterVersion c; c_lastPoll := lastPoll;
     c_collectedAt := collectedAt; c_stale := c_stale c; c_pollErr := c_pollErr c;
     c_storeErr := c_storeErr c; c_presenceErr := c_presenceErr c; c_rosterErr := c_rosterErr c;
     c_notedUnsupported := c_notedUnsupported c |}.

(** The log slots: the last logged failure of each kind. *)
Inductive slot := PollErr | StoreErr | PresenceErr | RosterErr.

Definition slot_of (k : slot) (c : Collector) : string :=
  match k with
  | PollErr => c_pollErr c | StoreErr => c_storeErr c
  | PresenceErr => c_presenceErr c | RosterErr => c_rosterErr c
  end.

Definition set_slot (k : slot) (msg : string) (c : Collector) : Collector :=
  {| c_up := c_up c; c_down := c_down c; c_seeded := c_seeded c; c_pending := c_pending c;
     c_pendingRoster := c_pendingRoster c; c_pendingRosterVersion := c_pendingRosterVersion c;
     c_rosterVersion := c_rosterVersion c; c_lastPoll := c_lastPoll c;
     c_collectedAt := c_collectedAt c; c_stale := c_stale c;
     c_pollErr := match k with PollErr => msg | _ => c_pollErr c end;
     c_storeErr := match k with StoreErr => msg | _ => c_storeErr c end;
     c_presenceErr := match k with PresenceErr => msg | _ => c_presenceErr c end;
     c_rosterErr := match k with RosterErr => msg | _ => c_rosterErr c end;
     c_notedUnsupported := c_notedUnsupported c |}.

Definition set_noted (c : Collector) : Collector :=
  {| c_up := c_up c; c_down := c_down c; c_seeded := c_seeded c; c_pending := c_pending c;
     c_pendingRoster := c_pendingRoster c; c_pendingRosterVersion := c_pendingRosterVersion c;
     c_rosterVersion := c_rosterVersion c; c_lastPoll := c_lastPoll c;
     c_collectedAt := c_collectedAt c; c_stale := c_stale c; c_pollErr := c_pollErr c;
     c_storeErr := c_storeErr c; c_presenceErr := c_presenceErr c; c_rosterErr := c_rosterErr c;
     c_notedUnsupported := true |}.

Definition logFailure (k : slot) (err : string) (c : Collector) : Collector :=
  if String.eqb (slot_of k c) err then c else set_slot k err c.

Definition logRecovery (k : slot) (c : Collector) : Collector :=
  if String.eqb (slot_of k c) "" then c else set_slot k "" c.

(** ** One poll's surroundings

    What each seam answers during one poll; [None] in the error fields is
    success. [po_visit] is the order in which Go visits a map. *)
Record Poll := {
  po_roster : option (RosterParse * Z);  (* None: no roster source *)
  po_traffic : result string (list RawTraffic);
  po_presence : result string (list Presence * bool);
  po_existing_err : option string;
  po_apply_err : option string;
  po_users_err : option string;
  po_now : Z;
  po_geo : option (string → string);
  po_visit : ∀ A, list A → list A;
}.

Definition unix (now : Z) : Z := now / 1000000000.

(** Time.Sub saturates at the int64 range. *)
Definition time_sub (a b : Z) : Z := Z.max (- 2 ^ 63) (Z.min (2 ^ 63 - 1) (a - b)).

Record Snapshot := { sn_collected_at : Z; sn_stale : bool; sn_users : list userView }.

Inductive collectError :=
| ReadRoster (err : string) | PersistPoll (err : string) | ReadUsers (err : string).

(** ** Operations *)

Definition sampleRoster (p : Poll) (c : Collector) : Collector :=
  match po_roster p with
  | None => c
  | Some (latest, version) =>
      if (0 <? version) && negb (version =? c_rosterVersion c)
         && negb (version =? c_pendingRosterVersion c)
      then set_roster_slot (Some latest) version (c_rosterVersion c) c
      else c
  end.

(** The maps of a parse, in the order of one visit. *)
Definition feed (p : Poll) (r : RosterParse) : RosterFeed := {|
  rf_labels := po_visit p _ (map_to_list (default ∅ (rp_labels r)));
  rf_clients := rp_clients r;
|}.

(** The pending roster has been persisted. *)
Definition settleRoster (c : Collector) : Collector :=
  set_roster_slot None (c_pendingRosterVersion c) (c_pendingRosterVersion c) c.

Definition trackersFor (email : string) (c : Collector) : Tracker * Tracker :=
  (default (NewTracker false) (c_up c !! email), default (NewTracker false) (c_down c !! email)).

(** The body of the loop over the raw counters. *)
Definition add_raw (existing : gset string) (elapsed : Z) (c : Collector) (raw : RawTraffic)
    : Collector :=
  let email := rt_email raw in
  let (up, down) := trackersFor email c in
  let up := Add (rt_up raw) elapsed up in
  let down := Add (rt_down raw) elapsed down in
  let upDelta := LastDelta up in
  let downDelta := LastDelta down in
  let seenNow := 0 <? u64_add upDelta downDelta in
  let seed := bool_decide (email ∉ c_seeded c) && bool_decide (email ∉ existing) in
  let upDelta := if seed then rt_up raw else upDelta in
  let downDelta := if seed then rt_down raw else downDelta in
  let seenNow := if seed then false else seenNow in
  let pending := default zeroPending (c_pending c !! email) in
  let pending := PendingDelta (u64_add (pd_up pending) upDelta)
                   (u64_add (pd_down pending) downDelta) (pd_seen_now pending || seenNow) in
  set_traffic (<[email := up]> (c_up c)) (<[email := down]> (c_down c))
    ({[email]} ∪ c_seeded c) (<[email := pending]> (c_pending c)) c.

Definition delta_of (entry : string * pendingDelta) : Delta := {|
  d_email := entry.1; d_up := pd_up entry.2; d_down := pd_down entry.2;
  d_seen_now := pd_seen_now entry.2;
|}.

Definition pending_deltas (p : Poll) (c : Collector) : list Delta :=
  delta_of <$> po_visit p _ (map_to_list (c_pending c)).

(** The online rows with the poll time where xray gave none. *)
Definition stamp_presence (now : Z) (user : Presence) : Presence :=
  if pr_last_seen user =? 0
  then {| pr_email := pr_email user; pr_ips := pr_ips user; pr_last_seen := unix now |}
  else user.

Definition online_set (rows : list Presence) : gmap string Presence :=
  foldl (λ m user, <[pr_email user := user]> m) ∅ rows.

Definition Purge (email : string) (c : Collector) : Collector :=
  set_traffic (delete email (c_up c)) (delete email (c_down c))
    (c_seeded c ∖ {[email]}) (delete email (c_pending c)) c.

Section WithRuntime.
Context `{GoRuntime}.

Definition speedsLocked (c : Collector) : gmap string (Z * Z) :=
  map_imap (λ email up,
    Some (Speed up, Speed (default (NewTracker false) (c_down c !! email)))) (c_up c).

(** One row of the served table. *)
Definition overlay (stale : bool) (speeds : gmap string (Z * Z)) (online : gmap string Presence)
    (u : userView) : userView :=
  let (su, sd) := default (us_speed_up u, us_speed_down u) (speeds !! us_email u) in
  let live := online !! us_email u in
  UserView (us_email u) (us_labels u) (us_client_id u) (us_inbounds u) (us_up u) (us_down u)
    (if stale then us_online u else bool_decide (is_Some live))
    (if stale then us_ips u else default [] (pr_ips <$> live))
    (us_ip_countries u) su sd (us_last_seen u) (us_disabled u) (us_first_seen u).

Definition add_countries (geo : string → string) (u : userView) : userView :=
  UserView (us_email u) (us_labels u) (us_client_id u) (us_inbounds u) (us_up u) (us_down u)
    (us_online u) (us_ips u)
    (foldl (λ m ip, if String.eqb (geo ip) "" then m else <[ip := geo ip]> m)
       (us_ip_countries u) (us_ips u))
    (us_speed_up u) (us_speed_down u) (us_last_seen u) (us_disabled u) (us_first_seen u).

Context {S : Type} `{Persistence S}.

Definition snapshot (p : Poll) (speeds : gmap string (Z * Z)) (online : gmap string Presence)
    (c : Collector) (s : S) : result collectError Snapshot :=
  match po_users_err p with
  | Some e => Err (ReadUsers e)
  | None =>
      let list := overlay (c_stale c) speeds online <$> listUsers s in
      let list := match po_geo p with Some geo => add_countries geo <$> list | None => list end in
      Ok {| sn_collected_at := c_collectedAt c; sn_stale := c_stale c; sn_users := list |}
  end.

Definition flushRoster (p : Poll) (c : Collector) (s : S) : Collector * S :=
  match c_pendingRoster c with
  | None => (c, s)
  | Some roster =>
      match po_apply_err p with
      | Some e => (logFailure RosterErr e c, s)
      | None =>
          let s := applyPoll [] [] (Some (feed p roster)) (unix (po_now p)) s in
          (settleRoster (logRecovery RosterErr c), s)
      end
  end.

(** The presence query's outcome: the log slots, and the rows when usable. *)
Definition sample_presence (p : Poll) (c : Collector) : Collector * option (list Presence) :=
  match po_presence p with
  | Err e => (logFailure PresenceErr e c, None)
  | Ok (_, false) => (if c_notedUnsupported c then c else set_noted c, None)
  | Ok (online, true) =>
      (logRecovery PresenceErr c, Some (stamp_presence (po_now p) <$> online))
  end.

(** The transaction a poll is about to run. *)
Record inflight := {
  in_deltas : list Delta; in_presence : list Presence; in_roster : option RosterParse;
  in_online : gmap string Presence;
}.

(** The live path up to the transaction. *)
Definition sample_traffic (p : Poll) (raws : list RawTraffic) (c : Collector) (s : S)
    : Collector * result collectError inflight :=
  let (c, online) := sample_presence p (logRecovery PollErr c) in
  match po_existing_err p with
  | Some e => (c, Err (ReadRoster e))
  | None =>
      let existing := existingEmails s in
      let elapsed := time_sub (po_now p) (c_lastPoll c) in
      let c := set_times (po_now p) (c_collectedAt c) c in
      let c := foldl (add_raw existing elapsed) c raws in
      (c, Ok {| in_deltas := pending_deltas p c; in_presence := default [] online;
                in_roster := c_pendingRoster c;
                in_online := default ∅ (online_set <$> online) |})
  end.

(** The transaction and what follows it. *)
Definition persist (p : Poll) (t : inflight) (c : Collector) (s : S)
    : Collector * S * result collectError Snapshot :=
  match po_apply_err p with
  | Some e => (logFailure StoreErr e c, s, Err (PersistPoll e))
  | None =>
      let s := applyPoll (in_deltas t) (in_presence t) (feed p <$> in_roster t)
                 (unix (po_now p)) s in
      let c := logRecovery StoreErr c in
      let c := set_traffic (c_up c) (c_down c) (c_seeded c) ∅ c in
      let c := match in_roster t with Some _ => settleRoster c | None => c end in
      let c := set_times (c_lastPoll c) (unix (po_now p)) (set_stale false c) in
      (c, s, snapshot p (speedsLocked c) (in_online t) c s)
  end.

Definition Collect (p : Poll) (c : Collector) (s : S)
    : Collector * S * result collectError Snapshot :=
  let c := sampleRoster p c in
  match po_traffic p with
  | Err e =>
      let c := set_stale true (logFailure PollErr e c) in
      let (c, s) := flushRoster p c s in
      (c, s, snapshot p ∅ ∅ c s)
  | Ok raws =>
      match sample_traffic p raws c s with
      | (c, Err e) => (c, s, Err e)
      | (c, Ok t) => persist p t c s
      end
  end.

Definition run_polls (polls : list Poll) (cs : Collector * S) : Collector * S :=
  foldl (λ cs p, (Collect p cs.1 cs.2).1) cs polls.

End WithRuntime.

End Collector.
