(* ===== verification/CollectorProps.v ===== *)
(** * The users collector: what it promises

    No polled byte is lost or counted twice, whatever fails and in whatever
    order; the config roster stays pending until it is written; a stale
    snapshot is the store's last-known state; a purge forgets one user. *)

From Stdlib Require Import String.
From S2P Require Import Prelude Reconcile XrayConfig Store StoreProps StoreTheorems Collector.

Local Open Scope Z_scope.

Module CollectorProps.
Import Reconcile XrayConfig Store StoreProps StoreTheorems Collector.

(** ** The reference: what a history of raw readings is worth *)

(** The bytes one reading adds: a user the store already knew resumes at the
    first reading, a new one is seeded with it; after that, the reconciled
    difference. *)
Definition credit (known : bool) (last : option Z) (raw : Z) : Z :=
  match last with
  | Some l => reconcile_delta l raw
  | None => if known then 0 else raw
  end.

Fixpoint credits (known : bool) (last : option Z) (rs : list Z) : Z :=
  match rs with [] => 0 | r :: rs => credit known last r + credits known (Some r) rs end.

Fixpoint final_last (last : option Z) (rs : list Z) : option Z :=
  match rs with [] => last | r :: rs => final_last (Some r) rs end.

Definition raw_of (d : direction) (raw : RawTraffic) : Z :=
  match d with Uplink => rt_up raw | Downlink => rt_down raw end.

Fixpoint raws_for (d : direction) (email : string) (raws : list RawTraffic) : list Z :=
  match raws with
  | [] => []
  | raw :: raws =>
      if String.eqb (rt_email raw) email then raw_of d raw :: raws_for d email raws
      else raws_for d email raws
  end.

(** The readings a poll takes into account: none when the counters or the
    store cannot be read. *)
Definition sampled (d : direction) (email : string) (p : Poll) : list Z :=
  match po_traffic p, po_existing_err p with
  | Ok raws, None => raws_for d email raws
  | _, _ => []
  end.

Definition readings (d : direction) (email : string) (polls : list Poll) : list Z :=
  polls ≫= sampled d email.

(** The bytes not yet in the store. *)
Definition pd_bytes (d : direction) (x : pendingDelta) : Z :=
  match d with Uplink => pd_up x | Downlink => pd_down x end.

Definition carried (d : direction) (email : string) (c : Collector) : Z :=
  default 0 (pd_bytes d <$> c_pending c !! email).

Definition fair (p : Poll) : Prop := ∀ A (l : list A), po_visit p A l ≡ₚ l.

Definition u64_raws (p : Poll) : Prop :=
  ∀ raws raw, po_traffic p = Ok raws → raw ∈ raws → is_u64 (rt_up raw) ∧ is_u64 (rt_down raw).

(** ** Invariants *)

Definition trackers (d : direction) (c : Collector) : gmap string Tracker :=
  match d with Uplink => c_up c | Downlink => c_down c end.

Definition last_of (d : direction) (email : string) (c : Collector) : option Z :=
  lastRaw <$> trackers d c !! email.

Record traffic_inv (c : Collector) : Prop := {
  inv_seeded d email : email ∈ c_seeded c ↔ is_Some (trackers d c !! email);
  inv_seen d email t : trackers d c !! email = Some t → seen t = true;
  inv_u64 d email t : trackers d c !! email = Some t → is_u64 (lastRaw t);
  inv_carried d email : 0 ≤ carried d email c;
}.

(** The fields traffic accounting reads. *)
Definition traffic_part (c : Collector) := (c_up c, c_down c, c_seeded c, c_pending c).

Lemma part_trackers c c' d : traffic_part c = traffic_part c' → trackers d c = trackers d c'.
Proof. destruct d; simpl; unfold traffic_part; congruence. Qed.

Lemma part_carried c c' d e : traffic_part c = traffic_part c' → carried d e c = carried d e c'.
Proof. unfold carried, traffic_part. congruence. Qed.

Lemma part_last c c' d e : traffic_part c = traffic_part c' → last_of d e c = last_of d e c'.
Proof. intros Hp. unfold last_of. by rewrite (part_trackers c c' d Hp). Qed.

Lemma part_inv c c' : traffic_part c = traffic_part c' → traffic_inv c → traffic_inv c'.
Proof.
  intros Hp [Hs Ht Hu Hc]. split; intros d e.
  - rewrite <-(part_trackers c c' d Hp). rewrite <-(Hs d e).
    unfold traffic_part in Hp. by replace (c_seeded c') with (c_seeded c) by congruence.
  - rewrite <-(part_trackers c c' d Hp). apply Ht.
  - rewrite <-(part_trackers c c' d Hp). apply Hu.
  - by rewrite <-(part_carried c c' d e Hp).
Qed.

Lemma part_logFailure k m c : traffic_part (logFailure k m c) = traffic_part c.
Proof. unfold logFailure. by destruct (String.eqb _ _). Qed.

Lemma part_logRecovery k c : traffic_part (logRecovery k c) = traffic_part c.
Proof. unfold logRecovery. by destruct (String.eqb _ _). Qed.

Lemma part_sampleRoster p c : traffic_part (sampleRoster p c) = traffic_part c.
Proof. unfold sampleRoster. destruct (po_roster p) as [[r v]|]; [|done]. by destruct (_ && _). Qed.

Lemma part_presence p c : traffic_part (sample_presence p c).1 = traffic_part c.
Proof.
  unfold sample_presence. destruct (po_presence p) as [[l []]|]; simpl.
  - apply part_logRecovery.
  - by destruct (c_notedUnsupported c).
  - apply part_logFailure.
Qed.

#[export] Hint Rewrite part_logFailure part_logRecovery part_sampleRoster part_presence : xform.

Lemma inv_new : traffic_inv NewCollector.
Proof.
  split; intros d e; destruct d; simpl; rewrite ?lookup_empty.
  all: try done.
  all: split; [by intros ?%elem_of_empty|by intros [??]].
Qed.

(** ** One raw reading *)

Lemma u64_add_bound a b : 0 ≤ a → 0 ≤ b → a + b < u64_mod → u64_add a b = a + b.
Proof. intros. apply u64_small. unfold is_u64. lia. Qed.

Lemma reconcile_delta_u64 l r : is_u64 l → is_u64 r → is_u64 (reconcile_delta l r).
Proof.
  unfold reconcile_delta. intros. destruct (l <=? r); [apply u64_range|done].
Qed.

Lemma Add_lastRaw raw el t : lastRaw (Add raw el t) = raw.
Proof. unfold Add. by destruct (negb _). Qed.

Lemma Add_seen raw el t : seen (Add raw el t) = true.
Proof. unfold Add. by destruct (negb _). Qed.

Lemma Add_delta_seen raw el t :
  seen t = true → LastDelta (Add raw el t) = reconcile_delta (lastRaw t) raw.
Proof. unfold Add, LastDelta. by intros ->. Qed.

Lemma trackers_add_raw d e existing el c raw :
  trackers d (add_raw existing el c raw) !! e =
    if String.eqb (rt_email raw) e
    then Some (Add (raw_of d raw) el (default (NewTracker false) (trackers d c !! e)))
    else trackers d c !! e.
Proof.
  destruct d; simpl; (destruct (String.eqb_spec (rt_email raw) e) as [->|];
    [by rewrite lookup_insert_eq|by rewrite lookup_insert_ne]).
Qed.

Lemma add_raw_last d e existing el c raw :
  last_of d e (add_raw existing el c raw) =
    if String.eqb (rt_email raw) e then Some (raw_of d raw) else last_of d e c.
Proof.
  unfold last_of. rewrite trackers_add_raw. destruct (String.eqb _ _); [|done].
  simpl. by rewrite Add_lastRaw.
Qed.

Lemma add_raw_carried d e existing el c raw :
  traffic_inv c →
  carried d e (add_raw existing el c raw) =
    if String.eqb (rt_email raw) e
    then u64_add (carried d e c)
           (credit (bool_decide (e ∈ existing)) (last_of d e c) (raw_of d raw))
    else carried d e c.
Proof.
  intros Hinv. unfold carried. simpl.
  destruct (String.eqb_spec (rt_email raw) e) as [->|]; [|by rewrite lookup_insert_ne].
  rewrite lookup_insert_eq. unfold last_of. simpl.
  assert (∀ d, LastDelta (Add (raw_of d raw) el (default (NewTracker false) (trackers d c !! e))) =
    match trackers d c !! e with Some t => reconcile_delta (lastRaw t) (raw_of d raw) | None => 0 end)
    as Hd.
  { intros d'. destruct (trackers d' c !! e) as [t|] eqn:Et; [|done].
    apply Add_delta_seen. by eapply inv_seen. }
  pose proof (Hd Uplink) as Hup. pose proof (Hd Downlink) as Hdown. simpl in Hup, Hdown.
  rewrite Hup, Hdown. clear Hup Hdown Hd.
  pose proof (inv_seeded c Hinv d e) as Hs.
  destruct (trackers d c !! e) as [t|] eqn:Et; simpl.
  - rewrite (bool_decide_eq_false_2 (e ∉ _)) by (rewrite Hs; intros Hn; apply Hn; eauto). simpl.
    destruct d; simpl in *; rewrite Et; by destruct (c_pending c !! e).
  - rewrite (bool_decide_eq_true_2 (e ∉ _)) by (rewrite Hs; by intros [??]). simpl.
    rewrite bool_decide_not. destruct (bool_decide (e ∈ existing)); simpl;
      destruct d; simpl in *; rewrite ?Et; by destruct (c_pending c !! e).
Qed.

Lemma add_raw_inv existing el c raw :
  is_u64 (rt_up raw) → is_u64 (rt_down raw) →
  traffic_inv c → traffic_inv (add_raw existing el c raw).
Proof.
  intros Hu Hd Hinv. assert (∀ d, is_u64 (raw_of d raw)) as Hr by (by intros []).
  split; intros d e.
  - rewrite trackers_add_raw. change (c_seeded (add_raw existing el c raw))
      with ({[rt_email raw]} ∪ c_seeded c).
    rewrite elem_of_union, elem_of_singleton, (inv_seeded c Hinv d e).
    destruct (String.eqb_spec (rt_email raw) e) as [->|Hne]; [split; eauto|].
    split; [intros [?|?]; congruence|by right].
  - intros t. rewrite trackers_add_raw. destruct (String.eqb _ _); [|by apply inv_seen].
    intros [= <-]. apply Add_seen.
  - intros t. rewrite trackers_add_raw. destruct (String.eqb _ _); [|by apply inv_u64].
    intros [= <-]. by rewrite Add_lastRaw.
  - rewrite add_raw_carried by done. destruct (String.eqb _ _); [|by apply inv_carried].
    apply u64_range.
Qed.

Lemma credit_bounds known last r :
  (∀ l, last = Some l → is_u64 l) → is_u64 r → 0 ≤ credit known last r.
Proof.
  intros Hl Hr. destruct last as [l|]; simpl; [apply reconcile_delta_u64; auto|].
  destruct known; [done|apply Hr].
Qed.

Lemma credits_nonneg known last rs :
  (∀ l, last = Some l → is_u64 l) → Forall is_u64 rs → 0 ≤ credits known last rs.
Proof.
  intros Hl Hrs. revert last Hl. induction Hrs as [|r rs Hr Hrs IH]; intros last Hl; simpl; [done|].
  pose proof (credit_bounds known last r Hl Hr).
  assert (0 ≤ credits known (Some r) rs) by (apply IH; intros ? [= <-]; done). lia.
Qed.

Lemma credits_app known last rs1 rs2 :
  credits known last (rs1 ++ rs2) = credits known last rs1 + credits known (final_last last rs1) rs2.
Proof. revert last. induction rs1 as [|r rs1 IH]; intros last; simpl; [done|]. rewrite IH. lia. Qed.

Lemma final_last_app last rs1 rs2 :
  final_last last (rs1 ++ rs2) = final_last (final_last last rs1) rs2.
Proof. revert last. induction rs1 as [|r rs1 IH]; intros last; simpl; auto. Qed.

Lemma credits_seen k1 k2 l rs : credits k1 (Some l) rs = credits k2 (Some l) rs.
Proof. revert l. induction rs as [|r rs IH]; intros l; simpl; [done|]. by rewrite (IH r). Qed.

(** ** One poll's readings *)

Lemma fold_add_raw d e existing el raws c :
  Forall (λ raw, is_u64 (rt_up raw) ∧ is_u64 (rt_down raw)) raws → traffic_inv c →
  let known := bool_decide (e ∈ existing) in
  let rs := raws_for d e raws in
  carried d e c + credits known (last_of d e c) rs < u64_mod →
  let c' := foldl (add_raw existing el) c raws in
  carried d e c' = carried d e c + credits known (last_of d e c) rs ∧
  last_of d e c' = final_last (last_of d e c) rs ∧ traffic_inv c'.
Proof.
  intros Hu. revert c. induction Hu as [|raw raws [Hu Hd] Hraws IH]; intros c Hinv; cbv zeta; simpl.
  { intros _. split_and!; [lia|done|done]. }
  set (c1 := add_raw existing el c raw).
  assert (traffic_inv c1) as Hinv1 by (by apply add_raw_inv).
  assert (Forall is_u64 (raws_for d e raws)) as Hrs.
  { clear -Hraws. induction Hraws as [|x l [??] ? IH]; simpl; [constructor|].
    destruct (String.eqb _ _); [constructor; [by destruct d|done]|done]. }
  assert (is_u64 (raw_of d raw)) as Hr by (by destruct d).
  pose proof (add_raw_carried d e existing el c raw Hinv) as Hc.
  pose proof (add_raw_last d e existing el c raw) as Hl. fold c1 in Hc, Hl.
  specialize (IH c1 Hinv1). cbv zeta in IH. rewrite Hc, Hl in IH.
  destruct (String.eqb (rt_email raw) e); simpl; intros Hb; [|exact (IH Hb)].
  assert (∀ l, last_of d e c = Some l → is_u64 l) as Hlast.
  { intros l. unfold last_of. destruct (trackers d c !! e) as [t|] eqn:Et; [|done].
    intros [= <-]. by apply (inv_u64 c Hinv d e). }
  pose proof (credit_bounds (bool_decide (e ∈ existing)) _ _ Hlast Hr).
  assert (0 ≤ credits (bool_decide (e ∈ existing)) (Some (raw_of d raw)) (raws_for d e raws)).
  { apply credits_nonneg; [by intros l [= <-]|done]. }
  pose proof (inv_carried c Hinv d e).
  rewrite u64_add_bound in IH by lia. destruct IH as (-> & -> & ?); [lia|].
  split_and!; [lia|done|done].
Qed.

(** ** The deltas handed to the store *)

Lemma sum_for_perm f e l1 l2 : l1 ≡ₚ l2 → sum_for f e l1 = sum_for f e l2.
Proof. induction 1; simpl; lia. Qed.

Lemma d_bytes_delta_of d x : d_bytes d (delta_of x) = pd_bytes d x.2.
Proof. by destruct d. Qed.

Lemma sum_for_map d e (m : gmap string pendingDelta) :
  sum_for (d_bytes d) e (delta_of <$> map_to_list m) = default 0 (pd_bytes d <$> m !! e).
Proof.
  induction m as [|k x m Hk IH] using map_ind; [by rewrite map_to_list_empty, lookup_empty|].
  rewrite (sum_for_perm _ _ _ (delta_of <$> (k, x) :: map_to_list m))
    by (by rewrite map_to_list_insert).
  rewrite fmap_cons. simpl. rewrite IH.
  destruct (String.eqb_spec k e) as [->|].
  - rewrite lookup_insert_eq, Hk. simpl. destruct d; simpl; lia.
  - by rewrite lookup_insert_ne.
Qed.

Lemma sum_for_pending d e p c :
  fair p → sum_for (d_bytes d) e (pending_deltas p c) = carried d e c.
Proof.
  intros Hf. unfold pending_deltas, carried. rewrite <-sum_for_map.
  apply sum_for_perm. by rewrite (Hf _ (map_to_list (c_pending c))).
Qed.

Section WithRuntime.
Context `{GoRuntime} {S : Type} `{PersistenceLaws S}.

(** ** One poll *)

Lemma flushRoster_spec d e p c s :
  traffic_part (flushRoster p c s).1 = traffic_part c ∧
  durable d e (flushRoster p c s).2 = durable d e s ∧
  existingEmails s ⊆ existingEmails (flushRoster p c s).2.
Proof.
  unfold flushRoster. destruct (c_pendingRoster c) as [r|]; [|done].
  destruct (po_apply_err p) as [err|]; simpl.
  - by rewrite part_logFailure.
  - split_and!; [apply (part_logRecovery RosterErr c)| |apply applyPoll_existing].
    rewrite applyPoll_durable. simpl. lia.
Qed.

(** Accounting before the transaction. *)
Lemma sample_traffic_spec d e p raws c s :
  po_traffic p = Ok raws → u64_raws p → traffic_inv c →
  let known := bool_decide (e ∈ existingEmails s) in
  let rs := sampled d e p in
  carried d e c + credits known (last_of d e c) rs < u64_mod →
  let c' := (sample_traffic p raws c s).1 in
  carried d e c' = carried d e c + credits known (last_of d e c) rs ∧
  last_of d e c' = final_last (last_of d e c) rs ∧ traffic_inv c'.
Proof.
  intros Ht Hu Hinv known rs Hb. unfold sample_traffic.
  destruct (sample_presence p (logRecovery PollErr c)) as [c1 online] eqn:E1.
  assert (traffic_part c1 = traffic_part c) as Hp1.
  { change c1 with (c1, online).1. rewrite <-E1, part_presence. apply part_logRecovery. }
  unfold rs, sampled in *. rewrite Ht in *. destruct (po_existing_err p) as [err|]; simpl in *.
  { split_and!; [rewrite (part_carried c1 c d e Hp1); lia|by apply part_last|by eapply part_inv]. }
  set (c2 := set_times _ _ c1). assert (traffic_part c = traffic_part c2) as Hp2 by done.
  rewrite (part_carried c c2 d e Hp2), (part_last c c2 d e Hp2) in *.
  apply fold_add_raw; [|by eapply part_inv|done].
  apply Forall_forall. intros raw Hin. by eapply Hu.
Qed.

Lemma persist_spec d e p t c s :
  sum_for (d_bytes d) e (in_deltas t) = carried d e c → traffic_inv c →
  let '(c', s', _) := persist p t c s in
  durable d e s' + carried d e c' = durable d e s + carried d e c ∧
  carried d e c' <= carried d e c ∧
  last_of d e c' = last_of d e c ∧ traffic_inv c' ∧
  existingEmails s ⊆ existingEmails s'.
Proof.
  intros Hsum Hinv. pose proof (inv_carried c Hinv d e). unfold persist. destruct (po_apply_err p) as [err|].
  { split_and!; [|by rewrite (part_carried _ c d e (part_logFailure _ _ _))|
      by apply part_last, part_logFailure|apply (part_inv c); [by rewrite part_logFailure|done]|done].
    by rewrite (part_carried _ c d e (part_logFailure _ _ _)). }
  set (c1 := logRecovery StoreErr c).
  set (c2 := set_traffic (c_up c1) (c_down c1) (c_seeded c1) ∅ c1).
  set (c3 := match in_roster t with Some _ => settleRoster c2 | None => c2 end).
  assert (traffic_part c3 = (c_up c, c_down c, c_seeded c, ∅)) as Hp3.
  { pose proof (part_logRecovery StoreErr c) as Hp. fold c1 in Hp.
    assert (traffic_part c3 = traffic_part c2) as -> by (unfold c3; by destruct (in_roster t)).
    unfold traffic_part in Hp. injection Hp as Hu Hd Hs _. unfold c2, traffic_part. simpl. congruence. }
  split_and!.
  - rewrite applyPoll_durable, Hsum. unfold carried at 2.
    change (c_pending (set_times (c_lastPoll c3) (unix (po_now p)) (set_stale false c3)))
      with (c_pending c3).
    unfold traffic_part in Hp3. injection Hp3 as _ _ _ ->. rewrite lookup_empty. simpl. lia.
  - unfold carried at 1. change (c_pending (set_times _ _ (set_stale _ _))) with (c_pending c3).
    unfold traffic_part in Hp3. injection Hp3 as _ _ _ ->. by rewrite lookup_empty.
  - unfold last_of. f_equal. unfold traffic_part in Hp3. injection Hp3 as Hu Hd _ _.
    destruct d; simpl; congruence.
  - apply (part_inv c3); [done|]. unfold traffic_part in Hp3. injection Hp3 as Hu Hd Hs Hp.
    split; intros d' e'.
    + rewrite Hs, (inv_seeded c Hinv d'). destruct d'; simpl; by rewrite ?Hu, ?Hd.
    + destruct d'; simpl; rewrite ?Hu, ?Hd; [apply (inv_seen c Hinv Uplink e')|
        apply (inv_seen c Hinv Downlink e')].
    + destruct d'; simpl; rewrite ?Hu, ?Hd; [apply (inv_u64 c Hinv Uplink e')|
        apply (inv_u64 c Hinv Downlink e')].
    + unfold carried. by rewrite Hp, lookup_empty.
  - apply applyPoll_existing.
Qed.

Lemma Collect_accounting d e p c s :
  fair p → u64_raws p → traffic_inv c →
  let known := bool_decide (e ∈ existingEmails s) in
  let rs := sampled d e p in
  carried d e c + credits known (last_of d e c) rs < u64_mod →
  let '(c', s', _) := Collect p c s in
  durable d e s' + carried d e c' =
    durable d e s + carried d e c + credits known (last_of d e c) rs ∧
  carried d e c' <= carried d e c + credits known (last_of d e c) rs ∧
  last_of d e c' = final_last (last_of d e c) rs ∧ traffic_inv c' ∧
  existingEmails s ⊆ existingEmails s'.
Proof.
  intros Hf Hu Hinv known rs Hb. unfold Collect. set (c0 := sampleRoster p c).
  assert (traffic_part c = traffic_part c0) as Hp0 by (symmetry; apply part_sampleRoster).
  unfold known, rs in *. rewrite (part_carried c c0 d e Hp0), (part_last c c0 d e Hp0) in *.
  apply (part_inv c c0 Hp0) in Hinv. clearbody c0. clear Hp0 c. rename c0 into c.
  destruct (po_traffic p) as [raws|err] eqn:Et.
  - pose proof (sample_traffic_spec d e p raws c s Et Hu Hinv) as Hs. cbv zeta in Hs.
    destruct (sample_traffic p raws c s) as [c1 [t|err]] eqn:E1; simpl in Hs.
    + destruct (Hs Hb) as (Hc & Hl & Hinv1).
      assert (sum_for (d_bytes d) e (in_deltas t) = carried d e c1) as Hsum.
      { unfold sample_traffic in E1. destruct (sample_presence _ _) as [c2 online].
        destruct (po_existing_err p); [done|]. injection E1 as <- <-. by apply sum_for_pending. }
      pose proof (persist_spec d e p t c1 s Hsum Hinv1) as Hp.
      destruct (persist p t c1 s) as [[c' s'] res]. destruct Hp as (Hsum' & Hle & Hl' & Hinv' & Hex).
      split_and!; [lia|lia|congruence|done|done].
    + destruct (Hs Hb) as (Hc & Hl & Hinv1). split_and!; [lia|lia|done|done|done].
  - set (c1 := set_stale true (logFailure PollErr err c)).
    assert (traffic_part c = traffic_part c1) as Hp1 by (symmetry; apply part_logFailure).
    destruct (flushRoster p c1 s) as [c2 s2] eqn:E2.
    pose proof (flushRoster_spec d e p c1 s) as (Hp2 & Hd & Hex). rewrite E2 in *. simpl in *.
    unfold sampled. rewrite Et. simpl.
    rewrite (part_carried c2 c1 d e Hp2), (part_carried c c1 d e Hp1),
      (part_last c2 c1 d e Hp2), (part_last c c1 d e Hp1).
    split_and!; [lia|lia|done| |done]. apply (part_inv c1); [done|]. by apply (part_inv c).
Qed.

Lemma credits_known_le known last rs :
  Forall is_u64 rs → (∀ l, last = Some l → is_u64 l) →
  0 ≤ credits known last rs ≤ credits false last rs.
Proof.
  intros Hrs Hl. split; [by apply credits_nonneg|]. destruct rs as [|r rs]; simpl; [done|].
  rewrite (credits_seen known false). destruct last; simpl; [lia|].
  apply Forall_cons in Hrs as [[??] _]. destruct known; lia.
Qed.

Lemma sampled_u64 d e p : u64_raws p → Forall is_u64 (sampled d e p).
Proof.
  unfold u64_raws, sampled. destruct (po_traffic p) as [raws|]; [|constructor].
  destruct (po_existing_err p); [constructor|]. intros Hu.
  assert (∀ raw, raw ∈ raws → is_u64 (rt_up raw) ∧ is_u64 (rt_down raw)) as Hr by eauto.
  clear Hu. induction raws as [|raw raws IH]; simpl; [constructor|].
  assert (Forall is_u64 (raws_for d e raws)) by (apply IH; intros x Hx; apply Hr; by right).
  destruct (String.eqb _ _); [|done]. constructor; [|done].
  destruct (Hr raw) as [??]; [by left|]. by destruct d.
Qed.

Lemma run_accounting d e polls c s :
  Forall fair polls → Forall u64_raws polls → traffic_inv c →
  carried d e c + credits false (last_of d e c) (readings d e polls) < u64_mod →
  let '(c', s') := run_polls polls (c, s) in
  ∃ known : bool,
    (e ∈ existingEmails s → known = true) ∧ (e ∉ existingEmails s' → known = false) ∧
    durable d e s' + carried d e c' =
      durable d e s + carried d e c + credits known (last_of d e c) (readings d e polls) ∧
    existingEmails s ⊆ existingEmails s'.
Proof.
  intros Hf Hu. revert c s. induction polls as [|p polls IH]; intros c s Hinv Hb.
  { simpl. exists (bool_decide (e ∈ existingEmails s)).
    split_and!; [intros; by rewrite bool_decide_eq_true|intros; by rewrite bool_decide_eq_false|lia|done]. }
  apply Forall_cons in Hf as [Hf Hfs]. apply Forall_cons in Hu as [Hu Hus].
  change (readings d e (p :: polls)) with (sampled d e p ++ readings d e polls) in *.
  rewrite credits_app in Hb.
  assert (∀ l, last_of d e c = Some l → is_u64 l) as Hlast.
  { intros l. unfold last_of. destruct (trackers d c !! e) as [t|] eqn:Et; [|done].
    intros [= <-]. by apply (inv_u64 c Hinv d e). }
  pose proof (credits_known_le (bool_decide (e ∈ existingEmails s)) _ _ (sampled_u64 d e p Hu) Hlast).
  assert (Forall is_u64 (readings d e polls)) as Hrest.
  { clear -Hus. induction Hus; simpl; [constructor|]. apply Forall_app. split; [by apply sampled_u64|done]. }
  pose proof (Collect_accounting d e p c s Hf Hu Hinv) as Hc. cbv zeta in Hc.
  unfold run_polls in *. simpl. destruct (Collect p c s) as [[c1 s1] res] eqn:E1.
  assert (∀ l, final_last (last_of d e c) (sampled d e p) = Some l → is_u64 l) as Hlast1.
  { clear -Hlast Hu. pose proof (sampled_u64 d e p Hu) as Hrs. revert Hlast. generalize (last_of d e c).
    induction Hrs as [|r rs Hr Hrs IH]; intros o Ho; simpl; [done|]. apply IH. by intros l [= <-]. }
  pose proof (credits_nonneg false _ _ Hlast1 Hrest).
  pose proof (inv_carried c Hinv d e).
  destruct Hc as (Hsum & Hle & Hl & Hinv1 & Hex); [lia|].
  simpl. specialize (IH Hfs Hus c1 s1 Hinv1). rewrite Hl in IH. specialize (IH ltac:(lia)).
  destruct (foldl _ (c1, s1) polls) as [c' s']. destruct IH as (k & Hk1 & Hk2 & IH & Hex').
  destruct (final_last (last_of d e c) (sampled d e p)) as [l|] eqn:Efl.
  - (* the first contact, if any, happened in this poll *)
    exists (bool_decide (e ∈ existingEmails s)). split_and!.
    + intros. by rewrite bool_decide_eq_true.
    + intros Hn. rewrite bool_decide_eq_false. set_solver.
    + rewrite credits_app, Efl. rewrite (credits_seen k (bool_decide (e ∈ existingEmails s))) in IH. lia.
    + by etrans.
  - assert (sampled d e p = [] ∧ last_of d e c = None) as [Hs0 Hl0].
    { destruct (sampled d e p) as [|r rs]; [done|]. exfalso. clear -Efl. simpl in Efl.
      revert r Efl. induction rs as [|x rs IH]; intros r; simpl; [done|]. apply IH. }
    exists k. split_and!.
    + intros He. apply Hk1. set_solver.
    + done.
    + rewrite Hs0, Hl0 in *. simpl in *. lia.
    + by etrans.
Qed.

(** C7: polling conserves traffic. From a fresh process, after any sequence
    of polls in which the counters, the presence, the store's reads and its
    writes fail in any pattern, and whatever order maps are visited in: for
    every user and direction, the durable total plus the bytes still carried
    is the starting total plus exactly what the readings are worth, each
    reconciled once. A user stored from the start resumes (its first reading
    is a baseline); one still unknown at the end was seeded. *)
Theorem polls_conserve_traffic d email polls s :
  Forall fair polls → Forall u64_raws polls →
  credits false None (readings d email polls) < u64_mod →
  let '(c', s') := run_polls polls (NewCollector, s) in
  ∃ known : bool,
    (email ∈ existingEmails s → known = true) ∧
    (email ∉ existingEmails s' → known = false) ∧
    durable d email s' + carried d email c' =
      durable d email s + credits known None (readings d email polls).
Proof.
  intros Hf Hu Hb. pose proof (run_accounting d email polls NewCollector s Hf Hu inv_new) as Hr.
  assert (carried d email NewCollector = 0) as Hc0 by done.
  assert (last_of d email NewCollector = None) as Hl0 by (by destruct d).
  rewrite Hc0, Hl0 in Hr. specialize (Hr Hb).
  destruct (run_polls polls (NewCollector, s)) as [c' s'].
  destruct Hr as (k & ? & ? & ? & _). exists k. split_and!; [done|done|lia].
Qed.

(** *** What a poll leaves behind *)

Lemma snapshot_shape p speeds online (c : Collector) (s : S) snap :
  snapshot p speeds online c s = Ok snap →
  sn_stale snap = c_stale c ∧ sn_collected_at snap = c_collectedAt c.
Proof. unfold snapshot. destruct (po_users_err p); [done|]. by intros [= <-]. Qed.

(** A live poll whose transaction commits settles everything: nothing
    stays pending, neither traffic nor roster, the process is no longer
    stale, and the snapshot it serves says so with the poll's own time. *)
Theorem live_poll_settles p raws c s :
  po_traffic p = Ok raws → po_existing_err p = None → po_apply_err p = None →
  let '(c', _, res) := Collect p c s in
  c_pending c' = ∅ ∧ c_pendingRoster c' = None ∧ c_stale c' = false ∧
  ∀ snap, res = Ok snap → sn_stale snap = false ∧ sn_collected_at snap = unix (po_now p).
Proof.
  intros Ht He Ha. unfold Collect. rewrite Ht. unfold sample_traffic.
  destruct (sample_presence _ _) as [c1 online]. rewrite He. simpl. unfold persist. rewrite Ha. simpl.
  set (c2 := foldl _ _ raws).
  assert (c_pendingRoster (logRecovery StoreErr c2) = c_pendingRoster c2) as Hr
    by (unfold logRecovery; by destruct (String.eqb _ _)).
  split_and!.
  - by destruct (c_pendingRoster c2).
  - destruct (c_pendingRoster c2) eqn:E; simpl; [done|]. by rewrite Hr.
  - done.
  - intros snap Hs. by apply snapshot_shape in Hs.
Qed.

Definition without_countries (u : userView) : userView :=
  UserView (us_email u) (us_labels u) (us_client_id u) (us_inbounds u) (us_up u) (us_down u)
    (us_online u) (us_ips u) ∅ (us_speed_up u) (us_speed_down u) (us_last_seen u)
    (us_disabled u) (us_first_seen u).

(** While xray cannot be queried the poll still succeeds: the snapshot
    is marked stale, keeps the time of the last persisted poll, and its rows
    are the store's last-known ones untouched, country lookups apart: no
    speed, and the last-known IPs stay. *)
Theorem stale_snapshot_is_last_known p err c s :
  po_traffic p = Err err → po_users_err p = None →
  let '(c', s', res) := Collect p c s in
  ∃ snap, res = Ok snap ∧ sn_stale snap = true ∧ sn_collected_at snap = c_collectedAt c ∧
    without_countries <$> sn_users snap = without_countries <$> listUsers s'.
Proof.
  intros Ht Hu. unfold Collect. rewrite Ht.
  set (c1 := set_stale true _).
  assert (c_stale c1 = true ∧ c_collectedAt c1 = c_collectedAt c) as [Hs1 Hc1].
  { split; [done|]. simpl. unfold logFailure, sampleRoster.
    destruct (po_roster p) as [[r v]|]; [destruct (_ && _)|]; by destruct (String.eqb _ _). }
  destruct (flushRoster p c1 s) as [c2 s2] eqn:E2.
  assert (c_stale c2 = true ∧ c_collectedAt c2 = c_collectedAt c) as [Hs2 Hc2].
  { unfold flushRoster in E2. destruct (c_pendingRoster c1); [|by injection E2 as <- <-].
    destruct (po_apply_err p); injection E2 as <- <-;
      unfold logFailure, logRecovery; destruct (String.eqb _ _); by rewrite <-Hs1, <-Hc1. }
  unfold snapshot. rewrite Hu. eexists. split; [done|]. simpl. split_and!; [done|done|].
  rewrite Hs2. assert (∀ u, overlay true ∅ ∅ u = u) as Hov by (by intros []).
  assert (overlay true ∅ ∅ <$> listUsers s2 = listUsers s2) as ->.
  { rewrite <-(list_fmap_id (listUsers s2)) at 2. apply list_fmap_ext. intros. apply Hov. }
  destruct (po_geo p) as [geo|]; [|done]. rewrite <-list_fmap_compose. by apply list_fmap_ext.
Qed.

(** *** The roster *)

(** A source whose version [v] always stands for the parse [src v], and never
    goes back. *)
Fixpoint versions_grow (src : Z → RosterParse) (lo : Z) (polls : list Poll) : Prop :=
  match polls with
  | [] => True
  | p :: polls => ∃ v, po_roster p = Some (src v, v) ∧ lo <= v ∧ versions_grow src v polls
  end.

Record roster_inv (src : Z → RosterParse) (c : Collector) : Prop := {
  ri_nonneg : 0 <= c_rosterVersion c;
  ri_slot : match c_pendingRoster c with
            | None => c_pendingRosterVersion c = c_rosterVersion c
            | Some x => c_rosterVersion c < c_pendingRosterVersion c ∧ x = src (c_pendingRosterVersion c)
            end;
}.

Definition roster_part (c : Collector) :=
  (c_pendingRoster c, c_pendingRosterVersion c, c_rosterVersion c).

Lemma roster_part_inv src c c' : roster_part c = roster_part c' → roster_inv src c → roster_inv src c'.
Proof. intros [= E1 E2 E3] [Hn Hs]. split; rewrite <-?E1, <-?E2, <-?E3; done. Qed.

Lemma roster_part_log k m c : roster_part (logFailure k m c) = roster_part c.
Proof. unfold logFailure. by destruct (String.eqb _ _). Qed.

Lemma roster_part_recover k c : roster_part (logRecovery k c) = roster_part c.
Proof. unfold logRecovery. by destruct (String.eqb _ _). Qed.

Lemma roster_part_presence p c : roster_part (sample_presence p c).1 = roster_part c.
Proof.
  unfold sample_presence. destruct (po_presence p) as [[l []]|]; simpl.
  - apply roster_part_recover.
  - by destruct (c_notedUnsupported c).
  - apply roster_part_log.
Qed.

Lemma roster_part_raws existing el raws c :
  roster_part (foldl (add_raw existing el) c raws) = roster_part c.
Proof. revert c. induction raws as [|raw raws IH]; intros c; simpl; [done|]. by rewrite IH. Qed.

Lemma roster_part_traffic p raws c s c' t :
  sample_traffic p raws c s = (c', Ok t) →
  roster_part c' = roster_part c ∧ in_roster t = c_pendingRoster c'.
Proof.
  unfold sample_traffic. destruct (sample_presence p _) as [c1 online] eqn:E.
  destruct (po_existing_err p); [done|]. intros [= <- <-]. split; [|done].
  rewrite roster_part_raws. change c1 with (c1, online).1. 
  transitivity (roster_part (sample_presence p (logRecovery PollErr c)).1); [by rewrite E|].
  rewrite roster_part_presence. apply roster_part_recover.
Qed.

Lemma sampleRoster_inv src p c v :
  roster_inv src c → c_pendingRosterVersion c <= v → po_roster p = Some (src v, v) →
  let c' := sampleRoster p c in
  roster_inv src c' ∧ c_pendingRosterVersion c' = v ∧ c_rosterVersion c' = c_rosterVersion c.
Proof.
  intros [Hn Hs] Hle Hp. unfold sampleRoster. rewrite Hp.
  assert (c_rosterVersion c <= c_pendingRosterVersion c) by (destruct (c_pendingRoster c); lia).
  destruct ((0 <? v) && negb (v =? c_rosterVersion c) && negb (v =? c_pendingRosterVersion c)) eqn:E;
    cbv zeta; simpl.
  - split_and!; [|done|done]. split; simpl; [done|]. split; [lia|done].
  - split_and!; [by split| |done]. lia.
Qed.

(** The poll's transaction ran and committed. *)
Definition writes (p : Poll) : Prop :=
  po_apply_err p = None ∧ (is_ok (po_traffic p) = true → po_existing_err p = None).

Lemma persist_roster p t c s :
  let '(c', s', _) := persist p t c s in
  match po_apply_err p with
  | Some _ => roster_part c' = roster_part c ∧ s' = s
  | None =>
      roster_part c' = match in_roster t with
                       | Some _ => (None, c_pendingRosterVersion c, c_pendingRosterVersion c)
                       | None => roster_part c
                       end ∧
      ∃ ds pr, s' = applyPoll ds pr (feed p <$> in_roster t) (unix (po_now p)) s
  end.
Proof.
  unfold persist. destruct (po_apply_err p) as [e|]; [by rewrite roster_part_log|].
  split; [|by eexists _, _]. pose proof (roster_part_recover StoreErr c) as [= E1 E2 E3].
  destruct (in_roster t); unfold roster_part; simpl; by rewrite ?E1, ?E2, ?E3.
Qed.

Lemma flush_roster p c s :
  let '(c', s') := flushRoster p c s in
  match c_pendingRoster c, po_apply_err p with
  | None, _ => c' = c ∧ s' = s
  | Some _, Some _ => roster_part c' = roster_part c ∧ s' = s
  | Some r, None =>
      roster_part c' = (None, c_pendingRosterVersion c, c_pendingRosterVersion c) ∧
      s' = applyPoll [] [] (Some (feed p r)) (unix (po_now p)) s
  end.
Proof.
  unfold flushRoster. destruct (c_pendingRoster c); [|done].
  destruct (po_apply_err p) as [e|]; [by rewrite roster_part_log|].
  split; [|done]. pose proof (roster_part_recover RosterErr c) as [= E1 E2 E3].
  unfold roster_part; simpl; by rewrite ?E2.
Qed.

(** The outcome of one poll for the roster: settled at version [v], or as
    it was. *)
Definition roster_outcome (src : Z → RosterParse) (p : Poll) (v : Z) (c : Collector) (s : S)
    (c' : Collector) (s' : S) : Prop :=
  c_rosterVersion c' = v ∧ c_pendingRoster c' = None ∧
  if decide (v = c_rosterVersion c)
  then s' = s ∨ ∃ ds pr, s' = applyPoll ds pr None (unix (po_now p)) s
  else ∃ ds pr, s' = applyPoll ds pr (Some (feed p (src v))) (unix (po_now p)) s.

Lemma Collect_roster src p c s v :
  roster_inv src c → c_pendingRosterVersion c <= v → po_roster p = Some (src v, v) →
  let '(c', s', _) := Collect p c s in
  roster_inv src c' ∧ c_pendingRosterVersion c' = v ∧
  (writes p → roster_outcome src p v c s c' s').
Proof.
  intros Hinv Hle Hp. unfold Collect, roster_outcome.
  destruct (sampleRoster_inv src p c v Hinv Hle Hp) as (Hinv1 & Hv1 & Hrv1).
  set (c1 := sampleRoster p c) in *. rewrite <-Hrv1. clearbody c1. clear Hinv Hle Hrv1 Hp.
  assert (0 <= v) as Hnn.
  { destruct Hinv1 as [Hn Hs]. rewrite Hv1 in Hs. destruct (c_pendingRoster c1); lia. }
  assert (match c_pendingRoster c1 with
          | None => v = c_rosterVersion c1
          | Some x => v ≠ c_rosterVersion c1 ∧ x = src v end) as Hcase.
  { destruct Hinv1 as [_ Hs]. rewrite Hv1 in Hs. destruct (c_pendingRoster c1); [|done].
    split; [lia|apply Hs]. }
  assert (∀ c', roster_part c' = roster_part c1 → roster_inv src c' ∧ c_pendingRosterVersion c' = v)
    as Hsame.
  { intros c' E. split; [by apply (roster_part_inv src c1)|]. injection E as _ -> _. done. }
  assert (∀ c', roster_part c' = (None, v, v) → roster_inv src c' ∧ c_pendingRosterVersion c' = v)
    as Hdone.
  { intros c' [= E1 E2 E3]. split; [|done]. split; rewrite ?E1, ?E2, ?E3; [|done].
    done. }
  destruct (po_traffic p) as [raws|err] eqn:Et.
  - destruct (sample_traffic p raws c1 s) as [c2 [t|e]] eqn:E2.
    + apply roster_part_traffic in E2 as [Hp2 Ht]. injection Hp2 as E1 E2 E3.
      pose proof (persist_roster p t c2 s) as Hr. destruct (persist p t c2 s) as [[c' s'] res].
      unfold writes. rewrite Ht, E1 in Hr. unfold roster_part in Hr.
      destruct (po_apply_err p) as [e|].
      { destruct Hr as [Hr ->]. rewrite E1, E2, E3 in Hr. apply Hsame in Hr as [??].
        split_and!; [done|done|by intros [??]]. }
      destruct Hr as [Hr Hs']. rewrite E1, E2, E3, Hv1 in Hr.
      destruct (c_pendingRoster c1) as [x|]; simpl in *.
      * destruct Hcase as [Hne ->]. pose proof (Hdone _ Hr) as [??].
        injection Hr as ???. split_and!; [done|done|]. intros _. rewrite decide_False by done. auto.
      * rewrite <-Hcase in Hr |- *. pose proof (Hdone _ Hr) as [??]. injection Hr as ???.
        split_and!; [done|done|]. intros _. rewrite decide_True by done. auto.
    + unfold sample_traffic in E2. destruct (sample_presence p _) as [c3 online] eqn:E3.
      destruct (po_existing_err p) as [e'|] eqn:Ee; [|done]. injection E2 as <- <-.
      destruct (Hsame c3) as [??].
      { transitivity (roster_part (sample_presence p (logRecovery PollErr c1)).1); [by rewrite E3|].
        rewrite roster_part_presence. apply roster_part_recover. }
      split_and!; [done|done|]. unfold writes. rewrite Ee. intros [_ Hw]. rewrite Et in Hw.
      by specialize (Hw eq_refl).
  - set (c2 := set_stale true _).
    assert (roster_part c2 = roster_part c1) as Hp2 by apply roster_part_log. clearbody c2.
    pose proof (flush_roster p c2 s) as Hr. destruct (flushRoster p c2 s) as [c' s'].
    injection Hp2 as E1 E2 E3. rewrite E1, E2, Hv1 in Hr. unfold writes.
    destruct (c_pendingRoster c1) as [x|] eqn:Ep; [destruct (po_apply_err p)|].
    + destruct Hr as [Hr ->]. unfold roster_part in Hr. rewrite E1, E2, E3 in Hr.
      destruct (Hsame c') as [??]; [unfold roster_part; congruence|]. split_and!; [done|done|by intros [??]].
    + destruct Hcase as [Hne ->], Hr as [Hr ->]. pose proof (Hdone _ Hr) as [??].
      injection Hr as ???. split_and!; [done|done|]. intros _. rewrite decide_False by done. eauto.
    + destruct Hr as [-> ->]. destruct (Hsame c2) as [??]; [unfold roster_part; congruence|].
      split_and!; [done|done|]. intros _. rewrite decide_True by done.
      split_and!; [congruence|done|by left].
Qed.

Lemma run_roster_inv src polls lo c s :
  roster_inv src c → c_pendingRosterVersion c <= lo → versions_grow src lo polls →
  let c' := (run_polls polls (c, s)).1 in
  roster_inv src c' ∧
  ∀ p v, versions_grow src lo (polls ++ [p]) → po_roster p = Some (src v, v) →
    c_pendingRosterVersion c' <= v.
Proof.
  revert lo c s. induction polls as [|p polls IH]; intros lo c s Hinv Hle; simpl.
  { intros _. split; [done|]. intros p v (v' & Hp & Hv & _) Hp'. rewrite Hp in Hp'.
    injection Hp' as _ ->. lia. }
  intros (v & Hp & Hv & Hg). unfold run_polls in *. simpl.
  pose proof (Collect_roster src p c s v Hinv ltac:(lia) Hp) as Hc.
  destruct (Collect p c s) as [[c1 s1] res]. destruct Hc as (Hinv1 & Hv1 & _).
  destruct (IH v c1 s1 Hinv1 ltac:(lia) Hg) as [? Hlast]. split; [done|].
  intros p' v' (v'' & Hp'' & _ & Hg') Hp'. apply (Hlast p'); [|done].
  rewrite Hp in Hp''. by injection Hp'' as _ <-.
Qed.

(** The config roster waits until it is written. However many earlier
    polls failed, the first poll whose transaction commits, with or without
    xray, leaves the source's current version persisted and nothing pending;
    it hands the store that version's parse exactly when the version is not
    the one already persisted. *)
Theorem roster_pending_until_written src polls p v s :
  versions_grow src 0 (polls ++ [p]) → po_roster p = Some (src v, v) → writes p →
  let '(c, s0) := run_polls polls (NewCollector, s) in
  let '(c', s', _) := Collect p c s0 in
  roster_outcome src p v c s0 c' s'.
Proof.
  intros Hg Hp Hw.
  assert (versions_grow src 0 polls) as Hg0.
  { clear -Hg. revert Hg. generalize 0. induction polls as [|q polls IH]; intros lo; simpl; [done|].
    intros (v & ? & ? & ?). exists v. eauto. }
  destruct (run_roster_inv src polls 0 NewCollector s) as [Hinv Hle]; [by split|done|done|].
  specialize (Hle p v Hg Hp). destruct (run_polls polls (NewCollector, s)) as [c s0].
  pose proof (Collect_roster src p c s0 v Hinv Hle Hp) as Hc.
  destruct (Collect p c s0) as [[c' s'] res]. by apply Hc.
Qed.

(** *** Purge *)

Lemma raws_for_none d e raws :
  (∀ raw, raw ∈ raws → rt_email raw ≠ e) → raws_for d e raws = [].
Proof.
  induction raws as [|raw raws IH]; intros Hn; simpl; [done|].
  destruct (String.eqb_spec (rt_email raw) e) as [He|].
  - exfalso. apply (Hn raw); [by left|done].
  - apply IH. intros x Hx. apply Hn. by right.
Qed.

Lemma pending_none e existing el raws c :
  (∀ raw, raw ∈ raws → rt_email raw ≠ e) → c_pending c !! e = None →
  c_pending (foldl (add_raw existing el) c raws) !! e = None.
Proof.
  revert c. induction raws as [|raw raws IH]; intros c Hn Hc; simpl; [done|].
  apply IH; [intros x Hx; apply Hn; by right|]. simpl.
  rewrite lookup_insert_ne; [done|]. apply Hn. by left.
Qed.

(** A purge forgets exactly one user. No tracker, seed or carried byte
    of that email is left, so whatever xray reports for the others next, the
    deltas handed to the store do not name it; every other user's accounting
    is untouched. *)
Theorem purge_forgets email c :
  traffic_inv c →
  traffic_inv (Purge email c) ∧ (email ∉ c_seeded (Purge email c)) ∧
  (∀ p existing elapsed raws delta,
     fair p → (∀ raw, raw ∈ raws → rt_email raw ≠ email) →
     delta ∈ pending_deltas p (foldl (add_raw existing elapsed) (Purge email c) raws) →
     d_email delta ≠ email) ∧
  (∀ d other, other ≠ email →
     last_of d other (Purge email c) = last_of d other c ∧
     carried d other (Purge email c) = carried d other c ∧
     (other ∈ c_seeded (Purge email c) ↔ other ∈ c_seeded c)).
Proof.
  intros Hinv.
  assert (∀ d, trackers d (Purge email c) = delete email (trackers d c)) as Htr by (by intros []).
  assert (∀ e d, carried d e (Purge email c) = if decide (e = email) then 0 else carried d e c) as Hc.
  { intros e d. unfold carried. simpl. case_decide as E; subst;
      [by rewrite lookup_delete_eq|by rewrite lookup_delete_ne]. }
  split_and!.
  - split; intros d e.
    + rewrite Htr. simpl. rewrite elem_of_difference, elem_of_singleton, (inv_seeded c Hinv d e).
      destruct (decide (e = email)) as [->|]; [rewrite lookup_delete_eq|rewrite lookup_delete_ne by done].
      * split; [by intros [??]|by intros [??]].
      * split; [by intros [??]|done].
    + intros t. rewrite Htr. intros [_ ?]%lookup_delete_Some. by apply (inv_seen c Hinv d e).
    + intros t. rewrite Htr. intros [_ ?]%lookup_delete_Some. by apply (inv_u64 c Hinv d e).
    + rewrite Hc. case_decide; [done|]. by apply inv_carried.
  - simpl. rewrite elem_of_difference, elem_of_singleton. by intros [? []].
  - intros p existing el raws x Hf Hn Hx He. unfold pending_deltas in Hx.
    apply list_elem_of_fmap in Hx as ([k y] & -> & Hin). rewrite (Hf _ _) in Hin.
    apply elem_of_map_to_list in Hin. simpl in *. subst k.
    rewrite pending_none in Hin; [done|done|]. simpl. by rewrite lookup_delete_eq.
  - intros d other Hne. unfold last_of. rewrite Htr, lookup_delete_ne by done.
    rewrite Hc, decide_False by done. split_and!; [done|done|]. simpl.
    rewrite elem_of_difference, elem_of_singleton. naive_solver.
Qed.

End WithRuntime.

(** ** The SQLite store implements the seam *)

#[export] Instance db_persistence : Persistence db := {
  existingEmails := ExistingEmails;
  applyPoll := ApplyPoll;
  listUsers := Users;
  durable d := match d with Uplink => total_up | Downlink => total_down end;
}.

Lemma ExistingEmails_row d email :
  email ∈ ExistingEmails d ↔ is_Some (row_at ur_email email (t_users d)).
Proof.
  unfold ExistingEmails. rewrite elem_of_list_to_set, list_elem_of_fmap. split.
  - intros (u & -> & Hu). destruct (row_at ur_email (ur_email u) (t_users d)) eqn:E; [done|].
    unfold row_at in E. rewrite find_first_None in E. specialize (E u Hu).
    by rewrite String.eqb_refl in E.
  - intros [u Hu]. apply find_first_Some in Hu as [Hin He%String.eqb_eq]. by exists u.
Qed.

#[export] Instance db_persistence_laws : PersistenceLaws db.
Proof.
  split.
  - intros d email deltas presence roster now s. destruct d; by apply counter_poll.
  - intros deltas presence roster now s email. simpl. rewrite !ExistingEmails_row.
    intros [u Hu].
    assert (row_step (λ _ _, True) email (t_users s)
      (t_users (ApplyPoll deltas presence roster now s))) as Hs.
    { apply row_step_poll; try done. }
    destruct (Hs u Hu) as (u' & -> & _). done.
Qed.

(** ** Witnesses *)
Module Examples.
Import AsciiRuntime StoreTheorems.Examples.
Local Open Scope string_scope.

Definition visit_in_order (A : Type) (l : list A) : list A := l.

(** A poll that reads alice's and erin's counters. *)
Definition live (now up : Z) (apply_err : option string) : Poll := {|
  po_roster := Some ({| rp_labels := Some {["alice@x" := {| u_labels := [vlessLabel] |}]};
                        rp_clients := ∅ |}, 1%Z);
  po_traffic := Ok [{| rt_email := "alice@x"; rt_up := up; rt_down := 7 |};
                    {| rt_email := "erin@x"; rt_up := up + 1; rt_down := 0 |}]%Z;
  po_presence := Ok ([], true); po_existing_err := None; po_apply_err := apply_err;
  po_users_err := None; po_now := now; po_geo := None; po_visit := visit_in_order;
|}.

Definition down (now : Z) : Poll := {|
  po_roster := Some ({| rp_labels := Some {["alice@x" := {| u_labels := [vlessLabel] |}]};
                        rp_clients := ∅ |}, 1%Z);
  po_traffic := Err "unavailable"; po_presence := Ok ([], true); po_existing_err := None;
  po_apply_err := None; po_users_err := None; po_now := now; po_geo := None;
  po_visit := visit_in_order;
|}.

Definition polls : list Poll :=
  [live 1 100 (Some "disk full"); live 2 130 None; down 3; live 4 20 (Some "disk full")]%Z.

Lemma live_fair now up e : fair (live now up e).
Proof. intros A l. reflexivity. Qed.
Lemma down_fair now : fair (down now).
Proof. intros A l. reflexivity. Qed.

Lemma polls_fair : Forall fair polls.
Proof. apply Forall_forall. intros p Hp. cases_in Hp; intros A l; reflexivity. Qed.

Lemma polls_u64 : Forall u64_raws polls.
Proof.
  apply Forall_forall. intros p Hp. cases_in Hp; intros raws raw Hr; simpl in Hr;
    try discriminate Hr; injection Hr as <-; intros Hin; cases_in Hin; by vm_compute.
Qed.

Lemma polls_conserve_traffic_witness :
  let '(c', s') := run_polls polls (NewCollector, sampleDb) in
  ∃ known : bool,
    ("alice@x" ∈ existingEmails sampleDb → known = true) ∧
    ("alice@x" ∉ existingEmails s' → known = false) ∧
    durable Uplink "alice@x" s' + carried Uplink "alice@x" c' =
      durable Uplink "alice@x" sampleDb + credits known None (readings Uplink "alice@x" polls).
Proof.
  exact (polls_conserve_traffic Uplink "alice@x" polls sampleDb polls_fair polls_u64
    ltac:(vm_compute; reflexivity)).
Defined.

(** The reset to 20 counts as 20 more; the failed writes lose nothing. *)
Example readings_worth : credits true None (readings Uplink "alice@x" polls) = 50%Z.
Proof. vm_compute. reflexivity. Qed.

Lemma live_poll_settles_witness :
  let '(c', _, res) := Collect (live 1 100 None) NewCollector sampleDb in
  c_pending c' = ∅ ∧ c_pendingRoster c' = None ∧ c_stale c' = false ∧
  ∀ snap, res = Ok snap → sn_stale snap = false ∧ sn_collected_at snap = unix 1.
Proof.
  apply (live_poll_settles (live 1 100 None) [{| rt_email := "alice@x"; rt_up := 100; rt_down := 7 |};
    {| rt_email := "erin@x"; rt_up := 101; rt_down := 0 |}]%Z NewCollector sampleDb); reflexivity.
Defined.

Lemma stale_snapshot_is_last_known_witness :
  let '(c', s', res) := Collect (down 1) NewCollector sampleDb in
  ∃ snap, res = Ok snap ∧ sn_stale snap = true ∧ sn_collected_at snap = 0%Z ∧
    without_countries <$> sn_users snap = without_countries <$> listUsers s'.
Proof.
  apply (stale_snapshot_is_last_known (down 1) "unavailable" NewCollector sampleDb); reflexivity.
Defined.

Lemma roster_pending_until_written_witness :
  let '(c, s0) := run_polls [live 1 100 (Some "disk full")] (NewCollector, sampleDb) in
  let '(c', s', _) := Collect (down 2) c s0 in
  roster_outcome (λ _, {| rp_labels := Some {["alice@x" := {| u_labels := [vlessLabel] |}]};
                          rp_clients := ∅ |}) (down 2) 1 c s0 c' s'.
Proof.
  apply (roster_pending_until_written (λ _, {| rp_labels :=
      Some {["alice@x" := {| u_labels := [vlessLabel] |}]}; rp_clients := ∅ |})
    [live 1 100 (Some "disk full")] (down 2) 1 sampleDb); [|reflexivity|by split].
  simpl. exists 1%Z. split; [reflexivity|]. split; [lia|]. exists 1%Z. split; [reflexivity|].
  split; [lia|exact I].
Defined.

Lemma purge_forgets_witness :
  traffic_inv (Purge "alice@x" NewCollector) ∧ ("alice@x" ∉ c_seeded (Purge "alice@x" NewCollector)) ∧
  (∀ p existing elapsed raws delta,
     fair p → (∀ raw, raw ∈ raws → rt_email raw ≠ "alice@x") →
     delta ∈ pending_deltas p (foldl (add_raw existing elapsed) (Purge "alice@x" NewCollector) raws) →
     d_email delta ≠ "alice@x") ∧
  (∀ d other, other ≠ "alice@x" →
     last_of d other (Purge "alice@x" NewCollector) = last_of d other NewCollector ∧
     carried d other (Purge "alice@x" NewCollector) = carried d other NewCollector ∧
     (other ∈ c_seeded (Purge "alice@x" NewCollector) ↔ other ∈ c_seeded NewCollector)).
Proof. apply (purge_forgets "alice@x" NewCollector). apply inv_new. Defined.

(** A purge that runs while a poll's transaction is in flight is undone by
    it: the deltas were taken before the purge, and committing them inserts
    the erased row again. *)
Lemma inflight_poll_resurrects :
  let doomed := MarkRosterDeleting "alice@x" 9 sampleDb in
  let p := live 1 100 None in
  match sample_traffic p [{| rt_email := "alice@x"; rt_up := 100; rt_down := 7 |}]%Z
          NewCollector doomed with
  | (c, Ok t) =>
      let purged := PurgeRosterUser "alice@x" doomed in
      let '(_, s', _) := persist p t (Purge "alice@x" c) purged in
      is_Some (row_at ur_email "alice@x" (t_users doomed)) ∧
      row_at ur_email "alice@x" (t_users purged) = None ∧
      is_Some (row_at ur_email "alice@x" (t_users s'))
  | _ => False
  end.
Proof. vm_compute. split_and!; [by eexists|reflexivity|by eexists]. Qed.
End Examples.

End CollectorProps.
