(* ===== verification/Handler.v ===== *)
(** * The live half of the apply path (internal/xraygrpc/handler.go)

    The HandlerService client over xray's gRPC API, which is a parameter
    ([HandlerService]); the interface it offers the roster service
    ([Pusher]); and a concrete xray that answers as documented, for the
    closed examples. *)

From Stdlib Require Import String.
From S2P Require Import Prelude.

Module Handler.

Record ManagedUser := { mu_email : string; mu_id : string; mu_flow : string }.

#[export] Instance ManagedUser_eq_dec : EqDecision ManagedUser.
Proof. solve_decision. Defined.

(** What one AlterInbound request asks. *)
Inductive operation := AddUserOperation (user : ManagedUser) | RemoveUserOperation (email : string).

(** xray's handler API: a dial that may fail, and AlterInbound, which
    answers an error text or nothing. *)
Class HandlerService (X : Type) := {
  dial : X → option string;
  AlterInbound : string → operation → X → X * option string;
}.

(** The roster service's seam: the error text of a failed push. *)
Class Pusher (X : Type) := {
  push_add : string → ManagedUser → X → X * option string;
  push_remove : string → string → X → X * option string;
}.

Section Client.
Context {X : Type} `{HandlerService X}.

Definition connect (x : X) : option string :=
  (λ e, "connect to xray handler API: " +:+ e) <$> dial x.

Definition AddUser (tag : string) (user : ManagedUser) (x : X) : X * option string :=
  match connect x with
  | Some e => (x, Some e)
  | None =>
      match AlterInbound tag (AddUserOperation user) x with
      | (x, None) => (x, None)
      | (x, Some e) =>
          if contains "already exists" e then (x, None)
          else (x, Some ("add " +:+ mu_email user +:+ " to inbound " +:+ tag +:+ ": " +:+ e))
      end
  end.

Definition RemoveUser (tag email : string) (x : X) : X * option string :=
  match connect x with
  | Some e => (x, Some e)
  | None =>
      match AlterInbound tag (RemoveUserOperation email) x with
      | (x, None) => (x, None)
      | (x, Some e) =>
          if contains "not found" e then (x, None)
          else (x, Some ("remove " +:+ email +:+ " from inbound " +:+ tag +:+ ": " +:+ e))
      end
  end.

End Client.

#[export] Instance client_pusher X `{HandlerService X} : Pusher X := {
  push_add := AddUser; push_remove := RemoveUser;
}.

(** What the service relies on of a push that reports success, over the
    credential an inbound holds for an email. An add never replaces a
    credential; a remove leaves none; neither touches another key. *)
Class PusherLaws (X : Type) `{Pusher X} := {
  credential : string → string → X → option string;
  push_add_ok tag user x x' : push_add tag user x = (x', None) →
    credential tag (mu_email user) x' =
      match credential tag (mu_email user) x with Some id => Some id | None => Some (mu_id user) end;
  push_remove_ok tag email x x' : push_remove tag email x = (x', None) →
    credential tag email x' = None;
  push_add_frame tag user x t e :
    (t, e) ≠ (tag, mu_email user) → credential t e (push_add tag user x).1 = credential t e x;
  push_remove_frame tag email x t e :
    (t, e) ≠ (tag, email) → credential t e (push_remove tag email x).1 = credential t e x;
}.

(** ** An xray that answers as documented *)
Module Xray.

(** The inbounds xray runs, each with its users; [x_down] refuses the dial. *)
Record xray := { x_down : bool; x_inbounds : gmap string (gmap string ManagedUser) }.

Definition alter (tag : string) (op : operation) (x : xray) : xray * option string :=
  match x_inbounds x !! tag with
  | None => (x, Some "failed to get handler")
  | Some users =>
      let put users := {| x_down := x_down x; x_inbounds := <[tag := users]> (x_inbounds x) |} in
      match op with
      | AddUserOperation user =>
          match users !! mu_email user with
          | Some _ => (x, Some ("User " +:+ mu_email user +:+ " already exists."))
          | None => (put (<[mu_email user := user]> users), None)
          end
      | RemoveUserOperation email =>
          match users !! email with
          | None => (x, Some ("User " +:+ email +:+ " not found."))
          | Some _ => (put (delete email users), None)
          end
      end
  end.

#[export] Instance xray_service : HandlerService xray := {
  dial x := if x_down x then Some "connection refused" else None;
  AlterInbound := alter;
}.

Definition xray_credential (tag email : string) (x : xray) : option string :=
  users ← x_inbounds x !! tag; mu_id <$> users !! email.

#[local] Arguments contains : simpl never.
#[local] Arguments String.append : simpl never.

#[export] Instance xray_laws : PusherLaws xray.
Proof.
  refine {| credential := xray_credential |}.
  - intros tag user x x'. simpl. unfold AddUser, connect. simpl.
    destruct (x_down x); [done|]. simpl. unfold alter, xray_credential.
    destruct (x_inbounds x !! tag) as [users|] eqn:Et; simpl; [|done].
    destruct (users !! mu_email user) as [old|] eqn:Eu; simpl.
    + assert (contains "already exists" ("User " +:+ mu_email user +:+ " already exists.") = true)
        as -> by (by do 2 apply contains_app_r).
      intros [= <-]. by rewrite Et; simpl; rewrite Eu.
    + intros [= <-]. simpl. rewrite lookup_insert_eq. simpl. by rewrite lookup_insert_eq.
  - intros tag email x x'. simpl. unfold RemoveUser, connect. simpl.
    destruct (x_down x); [done|]. simpl. unfold alter, xray_credential.
    destruct (x_inbounds x !! tag) as [users|] eqn:Et; simpl; [|done].
    destruct (users !! email) as [old|] eqn:Eu; simpl.
    + intros [= <-]. simpl. rewrite lookup_insert_eq. simpl. by rewrite lookup_delete_eq.
    + assert (contains "not found" ("User " +:+ email +:+ " not found.") = true)
        as -> by (by do 2 apply contains_app_r).
      intros [= <-]. by rewrite Et; simpl; rewrite Eu.
  - intros tag user x t e Hne. simpl. unfold AddUser, connect. simpl.
    destruct (x_down x); [done|]. simpl. unfold alter, xray_credential.
    destruct (x_inbounds x !! tag) as [users|] eqn:Et; simpl; [|done].
    destruct (users !! mu_email user) as [old|] eqn:Eu; simpl; [by destruct (contains _ _)|].
    destruct (decide (t = tag)) as [->|Ht]; [|by rewrite lookup_insert_ne].
    rewrite lookup_insert_eq, Et. simpl. rewrite lookup_insert_ne; [done|congruence].
  - intros tag email x t e Hne. simpl. unfold RemoveUser, connect. simpl.
    destruct (x_down x); [done|]. simpl. unfold alter, xray_credential.
    destruct (x_inbounds x !! tag) as [users|] eqn:Et; simpl; [|done].
    destruct (users !! email) as [old|] eqn:Eu; simpl; [|by destruct (contains _ _)].
    destruct (decide (t = tag)) as [->|Ht]; [|by rewrite lookup_insert_ne].
    rewrite lookup_insert_eq, Et. simpl. rewrite lookup_delete_ne; [done|congruence].
Defined.

End Xray.
End Handler.
