(* ===== verification/Render.v ===== *)
(** * The file half of the apply path (internal/xrayconfig/render.go)

    A render plan and its raw-span surgery on the config document, and the
    file it replaces (internal/roster/render.go). *)

From Stdlib Require Import Ascii String.
From S2P Require Import Prelude GoJson.

Module Render.
Import GoJson.

(** One roster client the render places in a managed inbound's clients array. *)
Record ClientOp := { co_email : string; co_id : string; co_flow : string }.

#[export] Instance ClientOp_eq_dec : EqDecision ClientOp.
Proof. solve_decision. Defined.

(** Per inbound tag: the appends, the removed emails, the id rewrites. *)
Record RenderPlan := {
  pl_adds : gmap string (list ClientOp);
  pl_removes : gmap string (list string);
  pl_sets : gmap string (list ClientOp);
}.

Definition emptyPlan : RenderPlan := {| pl_adds := ∅; pl_removes := ∅; pl_sets := ∅ |}.

Definition plan_empty (p : RenderPlan) : bool :=
  bool_decide (pl_adds p = ∅) && bool_decide (pl_removes p = ∅) && bool_decide (pl_sets p = ∅).

(** ** The document

    A document is its bytes; offsets are positions in it. *)

Abbreviation document := (list Z).

Definition slice (doc : document) (from to : nat) : document := take (to - from) (drop from doc).

Definition b_space : Z := 32.
Definition b_tab : Z := 9.
Definition b_cr : Z := 13.
Definition b_lf : Z := 10.
Definition b_quote : Z := 34.
Definition b_backslash : Z := 92.
Definition b_slash : Z := 47.
Definition b_star : Z := 42.
Definition b_comma : Z := 44.
Definition b_colon : Z := 58.
Definition b_lbrace : Z := 123.
Definition b_rbrace : Z := 125.
Definition b_lbracket : Z := 91.
Definition b_rbracket : Z := 93.

Definition is_blank (c : Z) : bool :=
  ((c =? b_space) || (c =? b_tab) || (c =? b_cr) || (c =? b_lf))%Z.

Definition at_byte (doc : document) (pos : nat) (c : Z) : bool :=
  match doc !! pos with Some b => (b =? c)%Z | None => false end.

Inductive nodeKind := KObject | KArray | KString | KLiteral.

#[export] Instance nodeKind_eq_dec : EqDecision nodeKind.
Proof. solve_decision. Defined.

(** One parsed value with its byte span; [n_end] is exclusive. *)
Inductive node := Node {
  n_kind : nodeKind; n_start : nat; n_end : nat; n_value : string;
  n_keys : list string; n_propStarts : list nat; n_items : list node;
  n_commas : list nat; n_trailing : bool;
}.

(** An object's value for a key: the first occurrence. *)
Fixpoint assoc_first (key : string) (keys : list string) (items : list node) : option node :=
  match keys, items with
  | k :: keys, item :: items => if String.eqb k key then Some item else assoc_first key keys items
  | _, _ => None
  end.

Definition get (n : node) (key : string) : option node :=
  match n_kind n with KObject => assoc_first key (n_keys n) (n_items n) | _ => None end.

(** ** The parser *)

Inductive parseError :=
| UnexpectedEnd | UnterminatedObject (at_ : nat) | UnterminatedArray (at_ : nat)
| MissingColon (at_ : nat) | MalformedString (at_ : nat) | UnterminatedString (at_ : nat)
| TrailingContent (at_ : nat).

(** Offsets of the scanning loops, over the bytes still ahead. *)
Fixpoint to_newline (l : list Z) : nat :=
  match l with
  | [] => 0
  | c :: l => if (c =? b_lf)%Z then 0 else S (to_newline l)
  end.

Fixpoint to_comment_end (l : list Z) : nat :=
  match l with
  | a :: (b :: _) as l' => if ((a =? b_star) && (b =? b_slash))%Z then 0 else S (to_comment_end l')
  | _ => 0
  end.

Fixpoint blank_loop (fuel : nat) (doc : document) (pos : nat) : nat :=
  match fuel with
  | O => pos
  | S fuel =>
      match doc !! pos with
      | None => pos
      | Some c =>
          if is_blank c then blank_loop fuel doc (pos + 1)
          else if (c =? b_slash)%Z && at_byte doc (pos + 1) b_slash
          then blank_loop fuel doc (pos + 2 + to_newline (drop (pos + 2) doc))
          else if (c =? b_slash)%Z && at_byte doc (pos + 1) b_star
          then blank_loop fuel doc (pos + 2 + to_comment_end (drop (pos + 2) doc) + 2)
          else pos
      end
  end.

(** Every round moves past a byte. *)
Definition blank (doc : document) (pos : nat) : nat := blank_loop (length doc) doc pos.

(** The position just after a string's closing quote. *)
Fixpoint str_loop (fuel : nat) (doc : document) (pos : nat) : option nat :=
  match fuel with
  | O => None
  | S fuel =>
      match doc !! pos with
      | None => None
      | Some c =>
          if (c =? b_backslash)%Z then str_loop fuel doc (pos + 2)
          else if (c =? b_quote)%Z then Some (pos + 1)
          else str_loop fuel doc (pos + 1)
      end
  end.

Definition leaf (kind : nodeKind) (start end_ : nat) (value : string) : node := {|
  n_kind := kind; n_start := start; n_end := end_; n_value := value;
  n_keys := []; n_propStarts := []; n_items := []; n_commas := []; n_trailing := false |}.

Definition str (doc : document) (start : nat) : result parseError (node * nat) :=
  match str_loop (S (length doc)) doc (start + 1) with
  | None => Err (UnterminatedString start)
  | Some end_ =>
      match unquote (of_bytes (slice doc start end_)) with
      | Some value => Ok (leaf KString start end_ value, end_)
      | None => Err (MalformedString start)
      end
  end.

Definition literal_stop (doc : document) (pos : nat) (c : Z) : bool :=
  is_blank c || ((c =? b_comma) || (c =? b_rbrace) || (c =? b_rbracket) || (c =? b_colon))%Z ||
  ((c =? b_slash)%Z && (at_byte doc (pos + 1) b_slash || at_byte doc (pos + 1) b_star)).

Fixpoint literal_loop (fuel : nat) (doc : document) (pos : nat) : nat :=
  match fuel with
  | O => pos
  | S fuel =>
      match doc !! pos with
      | None => pos
      | Some c => if literal_stop doc pos c then pos else literal_loop fuel doc (pos + 1)
      end
  end.

Definition literal (doc : document) (start : nat) : node * nat :=
  let end_ := literal_loop (length doc) doc start in (leaf KLiteral start end_ "", end_).

(** [None] is fuel running out: a parse that has not returned yet. The
    loops carry the object or array under construction. *)
Fixpoint value (fuel : nat) (doc : document) (pos : nat) {struct fuel}
    : option (result parseError (node * nat)) :=
  match fuel with
  | O => None
  | S fuel =>
      let pos := blank doc pos in
      match doc !! pos with
      | None => Some (Err UnexpectedEnd)
      | Some c =>
          if (c =? b_lbrace)%Z then object_loop fuel doc pos (pos + 1) [] [] [] false
          else if (c =? b_lbracket)%Z then array_loop fuel doc pos (pos + 1) [] [] false
          else if (c =? b_quote)%Z then Some (str doc pos)
          else Some (Ok (literal doc pos))
      end
  end

with object_loop (fuel : nat) (doc : document) (start pos : nat)
    (keys : list string) (props : list nat) (items : list node) (trailing : bool) {struct fuel}
    : option (result parseError (node * nat)) :=
  match fuel with
  | O => None
  | S fuel =>
      let pos := blank doc pos in
      match doc !! pos with
      | None => Some (Err (UnterminatedObject start))
      | Some c =>
          if (c =? b_rbrace)%Z
          then Some (Ok ({| n_kind := KObject; n_start := start; n_end := pos + 1; n_value := "";
                            n_keys := keys; n_propStarts := props; n_items := items;
                            n_commas := []; n_trailing := trailing |}, pos + 1))
          else
            match str doc pos with
            | Err e => Some (Err e)
            | Ok (key, pos) =>
                let pos := blank doc pos in
                if negb (at_byte doc pos b_colon) then Some (Err (MissingColon (n_end key)))
                else
                  match value fuel doc (pos + 1) with
                  | None => None
                  | Some (Err e) => Some (Err e)
                  | Some (Ok (item, pos)) =>
                      let pos := blank doc pos in
                      let comma := at_byte doc pos b_comma in
                      let pos := if comma then blank doc (pos + 1) else pos in
                      object_loop fuel doc start pos (keys ++ [n_value key])
                        (props ++ [n_start key]) (items ++ [item])
                        (trailing || (comma && at_byte doc pos b_rbrace))
                  end
            end
      end
  end

with array_loop (fuel : nat) (doc : document) (start pos : nat)
    (items : list node) (commas : list nat) (trailing : bool) {struct fuel}
    : option (result parseError (node * nat)) :=
  match fuel with
  | O => None
  | S fuel =>
      let pos := blank doc pos in
      match doc !! pos with
      | None => Some (Err (UnterminatedArray start))
      | Some c =>
          if (c =? b_rbracket)%Z
          then Some (Ok ({| n_kind := KArray; n_start := start; n_end := pos + 1; n_value := "";
                            n_keys := []; n_propStarts := []; n_items := items;
                            n_commas := commas; n_trailing := trailing |}, pos + 1))
          else
            match value fuel doc pos with
            | None => None
            | Some (Err e) => Some (Err e)
            | Some (Ok (item, pos)) =>
                let pos := blank doc pos in
                let comma := at_byte doc pos b_comma in
                let commas := if comma then commas ++ [pos] else commas in
                let pos := if comma then blank doc (pos + 1) else pos in
                array_loop fuel doc start pos (items ++ [item]) commas
                  (trailing || (comma && at_byte doc pos b_rbracket))
            end
      end
  end.

Definition parseJSONC (fuel : nat) (doc : document) : option (result parseError node) :=
  match value fuel doc 0 with
  | None => None
  | Some (Err e) => Some (Err e)
  | Some (Ok (root, pos)) =>
      let pos := blank doc pos in
      if bool_decide (pos = length doc) then Some (Ok root) else Some (Err (TrailingContent pos))
  end.

(** ** Edits *)

(** Replaces [te_at, te_end) with the text. *)
Record textEdit := { te_at : nat; te_end : nat; te_text : string }.

(** The bytes.Contains(..., "\n") of a span. *)
Definition multiline (doc : document) (start end_ : nat) : bool :=
  existsb (Z.eqb b_lf) (slice doc start end_).

(** bytes.LastIndexByte(l, '\n') + 1. *)
Definition after_last_newline (l : list Z) : nat :=
  (foldl (λ st c, (st.1 + 1, if (c =? b_lf)%Z then st.1 + 1 else st.2)) (0, 0) l).2.

Fixpoint indent_of (l : list Z) : list Z :=
  match l with
  | c :: l => if ((c =? b_space) || (c =? b_tab))%Z then c :: indent_of l else []
  | [] => []
  end.

Definition lineIndent (doc : document) (pos : nat) : string :=
  of_bytes (indent_of (drop (after_last_newline (take pos doc)) doc)).

Fixpoint join (sep : string) (l : list string) : string :=
  match l with
  | [] => ""
  | [x] => x
  | x :: l => x +:+ sep +:+ join sep l
  end.

Definition nl : string := of_bytes [b_lf].
Definition dq : string := of_bytes [b_quote].

(** A JSON member's opening, the key in quotes. *)
Definition member (key : string) : string := dq +:+ key +:+ dq +:+ ": ".

Definition renderEntry (client : ClientOp) : string :=
  "{" +:+ member "email" +:+ quote (co_email client) +:+ ", " +:+
  member "id" +:+ quote (co_id client) +:+
  (if String.eqb (co_flow client) "" then ""
   else ", " +:+ member "flow" +:+ quote (co_flow client)) +:+ "}".

Definition renderEntries (add : list ClientOp) : list string := renderEntry <$> add.

Definition renderClientsValue (keyIndent : string) (add : list ClientOp) : string :=
  "[" +:+ nl +:+ keyIndent +:+ "  " +:+
  join ("," +:+ nl +:+ keyIndent +:+ "  ") (renderEntries add) +:+
  nl +:+ keyIndent +:+ "]".

(** byEmail: the last entry of an email wins. *)
Definition byEmailOf (clients : node) : gmap string nat :=
  (foldl (λ st entry,
    let '(i, m) := st in
    (i + 1,
     match n_kind entry, get entry "email" with
     | KObject, Some email =>
         if bool_decide (n_kind email = KString) then <[n_value email := i]> m else m
     | _, _ => m
     end)) (0, ∅) (n_items clients)).2.

Definition dropEmails (ops : list ClientOp) (present : list string) : list ClientOp :=
  filter (λ op, co_email op ∉ present) ops.

(** The order of the emails never matters: only membership is asked. *)
Definition emailsOf (byEmail : gmap string nat) : list string := (map_to_list byEmail).*1.

(** [None] is an index out of range: a last entry with no separator. *)
Definition planEntryRemoval (clients : node) (index : nat) : option textEdit :=
  entry ← n_items clients !! index;
  match n_items clients !! (index + 1), n_commas clients !! index with
  | Some next, _ => Some {| te_at := n_start entry; te_end := n_start next; te_text := "" |}
  | None, Some comma => Some {| te_at := n_start entry; te_end := comma + 1; te_text := "" |}
  | None, None =>
      match index with
      | O => Some {| te_at := n_start entry; te_end := n_end entry; te_text := "" |}
      | S i => comma ← n_commas clients !! i;
               Some {| te_at := comma; te_end := n_end entry; te_text := "" |}
      end
  end.

Definition planIDSet (entry : node) (id : string) : option textEdit :=
  let insert := {| te_at := n_start entry + 1; te_end := n_start entry + 1;
                   te_text := member "id" +:+ quote id +:+
                     (if bool_decide (n_items entry = []) then "" else ", ") |} in
  match get entry "id" with
  | Some key =>
      if bool_decide (n_kind key = KString) then
        if String.eqb (n_value key) id then None
        else Some {| te_at := n_start key; te_end := n_end key; te_text := quote id |}
      else Some insert
  | None => Some insert
  end.

Inductive renderError :=
| ScanConfig (e : parseError) | NoInboundsArray
| NotVLESS (tag : string) | NoSettings (tag : string) | ClientsNotArray
| IndexOutOfRange.  (* not an error value: the goroutine panics *)

(** A pure insert; None when nothing remains to add. *)
Definition insertion (at_ : nat) (text : string) : option textEdit :=
  Some {| te_at := at_; te_end := at_; te_text := text |}.

(** The comma's offset in the span; -1 + 1 when there is none. *)
Fixpoint after_comma (l : list Z) : option nat :=
  match l with
  | [] => None
  | c :: l => if (c =? b_comma)%Z then Some 1 else S <$> after_comma l
  end.

Definition planKeyInsert (doc : document) (settings : node) (add : list ClientOp) : option textEdit :=
  let key := dq +:+ "clients" +:+ dq in
  let inline := "[" +:+ join ", " (renderEntries add) +:+ "]" in
  match last (n_items settings), last (n_propStarts settings) with
  | Some lastItem, Some lastProp =>
      if multiline doc (n_start settings) (n_end settings) then
        let indent := lineIndent doc lastProp in
        insertion (n_end lastItem)
          ("," +:+ nl +:+ indent +:+ key +:+ ": " +:+ renderClientsValue indent add)
      else insertion (n_end lastItem) (", " +:+ key +:+ ": " +:+ inline)
  | _, _ =>
      if multiline doc (n_start settings) (n_end settings) then
        let indent := lineIndent doc (n_start settings) +:+ "  " in
        insertion (n_start settings + 1)
          (nl +:+ indent +:+ key +:+ ": " +:+ renderClientsValue indent add +:+ nl +:+
           lineIndent doc (n_start settings))
      else insertion (n_start settings + 1) (key +:+ ": " +:+ inline)
  end.

Definition planAppend (doc : document) (clients : node) (remaining : list ClientOp) : option textEdit :=
  let entries := renderEntries remaining in
  let spans := multiline doc (n_start clients) (n_end clients) in
  match last (n_items clients) with
  | None =>
      if spans then
        let keyIndent := lineIndent doc (n_start clients) in
        insertion (n_start clients + 1)
          (nl +:+ keyIndent +:+ "  " +:+ join ("," +:+ nl +:+ keyIndent +:+ "  ") entries +:+
           nl +:+ keyIndent)
      else insertion (n_start clients + 1) (join ", " entries)
  | Some lastItem =>
      let indent := lineIndent doc (n_start lastItem) in
      if n_trailing clients then
        if spans then
          insertion (after_last_newline (take (n_end clients - 1) doc))
            (indent +:+ join ("," +:+ nl +:+ indent) entries +:+ nl)
        else
          insertion (n_end lastItem + default 0 (after_comma (slice doc (n_end lastItem) (n_end clients))))
            (" " +:+ join ", " entries)
      else if spans then
        insertion (n_end lastItem) ("," +:+ nl +:+ indent +:+ join ("," +:+ nl +:+ indent) entries)
      else insertion (n_end lastItem) (", " +:+ join ", " entries)
  end.

Definition planClientsInsert (doc : document) (settings : node) (add : list ClientOp)
    : result renderError (option textEdit) :=
  match get settings "clients" with
  | None => Ok (planKeyInsert doc settings add)
  | Some clients =>
      match n_kind clients with
      | KArray =>
          let remaining := dropEmails add (emailsOf (byEmailOf clients)) in
          if bool_decide (remaining = []) then Ok None else Ok (planAppend doc clients remaining)
      | _ => Err ClientsNotArray
      end
  end.

Definition opt_list {A} (o : option A) : list A := match o with Some a => [a] | None => [] end.

(** The removals of the emails an array carries. *)
Fixpoint planRemovals (clients : node) (byEmail : gmap string nat) (removes : list string)
    : result renderError (list textEdit) :=
  match removes with
  | [] => Ok []
  | email :: removes =>
      match byEmail !! email with
      | None => planRemovals clients byEmail removes
      | Some index =>
          match planEntryRemoval clients index, planRemovals clients byEmail removes with
          | Some edit, Ok edits => Ok (edit :: edits)
          | Some _, Err e => Err e
          | None, _ => Err IndexOutOfRange
          end
      end
  end.

(** Sets of one array: the id rewrites, and those to append. *)
Definition planSets (clients : node) (byEmail : gmap string nat) (sets : list ClientOp)
    : list textEdit * list ClientOp :=
  foldl (λ st set,
    let '(edits, appends) := st in
    match byEmail !! co_email set ≫= λ i, n_items clients !! i with
    | None => (edits, appends ++ [set])
    | Some entry => (edits ++ opt_list (planIDSet entry (co_id set)), appends)
    end) ([], []) sets.

Section WithRuntime.
Context `{GoRuntime}.

(** One inbound's edits, in the order the loop plans them. *)
Definition planInbound (doc : document) (plan : RenderPlan) (inbound : node)
    : result renderError (list textEdit) :=
  match n_kind inbound, get inbound "tag" with
  | KObject, Some tag =>
      if negb (bool_decide (n_kind tag = KString)) then Ok [] else
      let adds := pl_adds plan !! n_value tag in
      let removes := pl_removes plan !! n_value tag in
      let sets := pl_sets plan !! n_value tag in
      if bool_decide (adds = None ∧ removes = None ∧ sets = None) then Ok [] else
      let adds := default [] adds in
      let removes := default [] removes in
      let sets := default [] sets in
      if negb (match get inbound "protocol" with
               | Some protocol => equal_fold (n_value protocol) "vless" | None => false end)
      then Err (NotVLESS (n_value tag)) else
      match get inbound "settings" with
      | None => Err (NoSettings (n_value tag))
      | Some settings =>
          match n_kind settings with
          | KObject =>
              match get settings "clients" with
              | None =>
                  match planClientsInsert doc settings (dropEmails (adds ++ sets) removes) with
                  | Err e => Err e
                  | Ok insert => Ok (opt_list insert)
                  end
              | Some clients =>
                  match n_kind clients with
                  | KArray =>
                      let byEmail := byEmailOf clients in
                      match planRemovals clients byEmail removes with
                      | Err e => Err e
                      | Ok removals =>
                      let (rewrites, appends) := planSets clients byEmail sets in
                      let appendOps := adds ++ appends in
                      if bool_decide (appendOps = []) then Ok (removals ++ rewrites)
                      else
                        match planClientsInsert doc settings
                                (dropEmails appendOps (emailsOf byEmail)) with
                        | Err e => Err e
                        | Ok insert => Ok (removals ++ rewrites ++ opt_list insert)
                        end
                      end
                  | _ => Err ClientsNotArray
                  end
              end
          | _ => Err (NoSettings (n_value tag))
          end
      end
  | _, _ => Ok []
  end.

Fixpoint planInbounds (doc : document) (plan : RenderPlan) (inbounds : list node)
    : result renderError (list textEdit) :=
  match inbounds with
  | [] => Ok []
  | inbound :: inbounds =>
      match planInbound doc plan inbound with
      | Err e => Err e
      | Ok edits =>
          match planInbounds doc plan inbounds with
          | Err e => Err e
          | Ok rest => Ok (edits ++ rest)
          end
      end
  end.

(** What a render ends in: a document and whether it changed, an error, a
    slice out of range, or a scan that never returns. *)
Inductive outcome :=
| Rendered (doc : document) (changed : bool)
| RenderFailed (e : renderError)
| Panics
| Diverges.

Definition apply_edit (acc : option document) (e : textEdit) : option document :=
  rendered ← acc;
  if bool_decide (te_end e ≤ length rendered)
  then Some (take (te_at e) rendered ++ bytes_of (te_text e) ++ drop (te_end e) rendered)
  else None.

Definition apply_edits (doc : document) (edits : list textEdit) : option document :=
  foldl apply_edit (Some doc) edits.

(** Enough for every document whose scan returns at all. *)
Definition parse_fuel (doc : document) : nat := 2 * length doc + 4.

(** slices.SortFunc with b.at - a.at, which leaves the order of equal
    offsets open. *)
Variable sort_edits : list textEdit → list textEdit.

Definition RenderClients (doc : document) (plan : RenderPlan) : outcome :=
  if plan_empty plan then Rendered doc false else
  match parseJSONC (parse_fuel doc) doc with
  | None => Diverges
  | Some (Err e) => RenderFailed (ScanConfig e)
  | Some (Ok root) =>
      match get root "inbounds" with
      | None => RenderFailed NoInboundsArray
      | Some inbounds =>
          match n_kind inbounds with
          | KArray =>
              match planInbounds doc plan (n_items inbounds) with
              | Err IndexOutOfRange => Panics
              | Err e => RenderFailed e
              | Ok [] => Rendered doc false
              | Ok edits =>
                  match apply_edits doc (sort_edits edits) with
                  | Some rendered => Rendered rendered true
                  | None => Panics
                  end
              end
          | _ => RenderFailed NoInboundsArray
          end
      end
  end.

(** ** The file (internal/roster/render.go) *)

(** The steps of FileRenderer.Render that can fail. *)
Inductive fileStep := ReadConfig | StatConfig | CreateTemp | WriteTemp | ChmodTemp | CloseTemp | RenameTemp.

#[global] Instance fileStep_eq_dec : EqDecision fileStep.
Proof. solve_decision. Defined.

Inductive fileResult :=
| FileResult (changed : bool)
| FileStepFailed (step : fileStep)
| FileRenderFailed (e : renderError)
| FilePanics
| FileDiverges.

(** The config on disk, and the temp file beside it while a render runs. *)
Record configFile := { cf_config : document; cf_temp : option document }.

(** FileRenderer.Render; [fails] is the step the file system refuses, if
    any. The deferred removal clears the temp file on every return. *)
Definition FileRender (fails : option fileStep) (plan : RenderPlan) (f : configFile)
    : configFile * fileResult :=
  let refused step := bool_decide (fails = Some step) in
  let keep := {| cf_config := cf_config f; cf_temp := None |} in
  if refused ReadConfig then (f, FileStepFailed ReadConfig) else
  match RenderClients (cf_config f) plan with
  | Diverges => (f, FileDiverges)
  | Panics => (f, FilePanics)
  | RenderFailed e => (f, FileRenderFailed e)
  | Rendered _ false => (f, FileResult false)
  | Rendered rendered true =>
      if refused StatConfig then (f, FileStepFailed StatConfig) else
      if refused CreateTemp then (f, FileStepFailed CreateTemp) else
      if refused WriteTemp then (keep, FileStepFailed WriteTemp) else
      if refused ChmodTemp then (keep, FileStepFailed ChmodTemp) else
      if refused CloseTemp then (keep, FileStepFailed CloseTemp) else
      if refused RenameTemp then (keep, FileStepFailed RenameTemp) else
      ({| cf_config := rendered; cf_temp := None |}, FileResult true)
  end.

End WithRuntime.

End Render.
