(* ===== verification/RenderProps.v ===== *)
(** * The raw-span renderer: edits, fuel and spans

    Disjoint edits applied last to first are one simultaneous replacement;
    more fuel changes no scan and the document's length bounds what is
    needed; and the spans of a scanned document nest, with an array's
    separators between its entries. *)

From Stdlib Require Import Ascii String.
From S2P Require Import Prelude GoJson Render.

Module RenderProps.
Import GoJson Render.

(** ** Edits as one simultaneous replacement *)

(** The document with every edit's span replaced, left to right; [from] is
    where copying resumes. *)
Fixpoint splice (doc : document) (from : nat) (edits : list textEdit) : document :=
  match edits with
  | [] => drop from doc
  | e :: edits => slice doc from (te_at e) ++ bytes_of (te_text e) ++ splice doc (te_end e) edits
  end.

(** Edits in document order that do not overlap. *)
Fixpoint disjoint_from (from : nat) (edits : list textEdit) (len : nat) : Prop :=
  match edits with
  | [] => from ≤ len
  | e :: edits => from ≤ te_at e ∧ te_at e ≤ te_end e ∧ disjoint_from (te_end e) edits len
  end.

Lemma disjoint_from_le from edits len : disjoint_from from edits len → from ≤ len.
Proof.
  revert from. induction edits as [|e edits IH]; intros from; simpl; [done|].
  intros (? & ? & ?%IH). lia.
Qed.

Lemma slice_take_drop (doc : document) from at_ :
  from ≤ at_ → drop from (take at_ doc) = slice doc from at_.
Proof. intros. unfold slice. by rewrite skipn_firstn_comm. Qed.

Lemma apply_edits_snoc doc edits e :
  apply_edits doc (edits ++ [e]) = apply_edit (apply_edits doc edits) e.
Proof. unfold apply_edits. by rewrite foldl_app. Qed.

Lemma splice_from (doc : document) from edits :
  disjoint_from from edits (length doc) → splice doc 0 edits = take from doc ++ splice doc from edits.
Proof.
  destruct edits as [|e edits]; simpl.
  - intros. by rewrite drop_0, take_drop.
  - intros (Hf & _ & _). unfold slice at 1. rewrite drop_0, Nat.sub_0_r.
    rewrite (app_assoc (take from doc)). f_equal. rewrite <-slice_take_drop by done.
    rewrite <-(take_drop from (take (te_at e) doc)) at 1.
    by rewrite take_take, Nat.min_l by done.
Qed.

Lemma disjoint_from_mono from from' edits len :
  from' ≤ from → disjoint_from from edits len → disjoint_from from' edits len.
Proof. destruct edits; simpl; intros; [lia|]. intuition lia. Qed.

(** Applying the edits last to first is splicing them all at once. *)
Lemma apply_edits_splice doc from edits :
  disjoint_from from edits (length doc) → apply_edits doc (rev edits) = Some (splice doc 0 edits).
Proof.
  revert from. induction edits as [|e edits IH]; intros from Hd; simpl rev.
  { unfold apply_edits. simpl. by rewrite drop_0. }
  rewrite apply_edits_snoc. destruct Hd as (Hf & He & Hd). rewrite (IH _ Hd).
  rewrite (splice_from doc (te_end e)) by done.
  pose proof (disjoint_from_le _ _ _ Hd) as Hlen. unfold apply_edit. simpl.
  assert (length (take (te_end e) doc) = te_end e) as Ht by (rewrite length_take; lia).
  rewrite bool_decide_eq_true_2 by (rewrite length_app; lia). f_equal.
  unfold slice. rewrite drop_0, Nat.sub_0_r. f_equal; [|f_equal].
  - rewrite take_app_le by lia. rewrite take_take. by rewrite Nat.min_l.
  - by rewrite drop_app_length'.
Qed.

(** A splice keeps what lies before the first edit and after the last. *)
Lemma splice_outside (doc : document) a b edits :
  disjoint_from a edits b → b ≤ length doc →
  ∃ mid, splice doc 0 edits = take a doc ++ mid ++ drop b doc.
Proof.
  intros Hd Hb. assert (disjoint_from a edits (length doc)) as Hd'.
  { clear -Hd Hb. revert a Hd. induction edits as [|e edits IH]; intros a; simpl; [lia|].
    intros (? & ? & ?). auto. }
  rewrite (splice_from doc a edits Hd').
  assert (∀ a, disjoint_from a edits b → ∃ mid, splice doc a edits = mid ++ drop b doc) as Hm.
  { clear. induction edits as [|e edits IH]; intros a; simpl.
    - intros Ha. exists (slice doc a b). unfold slice. rewrite <-(take_drop (b - a) (drop a doc)) at 1.
      f_equal. rewrite drop_drop. f_equal. lia.
    - intros (Ha & He & Hd). destruct (IH _ Hd) as [mid ->].
      exists (slice doc a (te_at e) ++ bytes_of (te_text e) ++ mid). by rewrite <-!app_assoc. }
  destruct (Hm a Hd) as [mid ->]. by exists mid.
Qed.

(** ** The scanning loops move forward *)

Lemma blank_loop_ge fuel doc pos : pos ≤ blank_loop fuel doc pos.
Proof.
  revert pos. induction fuel as [|fuel IH]; intros pos; simpl; [done|].
  destruct (doc !! pos) as [c|]; [|done].
  destruct (is_blank c); [etrans; [|apply IH]; lia|].
  destruct (_ && at_byte _ _ b_slash); [etrans; [|apply IH]; lia|].
  destruct (_ && at_byte _ _ b_star); [etrans; [|apply IH]; lia|done].
Qed.

Lemma blank_ge doc pos : pos ≤ blank doc pos.
Proof. apply blank_loop_ge. Qed.

(** The byte a blank stops at, if any. *)
Definition blank_stop (doc : document) (pos : nat) : bool :=
  match doc !! pos with
  | None => true
  | Some c => negb (is_blank c) &&
      negb ((c =? b_slash)%Z && (at_byte doc (pos + 1) b_slash || at_byte doc (pos + 1) b_star))
  end.

Lemma blank_loop_stop fuel doc pos :
  length doc - pos ≤ fuel → blank_stop doc (blank_loop fuel doc pos) = true.
Proof.
  revert pos. induction fuel as [|fuel IH]; intros pos Hf; simpl.
  { unfold blank_stop. by rewrite lookup_ge_None_2 by lia. }
  destruct (doc !! pos) as [c|] eqn:E; [|unfold blank_stop; by rewrite E].
  assert (pos < length doc) by (by eapply lookup_lt_Some).
  destruct (is_blank c) eqn:Eb; [apply IH; lia|].
  destruct ((c =? b_slash)%Z && at_byte doc (pos + 1) b_slash) eqn:E1; [apply IH; lia|].
  destruct ((c =? b_slash)%Z && at_byte doc (pos + 1) b_star) eqn:E2; [apply IH; lia|].
  unfold blank_stop. rewrite E, Eb. simpl. apply negb_true_iff.
  destruct (c =? b_slash)%Z; simpl in *; [|done]. by rewrite E1, E2.
Qed.

Lemma blank_loop_fixed fuel doc pos : blank_stop doc pos = true → blank_loop fuel doc pos = pos.
Proof.
  destruct fuel as [|fuel]; simpl; [done|]. unfold blank_stop.
  destruct (doc !! pos) as [c|]; [|done].
  intros [Hb%negb_true_iff Hs%negb_true_iff]%andb_prop. rewrite Hb.
  destruct (c =? b_slash)%Z; simpl in *; [|done]. apply orb_false_iff in Hs as [-> ->]. done.
Qed.

Lemma blank_stops doc pos : blank_stop doc (blank doc pos) = true.
Proof. apply blank_loop_stop. lia. Qed.

Lemma blank_idem doc pos : blank doc (blank doc pos) = blank doc pos.
Proof. apply blank_loop_fixed, blank_stops. Qed.

Lemma literal_loop_bounds fuel doc pos :
  pos ≤ length doc → pos ≤ literal_loop fuel doc pos ≤ length doc.
Proof.
  revert pos. induction fuel as [|fuel IH]; intros pos Hp; simpl; [lia|].
  destruct (doc !! pos) as [c|] eqn:E; [|lia].
  assert (pos < length doc) by (by eapply lookup_lt_Some).
  destruct (literal_stop _ _ _); [lia|]. specialize (IH (pos + 1)). lia.
Qed.

Lemma str_loop_bounds fuel doc pos end_ :
  str_loop fuel doc pos = Some end_ → pos < end_ ≤ length doc.
Proof.
  revert pos. induction fuel as [|fuel IH]; intros pos; simpl; [done|].
  destruct (doc !! pos) as [c|] eqn:E; [|done].
  assert (pos < length doc) by (by eapply lookup_lt_Some).
  destruct (c =? b_backslash)%Z; [intros ?%IH; lia|].
  destruct (c =? b_quote)%Z; [intros [= <-]; lia|]. intros ?%IH. lia.
Qed.

Lemma str_bounds doc start n pos :
  str doc start = Ok (n, pos) →
  start + 1 < pos ≤ length doc ∧ n_kind n = KString ∧ n_start n = start ∧ n_end n = pos.
Proof.
  unfold str. destruct (str_loop _ _ _) as [end_|] eqn:E; [|done].
  apply str_loop_bounds in E. destruct (unquote _); [|done]. by intros [= <- <-].
Qed.

Lemma at_byte_lt doc pos c : at_byte doc pos c = true → pos < length doc.
Proof.
  unfold at_byte. destruct (doc !! pos) eqn:E; [|done]. intros _. by eapply lookup_lt_Some.
Qed.

(** ** More fuel changes nothing *)

Lemma parse_mono fuel :
  (∀ doc pos r, value fuel doc pos = Some r → value (S fuel) doc pos = Some r) ∧
  (∀ doc start pos ks ps its t r, object_loop fuel doc start pos ks ps its t = Some r →
     object_loop (S fuel) doc start pos ks ps its t = Some r) ∧
  (∀ doc start pos its cs t r, array_loop fuel doc start pos its cs t = Some r →
     array_loop (S fuel) doc start pos its cs t = Some r).
Proof.
  induction fuel as [|fuel (IHv & IHo & IHa)]; [done|]. split_and!.
  - intros doc pos r. remember (S fuel) as f eqn:Ef.
    rewrite Ef at 1. cbn [value]. destruct (doc !! blank doc pos) as [c|]; [|done].
    destruct (c =? b_lbrace)%Z; [subst f; apply IHo|].
    destruct (c =? b_lbracket)%Z; [subst f; apply IHa|done].
  - intros doc start pos ks ps its t r. remember (S fuel) as f eqn:Ef.
    rewrite Ef at 1. cbn [object_loop]. destruct (doc !! blank doc pos) as [c|]; [|done].
    destruct (c =? b_rbrace)%Z; [done|]. destruct (str _ _) as [[key p1]|e]; [|done].
    destruct (negb _); [done|].
    destruct (value fuel doc _) as [[[item p2]|e]|] eqn:Ev; [|subst f; by rewrite (IHv _ _ _ Ev)|done].
    subst f. rewrite (IHv _ _ _ Ev). apply IHo.
  - intros doc start pos its cs t r. remember (S fuel) as f eqn:Ef.
    rewrite Ef at 1. cbn [array_loop]. destruct (doc !! blank doc pos) as [c|]; [|done].
    destruct (c =? b_rbracket)%Z; [done|].
    destruct (value fuel doc _) as [[[item p2]|e]|] eqn:Ev; [|subst f; by rewrite (IHv _ _ _ Ev)|done].
    subst f. rewrite (IHv _ _ _ Ev). apply IHa.
Qed.

Lemma value_more f1 f2 doc pos r :
  f1 ≤ f2 → value f1 doc pos = Some r → value f2 doc pos = Some r.
Proof. intros Hle Hv. induction Hle; [done|]. by apply (parse_mono m). Qed.

Lemma object_more f1 f2 doc start pos ks ps its t r :
  f1 ≤ f2 → object_loop f1 doc start pos ks ps its t = Some r →
  object_loop f2 doc start pos ks ps its t = Some r.
Proof. intros Hle Hv. induction Hle; [done|]. by apply (parse_mono m). Qed.

Lemma array_more f1 f2 doc start pos its cs t r :
  f1 ≤ f2 → array_loop f1 doc start pos its cs t = Some r →
  array_loop f2 doc start pos its cs t = Some r.
Proof. intros Hle Hv. induction Hle; [done|]. by apply (parse_mono m). Qed.

(** ** Progress *)

(** A closing brace or a colon where an array expects an element: the
    element is empty, and the loop comes back to the same byte. *)
Lemma array_stuck fuel doc start pos its cs t c :
  blank_stop doc pos = true → doc !! pos = Some c → c = b_rbrace ∨ c = b_colon →
  array_loop fuel doc start pos its cs t = None.
Proof.
  intros Hb Hc Hs. assert (blank doc pos = pos) as Hbl by (by apply blank_loop_fixed).
  revert its cs t. induction fuel as [|fuel IH]; intros its cs t; [done|].
  cbn [array_loop]. rewrite Hbl, Hc.
  assert ((c =? b_rbracket)%Z = false) as -> by (by destruct Hs as [->| ->]).
  destruct fuel as [|fuel]; [done|]. cbn [value]. rewrite Hbl, Hc.
  assert ((c =? b_lbrace)%Z = false ∧ (c =? b_lbracket)%Z = false ∧ (c =? b_quote)%Z = false)
    as (-> & -> & ->) by (by destruct Hs as [->| ->]).
  assert (literal_loop (length doc) doc pos = pos) as Hl.
  { destruct (length doc) eqn:El; [done|]. simpl. rewrite Hc. unfold literal_stop.
    by destruct Hs as [->| ->]. }
  unfold literal. rewrite Hl. cbn [fst snd]. rewrite Hbl.
  assert (at_byte doc pos b_comma = false) as ->.
  { unfold at_byte. rewrite Hc. by destruct Hs as [->| ->]. }
  apply IH.
Qed.

(** Where a value ends: after where it starts, unless it is empty. *)
Lemma value_progress fuel :
  (∀ doc pos n p, value fuel doc pos = Some (Ok (n, p)) →
     blank doc pos < p ∨
     (p = blank doc pos ∧ ∃ c, doc !! p = Some c ∧ literal_stop doc p c = true)) ∧
  (∀ doc start pos ks ps its t n p,
     object_loop fuel doc start pos ks ps its t = Some (Ok (n, p)) → pos < p) ∧
  (∀ doc start pos its cs t n p,
     array_loop fuel doc start pos its cs t = Some (Ok (n, p)) → pos < p).
Proof.
  induction fuel as [|fuel (IHv & IHo & IHa)]; [done|]. split_and!.
  - intros doc pos n p. cbn [value]. destruct (doc !! blank doc pos) as [c|] eqn:Ec; [|done].
    destruct (c =? b_lbrace)%Z; [intros ?%IHo; left; lia|].
    destruct (c =? b_lbracket)%Z; [intros ?%IHa; left; lia|].
    destruct (c =? b_quote)%Z; [intros [= Hs]; apply str_bounds in Hs; left; lia|].
    intros [= <- <-]. assert (blank doc pos < length doc) as Hlt by (by eapply lookup_lt_Some).
    destruct (length doc) as [|len] eqn:El; [lia|]. simpl. rewrite Ec.
    destruct (literal_stop doc (blank doc pos) c) eqn:Es; [right; eauto|]. left.
    pose proof (literal_loop_bounds len doc (blank doc pos + 1)). lia.
  - intros doc start pos ks ps its t n p. cbn [object_loop].
    pose proof (blank_ge doc pos).
    destruct (doc !! blank doc pos) as [c|]; [|done].
    destruct (c =? b_rbrace)%Z; [intros [= _ <-]; lia|].
    destruct (str _ _) as [[key p1]|e] eqn:Es; [|done]. apply str_bounds in Es.
    destruct (negb _); [done|]. pose proof (blank_ge doc p1).
    destruct (value fuel doc _) as [[[item p2]|e]|] eqn:Ev; [|done..].
    apply IHv in Ev. pose proof (blank_ge doc (blank doc p1 + 1)). pose proof (blank_ge doc p2).
    pose proof (blank_ge doc (blank doc p2 + 1)).
    intros Hl%IHo. destruct (at_byte doc (blank doc p2) b_comma); lia.
  - intros doc start pos its cs t n p. cbn [array_loop].
    pose proof (blank_ge doc pos).
    destruct (doc !! blank doc pos) as [c|]; [|done].
    destruct (c =? b_rbracket)%Z; [intros [= _ <-]; lia|].
    destruct (value fuel doc _) as [[[item p2]|e]|] eqn:Ev; [|done..].
    apply IHv in Ev. rewrite blank_idem in Ev. pose proof (blank_ge doc p2).
    pose proof (blank_ge doc (blank doc p2 + 1)).
    intros Hl%IHa. destruct (at_byte doc (blank doc p2) b_comma); lia.
Qed.

(** ** Fuel enough *)

Definition value_fuel (doc : list Z) (pos : nat) : nat := 2 * (length doc - pos) + 2.

Lemma enough_fuel fuel :
  (∀ doc pos r, value fuel doc pos = Some r → value (value_fuel doc pos) doc pos = Some r) ∧
  (∀ doc start pos ks ps its t r, object_loop fuel doc start pos ks ps its t = Some r →
     object_loop (S (value_fuel doc pos)) doc start pos ks ps its t = Some r) ∧
  (∀ doc start pos its cs t r, array_loop fuel doc start pos its cs t = Some r →
     array_loop (S (value_fuel doc pos)) doc start pos its cs t = Some r).
Proof.
  unfold value_fuel. induction fuel as [|fuel (IHv & IHo & IHa)]; [done|]. split_and!.
  - intros doc pos r. replace (2 * (length doc - pos) + 2) with (S (2 * (length doc - pos) + 1)) by lia.
    cbn [value]. pose proof (blank_ge doc pos).
    destruct (doc !! blank doc pos) as [c|] eqn:Ec; [|done].
    assert (blank doc pos < length doc) by (by eapply lookup_lt_Some).
    destruct (c =? b_lbrace)%Z; [intros Hr%IHo; eapply object_more, Hr; lia|].
    destruct (c =? b_lbracket)%Z; [intros Hr%IHa; eapply array_more, Hr; lia|done].
  - intros doc start pos ks ps its t r. cbn [object_loop]. pose proof (blank_ge doc pos).
    destruct (doc !! blank doc pos) as [c|] eqn:Ec; [|done].
    assert (blank doc pos < length doc) by (by eapply lookup_lt_Some).
    destruct (c =? b_rbrace)%Z; [done|].
    destruct (str _ _) as [[key p1]|e] eqn:Es; [|done]. apply str_bounds in Es as [Es _].
    destruct (negb _); [done|]. pose proof (blank_ge doc p1).
    pose proof (blank_ge doc (blank doc p1 + 1)).
    destruct (value fuel doc _) as [[[item p2]|e]|] eqn:Ev; [| |done].
    + assert (blank doc (blank doc p1 + 1) ≤ p2) as Hp.
      { destruct (proj1 (value_progress fuel) _ _ _ _ Ev) as [?|[? _]]; lia. }
      apply IHv, (value_more _ (2 * (length doc - pos) + 2)) in Ev; [rewrite Ev|lia].
      pose proof (blank_ge doc p2). pose proof (blank_ge doc (blank doc p2 + 1)).
      intros Hr%IHo. eapply object_more, Hr. destruct (at_byte doc (blank doc p2) b_comma); lia.
    + apply IHv, (value_more _ (2 * (length doc - pos) + 2)) in Ev; [by rewrite Ev|lia].
  - intros doc start pos its cs t r. cbn [array_loop]. pose proof (blank_ge doc pos).
    destruct (doc !! blank doc pos) as [c|] eqn:Ec; [|done].
    assert (blank doc pos < length doc) by (by eapply lookup_lt_Some).
    destruct (c =? b_rbracket)%Z eqn:Erb; [done|].
    destruct (value fuel doc _) as [[[item p2]|e]|] eqn:Ev; [| |done].
    + pose proof (proj1 (value_progress fuel) _ _ _ _ Ev) as Hp. rewrite blank_idem in Hp.
      apply IHv, (value_more _ (2 * (length doc - pos) + 2)) in Ev; [rewrite Ev|lia].
      pose proof (blank_ge doc p2). pose proof (blank_ge doc (blank doc p2 + 1)).
      destruct (at_byte doc (blank doc p2) b_comma) eqn:Ecomma.
      { intros Hr%IHa. eapply array_more, Hr. lia. }
      destruct Hp as [Hp|(-> & c' & Hc' & Hstop)].
      { intros Hr%IHa. eapply array_more, Hr. lia. }
      (* the element is empty: the loop would never have returned *)
      intros Hr. exfalso. pose proof (blank_stops doc pos) as Hbs.
      rewrite Hc' in Ec. injection Ec as <-. rewrite blank_idem in Hr, Ecomma.
      rewrite (array_stuck _ _ _ _ _ _ _ c') in Hr; [done|done|done|].
      unfold blank_stop in Hbs. rewrite Hc' in Hbs.
      apply andb_prop in Hbs as [Hb%negb_true_iff Hsl%negb_true_iff].
      unfold literal_stop in Hstop. rewrite Hb, Hsl, orb_false_r in Hstop. simpl in Hstop.
      unfold at_byte in Ecomma. rewrite Hc' in Ecomma. rewrite Ecomma, Erb in Hstop. simpl in Hstop.
      rewrite orb_false_r in Hstop. apply orb_prop in Hstop as [?%Z.eqb_eq|?%Z.eqb_eq]; auto.
    + apply IHv, (value_more _ (2 * (length doc - pos) + 2)) in Ev; [by rewrite Ev|lia].
Qed.

(** ** The spans of a scanned document *)

(** Without a trailing comma the last entry has none; a comma for every
    other entry then puts the last comma between the last two. *)
Definition last_comma (items : list node) (commas : list nat) (hi : nat) : Prop :=
  ∀ n c, last items = Some n → last commas = Some c → n_end n ≤ c < hi.

Definition separated (items : list node) (commas : list nat) : Prop :=
  items = [] ∨
  (∃ init n, items = init ++ [n] ∧ length commas = length init ∧
             last_comma init commas (n_start n)) ∨
  length commas + 1 < length items.

(** A node's span holds its text: a container's brackets sit at its ends,
    and its items lie between them, in order, apart. *)
Inductive node_ok (doc : document) : node → Prop :=
| NodeOk n :
    n_start n ≤ n_end n → n_end n ≤ length doc →
    brackets_ok doc n → node_ok doc n
with brackets_ok (doc : document) : node → Prop :=
| ObjectOk n : n_kind n = KObject → n_start n + 1 < n_end n →
    doc !! n_start n = Some b_lbrace → doc !! (n_end n - 1) = Some b_rbrace →
    items_ok doc (n_start n + 1) (n_items n) (n_end n - 1) →
    length (n_keys n) = length (n_items n) → length (n_propStarts n) = length (n_items n) →
    brackets_ok doc n
| ArrayOk n : n_kind n = KArray → n_start n + 1 < n_end n →
    doc !! n_start n = Some b_lbracket → doc !! (n_end n - 1) = Some b_rbracket →
    items_ok doc (n_start n + 1) (n_items n) (n_end n - 1) →
    n_trailing n = true ∨ separated (n_items n) (n_commas n) → brackets_ok doc n
| LeafOk n : n_kind n = KString ∨ n_kind n = KLiteral → n_items n = [] → brackets_ok doc n
with items_ok (doc : document) : nat → list node → nat → Prop :=
| ItemsNil lo hi : lo ≤ hi → items_ok doc lo [] hi
| ItemsCons lo n items hi :
    lo ≤ n_start n → node_ok doc n → items_ok doc (n_end n) items hi →
    items_ok doc lo (n :: items) hi.

Lemma items_ok_mono doc lo items hi hi' : hi ≤ hi' → items_ok doc lo items hi → items_ok doc lo items hi'.
Proof.
  intros Hh. revert lo. induction items as [|n items IH]; intros lo Ho; inversion Ho; subst;
    constructor; auto; lia.
Qed.

Lemma items_ok_snoc doc lo items m n hi :
  items_ok doc lo items m → m ≤ n_start n → node_ok doc n → n_end n ≤ hi →
  items_ok doc lo (items ++ [n]) hi.
Proof.
  revert lo. induction items as [|x items IH]; intros lo Ho; inversion Ho; subst; intros; simpl.
  - constructor; [lia|done|by constructor].
  - constructor; [done..|by apply IH].
Qed.

Lemma node_ok_start doc n : node_ok doc n → n_start n ≤ n_end n ≤ length doc.
Proof. intros Ho. inversion Ho. lia. Qed.

(** What is handed back: the node, and the position just after it. *)
Definition scanned (doc : document) (from : nat) (r : node * nat) : Prop :=
  node_ok doc r.1 ∧ n_start r.1 = from ∧ n_end r.1 = r.2.

Lemma leaf_ok doc kind a b v :
  kind = KString ∨ kind = KLiteral → a ≤ b ≤ length doc → node_ok doc (leaf kind a b v).
Proof.
  intros. constructor; simpl; [lia..|by apply LeafOk].
Qed.

Lemma str_ok doc pos r : str doc pos = Ok r → scanned doc pos r.
Proof.
  unfold str. destruct (str_loop _ _ _) as [e|] eqn:E; [|done]. apply str_loop_bounds in E.
  destruct (unquote _); [|done]. intros [= <-]. split; [|done]. apply leaf_ok; [auto|lia].
Qed.

Lemma literal_ok doc pos : pos ≤ length doc → scanned doc pos (literal doc pos).
Proof.
  intros Hp. pose proof (literal_loop_bounds (length doc) doc pos Hp).
  split; [|done]. apply leaf_ok; [auto|lia].
Qed.

Lemma blank_after_comma doc pos :
  pos ≤ (if at_byte doc (blank doc pos) b_comma
         then blank doc (blank doc pos + 1) else blank doc pos).
Proof.
  pose proof (blank_ge doc pos). pose proof (blank_ge doc (blank doc pos + 1)).
  case_match; lia.
Qed.

(** Between two rounds of the array loop: a comma after every entry so far,
    or a comma missing, and then which. *)
Definition array_inv (doc : document) (pos : nat) (its : list node) (cs : list nat) (t : bool) : Prop :=
  t = true ∨ its = [] ∧ cs = [] ∨
  (length cs = length its ∧ last_comma its cs pos ∧ at_byte doc (blank doc pos) b_rbracket = false) ∨
  (∃ init n, its = init ++ [n] ∧ length cs = length init ∧ last_comma init cs (n_start n)) ∨
  (length cs + 1 = length its ∧ at_byte doc (blank doc pos) b_rbracket = false) ∨
  length cs + 1 < length its.

Lemma array_inv_separated doc pos its cs t :
  array_inv doc pos its cs t → at_byte doc (blank doc pos) b_rbracket = true →
  t = true ∨ separated its cs.
Proof. unfold array_inv, separated. intros Hi Hb. rewrite Hb in Hi. naive_solver. Qed.

Lemma array_inv_step doc pos its cs t item p2 :
  array_inv doc pos its cs t → blank doc pos = n_start item → n_end item = p2 →
  let comma := at_byte doc (blank doc p2) b_comma in
  let pos' := if comma then blank doc (blank doc p2 + 1) else blank doc p2 in
  array_inv doc pos' (its ++ [item]) (if comma then cs ++ [blank doc p2] else cs)
    (t || (comma && at_byte doc pos' b_rbracket)).
Proof.
  intros Hi Hst Hen comma pos'. unfold array_inv in *.
  destruct t; [by left|]. pose proof (blank_ge doc pos). pose proof (blank_ge doc p2).
  assert (blank doc pos' = pos') as Hidem by (subst pos'; destruct comma; apply blank_idem).
  rewrite Hidem. destruct comma; simpl.
  - pose proof (blank_ge doc (blank doc p2 + 1)).
    destruct (at_byte doc pos' b_rbracket); [by left|]. right. right.
    rewrite !length_app; simpl.
    destruct Hi as [?|[[-> ->]|[(Hl & ? & _)|[(init & n & -> & Hl & _)|[[? _]|?]]]]];
      [done| | |rewrite length_app; simpl| |].
    1,2: left; split_and!; [simpl; lia| |done];
      intros n c; rewrite !last_snoc; intros [= <-] [= <-]; subst pos'; lia.
    all: right; right; rewrite ?length_app in *; simpl in *.
    + left. split; [lia|done].
    + left. split; [lia|done].
    + right. lia.
  - right. right. right. rewrite !length_app; simpl.
    destruct Hi as [?|[[-> ->]|[(Hl & Hc & _)|[(init & n & -> & Hl & _)|[[? _]|?]]]]]; [done|..].
    + left. exists [], item. by split_and!.
    + left. exists its, item. split_and!; [done..|]. intros a c Ha Hcs.
      pose proof (Hc _ _ Ha Hcs). lia.
    + right. right. rewrite ?length_app in *; simpl in *. lia.
    + right. right. lia.
    + right. right. lia.
Qed.

Lemma scan_ok fuel doc :
  (∀ pos r, value fuel doc pos = Some (Ok r) → scanned doc (blank doc pos) r) ∧
  (∀ start pos ks ps its t r,
     object_loop fuel doc start pos ks ps its t = Some (Ok r) →
     doc !! start = Some b_lbrace → start < pos → items_ok doc (start + 1) its pos →
     length ks = length its → length ps = length its → scanned doc start r) ∧
  (∀ start pos its cs t r,
     array_loop fuel doc start pos its cs t = Some (Ok r) →
     doc !! start = Some b_lbracket → start < pos → items_ok doc (start + 1) its pos →
     array_inv doc pos its cs t → scanned doc start r).
Proof.
  induction fuel as [|fuel (IHv & IHo & IHa)]; [done|]. split_and!.
  - intros pos r. cbn [value]. destruct (doc !! blank doc pos) as [c|] eqn:Ec; [|done].
    destruct (Z.eqb_spec c b_lbrace) as [->|_].
    { intros Hr. eapply IHo; eauto; [lia|constructor; lia]. }
    destruct (Z.eqb_spec c b_lbracket) as [->|_].
    { intros Hr. eapply IHa; eauto; [lia|constructor; lia|]. right. by left. }
    destruct (c =? b_quote)%Z; [intros [= Hs]; by apply str_ok|].
    intros [= <-]. apply literal_ok. apply lookup_lt_Some in Ec. lia.
  - intros start pos ks ps its t r. cbn [object_loop]. pose proof (blank_ge doc pos).
    destruct (doc !! blank doc pos) as [c|] eqn:Ec; [|done].
    pose proof (lookup_lt_Some _ _ _ Ec).
    destruct (Z.eqb_spec c b_rbrace) as [->|_].
    { intros [= <-] ? ? Hi Hk Hp. split; [|done]. constructor; simpl; [lia..|].
      apply ObjectOk; simpl; rewrite ?Nat.add_sub; auto; [lia|].
      eapply items_ok_mono, Hi. lia. }
    destruct (str _ _) as [[key p1]|e] eqn:Es; [|done]. apply str_bounds in Es as [Es _].
    destruct (negb _); [done|]. pose proof (blank_ge doc p1).
    pose proof (blank_ge doc (blank doc p1 + 1)).
    destruct (value fuel doc _) as [[[item p2]|e]|] eqn:Ev; [|done..].
    apply IHv in Ev as (Hok & Hst & Hen). simpl in *. pose proof (node_ok_start _ _ Hok).
    pose proof (blank_after_comma doc p2). intros Hr ? ? Hi Hk Hp.
    eapply IHo; [exact Hr|done|lia| |rewrite !length_app; simpl; lia..].
    eapply items_ok_snoc; [exact Hi|lia|done|lia].
  - intros start pos its cs t r. cbn [array_loop]. pose proof (blank_ge doc pos).
    destruct (doc !! blank doc pos) as [c|] eqn:Ec; [|done].
    pose proof (lookup_lt_Some _ _ _ Ec).
    destruct (Z.eqb_spec c b_rbracket) as [->|_].
    { intros [= <-] ? ? Hi Hv. split; [|done]. constructor; simpl; [lia..|].
      apply ArrayOk; simpl; rewrite ?Nat.add_sub; auto; [lia| |].
      - eapply items_ok_mono, Hi. lia.
      - apply (array_inv_separated doc pos); [done|]. unfold at_byte. by rewrite Ec. }
    destruct (value fuel doc _) as [[[item p2]|e]|] eqn:Ev; [|done..].
    apply IHv in Ev as (Hok & Hst & Hen). rewrite blank_idem in Hst. simpl in *.
    pose proof (node_ok_start _ _ Hok).
    pose proof (blank_after_comma doc p2). intros Hr ? ? Hi Hv.
    eapply IHa; [exact Hr|done|lia| |by apply (array_inv_step doc pos)].
    eapply items_ok_snoc; [exact Hi|lia|done|lia].
Qed.

Lemma parse_ok fuel doc root : parseJSONC fuel doc = Some (Ok root) → node_ok doc root.
Proof.
  unfold parseJSONC. destruct (value _ _ _) as [[[n p]|]|] eqn:Ev; [|done..].
  case_bool_decide; [|done]. intros [= <-]. by apply scan_ok in Ev as [? _].
Qed.

Lemma items_ok_in doc lo items hi n :
  items_ok doc lo items hi → n ∈ items → node_ok doc n ∧ lo ≤ n_start n ∧ n_end n ≤ hi.
Proof.
  revert lo. induction items as [|x items IH]; intros lo Ho Hn; [by apply not_elem_of_nil in Hn|].
  inversion Ho as [|? ? ? ? Hlo Hx Hxs]; subst. pose proof (node_ok_start _ _ Hx).
  assert (n_end x ≤ hi) as Hxe.
  { clear -Hxs. revert Hxs. generalize (n_end x). induction items as [|y items IH];
      intros m Ho; inversion Ho as [|? ? ? ? ? Hy Hys]; subst; [done|].
    pose proof (node_ok_start _ _ Hy). apply IH in Hys. lia. }
  apply elem_of_cons in Hn as [->|Hn]; [done|].
  destruct (IH _ Hxs Hn) as (? & ? & ?). split; [done|]. lia.
Qed.

Lemma child_ok doc n item :
  node_ok doc n → item ∈ n_items n → node_ok doc item ∧ n_start n < n_start item ∧ n_end item < n_end n.
Proof.
  intros Ho Hi. inversion Ho as [? ? ? Hb]; subst. inversion Hb as [? ? ? ? ? Hs|? ? ? ? ? Hs|? ? Hn]; subst.
  1,2: destruct (items_ok_in _ _ _ _ _ Hs Hi) as (? & ? & ?); split; [done|lia].
  rewrite Hn in Hi. by apply not_elem_of_nil in Hi.
Qed.

Lemma assoc_first_in key keys items n : assoc_first key keys items = Some n → n ∈ items.
Proof.
  revert items. induction keys as [|k keys IH]; intros [|x items]; simpl; [done..|].
  destruct (String.eqb k key); [intros [= <-]; set_solver|]. intros ?%IH. set_solver.
Qed.

Lemma get_in n key v : get n key = Some v → n_kind n = KObject ∧ v ∈ n_items n.
Proof. unfold get. destruct (n_kind n); try done. intros ?%assoc_first_in. done. Qed.

Lemma get_ok doc n key v :
  node_ok doc n → get n key = Some v → node_ok doc v ∧ n_start n < n_start v ∧ n_end v < n_end n.
Proof. intros ? [_ ?]%get_in. by apply child_ok. Qed.

End RenderProps.
