(* ===== verification/RenderTheorems.v ===== *)
(** * The raw-span renderer: theorems

    The scan returns whenever any scan would; an additive plan only inserts,
    a plan of one removal per inbound is a simultaneous replacement, both
    inside the inbounds array; a plan the document already satisfies writes
    nothing. *)

From Stdlib Require Import Ascii String.
From stdpp Require Import sorting.
From S2P Require Import Prelude GoJson Render RenderProps.

Module RenderTheorems.
Import GoJson Render RenderProps.

(** ** Edits apart from each other *)

Definition before (a b : textEdit) : Prop := te_end a ≤ te_at b ∧ te_at a < te_at b.
Definition apart (a b : textEdit) : Prop := before a b ∨ before b a.

Fixpoint all_apart (edits : list textEdit) : Prop :=
  match edits with
  | [] => True
  | e :: edits => Forall (apart e) edits ∧ all_apart edits
  end.

#[export] Instance apart_sym : Symmetric apart.
Proof. unfold apart. intros ??. tauto. Qed.

#[export] Instance all_apart_perm : Proper ((≡ₚ) ==> iff) all_apart.
Proof.
  assert (∀ l k, l ≡ₚ k → all_apart l → all_apart k) as Hp.
  { induction 1 as [|x l k Hl IH|x y l|]; simpl; [done| | |by auto].
    - intros [? ?]. split; [by rewrite <-Hl|auto].
    - rewrite !Forall_cons. intros ((? & ?) & ? & ?). split_and!; try done; by symmetry. }
  intros l k Hl. split; by apply Hp.
Qed.

Lemma all_apart_app l k :
  all_apart l → all_apart k → (∀ a b, a ∈ l → b ∈ k → apart a b) → all_apart (l ++ k).
Proof.
  induction l as [|e l IH]; simpl; [done|]. intros [He Hl] Hk Hlk. split.
  - apply Forall_app. split; [done|]. apply Forall_forall. intros b ?. apply Hlk; set_solver.
  - apply IH; [done..|]. intros ????. apply Hlk; set_solver.
Qed.

(** An edit strictly inside a span. *)
Definition inside (a b : nat) (e : textEdit) : Prop := a < te_at e ∧ te_at e ≤ te_end e ∧ te_end e < b.

Lemma inside_mono a b a' b' e : a' ≤ a → b ≤ b' → inside a b e → inside a' b' e.
Proof. unfold inside. lia. Qed.

(** Edits inside separate spans are apart. *)
Lemma inside_apart a b c d e1 e2 : b ≤ c → inside a b e1 → inside c d e2 → apart e1 e2.
Proof. unfold inside, apart, before. lia. Qed.

(** slices.SortFunc's contract: a permutation, offsets not increasing. *)
Class DescSort (sort_edits : list textEdit → list textEdit) : Prop := {
  sort_perm l : sort_edits l ≡ₚ l;
  sort_desc l : StronglySorted (λ a b, te_at b ≤ te_at a) (sort_edits l);
}.

Lemma disjoint_from_snoc lo l m e hi :
  disjoint_from lo l m → m ≤ te_at e → te_at e ≤ te_end e → te_end e ≤ hi →
  disjoint_from lo (l ++ [e]) hi.
Proof.
  revert lo. induction l as [|x l IH]; intros lo; simpl; [lia|].
  intros (? & ? & ?). auto.
Qed.

Lemma desc_apart_disjoint lo hi l :
  StronglySorted (λ a b, te_at b ≤ te_at a) l → all_apart l →
  Forall (λ e, lo ≤ te_at e ∧ te_at e ≤ te_end e ∧ te_end e ≤ hi) l → lo ≤ hi →
  disjoint_from lo (rev l) hi.
Proof.
  revert hi. induction l as [|e l IH]; intros hi Hs Ha Hf Hle; simpl; [done|].
  inversion Hs as [|? ? Hs' He]; subst. destruct Ha as [Hae Ha].
  apply Forall_cons in Hf as [(? & ? & ?) Hf].
  apply (disjoint_from_snoc _ _ (te_at e)); [|lia..]. apply IH; [done..| |lia].
  rewrite Forall_forall in *. intros x Hx. pose proof (Hf _ Hx). pose proof (He _ Hx). simpl in *.
  destruct (Hae _ Hx) as [[? ?]|[? ?]]; lia.
Qed.

(** Sorted, edits that are apart inside a span replace their spans at once,
    and nothing outside it. *)
Lemma sorted_edits_splice `{DescSort sort_edits} (doc : document) lo hi edits :
  all_apart edits → Forall (inside lo hi) edits → lo + 1 < hi ≤ length doc →
  let sorted := rev (sort_edits edits) in
  sorted ≡ₚ edits ∧ disjoint_from (lo + 1) sorted (hi - 1) ∧
  apply_edits doc (sort_edits edits) = Some (splice doc 0 sorted).
Proof.
  intros Ha Hi Hle sorted.
  assert (sorted ≡ₚ edits) as Hp.
  { unfold sorted. rewrite <-Permutation_rev. apply sort_perm. }
  assert (∀ hi', hi - 1 ≤ hi' → disjoint_from (lo + 1) sorted hi') as Hd.
  { intros hi' Hh. apply desc_apart_disjoint; [apply sort_desc|by rewrite sort_perm| |lia].
    rewrite sort_perm. eapply Forall_impl; [exact Hi|]. unfold inside. intros; simpl in *; lia. }
  split_and!; [done|by apply Hd|].
  rewrite <-(rev_involutive (sort_edits edits)). apply (apply_edits_splice _ (lo + 1)).
  apply Hd. lia.
Qed.

(** ** Where each planned edit lies *)

Lemma items_ok_order doc lo items hi i j a b :
  items_ok doc lo items hi → i < j → items !! i = Some a → items !! j = Some b →
  n_end a ≤ n_start b.
Proof.
  revert lo i j. induction items as [|x items IH]; intros lo i j Ho Hij Ha Hb; [done|].
  inversion Ho as [|? ? ? ? Hlo Hx Hxs]; subst.
  destruct j as [|j]; [lia|]. destruct i as [|i]; simpl in *.
  - injection Ha as <-. destruct (items_ok_in _ _ _ _ b Hxs) as (_ & ? & _); [|done].
    by eapply list_elem_of_lookup_2.
  - eapply IH; [exact Hxs| |exact Ha|exact Hb]. lia.
Qed.

Lemma container_items doc n :
  node_ok doc n → n_kind n = KObject ∨ n_kind n = KArray →
  items_ok doc (n_start n + 1) (n_items n) (n_end n - 1) ∧ n_start n + 1 < n_end n.
Proof.
  intros Ho Hk. inversion Ho as [? ? ? Hb]; subst.
  inversion Hb as [? Hk'|? Hk'|? Hk']; subst; [done..|].
  destruct Hk' as [E|E], Hk as [E'|E']; congruence.
Qed.

Definition newline_step (st : nat * nat) (c : Z) : nat * nat :=
  (st.1 + 1, if (c =? b_lf)%Z then st.1 + 1 else st.2).

Lemma newline_fold l k m :
  let r := foldl newline_step (k, m) l in
  r.1 = k + length l ∧
  (if existsb (Z.eqb b_lf) l then k < r.2 ≤ k + length l else r.2 = m).
Proof.
  revert k m. induction l as [|c l IH]; intros k m;
    [split; [simpl; lia|done]|cbn [foldl existsb length]].
  change (newline_step (k, m) c) with (k + 1, if (c =? b_lf)%Z then k + 1 else m).
  destruct (IH (k + 1) (if (c =? b_lf)%Z then k + 1 else m)) as [H1 H2].
  split; [lia|]. rewrite (Z.eqb_sym b_lf c). destruct (c =? b_lf)%Z; cbn [orb].
  - destruct (existsb _ l); lia.
  - destruct (existsb _ l); lia.
Qed.

Lemma slice_snoc (doc : document) a b c :
  a ≤ b → doc !! b = Some c → slice doc a (S b) = slice doc a b ++ [c].
Proof.
  intros Hab Hc. unfold slice. replace (S b - a) with (S (b - a)) by lia.
  apply take_S_r. rewrite lookup_drop. by replace (a + (b - a)) with b by lia.
Qed.

(** A newline inside a bracketed span puts the last line's start in it. *)
Lemma last_line_inside doc a b c :
  a + 1 < b → b ≤ length doc → doc !! a = Some c → c ≠ b_lf →
  doc !! (b - 1) = Some b_rbracket → multiline doc a b = true →
  a < after_last_newline (take (b - 1) doc) ≤ b - 1.
Proof.
  intros Hab Hb _ _ Hc Hm. unfold multiline in Hm.
  replace b with (S (b - 1)) in Hm by lia. rewrite (slice_snoc _ _ _ b_rbracket), existsb_app in Hm by (done || lia).
  simpl in Hm. rewrite orb_false_r in Hm.
  assert (take (b - 1) doc = take a doc ++ slice doc a (b - 1)) as ->.
  { rewrite <-slice_take_drop by lia. rewrite <-(take_drop a (take (b - 1) doc)) at 1.
    rewrite take_take. by rewrite Nat.min_l by lia. }
  unfold after_last_newline. fold newline_step. rewrite foldl_app.
  destruct (newline_fold (take a doc) 0 0) as [H1 _]. rewrite length_take_le in H1 by lia.
  destruct (foldl newline_step (0, 0) (take a doc)) as [k m]. simpl in H1. subst k.
  destruct (newline_fold (slice doc a (b - 1)) a m) as [_ H2]. simpl in *. rewrite Hm in H2.
  unfold slice in H2 at 2 3. unfold slice in *. rewrite length_take in H2. lia.
Qed.

Lemma after_comma_bound l n : after_comma l = Some n → n ≤ length l ∧ l !! (n - 1) = Some b_comma ∧ 0 < n.
Proof.
  revert n. induction l as [|c l IH]; intros n; simpl; [done|].
  destruct (Z.eqb_spec c b_comma) as [->|]; [intros [= <-]; split_and!; [lia|done|lia]|].
  destruct (after_comma l) as [m|]; simpl; [|done]. intros [= <-].
  destruct (IH m eq_refl) as (? & Hl & ?). split_and!; [lia| |lia].
  destruct m; [lia|]. simpl in *. by rewrite Nat.sub_0_r in Hl.
Qed.

Lemma insertion_inv at_ text e : insertion at_ text = Some e → te_at e = at_ ∧ te_end e = at_.
Proof. by intros [= <-]. Qed.

Lemma last_in {A} (l : list A) x : last l = Some x → x ∈ l.
Proof. intros [? ->]%last_Some. set_solver. Qed.

(** An append goes inside the array; past the last entry, unless the array
    has a trailing comma. *)
Lemma planAppend_inside doc clients remaining e :
  node_ok doc clients → n_kind clients = KArray → planAppend doc clients remaining = Some e →
  te_at e = te_end e ∧ inside (n_start clients) (n_end clients) e ∧
  (n_trailing clients = false → ∀ n, n ∈ n_items clients → n_end n ≤ te_at e).
Proof.
  intros Ho Hk He. pose proof (container_items _ _ Ho (or_intror Hk)) as [Hi Hlt].
  assert (n_end clients ≤ length doc ∧ doc !! n_start clients = Some b_lbracket ∧
          doc !! (n_end clients - 1) = Some b_rbracket) as (Hend & Hopen & Hclose).
  { inversion Ho as [? ? ? Hb]; subst. inversion Hb as [|? Hk'|? Hk']; subst; [congruence|done|].
    destruct Hk'; congruence. }
  unfold planAppend, inside in *. destruct (last (n_items clients)) as [lst|] eqn:El.
  - pose proof (child_ok _ _ _ Ho (last_in _ _ El)) as (Hlok & ? & ?).
    pose proof (node_ok_start _ _ Hlok).
    assert (∀ n, n ∈ n_items clients → n_end n ≤ n_end lst) as Hlast.
    { intros n [i Hn]%list_elem_of_lookup. rewrite last_lookup in El.
      pose proof (lookup_lt_Some _ _ _ Hn).
      destruct (decide (i = pred (length (n_items clients)))) as [->|]; [by simplify_eq|].
      transitivity (n_start lst); [|lia].
      eapply (items_ok_order _ _ _ _ i _ n lst); [exact Hi| |done|done]. lia. }
    destruct (n_trailing clients) eqn:Et.
    + destruct (multiline doc _ _) eqn:Em; apply insertion_inv in He as [-> ->];
        (split; [done|]; split; [|done]).
      * pose proof (last_line_inside doc _ _ _ Hlt Hend Hopen ltac:(done) Hclose Em). lia.
      * destruct (after_comma _) as [k|] eqn:Ek; simpl; [|lia].
        apply after_comma_bound in Ek as (Hlen & Hc & Hk0).
        unfold slice in *. rewrite length_take, length_drop in Hlen.
        rewrite lookup_take_lt, lookup_drop in Hc by lia.
        assert (n_end lst + (k - 1) ≠ n_end clients - 1) by (intros Heq; rewrite Heq in Hc; rewrite Hclose in Hc; unfold b_rbracket, b_comma in Hc; congruence).
        lia.
    + destruct (multiline doc _ _) eqn:Em; apply insertion_inv in He as [-> ->];
        (split; [done|]; split; [lia|done]).
  - apply last_None in El. rewrite El.
    destruct (multiline doc _ _); apply insertion_inv in He as [-> ->];
      (split; [done|]; split; [lia|]; intros _ n Hn; by apply not_elem_of_nil in Hn).
Qed.

Lemma planKeyInsert_inside doc settings add e :
  node_ok doc settings → n_kind settings = KObject → planKeyInsert doc settings add = Some e →
  te_at e = te_end e ∧ inside (n_start settings) (n_end settings) e.
Proof.
  intros Ho Hk He. pose proof (container_items _ _ Ho (or_introl Hk)) as [_ Hlt].
  unfold planKeyInsert, inside in *.
  destruct (last (n_items settings)) as [lst|] eqn:El.
  - pose proof (child_ok _ _ _ Ho (last_in _ _ El)) as (Hlok & ? & ?).
    pose proof (node_ok_start _ _ Hlok).
    destruct (last (n_propStarts settings)); destruct (multiline doc _ _);
      apply insertion_inv in He as [-> ->]; (split; [done|lia]).
  - destruct (multiline doc _ _); apply insertion_inv in He as [-> ->]; (split; [done|lia]).
Qed.

Lemma planClientsInsert_inside doc settings add e :
  node_ok doc settings → n_kind settings = KObject →
  planClientsInsert doc settings add = Ok (Some e) →
  te_at e = te_end e ∧ inside (n_start settings) (n_end settings) e ∧
  (∀ clients, get settings "clients" = Some clients →
     inside (n_start clients) (n_end clients) e ∧
     (n_trailing clients = false → ∀ n, n ∈ n_items clients → n_end n ≤ te_at e)).
Proof.
  intros Ho Hk. unfold planClientsInsert. destruct (get settings "clients") as [clients|] eqn:Eg.
  - destruct (get_ok _ _ _ _ Ho Eg) as (Hc & ? & ?).
    destruct (n_kind clients) eqn:Ek; try done. case_bool_decide; [done|]. intros [= He].
    destruct (planAppend_inside _ _ _ _ Hc Ek He) as (? & ? & ?).
    split_and!; [done|eapply inside_mono; [| |done]; lia|]. by intros ? [= <-].
  - intros [= He]. destruct (planKeyInsert_inside _ _ _ _ Ho Hk He). done.
Qed.

(** ** The edits of one inbound *)

Definition email_step (st : nat * gmap string nat) (entry : node) : nat * gmap string nat :=
  let '(i, m) := st in
  (i + 1,
   match n_kind entry, get entry "email" with
   | KObject, Some email =>
       if bool_decide (n_kind email = KString) then <[n_value email := i]> m else m
   | _, _ => m
   end).

(** An entry listed under an email is an object that carries it. *)
Lemma byEmailOf_spec clients email i :
  byEmailOf clients !! email = Some i →
  ∃ entry v, n_items clients !! i = Some entry ∧ n_kind entry = KObject ∧
             get entry "email" = Some v ∧ n_value v = email.
Proof.
  unfold byEmailOf. fold email_step. revert i.
  assert (∀ l, (foldl email_step (0, ∅) l).1 = length l ∧
    ∀ i, (foldl email_step (0, ∅) l).2 !! email = Some i →
      ∃ entry v, l !! i = Some entry ∧ n_kind entry = KObject ∧
                 get entry "email" = Some v ∧ n_value v = email) as Hf; [|apply Hf].
  intros l. induction l as [|x l [IH1 IH2]] using rev_ind; [by split; [|intros ? Hi; simpl in Hi; rewrite lookup_empty in Hi]|].
  rewrite foldl_app, length_app. simpl.
  destruct (foldl email_step (0, ∅) l) as [k m]. simpl in *. subst k. split; [done|].
  intros i Hi.
  assert (m !! email = Some i ∨ (i = length l ∧ n_kind x = KObject ∧
            ∃ v, get x "email" = Some v ∧ n_value v = email)) as [Hm|(-> & Hk & v & Hg & Hv)].
  { destruct (n_kind x) eqn:Ek; auto. destruct (get x "email") as [v|]; auto.
    case_bool_decide; auto. destruct (decide (n_value v = email)) as [Hv|].
    - rewrite Hv, lookup_insert_eq in Hi. injection Hi as <-. eauto 6.
    - rewrite lookup_insert_ne in Hi by done. auto. }
  - destruct (IH2 _ Hm) as (entry & v & Hl & ?). exists entry, v.
    by rewrite lookup_app_l by (by eapply lookup_lt_Some).
  - exists x, v. by rewrite lookup_app_r, Nat.sub_diag by done.
Qed.

Lemma byEmailOf_inj clients e1 e2 i :
  byEmailOf clients !! e1 = Some i → byEmailOf clients !! e2 = Some i → e1 = e2.
Proof.
  intros (n1 & v1 & H1 & _ & G1 & <-)%byEmailOf_spec (n2 & v2 & H2 & _ & G2 & <-)%byEmailOf_spec.
  by simplify_eq.
Qed.

Lemma planIDSet_inside doc entry id e :
  node_ok doc entry → n_kind entry = KObject → planIDSet entry id = Some e →
  inside (n_start entry) (n_end entry) e.
Proof.
  intros Ho Hk. pose proof (container_items _ _ Ho (or_introl Hk)) as [_ Hlt].
  unfold planIDSet, inside. destruct (get entry "id") as [key|] eqn:Eg; [|intros [= <-]; simpl; lia].
  case_bool_decide; [|intros [= <-]; simpl; lia]. case_match; [done|]. intros [= <-]. simpl.
  destruct (get_ok _ _ _ _ Ho Eg) as (Hok & ? & ?). pose proof (node_ok_start _ _ Hok). lia.
Qed.

(** A removal without a trailing comma to mind: it takes the entry, and no
    byte of another one. *)
Lemma planEntryRemoval_spec doc clients i entry e :
  node_ok doc clients → n_kind clients = KArray → n_trailing clients = false →
  n_items clients !! i = Some entry → n_kind entry = KObject →
  planEntryRemoval clients i = Some e →
  inside (n_start clients) (n_end clients) e ∧ te_at e < te_end e ∧
  (∃ n, n ∈ n_items clients ∧ te_end e ≤ n_end n) ∧
  (∀ j n, n_items clients !! j = Some n → j ≠ i → n_end n ≤ te_at e ∨ te_end e ≤ n_start n).
Proof.
  intros Ho Hk Ht Hi Hobj He.
  pose proof (container_items _ _ Ho (or_intror Hk)) as [Hitems _].
  assert (∀ i j a b, i < j → n_items clients !! i = Some a → n_items clients !! j = Some b →
            n_end a ≤ n_start b) as Hord by (intros; by eapply items_ok_order).
  assert (∀ j n, n_items clients !! j = Some n →
            n_start clients < n_start n ∧ n_start n ≤ n_end n ∧ n_end n < n_end clients) as Hin.
  { intros j n Hn%list_elem_of_lookup_2. destruct (child_ok _ _ _ Ho Hn) as (Hok & ? & ?).
    pose proof (node_ok_start _ _ Hok). lia. }
  assert (n_start entry + 1 < n_end entry) as Hwide.
  { destruct (child_ok _ _ _ Ho (list_elem_of_lookup_2 _ _ _ Hi)) as (Hok & _).
    by apply (container_items doc); [|left]. }
  pose proof (Hin _ _ Hi) as Hein. unfold planEntryRemoval in He. rewrite Hi in He. simpl in He.
  destruct (n_items clients !! (i + 1)) as [next|] eqn:Enext.
  { injection He as <-. pose proof (Hord i (i + 1) _ _ ltac:(lia) Hi Enext).
    pose proof (Hin _ _ Enext). unfold inside. simpl. split_and!; [lia..| |].
    - exists next. split; [by eapply list_elem_of_lookup_2|lia].
    - intros j n Hn Hj. destruct (decide (j < i)); [left; by eapply Hord|right].
      destruct (decide (j = i + 1)) as [->|]; [by simplify_eq|].
      pose proof (Hord (i + 1) j _ _ ltac:(lia) Enext Hn). lia. }
  assert (S i = length (n_items clients)) as Hlen.
  { apply lookup_lt_Some in Hi. apply lookup_ge_None in Enext. lia. }
  assert (separated (n_items clients) (n_commas clients)) as Hsep.
  { inversion Ho as [? ? ? Hb]; subst.
    inversion Hb as [|? ? ? ? ? ? Hs|? Hk']; subst; [congruence| |destruct Hk'; congruence].
    destruct Hs; [congruence|done]. }
  destruct Hsep as [E|[(init & n & Ei & Hc & Hlc)|Hc]]; [by rewrite E in Hlen| |].
  2: { destruct (n_commas clients !! i) eqn:Ec; [apply lookup_lt_Some in Ec; lia|].
       destruct i as [|i]; [lia|].
       destruct (n_commas clients !! i) eqn:Ec'; [apply lookup_lt_Some in Ec'; lia|done]. }
  rewrite Ei, length_app in Hlen. simpl in Hlen.
  destruct (n_commas clients !! i) eqn:Ec; [apply lookup_lt_Some in Ec; lia|]. clear Ec.
  assert (n = entry) as ->.
  { rewrite Ei, lookup_app_r in Hi by lia. replace (i - length init) with 0 in Hi by lia. by simplify_eq/=. }
  assert (entry ∈ n_items clients) as Hen by (rewrite Ei; set_solver).
  destruct i as [|i].
  { injection He as <-. unfold inside. simpl. split_and!; [lia..|by exists entry|].
    intros j m Hm Hj. apply lookup_lt_Some in Hm. rewrite Ei, length_app in Hm. simpl in Hm. lia. }
  destruct (n_commas clients !! i) as [comma|] eqn:Ec; simpl in He; [|done]. injection He as <-.
  assert (n_items clients !! i = init !! i) as Epre by (rewrite Ei; apply lookup_app_l; lia).
  destruct (lookup_lt_is_Some_2 init i ltac:(lia)) as [prev Hp].
  assert (n_end prev ≤ comma < n_start entry) as Hcomma.
  { apply Hlc; rewrite last_lookup; [by replace (pred (length init)) with i by lia|].
    by replace (pred (length (n_commas clients))) with i by lia. }
  rewrite Hp in Epre. pose proof (Hin _ _ Epre). unfold inside. simpl. split_and!; [lia..|by exists entry|].
  intros j m Hm Hj. left.
  assert (j ≤ i) by (apply lookup_lt_Some in Hm; rewrite Ei, length_app in Hm; simpl in Hm; lia).
  destruct (decide (j = i)) as [->|]; [simplify_eq; lia|].
  pose proof (Hord j i _ _ ltac:(lia) Hm Epre). lia.
Qed.

Definition set_step (clients : node) (byEmail : gmap string nat)
    (st : list textEdit * list ClientOp) (set : ClientOp) : list textEdit * list ClientOp :=
  let '(edits, appends) := st in
  match byEmail !! co_email set ≫= λ i, n_items clients !! i with
  | None => (edits, appends ++ [set])
  | Some entry => (edits ++ opt_list (planIDSet entry (co_id set)), appends)
  end.

(** Each rewrite belongs to the entry of one set's email. *)
Lemma planSets_spec clients byEmail sets e :
  e ∈ (planSets clients byEmail sets).1 →
  ∃ set i entry, set ∈ sets ∧ byEmail !! co_email set = Some i ∧
    n_items clients !! i = Some entry ∧ planIDSet entry (co_id set) = Some e.
Proof.
  unfold planSets. fold (set_step clients byEmail).
  induction sets as [|x sets IH] using rev_ind; simpl; [by intros ?%not_elem_of_nil|].
  rewrite foldl_app. simpl. destruct (foldl _ ([], []) sets) as [edits appends]. simpl in *.
  destruct (byEmail !! co_email x ≫= _) as [entry|] eqn:Ei; simpl.
  - apply bind_Some in Ei as (i & Hi & Hentry). intros [He|He]%elem_of_app.
    + destruct (IH He) as (s & j & n & ? & ?). exists s, j, n. split; [set_solver|done].
    + destruct (planIDSet entry (co_id x)) as [e'|] eqn:Ep; simpl in He; [|by apply not_elem_of_nil in He].
      apply list_elem_of_singleton in He as ->. exists x, i, entry. split; [set_solver|done].
  - intros He. destruct (IH He) as (s & j & n & ? & ?). exists s, j, n. split; [set_solver|done].
Qed.

Lemma planSets_apart doc clients sets :
  node_ok doc clients → n_kind clients = KArray → NoDup (co_email <$> sets) →
  all_apart (planSets clients (byEmailOf clients) sets).1.
Proof.
  intros Ho Hk. pose proof (container_items _ _ Ho (or_intror Hk)) as [Hitems _].
  induction sets as [|x sets IH] using rev_ind; [done|].
  rewrite fmap_app. intros Hnd. pose proof Hnd as (Hnd' & Hdis & _)%NoDup_app.
  specialize (IH Hnd'). pose proof (planSets_spec clients (byEmailOf clients) sets) as Hs.
  unfold planSets in *. fold (set_step clients (byEmailOf clients)) in *.
  rewrite foldl_app. simpl. destruct (foldl _ ([], []) sets) as [edits appends]. simpl in *.
  destruct (byEmailOf clients !! co_email x ≫= _) as [entry|] eqn:Ei; simpl; [|done].
  destruct (planIDSet entry (co_id x)) as [e|] eqn:Ep; simpl; [|by rewrite app_nil_r].
  apply all_apart_app; [done|by split|]. intros a b Ha ->%list_elem_of_singleton.
  destruct (Hs _ Ha) as (s & j & n & Hin & Hj & Hn & Hp).
  apply bind_Some in Ei as (i & Hi & Hentry).
  assert (i ≠ j) as Hij.
  { intros <-. pose proof (byEmailOf_inj _ _ _ _ Hi Hj) as He.
    apply (Hdis (co_email s)); [by apply list_elem_of_fmap_2|rewrite He; set_solver]. }
  assert (∀ k m set c, byEmailOf clients !! co_email set = Some k → n_items clients !! k = Some m →
            planIDSet m (co_id set) = Some c → inside (n_start m) (n_end m) c) as Hins.
  { intros k m set c Hb Hm Hc. pose proof (child_ok _ _ _ Ho (list_elem_of_lookup_2 _ _ _ Hm)) as (? & _).
    apply byEmailOf_spec in Hb as (? & ? & ? & ? & _). simplify_eq. by eapply planIDSet_inside. }
  pose proof (Hins _ _ _ _ Hi Hentry Ep) as H1. pose proof (Hins _ _ _ _ Hj Hn Hp) as H2.
  destruct (decide (i < j)).
  - symmetry. eapply inside_apart; [|exact H1|exact H2]. by eapply items_ok_order.
  - eapply inside_apart; [|exact H2|exact H1]. eapply items_ok_order; [exact Hitems| |done|done]. lia.
Qed.

(** At most one removal, and of whom. *)
Lemma planRemovals_one clients byEmail removes edits :
  length removes ≤ 1 → planRemovals clients byEmail removes = Ok edits →
  edits = [] ∨ ∃ email i e, removes = [email] ∧ byEmail !! email = Some i ∧
    planEntryRemoval clients i = Some e ∧ edits = [e].
Proof.
  destruct removes as [|email [|? ?]]; simpl; [by intros _ [= <-]; left| |lia].
  intros _. destruct (byEmail !! email) as [i|] eqn:Ei; [|intros [= <-]; by left].
  destruct (planEntryRemoval clients i) as [e|] eqn:Ee; [|done]. intros [= <-]. eauto 10.
Qed.

(** A plan of one change at a time: per inbound at most one removal, no
    email set twice, none both set and removed. *)
Definition one_removal (plan : RenderPlan) : Prop :=
  (∀ tag removes, pl_removes plan !! tag = Some removes → length removes ≤ 1) ∧
  (∀ tag sets, pl_sets plan !! tag = Some sets → NoDup (co_email <$> sets)) ∧
  (∀ tag removes sets op, pl_removes plan !! tag = Some removes →
     pl_sets plan !! tag = Some sets → op ∈ sets → co_email op ∉ removes).

(** An inbound whose clients array ends without a trailing comma. *)
Definition plain_inbound (inbound : node) : Prop :=
  ∀ settings clients, get inbound "settings" = Some settings →
    get settings "clients" = Some clients → n_trailing clients = false.

Lemma array_edits_apart doc clients removes sets removals ins :
  node_ok doc clients → n_kind clients = KArray → n_trailing clients = false →
  length removes ≤ 1 → NoDup (co_email <$> sets) →
  (∀ op, op ∈ sets → co_email op ∉ removes) →
  planRemovals clients (byEmailOf clients) removes = Ok removals →
  (∀ e, e ∈ ins → inside (n_start clients) (n_end clients) e ∧
                  ∀ n, n ∈ n_items clients → n_end n ≤ te_at e) →
  length ins ≤ 1 →
  let edits := removals ++ (planSets clients (byEmailOf clients) sets).1 ++ ins in
  all_apart edits ∧ Forall (inside (n_start clients) (n_end clients)) edits.
Proof.
  intros Ho Hk Ht Hr Hnd Hdis Hrem Hins Hone edits.
  assert (∀ e, e ∈ (planSets clients (byEmailOf clients) sets).1 →
    ∃ set i n, set ∈ sets ∧ byEmailOf clients !! co_email set = Some i ∧
      n_items clients !! i = Some n ∧ n ∈ n_items clients ∧ inside (n_start n) (n_end n) e ∧
      inside (n_start clients) (n_end clients) e) as Hset.
  { intros e (set & i & n & Hs & Hi & Hn & Hp)%planSets_spec.
    pose proof (list_elem_of_lookup_2 _ _ _ Hn) as Hel.
    destruct (child_ok _ _ _ Ho Hel) as (Hok & ? & ?).
    pose proof (byEmailOf_spec _ _ _ Hi) as (m & ? & Hm & ? & _). simplify_eq.
    assert (inside (n_start n) (n_end n) e) as Hin by (by eapply planIDSet_inside).
    exists set, i, n. split_and!; [done..|]. eapply inside_mono; [| |exact Hin]; lia. }
  assert (∀ e, e ∈ removals → inside (n_start clients) (n_end clients) e ∧
    (∀ c, c ∈ (planSets clients (byEmailOf clients) sets).1 ++ ins → apart e c)) as Hrm.
  { intros e He. destruct (planRemovals_one _ _ _ _ Hr Hrem) as [->|(email & i & x & -> & Hi & Hx & ->)];
      [by apply not_elem_of_nil in He|]. apply list_elem_of_singleton in He as ->.
    pose proof (byEmailOf_spec _ _ _ Hi) as (entry & ? & Hentry & Hobj & _).
    destruct (planEntryRemoval_spec _ _ _ _ _ Ho Hk Ht Hentry Hobj Hx) as (Hin & Hlt & (m & Hm & Hme) & Hoth).
    split; [done|]. intros c [Hc|Hc]%elem_of_app.
    - destruct (Hset _ Hc) as (set & j & n & Hs & Hj & Hn & _ & Hcn & _).
      assert (j ≠ i) as Hji.
      { intros ->. pose proof (byEmailOf_inj _ _ _ _ Hi Hj) as ->. apply (Hdis _ Hs). set_solver. }
      unfold apart, before, inside in *. destruct (Hoth _ _ Hn Hji); lia.
    - destruct (Hins _ Hc) as [? Hge]. pose proof (Hge _ Hm). unfold apart, before, inside in *. lia. }
  unfold edits. split.
  - apply all_apart_app; [|apply all_apart_app|].
    + destruct (planRemovals_one _ _ _ _ Hr Hrem) as [->|(? & ? & ? & _ & _ & _ & ->)]; [done|by split].
    + by eapply planSets_apart.
    + destruct ins as [|e [|? ?]]; simpl in *; [done|by split|lia].
    + intros a b Ha Hb. destruct (Hset _ Ha) as (_ & _ & n & _ & _ & _ & Hn & Hia & _).
      destruct (Hins _ Hb) as [? Hge]. pose proof (Hge _ Hn). unfold apart, before, inside in *. lia.
    + intros a b Ha Hb. by apply (Hrm a).
  - rewrite !Forall_app, !Forall_forall. split_and!.
    + intros e He. by apply Hrm.
    + intros e He. by destruct (Hset _ He) as (_ & _ & _ & _ & _ & _ & _ & _ & ?).
    + intros e He. by apply Hins.
Qed.

Section WithRuntime.
Context `{GoRuntime}.

Lemma planInbound_inv doc plan inbound edits :
  planInbound doc plan inbound = Ok edits →
  edits = [] ∨
  ∃ tag settings, get inbound "settings" = Some settings ∧ n_kind settings = KObject ∧
    ((get settings "clients" = None ∧
      ∃ add ins, planClientsInsert doc settings add = Ok ins ∧ edits = opt_list ins) ∨
     (∃ clients removals ins, get settings "clients" = Some clients ∧ n_kind clients = KArray ∧
       planRemovals clients (byEmailOf clients) (default [] (pl_removes plan !! tag)) = Ok removals ∧
       (ins = None ∨ ∃ add, planClientsInsert doc settings add = Ok ins) ∧
       edits = removals ++
         (planSets clients (byEmailOf clients) (default [] (pl_sets plan !! tag))).1 ++ opt_list ins)).
Proof.
  unfold planInbound. destruct (n_kind inbound); try (intros [= <-]; by left).
  destruct (get inbound "tag") as [tag|]; [|intros [= <-]; by left].
  destruct (negb _); [intros [= <-]; by left|].
  case_bool_decide; [intros [= <-]; by left|]. destruct (negb _); [done|].
  destruct (get inbound "settings") as [settings|]; [|done].
  destruct (n_kind settings) eqn:Ek; try done. intros He. right. exists (n_value tag), settings.
  split_and!; [done..|]. destruct (get settings "clients") as [clients|] in He |- *.
  - right. destruct (n_kind clients) eqn:Eck; try done.
    destruct (planRemovals _ _ _) as [removals|] eqn:Er; [|done].
    exists clients, removals.
    destruct (planSets _ _ _) as [rewrites appends] in He |- *. cbn [fst]. revert He.
    case_bool_decide.
    + intros [= <-]. exists None. split_and!; [done..|by left|]. simpl. by rewrite app_nil_r.
    + destruct (planClientsInsert _ _ _) as [ins|] eqn:Ei; [|done]. intros [= <-].
      exists ins. split_and!; [done..|right; eauto|done].
  - left. split; [done|]. destruct (planClientsInsert _ _ _) as [ins|] eqn:Ei; [|done].
    injection He as <-. eauto.
Qed.

Lemma planInbound_apart doc plan inbound edits :
  node_ok doc inbound → one_removal plan → plain_inbound inbound →
  planInbound doc plan inbound = Ok edits →
  all_apart edits ∧ Forall (inside (n_start inbound) (n_end inbound)) edits.
Proof.
  intros Ho (Hone & Hsets & Hdis) Hplain
    [->|(tag & settings & Hg & Hk & [(Hnone & add & ins & Hins & ->)|Harr])]%planInbound_inv; [done|..];
    destruct (get_ok _ _ _ _ Ho Hg) as (Hso & ? & ?).
  - destruct ins as [e|]; [|done]. simpl. split; [done|]. apply Forall_singleton.
    destruct (planClientsInsert_inside _ _ _ _ Hso Hk Hins) as (_ & ? & _).
    eapply inside_mono; [| |done]; lia.
  - destruct Harr as (clients & removals & ins & Hc & Hck & Hrem & Hins & ->).
    destruct (get_ok _ _ _ _ Hso Hc) as (Hco & ? & ?).
    destruct (array_edits_apart doc clients (default [] (pl_removes plan !! tag))
      (default [] (pl_sets plan !! tag)) removals (opt_list ins)) as [Ha Hf]; try done.
    + by eapply Hplain.
    + destruct (pl_removes plan !! tag) eqn:E; simpl; [by eapply Hone|lia].
    + destruct (pl_sets plan !! tag) eqn:E; simpl; [by eapply Hsets|constructor].
    + destruct (pl_removes plan !! tag) eqn:E, (pl_sets plan !! tag) eqn:E'; simpl;
        intros op Hop; try (by apply not_elem_of_nil in Hop); [|apply not_elem_of_nil].
      by eapply Hdis.
    + intros e He. destruct Hins as [->|[add Hins]]; [by apply not_elem_of_nil in He|].
      destruct ins as [x|]; [|by apply not_elem_of_nil in He].
      apply list_elem_of_singleton in He as ->.
      destruct (planClientsInsert_inside _ _ _ _ Hso Hk Hins) as (_ & _ & Hx).
      destruct (Hx _ Hc) as [? Hend]. split; [done|]. apply Hend. by eapply Hplain.
    + destruct ins; simpl; lia.
    + split; [done|]. eapply Forall_impl; [exact Hf|]. intros e He.
      eapply inside_mono; [| |exact He]; lia.
Qed.

(** Without removals and rewrites an inbound has at most an insertion. *)
Lemma planInbound_additive doc plan inbound edits :
  node_ok doc inbound → pl_removes plan = ∅ → pl_sets plan = ∅ →
  planInbound doc plan inbound = Ok edits →
  length edits ≤ 1 ∧ Forall (λ e, te_at e = te_end e) edits ∧
  all_apart edits ∧ Forall (inside (n_start inbound) (n_end inbound)) edits.
Proof.
  intros Ho Hr Hs Hp.
  assert (edits = [] ∨ ∃ settings add ins, get inbound "settings" = Some settings ∧
    n_kind settings = KObject ∧ planClientsInsert doc settings add = Ok ins ∧ edits = opt_list ins)
    as [->|(settings & add & ins & Hg & Hk & Hins & ->)]; [|by simpl; auto|].
  { apply planInbound_inv in Hp as [->|(tag & settings & Hg & Hk & [(_ & add & ins & Hins & ->)|Harr])];
      [by left|right; eauto 10|].
    destruct Harr as (clients & removals & ins & _ & _ & Hrem & Hins & ->).
    rewrite Hr, Hs, !lookup_empty in *. simpl in *. injection Hrem as <-.
    destruct Hins as [->|[add Hins]]; [by left|right; eauto 10]. }
  destruct (get_ok _ _ _ _ Ho Hg) as (Hso & ? & ?).
  destruct ins as [e|]; simpl; [|by auto].
  destruct (planClientsInsert_inside _ _ _ _ Hso Hk Hins) as (? & ? & _).
  rewrite !Forall_singleton. split_and!; [lia|done..|]. eapply inside_mono; [| |done]; lia.
Qed.

(** Edits inside their inbounds are apart across inbounds. *)
Lemma planInbounds_apart doc plan lo inbounds hi edits :
  items_ok doc (lo + 1) inbounds (hi - 1) →
  (∀ inbound es, inbound ∈ inbounds → planInbound doc plan inbound = Ok es →
     all_apart es ∧ Forall (inside (n_start inbound) (n_end inbound)) es) →
  planInbounds doc plan inbounds = Ok edits →
  all_apart edits ∧ Forall (inside lo hi) edits.
Proof.
  intros Hi Hone. assert (∀ m, lo + 1 ≤ m → items_ok doc m inbounds (hi - 1) →
    planInbounds doc plan inbounds = Ok edits →
    all_apart edits ∧ Forall (inside lo hi) edits ∧ Forall (λ e, m ≤ te_at e) edits) as Hgen;
    [|intros Hp; by destruct (Hgen (lo + 1) (le_n _) Hi Hp) as (? & ? & _)].
  clear Hi. revert edits. induction inbounds as [|inbound inbounds IH]; intros edits m Hm Ho; simpl.
  { by intros [= <-]. }
  inversion Ho as [|? ? ? ? Hlo Hx Hxs]; subst. pose proof (node_ok_start _ _ Hx).
  destruct (planInbound doc plan inbound) as [es|] eqn:Ep; [|done].
  destruct (planInbounds doc plan inbounds) as [rest|] eqn:Er; [|done]. intros [= <-].
  destruct (Hone inbound es ltac:(set_solver) Ep) as [Ha Hf].
  destruct (IH ltac:(set_solver) rest (n_end inbound) ltac:(lia) Hxs eq_refl) as (Har & Hfr & Hge).
  destruct (items_ok_in _ _ _ _ inbound Ho ltac:(set_solver)) as (_ & ? & ?).
  rewrite Forall_forall in *. split_and!.
  - apply all_apart_app; [done..|]. intros a b Ha' Hb'. pose proof (Hf _ Ha'). pose proof (Hge _ Hb').
    unfold inside, apart, before in *. simpl in *. lia.
  - intros e [He|He]%elem_of_app; [|by apply Hfr].
    pose proof (Hf _ He). unfold inside in *. lia.
  - apply Forall_forall. intros e [He|He]%elem_of_app.
    + pose proof (Hf _ He). unfold inside in *. lia.
    + pose proof (Hge _ He). simpl in *. lia.
Qed.

(** ** A render, from its scan *)

Lemma parse_fuel_enough fuel doc r :
  parseJSONC fuel doc = Some r → parseJSONC (parse_fuel doc) doc = Some r.
Proof.
  unfold parseJSONC. destruct (value fuel doc 0) as [v|] eqn:Ev; [|done].
  apply enough_fuel, (value_more _ (parse_fuel doc)) in Ev; [by rewrite Ev|].
  unfold value_fuel, parse_fuel. lia.
Qed.

Lemma planInbounds_count doc plan inbounds edits k :
  (∀ inbound es, inbound ∈ inbounds → planInbound doc plan inbound = Ok es →
     length es ≤ k ∧ Forall (λ e, te_at e = te_end e) es) →
  planInbounds doc plan inbounds = Ok edits →
  length edits ≤ k * length inbounds ∧ Forall (λ e, te_at e = te_end e) edits.
Proof.
  revert edits. induction inbounds as [|inbound inbounds IH]; intros edits Hone; simpl.
  { intros [= <-]. simpl. split; [lia|done]. }
  destruct (planInbound doc plan inbound) as [es|] eqn:Ep; [|done].
  destruct (planInbounds doc plan inbounds) as [rest|] eqn:Er; [|done]. intros [= <-].
  destruct (Hone inbound es ltac:(by left) Ep).
  destruct (IH rest ltac:(intros; apply Hone with inbound0; [by right|done]) eq_refl).
  rewrite length_app, Forall_app. split; [lia|done].
Qed.

(** The edits of a plan whose inbounds are each well behaved. *)
Lemma render_edits `{DescSort sort_edits} doc plan root inbounds edits :
  parseJSONC (parse_fuel doc) doc = Some (Ok root) → get root "inbounds" = Some inbounds →
  n_kind inbounds = KArray → planInbounds doc plan (n_items inbounds) = Ok edits →
  (∀ inbound es, inbound ∈ n_items inbounds → node_ok doc inbound →
     planInbound doc plan inbound = Ok es →
     all_apart es ∧ Forall (inside (n_start inbound) (n_end inbound)) es) →
  let sorted := rev (sort_edits edits) in
  sorted ≡ₚ edits ∧ disjoint_from (n_start inbounds + 1) sorted (n_end inbounds - 1) ∧
  n_start inbounds < n_end inbounds ≤ length doc ∧
  apply_edits doc (sort_edits edits) = Some (splice doc 0 sorted).
Proof.
  intros Hp Hg Hk Hplan Hone sorted. apply parse_ok in Hp.
  destruct (get_ok _ _ _ _ Hp Hg) as (Ho & _ & _). pose proof (node_ok_start _ _ Ho).
  pose proof (container_items _ _ Ho (or_intror Hk)) as [Hi ?].
  destruct (planInbounds_apart doc plan (n_start inbounds) _ (n_end inbounds) edits Hi) as [Ha Hf];
    [|done|].
  { intros inbound es Hin Hpl. apply (Hone inbound); [done| |done].
    by destruct (items_ok_in _ _ _ _ _ Hi Hin). }
  destruct (sorted_edits_splice doc _ _ _ Ha Hf) as (? & ? & ?); [lia|]. split_and!; try done; lia.
Qed.

(** The array a render edits, and where its scan came from. *)
Definition scanned_inbounds (doc : document) (inbounds : node) : Prop :=
  ∃ root, parseJSONC (parse_fuel doc) doc = Some (Ok root) ∧
          get root "inbounds" = Some inbounds ∧ n_kind inbounds = KArray.

Lemma render_inv sort_edits doc plan :
  (∃ e, RenderClients sort_edits doc plan = RenderFailed e) ∨
  RenderClients sort_edits doc plan = Diverges ∨
  RenderClients sort_edits doc plan = Rendered doc false ∨
  (∃ inbounds, scanned_inbounds doc inbounds ∧
     ((planInbounds doc plan (n_items inbounds) = Err IndexOutOfRange ∧
       RenderClients sort_edits doc plan = Panics) ∨
      ∃ edits, planInbounds doc plan (n_items inbounds) = Ok edits ∧ edits ≠ [] ∧
        RenderClients sort_edits doc plan =
          match apply_edits doc (sort_edits edits) with
          | Some rendered => Rendered rendered true | None => Panics end)).
Proof.
  unfold RenderClients. destruct (plan_empty plan); [auto|].
  destruct (parseJSONC _ doc) as [[root|e]|] eqn:Ep; [|eauto|auto].
  destruct (get root "inbounds") as [inbounds|] eqn:Eg; [|eauto].
  destruct (n_kind inbounds) eqn:Ek; [eauto| |eauto..].
  assert (scanned_inbounds doc inbounds) as Hs by (by exists root).
  destruct (planInbounds doc plan (n_items inbounds)) as [[|e edits]|e] eqn:El; [auto| |].
  - right; right; right. exists inbounds. split; [done|]. right. exists (e :: edits). done.
  - destruct e; [eauto..|]. right; right; right. exists inbounds. auto.
Qed.

Lemma splice_inserts_sublist doc from inserts len :
  Forall (λ e, te_at e = te_end e) inserts → disjoint_from from inserts len →
  drop from doc `sublist_of` splice doc from inserts.
Proof.
  revert from. induction inserts as [|e inserts IH]; intros from; simpl; [done|].
  intros [He Hf]%Forall_cons (Hle & _ & Hd). rewrite <-He in *.
  replace (drop from doc) with (slice doc from (te_at e) ++ drop (te_at e) doc).
  - apply sublist_app; [done|]. apply sublist_inserts_l. by apply IH.
  - unfold slice. replace (drop (te_at e) doc) with (drop (te_at e - from) (drop from doc)).
    + apply take_drop.
    + rewrite drop_drop. f_equal. lia.
Qed.

Lemma planClientsInsert_err doc settings add e :
  planClientsInsert doc settings add = Err e → e = ClientsNotArray.
Proof.
  unfold planClientsInsert. destruct (get settings "clients") as [clients|]; [|done].
  destruct (n_kind clients); try (by intros [= <-]). by case_bool_decide.
Qed.

(** Only a removal can index past an array's separators. *)
Lemma planInbound_no_index_error doc plan inbound :
  pl_removes plan = ∅ → planInbound doc plan inbound ≠ Err IndexOutOfRange.
Proof.
  intros Hr. unfold planInbound. rewrite Hr.
  repeat (rewrite ?lookup_empty; simpl; case_match; try done); intros [= ->];
    match goal with H : planClientsInsert _ _ _ = Err _ |- _ =>
      by apply planClientsInsert_err in H end.
Qed.

Lemma planInbounds_no_index_error doc plan inbounds :
  pl_removes plan = ∅ → planInbounds doc plan inbounds ≠ Err IndexOutOfRange.
Proof.
  intros Hr. induction inbounds as [|inbound inbounds IH]; simpl; [done|].
  pose proof (planInbound_no_index_error doc plan inbound Hr).
  destruct (planInbound doc plan inbound); [|done].
  by destruct (planInbounds doc plan inbounds).
Qed.

(** C14: a plan that only adds clients renders to the document with text
    inserted, at most one insertion per inbound, strictly inside the
    inbounds array: no byte of the document is lost or moved relative to
    the others, and the render never indexes out of range. *)
Theorem additive_render_only_inserts `{DescSort sort_edits} doc plan :
  pl_removes plan = ∅ → pl_sets plan = ∅ →
  RenderClients sort_edits doc plan ≠ Panics ∧
  ∀ rendered, RenderClients sort_edits doc plan = Rendered rendered true →
    ∃ inbounds inserts, scanned_inbounds doc inbounds ∧
      length inserts ≤ length (n_items inbounds) ∧
      Forall (λ e, te_at e = te_end e) inserts ∧
      disjoint_from (n_start inbounds + 1) inserts (n_end inbounds - 1) ∧
      rendered = splice doc 0 inserts ∧
      doc `sublist_of` rendered.
Proof.
  intros Hr Hs.
  destruct (render_inv sort_edits doc plan) as [[e ->]|[->|[->|(inbounds & Hsc & Hcase)]]]; [done..|].
  destruct Hcase as [[Hi _]|(edits & Hpl & _ & ->)]; [by apply planInbounds_no_index_error in Hi|].
  pose proof Hsc as (root & Hp & Hg & Hk).
  destruct (render_edits doc plan root inbounds edits Hp Hg Hk Hpl) as (Hperm & Hd & Hb & ->).
  { intros inbound es _ Ho Hes. by destruct (planInbound_additive _ _ _ _ Ho Hr Hs Hes) as (_ & _ & ?). }
  split; [done|]. intros rendered [= <-].
  assert (length edits ≤ length (n_items inbounds) ∧ Forall (λ e, te_at e = te_end e) edits) as [Hc Hf].
  { rewrite <-(Nat.mul_1_l (length (n_items inbounds))). eapply planInbounds_count; [|exact Hpl].
    intros inbound es Hin Hes. apply parse_ok in Hp. destruct (get_ok _ _ _ _ Hp Hg) as (Ho & _).
    destruct (child_ok _ _ _ Ho Hin) as (Hio & _).
    by destruct (planInbound_additive _ _ _ _ Hio Hr Hs Hes) as (? & ? & _). }
  rewrite <-(Permutation_length Hperm) in Hc. rewrite <-Hperm in Hf.
  exists inbounds, (rev (sort_edits edits)). split_and!; [done..|].
  rewrite <-(drop_0 doc) at 1. eapply splice_inserts_sublist; [done|].
  eapply disjoint_from_mono; [|exact Hd]. lia.
Qed.

(** A plan of one removal per inbound, no email set twice or both set
    and removed, over inbounds whose clients arrays end without a trailing
    comma, renders in place: the planned edits do not overlap, applying
    them one after the other replaces all their spans at once, and every
    byte up to the inbounds array's bracket and from its closing bracket on
    is kept. *)
Theorem one_removal_renders_in_place `{DescSort sort_edits} doc plan rendered :
  one_removal plan →
  (∀ inbounds, scanned_inbounds doc inbounds → Forall plain_inbound (n_items inbounds)) →
  RenderClients sort_edits doc plan = Rendered rendered true →
  ∃ inbounds edits, scanned_inbounds doc inbounds ∧
    planInbounds doc plan (n_items inbounds) = Ok edits ∧
    let sorted := rev (sort_edits edits) in
    disjoint_from (n_start inbounds + 1) sorted (n_end inbounds - 1) ∧
    rendered = splice doc 0 sorted ∧
    ∃ middle, rendered = take (n_start inbounds + 1) doc ++ middle ++ drop (n_end inbounds - 1) doc.
Proof.
  intros Hone Hplain.
  destruct (render_inv sort_edits doc plan) as [[e ->]|[->|[->|(inbounds & Hsc & Hcase)]]]; [done..|].
  destruct Hcase as [[_ ->]|(edits & Hpl & _ & ->)]; [done|].
  pose proof Hsc as (root & Hp & Hg & Hk). specialize (Hplain _ Hsc). rewrite Forall_forall in Hplain.
  destruct (render_edits doc plan root inbounds edits Hp Hg Hk Hpl) as (Hperm & Hd & Hb & ->).
  { intros inbound es Hin Ho Hes. by eapply planInbound_apart; [| |apply Hplain|]. }
  intros [= <-]. exists inbounds, edits. cbv zeta. split_and!; [done..|].
  eapply splice_outside; [exact Hd|lia].
Qed.

(** What a plan asks of an inbound already holds there. *)
Definition satisfied (plan : RenderPlan) (inbound : node) : Prop :=
  ∀ tag, get inbound "tag" = Some tag → n_kind tag = KString →
    ∃ protocol settings clients,
      get inbound "protocol" = Some protocol ∧ equal_fold (n_value protocol) "vless" = true ∧
      get inbound "settings" = Some settings ∧ n_kind settings = KObject ∧
      get settings "clients" = Some clients ∧ n_kind clients = KArray ∧
      (∀ op, op ∈ default [] (pl_adds plan !! n_value tag) →
         is_Some (byEmailOf clients !! co_email op)) ∧
      (∀ email, email ∈ default [] (pl_removes plan !! n_value tag) →
         byEmailOf clients !! email = None) ∧
      (∀ op, op ∈ default [] (pl_sets plan !! n_value tag) →
         ∃ entry key, byEmailOf clients !! co_email op ≫= (λ i, n_items clients !! i) = Some entry ∧
           get entry "id" = Some key ∧ n_kind key = KString ∧ n_value key = co_id op).

Lemma planRemovals_absent clients byEmail removes :
  (∀ email, email ∈ removes → byEmail !! email = None) → planRemovals clients byEmail removes = Ok [].
Proof.
  induction removes as [|email removes IH]; simpl; [done|]. intros Hr.
  rewrite (Hr email) by (by left). apply IH. intros e ?. apply Hr. by right.
Qed.

Lemma planSets_held clients byEmail sets :
  (∀ op, op ∈ sets → ∃ entry key, byEmail !! co_email op ≫= (λ i, n_items clients !! i) = Some entry ∧
     get entry "id" = Some key ∧ n_kind key = KString ∧ n_value key = co_id op) →
  planSets clients byEmail sets = ([], []).
Proof.
  unfold planSets. fold (set_step clients byEmail).
  induction sets as [|op sets IH] using rev_ind; [done|]. intros Hs.
  rewrite foldl_app, IH by (intros; apply Hs; set_solver). simpl.
  destruct (Hs op ltac:(set_solver)) as (entry & key & -> & Hg & Hk & Hv). simpl.
  unfold planIDSet. rewrite Hg, bool_decide_eq_true_2, Hv, String.eqb_refl by done. done.
Qed.

Lemma dropEmails_present byEmail ops :
  (∀ op, op ∈ ops → is_Some (byEmail !! co_email op)) → dropEmails ops (emailsOf byEmail) = [].
Proof.
  intros Hp. unfold dropEmails. induction ops as [|op ops IH]; [done|].
  rewrite filter_cons. destruct (decide _) as [Hn|_]; [|apply IH; intros; apply Hp; by right].
  destruct Hn. destruct (Hp op ltac:(by left)) as [i Hi].
  unfold emailsOf. apply list_elem_of_fmap. exists (co_email op, i). split; [done|].
  by apply elem_of_map_to_list.
Qed.

Lemma planInbound_satisfied doc plan inbound :
  satisfied plan inbound → planInbound doc plan inbound = Ok [].
Proof.
  intros Hs. unfold planInbound. destruct (n_kind inbound); try done.
  destruct (get inbound "tag") as [tag|] eqn:Et; [|done].
  case_bool_decide as Hk; simpl; [|done].
  destruct (Hs tag Et Hk) as (protocol & settings & clients & -> & Hv & -> & Hsk & Hc & Hck & Ha & Hr & Hst).
  case_bool_decide; [done|]. rewrite Hv, Hsk, Hc, Hck. simpl.
  rewrite planRemovals_absent, planSets_held, app_nil_r by done.
  case_bool_decide; [done|]. rewrite dropEmails_present by done.
  unfold planClientsInsert. by rewrite Hc, Hck.
Qed.

(** A plan the document already satisfies writes nothing: where every
    named inbound carries the added emails, none of the removed, and each
    set email with its id, the render returns the document itself,
    unchanged. *)
Theorem satisfied_plan_writes_nothing sort_edits doc plan inbounds :
  scanned_inbounds doc inbounds → Forall (satisfied plan) (n_items inbounds) →
  RenderClients sort_edits doc plan = Rendered doc false.
Proof.
  intros (root & Hp & Hg & Hk) Hs. unfold RenderClients. destruct (plan_empty plan); [done|].
  rewrite Hp, Hg, Hk. assert (planInbounds doc plan (n_items inbounds) = Ok []) as ->; [|done].
  induction Hs as [|inbound inbounds' Hi _ IH]; simpl; [done|].
  by rewrite planInbound_satisfied, IH.
Qed.

(** The scan's fuel is enough: a scan that returns with any fuel
    returns the same with the render's, so a render reported as diverging
    is one whose scan never returns. *)
Theorem scan_fuel_enough doc :
  (∀ fuel r, parseJSONC fuel doc = Some r → parseJSONC (parse_fuel doc) doc = Some r) ∧
  (∀ sort_edits plan, RenderClients sort_edits doc plan = Diverges →
     ∀ fuel, parseJSONC fuel doc = None).
Proof.
  split; [intros fuel r; apply parse_fuel_enough|]. intros sort_edits plan Hd fuel.
  destruct (parseJSONC fuel doc) as [r|] eqn:E; [|done]. apply parse_fuel_enough in E.
  unfold RenderClients in Hd. rewrite E in Hd. repeat case_match; congruence.
Qed.

End WithRuntime.

End RenderTheorems.
