(* ===== verification/JsonText.v ===== *)
(** * JSON texts, and what the scanner makes of them

    A grammar of JSON with comments and trailing commas; and the scan of
    every text of it. *)

From Stdlib Require Import Ascii String.
From S2P Require Import Prelude GoJson GoText Render RenderProps RenderTheorems.

Module JsonText.
Import GoJson GoText Render RenderProps RenderTheorems.

(** ** Text at a position *)

Lemma drop_cons (doc : document) pos c l :
  drop pos doc = c :: l → doc !! pos = Some c ∧ drop (pos + 1) doc = l.
Proof.
  intros Hd. split.
  - rewrite <-(Nat.add_0_r pos), <-lookup_drop, Hd. done.
  - rewrite <-drop_drop, Hd. done.
Qed.

Lemma drop_step (doc : document) pos l X : drop pos doc = l ++ X → drop (pos + length l) doc = X.
Proof. intros Hd. by rewrite <-drop_drop, Hd, drop_app_length. Qed.

Lemma drop_length_ge (doc : document) pos l X : drop pos doc = l ++ X → length l ≤ length doc - pos.
Proof. intros Hd. rewrite <-length_drop, Hd, length_app. lia. Qed.

(** A block comment's body holds no closing mark. *)
Definition no_close (body : list Z) : Prop :=
  ∀ i, ¬ ((body ++ [b_star]) !! i = Some b_star ∧ (body ++ [b_star]) !! S i = Some b_slash).

(** Blanks and comments between tokens. *)
Inductive gap : list Z → Prop :=
| GapNil : gap []
| GapBlank c l : is_blank c = true → gap l → gap (c :: l)
| GapLine body l : b_lf ∉ body → gap (b_lf :: l) → gap (b_slash :: b_slash :: body ++ b_lf :: l)
| GapBlock body l : no_close body → gap l →
    gap (b_slash :: b_star :: body ++ b_star :: b_slash :: l).

Lemma to_newline_body body l : b_lf ∉ body → to_newline (body ++ b_lf :: l) = length body.
Proof.
  induction body as [|c body IH]; simpl; [done|]. intros [Hc Hb]%not_elem_of_cons.
  replace (c =? b_lf)%Z with false by (symmetry; apply Z.eqb_neq; congruence). by rewrite IH.
Qed.

Lemma to_comment_end_body body l :
  no_close body → to_comment_end (body ++ b_star :: b_slash :: l) = length body.
Proof.
  induction body as [|c body IH]; [done|]. intros Hn.
  assert (no_close body) as Hn' by (intros i; apply (Hn (S i))).
  specialize (IH Hn'). destruct body as [|d body].
  - simpl. rewrite andb_comm. cbn. done.
  - cbn [app to_comment_end length] in *.
    destruct ((c =? b_star) && (d =? b_slash))%Z eqn:E.
    + apply andb_prop in E as [->%Z.eqb_eq ->%Z.eqb_eq]. by destruct (Hn 0).
    + f_equal. exact IH.
Qed.

Lemma gap_blank_loop g doc pos X fuel :
  gap g → drop pos doc = g ++ X → blank_stop doc (pos + length g) = true →
  length doc - pos ≤ fuel → blank_loop fuel doc pos = pos + length g.
Proof.
  intros Hg. revert pos fuel. induction Hg as [|c l Hc Hg IH|body l Hb Hg IH|body l Hb Hg IH];
    intros pos fuel Hd Hs Hf; simpl in Hs |- *.
  - rewrite Nat.add_0_r in *. by apply blank_loop_fixed.
  - destruct (drop_cons _ _ _ _ Hd) as [Hl Hd']. pose proof (lookup_lt_Some _ _ _ Hl).
    destruct fuel as [|fuel]; [lia|]. simpl. rewrite Hl, Hc.
    rewrite (IH (pos + 1)); [lia|done| |lia]. by replace (pos + 1 + length l) with (pos + S (length l)) by lia.
  - cbn [app] in Hd. rewrite <-app_assoc in Hd. cbn [app] in Hd.
    destruct (drop_cons _ _ _ _ Hd) as [Hl Hd']. destruct (drop_cons _ _ _ _ Hd') as [Hl' Hd''].
    pose proof (lookup_lt_Some _ _ _ Hl'). destruct fuel as [|fuel]; [lia|].
    cbn [blank_loop]. rewrite Hl. cbn [is_blank]. unfold at_byte at 1. rewrite Hl'. cbn.
    replace (pos + 1 + 1) with (pos + 2) in Hd'' by lia.
    rewrite Hd'', (to_newline_body body) by done.
    rewrite length_app in *. simpl in *.
    rewrite (IH (pos + 2 + length body)); [lia| | |lia].
    + rewrite <-drop_drop, Hd''. apply drop_app_length.
    + by replace (pos + 2 + length body + S (length l)) with (pos + S (S (length body + S (length l)))) by lia.
  - cbn [app] in Hd. rewrite <-app_assoc in Hd. cbn [app] in Hd.
    destruct (drop_cons _ _ _ _ Hd) as [Hl Hd']. destruct (drop_cons _ _ _ _ Hd') as [Hl' Hd''].
    pose proof (lookup_lt_Some _ _ _ Hl'). destruct fuel as [|fuel]; [lia|].
    cbn [blank_loop]. rewrite Hl. cbn [is_blank]. unfold at_byte. rewrite Hl'. cbn.
    replace (pos + 1 + 1) with (pos + 2) in Hd'' by lia.
    rewrite Hd'', (to_comment_end_body body) by done.
    rewrite length_app in *. simpl in *.
    rewrite (IH (pos + 2 + length body + 2)); [lia| | |lia].
    + rewrite <-drop_drop, <-drop_drop, Hd'', drop_app_length. done.
    + by replace (pos + 2 + length body + 2 + length l)
        with (pos + S (S (length body + S (S (length l))))) by lia.
Qed.

(** A byte that is no blank and starts no comment. *)
Definition solid (c : Z) : Prop := is_blank c = false ∧ c ≠ b_slash.

Lemma solid_stop doc pos c l : drop pos doc = c :: l → solid c → blank_stop doc pos = true.
Proof.
  intros [Hl _]%drop_cons [Hb Hs]. unfold blank_stop. rewrite Hl, Hb.
  by replace (c =? b_slash)%Z with false by (symmetry; by apply Z.eqb_neq).
Qed.

Lemma blank_gap g doc pos c X :
  gap g → drop pos doc = g ++ c :: X → solid c → blank doc pos = pos + length g.
Proof.
  intros Hg Hd Hc. apply (gap_blank_loop _ _ _ (c :: X)); [done..| |lia].
  eapply solid_stop; [|done]. by apply drop_step in Hd.
Qed.

(** Where a literal ends. *)
Definition ends (doc : document) (pos : nat) : Prop :=
  ∀ c, doc !! pos = Some c → literal_stop doc pos c = true.

Definition closer (c : Z) : Prop := c = b_comma ∨ c = b_rbrace ∨ c = b_rbracket ∨ c = b_colon.

Lemma closer_solid c : closer c → solid c.
Proof. by intros [->|[->|[->| ->]]]. Qed.

Lemma gap_ends g doc pos c X :
  gap g → drop pos doc = g ++ c :: X → closer c → ends doc pos.
Proof.
  intros Hg Hd Hc b. destruct Hg as [|d l Hb _|body l _ _|body l _ _]; simpl in Hd.
  - destruct (drop_cons _ _ _ _ Hd) as [-> _]. intros [= <-]. unfold literal_stop.
    destruct Hc as [->|[->|[->| ->]]]; by rewrite ?orb_true_r.
  - destruct (drop_cons _ _ _ _ Hd) as [-> _]. intros [= <-]. unfold literal_stop. by rewrite Hb.
  - destruct (drop_cons _ _ _ _ Hd) as [-> _]. intros [= <-].
    unfold literal_stop, at_byte. destruct (drop_cons _ _ _ _ Hd) as [_ [-> _]%drop_cons]. done.
  - destruct (drop_cons _ _ _ _ Hd) as [-> _]. intros [= <-].
    unfold literal_stop, at_byte. destruct (drop_cons _ _ _ _ Hd) as [_ [-> _]%drop_cons]. done.
Qed.

(** ** The grammar *)

(** What a document says: literals are not told apart. *)
Inductive tree :=
| TObject (fields : list (string * tree))
| TArray (items : list tree)
| TString (s : string)
| TLiteral.

Fixpoint tree_of (n : node) : tree :=
  match n with
  | Node KObject _ _ _ keys _ items _ _ => TObject (zip keys (map tree_of items))
  | Node KArray _ _ _ _ _ items _ _ => TArray (map tree_of items)
  | Node KString _ _ v _ _ _ _ _ => TString v
  | Node KLiteral _ _ _ _ _ _ _ _ => TLiteral
  end.

Definition string_lit (lit : list Z) (s : string) : Prop :=
  ∃ body, lit = b_quote :: body ++ [b_quote] ∧ string_body body ∧ unquote (of_bytes lit) = Some s.

(** A byte of a number, a boolean or a null. *)
Definition plain (c : Z) : Prop := solid c ∧ ¬ closer c.

(** A value's text: whitespace, comments and trailing commas as JSONC has
    them, members and elements kept apart by commas. *)
Inductive text : list Z → tree → Prop :=
| TxString lit s : string_lit lit s → text lit (TString s)
| TxLiteral c l : plain c → c ≠ b_lbrace → c ≠ b_lbracket → c ≠ b_quote →
    Forall plain l → text (c :: l) TLiteral
| TxObject g l fields : gap g → members l fields →
    text (b_lbrace :: g ++ l ++ [b_rbrace]) (TObject fields)
| TxArray g l items : gap g → elements l items →
    text (b_lbracket :: g ++ l ++ [b_rbracket]) (TArray items)
with members : list Z → list (string * tree) → Prop :=
| MNil : members [] []
| MLast k key g1 g2 v t g3 :
    string_lit k key → gap g1 → gap g2 → text v t → gap g3 →
    members (k ++ g1 ++ b_colon :: g2 ++ v ++ g3) [(key, t)]
| MCons k key g1 g2 v t g3 g4 l fields :
    string_lit k key → gap g1 → gap g2 → text v t → gap g3 → gap g4 → members l fields →
    members (k ++ g1 ++ b_colon :: g2 ++ v ++ g3 ++ b_comma :: g4 ++ l) ((key, t) :: fields)
with elements : list Z → list tree → Prop :=
| ENil : elements [] []
| ELast v t g : text v t → gap g → elements (v ++ g) [t]
| ECons v t g1 g2 l items : text v t → gap g1 → gap g2 → elements l items →
    elements (v ++ g1 ++ b_comma :: g2 ++ l) (t :: items).

Scheme text_mind := Induction for text Sort Prop
with members_mind := Induction for members Sort Prop
with elements_mind := Induction for elements Sort Prop.
Combined Scheme text_mutind from text_mind, members_mind, elements_mind.

(** The first byte of a value. *)
Definition starts (l : list Z) : Prop := ∃ c l', l = c :: l' ∧ solid c ∧ c ≠ b_rbracket.

Lemma text_head l t : text l t → starts l.
Proof.
  destruct 1 as [lit s (body & -> & _)|c l [Hc Hn] _ _ _ _|g l fields _ _|g l items _ _];
    eexists _, _; (split; [done|]); [done| |done..].
  split; [done|]. unfold closer in Hn. tauto.
Qed.

Lemma members_head l fields : members l fields → ∃ c l', l ++ [b_rbrace] = c :: l' ∧ solid c.
Proof.
  destruct 1 as [|k key g1 g2 v t g3 (body & -> & _) _ _ _ _|k key g1 g2 v t g3 g4 l fs (body & -> & _)];
    by eexists _, _.
Qed.

Lemma elements_head l items : elements l items → ∃ c l', l ++ [b_rbracket] = c :: l' ∧ solid c.
Proof.
  destruct 1 as [|v t g (c & v' & -> & Hc & _)%text_head _|v t g1 g2 l items (c & v' & -> & Hc & _)%text_head];
    [by eexists _, _|eexists _, _; split; [done|done]..].
Qed.

(** ** Scanning a text *)

Lemma str_loop_body body doc pos X fuel :
  string_body body → drop pos doc = body ++ b_quote :: X → length body < fuel →
  str_loop fuel doc pos = Some (pos + length body + 1).
Proof.
  intros Hb. revert pos fuel. induction Hb as [|b l Hq Hs Hb IH|b l Hb IH]; intros pos fuel Hd Hf;
    (destruct fuel as [|fuel]; [simpl in *; lia|]); cbn [app length] in *; simpl str_loop.
  - destruct (drop_cons _ _ _ _ Hd) as [-> _]. simpl. f_equal. lia.
  - destruct (drop_cons _ _ _ _ Hd) as [-> Hd'].
    replace (b =? b_backslash)%Z with false by (symmetry; by apply Z.eqb_neq).
    replace (b =? b_quote)%Z with false by (symmetry; by apply Z.eqb_neq).
    rewrite (IH (pos + 1)); [f_equal; lia|done|lia].
  - destruct (drop_cons _ _ _ _ Hd) as [-> Hd']. destruct (drop_cons _ _ _ _ Hd') as [_ Hd''].
    simpl. rewrite (IH (pos + 2)); [f_equal; lia| |lia].
    by replace (pos + 2) with (pos + 1 + 1) by lia.
Qed.

Lemma str_text doc pos lit s X :
  string_lit lit s → drop pos doc = lit ++ X →
  str doc pos = Ok (leaf KString pos (pos + length lit) s, pos + length lit).
Proof.
  intros (body & -> & Hb & Hu) Hd. unfold str.
  pose proof (drop_length_ge _ _ _ _ Hd) as Hlen. cbn [length] in Hlen. rewrite length_app in Hlen.
  destruct (drop_cons doc pos b_quote (body ++ b_quote :: X)) as [_ Hd'].
  { rewrite Hd. cbn [app]. by rewrite <-app_assoc. }
  rewrite (str_loop_body body _ _ X) by (done || simpl in *; lia).
  assert (pos + 1 + length body + 1 = pos + length (b_quote :: body ++ [b_quote])) as ->.
  { cbn [length]. rewrite length_app. simpl. lia. }
  unfold slice. rewrite Hd. replace (pos + _ - pos) with (length (b_quote :: body ++ [b_quote])) by lia.
  by rewrite take_app_length, Hu.
Qed.

Lemma literal_loop_text l doc pos fuel :
  Forall plain l → (∃ X, drop pos doc = l ++ X) → ends doc (pos + length l) → length l ≤ fuel →
  literal_loop fuel doc pos = pos + length l.
Proof.
  intros Hl. revert pos fuel. induction Hl as [|c l [[Hb Hs] Hc] _ IH]; intros pos fuel [X Hd] He Hf.
  - simpl in *. rewrite Nat.add_0_r in *. destruct fuel as [|fuel]; [done|]. simpl.
    destruct (doc !! pos) as [d|] eqn:Ed; [|done]. by rewrite (He _ Ed).
  - destruct fuel as [|fuel]; [simpl in *; lia|]. destruct (drop_cons _ _ _ _ Hd) as [Hl Hd'].
    cbn [literal_loop length] in *. rewrite Hl.
    assert (literal_stop doc pos c = false) as ->.
    { unfold literal_stop, closer in *. rewrite Hb.
      replace (c =? b_slash)%Z with false by (symmetry; by apply Z.eqb_neq).
      simpl. rewrite orb_false_r, !orb_false_iff, !Z.eqb_neq. tauto. }
    rewrite (IH (pos + 1)); [lia|by exists X| |lia].
    by replace (pos + 1 + length l) with (pos + S (length l)) by lia.
Qed.

Lemma literal_text c l doc pos X :
  plain c → Forall plain l → drop pos doc = (c :: l) ++ X → ends doc (pos + length (c :: l)) →
  literal doc pos = (leaf KLiteral pos (pos + length (c :: l)) "", pos + length (c :: l)).
Proof.
  intros Hc Hl Hd He. unfold literal. pose proof (drop_length_ge _ _ _ _ Hd).
  rewrite (literal_loop_text (c :: l)); [done|by constructor|by exists X|done|lia].
Qed.

(** A value's scan, for some fuel. *)
Definition scans (doc : document) (pos len : nat) (t : tree) : Prop :=
  ∃ fuel n, value fuel doc pos = Some (Ok (n, pos + len)) ∧ tree_of n = t.

Lemma value_blank fuel doc pos : value fuel doc (blank doc pos) = value fuel doc pos.
Proof. destruct fuel; [done|]. cbn [value]. by rewrite blank_idem. Qed.

Ltac lens := (cbn [length app] in *; repeat (rewrite length_app in *; cbn [length] in *); lia).

Lemma at_byte_drop doc pos c l d : drop pos doc = c :: l → at_byte doc pos d = (c =? d)%Z.
Proof. intros [Hl _]%drop_cons. unfold at_byte. by rewrite Hl. Qed.

(** One member of the object loop. *)
Lemma member_scan fuel doc start pos g k key g1 g2 v item ks ps its tr X :
  gap g → string_lit k key → gap g1 → gap g2 → starts v →
  drop pos doc = g ++ k ++ g1 ++ b_colon :: g2 ++ v ++ X →
  let pv := pos + length g + length k + length g1 + 1 + length g2 in
  value fuel doc pv = Some (Ok (item, pv + length v)) →
  let p2 := blank doc (pv + length v) in
  let comma := at_byte doc p2 b_comma in
  let p3 := if comma then blank doc (p2 + 1) else p2 in
  object_loop (S fuel) doc start pos ks ps its tr =
  object_loop fuel doc start p3 (ks ++ [key]) (ps ++ [pos + length g]) (its ++ [item])
    (tr || (comma && at_byte doc p3 b_rbrace)).
Proof.
  intros Hg Hk Hg1 Hg2 Hv Hd pv Hval p2 comma p3.
  assert (∃ k', k = b_quote :: k') as [k' Ek] by (destruct Hk as (body & -> & _); eauto).
  assert (blank doc pos = pos + length g) as Hb.
  { rewrite Ek in Hd. by eapply blank_gap. }
  pose proof (drop_step _ _ _ _ Hd) as Hd1.
  pose proof (str_text _ _ _ _ _ Hk Hd1) as Hstr.
  pose proof (drop_step _ _ _ _ Hd1) as Hd2.
  assert (blank doc (pos + length g + length k) = pos + length g + length k + length g1) as Hb1
    by (by eapply blank_gap).
  pose proof (drop_step _ _ _ _ Hd2) as Hd3. destruct (drop_cons _ _ _ _ Hd3) as [_ Hd4].
  assert (blank doc (pos + length g + length k + length g1 + 1) = pv) as Hb2.
  { destruct Hv as (c & v' & -> & Hc & _). by eapply blank_gap. }
  cbn [object_loop]. rewrite Hb. rewrite Ek in Hd1. destruct (drop_cons _ _ _ _ Hd1) as [Hq _].
  rewrite Hq. cbn [Z.eqb b_quote b_rbrace Pos.eqb]. rewrite Hstr.
  rewrite Hb1, (at_byte_drop _ _ _ _ b_colon Hd3). cbn [Z.eqb b_colon Pos.eqb negb].
  rewrite <-(value_blank fuel), Hb2, Hval. done.
Qed.

(** One element of the array loop. *)
Lemma element_scan fuel doc start pos g v item its cs tr X :
  gap g → starts v → drop pos doc = g ++ v ++ X →
  let pv := pos + length g in
  value fuel doc pv = Some (Ok (item, pv + length v)) →
  let p2 := blank doc (pv + length v) in
  let comma := at_byte doc p2 b_comma in
  let p3 := if comma then blank doc (p2 + 1) else p2 in
  array_loop (S fuel) doc start pos its cs tr =
  array_loop fuel doc start p3 (its ++ [item]) (if comma then cs ++ [p2] else cs)
    (tr || (comma && at_byte doc p3 b_rbracket)).
Proof.
  intros Hg Hv Hd pv Hval p2 comma p3.
  destruct Hv as (c & v' & Ev & Hc & Hne).
  assert (blank doc pos = pos + length g) as Hb.
  { rewrite Ev in Hd. by eapply blank_gap. }
  pose proof (drop_step _ _ _ _ Hd) as Hd1. rewrite Ev in Hd1. destruct (drop_cons _ _ _ _ Hd1) as [Hl _].
  cbn [array_loop]. rewrite Hb, Hl.
  replace (c =? b_rbracket)%Z with false by (symmetry; by apply Z.eqb_neq).
  fold pv. rewrite Hval. done.
Qed.

(** What follows a value's text: a gap, then a closer. *)
Lemma after_value doc pos g c X :
  gap g → closer c → drop pos doc = g ++ c :: X →
  ends doc pos ∧ blank doc pos = pos + length g ∧ at_byte doc (pos + length g) b_comma = (c =? b_comma)%Z.
Proof.
  intros Hg Hc Hd. split_and!; [by eapply gap_ends|eapply blank_gap; eauto using closer_solid|].
  eapply at_byte_drop. by apply drop_step in Hd.
Qed.

Lemma zip_snoc {A B} (l : list A) (k : list B) x y :
  length l = length k → zip (l ++ [x]) (k ++ [y]) = zip l k ++ [(x, y)].
Proof. intros. by rewrite zip_with_app. Qed.

(** What the scan makes of a text, wherever it stands. *)
Definition text_scans (l : list Z) (t : tree) : Prop :=
  ∀ doc pos X, drop pos doc = l ++ X → ends doc (pos + length l) → scans doc pos (length l) t.

Definition members_scan (l : list Z) (fs : list (string * tree)) : Prop :=
  ∀ doc start pos g ks ps its tr X,
    gap g → drop pos doc = g ++ l ++ b_rbrace :: X → length ks = length its →
    ∃ fuel n, object_loop fuel doc start pos ks ps its tr =
                Some (Ok (n, pos + length g + length l + 1)) ∧
              tree_of n = TObject (zip ks (map tree_of its) ++ fs).

Definition elements_scan (l : list Z) (ts : list tree) : Prop :=
  ∀ doc start pos g its cs tr X,
    gap g → drop pos doc = g ++ l ++ b_rbracket :: X →
    ∃ fuel n, array_loop fuel doc start pos its cs tr =
                Some (Ok (n, pos + length g + length l + 1)) ∧
              tree_of n = TArray (map tree_of its ++ ts).

Lemma scan_string lit s : string_lit lit s → text_scans lit (TString s).
Proof.
  intros Hlit doc pos X Hd _. pose proof (str_text _ _ _ _ _ Hlit Hd) as Hs.
  exists 1, (leaf KString pos (pos + length lit) s). split; [|done]. cbn [value].
  destruct Hlit as (body & -> & _).
  assert (blank doc pos = pos) as -> by (apply blank_loop_fixed; by eapply solid_stop).
  destruct (drop_cons _ _ _ _ Hd) as [-> _]. simpl. by rewrite Hs.
Qed.

Lemma scan_literal c l :
  plain c → c ≠ b_lbrace → c ≠ b_lbracket → c ≠ b_quote → Forall plain l →
  text_scans (c :: l) TLiteral.
Proof.
  intros Hc H1 H2 H3 Hl doc pos X Hd He.
  pose proof (literal_text c l doc pos X Hc Hl Hd He) as Hlit.
  exists 1, (leaf KLiteral pos (pos + length (c :: l)) ""). split; [|done]. cbn [value].
  assert (blank doc pos = pos) as -> by (apply blank_loop_fixed; eapply solid_stop; [done|apply Hc]).
  destruct (drop_cons _ _ _ _ Hd) as [-> _].
  replace (c =? b_lbrace)%Z with false by (symmetry; by apply Z.eqb_neq).
  replace (c =? b_lbracket)%Z with false by (symmetry; by apply Z.eqb_neq).
  replace (c =? b_quote)%Z with false by (symmetry; by apply Z.eqb_neq).
  by rewrite Hlit.
Qed.

Lemma scan_object g l fields :
  gap g → members_scan l fields → text_scans (b_lbrace :: g ++ l ++ [b_rbrace]) (TObject fields).
Proof.
  intros Hg IH doc pos X Hd _.
  destruct (drop_cons doc pos b_lbrace (g ++ l ++ b_rbrace :: X)) as [Hl Hd'].
  { rewrite Hd. cbn [app]. by rewrite <-!app_assoc. }
  destruct (IH doc pos (pos + 1) g [] [] [] false X Hg Hd' eq_refl) as (fuel & n & Hr & Hn).
  exists (S fuel), n. split; [|done]. cbn [value].
  assert (blank doc pos = pos) as -> by (apply blank_loop_fixed; by eapply solid_stop).
  rewrite Hl. simpl. rewrite Hr. do 3 f_equal. lens.
Qed.

Lemma scan_array g l items :
  gap g → elements_scan l items → text_scans (b_lbracket :: g ++ l ++ [b_rbracket]) (TArray items).
Proof.
  intros Hg IH doc pos X Hd _.
  destruct (drop_cons doc pos b_lbracket (g ++ l ++ b_rbracket :: X)) as [Hl Hd'].
  { rewrite Hd. cbn [app]. by rewrite <-!app_assoc. }
  destruct (IH doc pos (pos + 1) g [] [] false X Hg Hd') as (fuel & n & Hr & Hn).
  exists (S fuel), n. split; [|done]. cbn [value].
  assert (blank doc pos = pos) as -> by (apply blank_loop_fixed; by eapply solid_stop).
  rewrite Hl. simpl. rewrite Hr. do 3 f_equal. lens.
Qed.

Lemma members_scan_nil : members_scan [] [].
Proof.
  intros doc start pos g ks ps its tr X Hg Hd Hlen. cbn [app] in Hd.
  exists 1. cbn [object_loop].
  assert (blank doc pos = pos + length g) as -> by (by eapply blank_gap).
  apply drop_step in Hd. destruct (drop_cons _ _ _ _ Hd) as [-> _]. simpl.
  eexists. split; [do 3 f_equal; lia|]. simpl. by rewrite app_nil_r.
Qed.

(** A member, and the rest of the object from where the loop resumes. *)
Lemma member_then doc start pos g k key g1 g2 v t ks ps its tr X l fs Y :
  gap g → string_lit k key → gap g1 → gap g2 → text v t → text_scans v t →
  drop pos doc = g ++ k ++ g1 ++ b_colon :: g2 ++ v ++ X →
  let pv := pos + length g + length k + length g1 + 1 + length g2 in
  let p2 := blank doc (pv + length v) in
  let p3 := if at_byte doc p2 b_comma then blank doc (p2 + 1) else p2 in
  ends doc (pv + length v) → members_scan l fs → drop p3 doc = l ++ b_rbrace :: Y →
  length ks = length its →
  ∃ fuel n, object_loop fuel doc start pos ks ps its tr = Some (Ok (n, p3 + length l + 1)) ∧
            tree_of n = TObject (zip ks (map tree_of its) ++ (key, t) :: fs).
Proof.
  intros Hg Hk Hg1 Hg2 Hv IH Hd pv p2 p3 He Hrest Hd3 Hlen.
  assert (drop pv doc = v ++ X) as Hdv.
  { unfold pv. do 3 apply drop_step in Hd. destruct (drop_cons _ _ _ _ Hd) as [_ Hd'].
    by apply drop_step in Hd'. }
  destruct (IH doc pv _ Hdv He) as (f & item & Hval & Hitem).
  destruct (Hrest doc start p3 [] (ks ++ [key]) (ps ++ [pos + length g]) (its ++ [item])
              (tr || (at_byte doc p2 b_comma && at_byte doc p3 b_rbrace)) Y)
    as (f2 & n & Hr & Hn); [constructor|done|by rewrite !length_app, Hlen|].
  exists (S (f + f2)), n. split.
  - rewrite (member_scan _ _ _ _ _ _ _ _ _ _ _ _ _ _ _ _ Hg Hk Hg1 Hg2 (text_head _ _ Hv) Hd (value_more f (f + f2) _ _ _ (Nat.le_add_r f f2) Hval)).
    cbn [length] in Hr. rewrite Nat.add_0_r in Hr. apply (object_more f2); [lia|exact Hr].
  - rewrite Hn, map_app, <-Hitem. simpl. rewrite zip_snoc by (by rewrite length_map).
    by rewrite <-app_assoc.
Qed.

Lemma members_scan_last k key g1 g2 v t g3 :
  string_lit k key → gap g1 → gap g2 → text v t → text_scans v t → gap g3 →
  members_scan (k ++ g1 ++ b_colon :: g2 ++ v ++ g3) [(key, t)].
Proof.
  intros Hk Hg1 Hg2 Hv IH Hg3 doc start pos g ks ps its tr X Hg Hd Hlen.
  repeat (rewrite <-!app_assoc in Hd; cbn [app] in Hd).
  set (pv := pos + length g + length k + length g1 + 1 + length g2).
  assert (drop (pv + length v) doc = g3 ++ b_rbrace :: X) as Hdv.
  { unfold pv. do 3 apply drop_step in Hd. destruct (drop_cons _ _ _ _ Hd) as [_ Hd'].
    by do 2 apply drop_step in Hd'. }
  destruct (after_value _ _ _ b_rbrace _ Hg3 ltac:(unfold closer; auto) Hdv) as (He & Hb & Hc).
  destruct (member_then doc start pos g k key g1 g2 v t ks ps its tr _ [] [] X
    Hg Hk Hg1 Hg2 Hv IH Hd He members_scan_nil) as (f & n & Hr & Hn); [|done|].
  { fold pv. rewrite Hb, Hc. by apply drop_step in Hdv. }
  exists f, n. split; [|done]. rewrite Hr. fold pv. rewrite Hb, Hc. cbn [Z.eqb b_rbrace b_comma Pos.eqb].
  do 3 f_equal. unfold pv. lens.
Qed.

Lemma members_scan_cons k key g1 g2 v t g3 g4 l fs :
  string_lit k key → gap g1 → gap g2 → text v t → text_scans v t → gap g3 → gap g4 →
  members l fs → members_scan l fs →
  members_scan (k ++ g1 ++ b_colon :: g2 ++ v ++ g3 ++ b_comma :: g4 ++ l) ((key, t) :: fs).
Proof.
  intros Hk Hg1 Hg2 Hv IH Hg3 Hg4 Hm IHm doc start pos g ks ps its tr X Hg Hd Hlen.
  repeat (rewrite <-!app_assoc in Hd; cbn [app] in Hd).
  set (pv := pos + length g + length k + length g1 + 1 + length g2).
  assert (drop (pv + length v) doc = g3 ++ b_comma :: g4 ++ l ++ b_rbrace :: X) as Hdv.
  { unfold pv. do 3 apply drop_step in Hd. destruct (drop_cons _ _ _ _ Hd) as [_ Hd'].
    by do 2 apply drop_step in Hd'. }
  destruct (after_value _ _ _ b_comma _ Hg3 ltac:(unfold closer; auto) Hdv) as (He & Hb & Hc).
  apply drop_step in Hdv. destruct (drop_cons _ _ _ _ Hdv) as [_ Hd4].
  assert (blank doc (pv + length v + length g3 + 1) = pv + length v + length g3 + 1 + length g4) as Hb4.
  { destruct (members_head _ _ Hm) as (c & l' & El & Hcs). apply (blank_gap _ _ _ c (l' ++ X)); [done| |done].
    rewrite Hd4, app_comm_cons, <-El. by rewrite <-app_assoc. }
  apply drop_step in Hd4.
  destruct (member_then doc start pos g k key g1 g2 v t ks ps its tr _ l fs X
    Hg Hk Hg1 Hg2 Hv IH Hd He IHm) as (f & n & Hr & Hn); [|done|].
  { fold pv. rewrite Hb, Hc. cbn [Z.eqb b_comma Pos.eqb]. by rewrite Hb4. }
  exists f, n. split; [|done]. rewrite Hr. fold pv. rewrite Hb, Hc. cbn [Z.eqb b_comma Pos.eqb].
  rewrite Hb4. do 3 f_equal. unfold pv. lens.
Qed.

Lemma elements_scan_nil : elements_scan [] [].
Proof.
  intros doc start pos g its cs tr X Hg Hd. cbn [app] in Hd.
  exists 1. cbn [array_loop].
  assert (blank doc pos = pos + length g) as -> by (by eapply blank_gap).
  apply drop_step in Hd. destruct (drop_cons _ _ _ _ Hd) as [-> _]. simpl.
  eexists. split; [do 3 f_equal; lia|]. simpl. by rewrite app_nil_r.
Qed.

(** An element, and the rest of the array from where the loop resumes. *)
Lemma element_then doc start pos g v t its cs tr X l ts Y :
  gap g → text v t → text_scans v t → drop pos doc = g ++ v ++ X →
  let pv := pos + length g in
  let p2 := blank doc (pv + length v) in
  let p3 := if at_byte doc p2 b_comma then blank doc (p2 + 1) else p2 in
  ends doc (pv + length v) → elements_scan l ts → drop p3 doc = l ++ b_rbracket :: Y →
  ∃ fuel n, array_loop fuel doc start pos its cs tr = Some (Ok (n, p3 + length l + 1)) ∧
            tree_of n = TArray (map tree_of its ++ t :: ts).
Proof.
  intros Hg Hv IH Hd pv p2 p3 He Hrest Hd3.
  assert (drop pv doc = v ++ X) as Hdv by (by apply drop_step in Hd).
  destruct (IH doc pv _ Hdv He) as (f & item & Hval & Hitem).
  destruct (Hrest doc start p3 [] (its ++ [item]) (if at_byte doc p2 b_comma then cs ++ [p2] else cs)
              (tr || (at_byte doc p2 b_comma && at_byte doc p3 b_rbracket)) Y)
    as (f2 & n & Hr & Hn); [constructor|done|].
  exists (S (f + f2)), n. split.
  - rewrite (element_scan _ _ _ _ _ _ _ _ _ _ _ Hg (text_head _ _ Hv) Hd (value_more f (f + f2) _ _ _ (Nat.le_add_r f f2) Hval)).
    cbn [length] in Hr. rewrite Nat.add_0_r in Hr. apply (array_more f2); [lia|exact Hr].
  - rewrite Hn, map_app, <-Hitem. simpl. by rewrite <-app_assoc.
Qed.

Lemma elements_scan_last v t g1 :
  text v t → text_scans v t → gap g1 → elements_scan (v ++ g1) [t].
Proof.
  intros Hv IH Hg1 doc start pos g its cs tr X Hg Hd.
  repeat (rewrite <-!app_assoc in Hd; cbn [app] in Hd).
  pose proof Hd as Hdv. do 2 apply drop_step in Hdv.
  destruct (after_value _ _ _ b_rbracket _ Hg1 ltac:(unfold closer; auto) Hdv) as (He & Hb & Hc).
  destruct (element_then doc start pos g v t its cs tr _ [] [] X Hg Hv IH Hd He elements_scan_nil)
    as (f & n & Hr & Hn).
  { rewrite Hb, Hc. by apply drop_step in Hdv. }
  exists f, n. split; [|done]. rewrite Hr, Hb, Hc. cbn [Z.eqb b_rbracket b_comma Pos.eqb].
  do 3 f_equal. lens.
Qed.

Lemma elements_scan_cons v t g1 g2 l ts :
  text v t → text_scans v t → gap g1 → gap g2 → elements l ts → elements_scan l ts →
  elements_scan (v ++ g1 ++ b_comma :: g2 ++ l) (t :: ts).
Proof.
  intros Hv IH Hg1 Hg2 Hm IHm doc start pos g its cs tr X Hg Hd.
  repeat (rewrite <-!app_assoc in Hd; cbn [app] in Hd).
  pose proof Hd as Hdv. do 2 apply drop_step in Hdv.
  destruct (after_value _ _ _ b_comma _ Hg1 ltac:(unfold closer; auto) Hdv) as (He & Hb & Hc).
  apply drop_step in Hdv. destruct (drop_cons _ _ _ _ Hdv) as [_ Hd4].
  assert (blank doc (pos + length g + length v + length g1 + 1) =
          pos + length g + length v + length g1 + 1 + length g2) as Hb4.
  { destruct (elements_head _ _ Hm) as (c & l' & El & Hcs). apply (blank_gap _ _ _ c (l' ++ X)); [done| |done].
    rewrite Hd4, app_comm_cons, <-El. by rewrite <-app_assoc. }
  apply drop_step in Hd4.
  destruct (element_then doc start pos g v t its cs tr _ l ts X Hg Hv IH Hd He IHm) as (f & n & Hr & Hn).
  { rewrite Hb, Hc. cbn [Z.eqb b_comma Pos.eqb]. by rewrite Hb4. }
  exists f, n. split; [|done]. rewrite Hr, Hb, Hc. cbn [Z.eqb b_comma Pos.eqb].
  rewrite Hb4. do 3 f_equal. lens.
Qed.

Lemma text_scan_all l t : text l t → text_scans l t.
Proof.
  revert l t. apply (text_mutind (λ l t _, text_scans l t) (λ l fs _, members_scan l fs)
    (λ l ts _, elements_scan l ts)); intros.
  - by apply scan_string.
  - by apply scan_literal.
  - by apply scan_object.
  - by apply scan_array.
  - apply members_scan_nil.
  - by apply members_scan_last.
  - by apply members_scan_cons.
  - apply elements_scan_nil.
  - by apply elements_scan_last.
  - by apply elements_scan_cons.
Qed.

(** ** Whole documents *)

Lemma gap_ends_eof g doc pos : gap g → drop pos doc = g → ends doc pos.
Proof.
  intros Hg Hd b Hb. destruct Hg as [|c l Hc _|body l _ _|body l _ _].
  - apply lookup_lt_Some in Hb. apply (f_equal length) in Hd. rewrite length_drop in Hd. simpl in Hd. lia.
  - destruct (drop_cons _ _ _ _ Hd) as [E _]. unfold literal_stop. simplify_eq. by rewrite Hc.
  - destruct (drop_cons _ _ _ _ Hd) as [E [E' _]%drop_cons]. simplify_eq.
    unfold literal_stop, at_byte. by rewrite E'.
  - destruct (drop_cons _ _ _ _ Hd) as [E [E' _]%drop_cons]. simplify_eq.
    unfold literal_stop, at_byte. by rewrite E'.
Qed.

Lemma gap_blank_eof g doc pos : gap g → drop pos doc = g → pos + length g = length doc → blank doc pos = length doc.
Proof.
  intros Hg Hd Hl. rewrite <-Hl. apply (gap_blank_loop _ _ _ []); [done|by rewrite app_nil_r| |lia].
  unfold blank_stop. by rewrite Hl, lookup_ge_None_2.
Qed.

Lemma document_scans g1 l t g2 :
  gap g1 → text l t → gap g2 →
  let doc := g1 ++ l ++ g2 in
  ∃ fuel root, parseJSONC fuel doc = Some (Ok root) ∧ tree_of root = t.
Proof.
  intros Hg1 Ht Hg2 doc.
  assert (drop (length g1) doc = l ++ g2) as Hd by apply drop_app_length.
  pose proof (drop_step _ _ _ _ Hd) as Hd2.
  destruct (text_scan_all _ _ Ht doc (length g1) g2 Hd) as (fuel & n & Hv & Hn).
  { by eapply gap_ends_eof. }
  exists fuel, n. split; [|done]. unfold parseJSONC. rewrite <-value_blank.
  assert (blank doc 0 = length g1) as ->.
  { destruct (text_head _ _ Ht) as (c & l' & El & Hc & _).
    apply (blank_gap g1 doc 0 c (l' ++ g2)); [done| |done]. unfold doc. by rewrite El. }
  assert (length g1 + length l + length g2 = length doc) as Hl.
  { unfold doc. rewrite !length_app. lia. }
  rewrite Hv, (gap_blank_eof g2 doc _ Hg2 Hd2 Hl). by rewrite bool_decide_eq_true_2.
Qed.

(** ** What the renderer writes *)

Lemma bytes_of_app s t : bytes_of (s +:+ t) = bytes_of s ++ bytes_of t.
Proof. induction s as [|c s IH]; [done|]. simpl. by f_equal. Qed.

Lemma quote_lit s : utf8_valid s = true → string_lit (bytes_of (quote s)) s.
Proof.
  intros Hv. exists (quote_body s). split_and!; [by apply bytes_of_quote|by apply quote_body_ok|].
  rewrite of_bytes_bytes_of. by apply unquote_quote.
Qed.

Lemma plain_key key body :
  bytes_of (dq +:+ key +:+ dq) = b_quote :: body ++ [b_quote] →
  Forall (λ b, b ≠ b_quote ∧ b ≠ b_backslash) body →
  unquote (dq +:+ key +:+ dq) = Some key →
  string_lit (bytes_of (dq +:+ key +:+ dq)) key.
Proof.
  intros Hb Hf Hu. exists body. split_and!; [done|by apply string_body_chars|].
  by rewrite of_bytes_bytes_of.
Qed.

Lemma email_key : string_lit (bytes_of (dq +:+ "email" +:+ dq)) "email".
Proof.
  apply (plain_key _ (bytes_of "email")); [by vm_compute|by repeat constructor|by vm_compute].
Qed.

Lemma id_key : string_lit (bytes_of (dq +:+ "id" +:+ dq)) "id".
Proof. apply (plain_key _ (bytes_of "id")); [by vm_compute|by repeat constructor|by vm_compute]. Qed.

Lemma flow_key : string_lit (bytes_of (dq +:+ "flow" +:+ dq)) "flow".
Proof. apply (plain_key _ (bytes_of "flow")); [by vm_compute|by repeat constructor|by vm_compute]. Qed.

Definition entry_tree (op : ClientOp) : tree :=
  TObject ([("email"%string, TString (co_email op)); ("id"%string, TString (co_id op))] ++
           (if String.eqb (co_flow op) "" then [] else [("flow"%string, TString (co_flow op))])).

Definition op_valid (op : ClientOp) : Prop :=
  utf8_valid (co_email op) = true ∧ utf8_valid (co_id op) = true ∧ utf8_valid (co_flow op) = true.

Lemma gap_space l : gap l → gap (b_space :: l).
Proof. by apply GapBlank. Qed.

Lemma member_bytes key : bytes_of (member key) = bytes_of (dq +:+ key +:+ dq) ++ [b_colon; b_space].
Proof.
  unfold member. rewrite !bytes_of_app, <-!app_assoc. done.
Qed.

(** A text up to how its bytes are put together. *)
Ltac text_eq H :=
  refine (eq_ind _ (λ l, text l _) H _ _);
  rewrite ?bytes_of_app, ?member_bytes, ?bytes_of_app;
  repeat (rewrite <-?app_assoc; cbn [app]); rewrite ?app_nil_r.

Lemma entry_text op : op_valid op → text (bytes_of (renderEntry op)) (entry_tree op).
Proof.
  intros (He & Hi & Hf). unfold renderEntry, entry_tree.
  assert (∀ l fs, members l fs →
    text (b_lbrace :: l ++ [b_rbrace]) (TObject fs)) as Hobj.
  { intros l fs Hm. exact (TxObject [] l fs GapNil Hm). }
  assert (gap [b_space]) as Hsp by (apply gap_space, GapNil).
  pose proof (TxString _ _ (quote_lit _ He)) as Te. pose proof (TxString _ _ (quote_lit _ Hi)) as Ti.
  pose proof (TxString _ _ (quote_lit _ Hf)) as Tf.
  destruct (String.eqb (co_flow op) "").
  - pose proof (MLast _ _ [] [b_space] _ _ [] id_key GapNil Hsp Ti GapNil) as M2.
    pose proof (MCons _ _ [] [b_space] _ _ [] [b_space] _ _ email_key GapNil Hsp Te GapNil Hsp M2) as M1.
    apply Hobj in M1. by text_eq M1.
  - pose proof (MLast _ _ [] [b_space] _ _ [] flow_key GapNil Hsp Tf GapNil) as M3.
    pose proof (MCons _ _ [] [b_space] _ _ [] [b_space] _ _ id_key GapNil Hsp Ti GapNil Hsp M3) as M2.
    pose proof (MCons _ _ [] [b_space] _ _ [] [b_space] _ _ email_key GapNil Hsp Te GapNil Hsp M2) as M1.
    apply Hobj in M1. by text_eq M1.
Qed.

Lemma gap_blanks l : Forall (λ c, is_blank c = true) l → gap l.
Proof. induction 1; [apply GapNil|by apply GapBlank]. Qed.

Definition blank_indent (indent : string) : Prop := Forall (λ c, is_blank c = true) (bytes_of indent).

Lemma lineIndent_blank doc pos : blank_indent (lineIndent doc pos).
Proof.
  unfold blank_indent, lineIndent. set (l := drop _ doc).
  assert (Forall (λ c, is_byte c ∧ is_blank c = true) (indent_of l)) as Hi.
  { induction l as [|c l IH]; simpl; [done|].
    destruct ((c =? b_space) || (c =? b_tab))%Z eqn:E; [|done]. constructor; [|done].
    rewrite orb_true_iff, !Z.eqb_eq in E. by destruct E as [->| ->]. }
  rewrite bytes_of_of_bytes; (eapply Forall_impl; [exact Hi|]); by intros ? [? ?].
Qed.

(** Entries joined by a comma and a gap are an array's elements. *)
Lemma entries_elements sep g add :
  gap sep → Forall is_byte sep → gap g → Forall op_valid add → add ≠ [] →
  elements (bytes_of (join ("," +:+ of_bytes sep) (renderEntries add)) ++ g) (entry_tree <$> add).
Proof.
  intros Hs Hb Hg Hv Hne.
  induction Hv as [|op add Hop Hv IH]; [done|]. destruct add as [|op' add].
  - exact (ELast _ _ _ (entry_text _ Hop) Hg).
  - specialize (IH ltac:(done)).
    pose proof (ECons _ _ [] sep _ _ (entry_text _ Hop) GapNil Hs IH) as Hc.
    refine (eq_ind _ (λ l, elements l _) Hc _ _).
    change (join ("," +:+ of_bytes sep) (renderEntries (op :: op' :: add)))
      with (renderEntry op +:+ ("," +:+ of_bytes sep) +:+ join ("," +:+ of_bytes sep) (renderEntries (op' :: add))).
    rewrite !bytes_of_app, (bytes_of_of_bytes sep) by done.
    repeat (rewrite <-?app_assoc; cbn [app]). done.
Qed.

(** The array text written for a new clients key. *)
Lemma clients_value_text indent add :
  blank_indent indent → Forall op_valid add → add ≠ [] →
  text (bytes_of (renderClientsValue indent add)) (TArray (entry_tree <$> add)).
Proof.
  intros Hi Hv Hne. set (sep := b_lf :: bytes_of indent ++ [b_space; b_space]).
  assert (gap sep) as Hs.
  { apply GapBlank; [done|]. apply gap_blanks, Forall_app. split; [done|by repeat constructor]. }
  assert (gap (b_lf :: bytes_of indent)) as Hg by (apply GapBlank; [done|by apply gap_blanks]).
  assert (Forall is_byte sep) as Hb.
  { constructor; [done|]. apply Forall_app. split; [apply bytes_of_range|by repeat constructor]. }
  pose proof (entries_elements sep _ add Hs Hb Hg Hv Hne) as He.
  pose proof (TxArray _ _ _ Hs He) as Ht. text_eq Ht. unfold renderClientsValue.
  assert ("," +:+ nl +:+ indent +:+ "  " = "," +:+ of_bytes sep) as ->.
  { f_equal. rewrite <-(of_bytes_bytes_of (nl +:+ indent +:+ "  ")). f_equal.
    by rewrite !bytes_of_app. }
  rewrite !bytes_of_app. repeat (rewrite <-?app_assoc; cbn [app]).
  assert (∀ X, sep ++ X = bytes_of nl ++ bytes_of indent ++ bytes_of "  " ++ X) as ->; [|done].
  intros X. unfold sep. cbn [app]. by rewrite <-app_assoc.
Qed.

(** C11: every JSON text scans: a document that is one value, in JSON with
    comments and trailing commas, between gaps, is scanned within the
    render's fuel, and the nodes say what the text says, key by key and
    entry by entry. *)
Theorem json_text_scans g1 l t g2 :
  gap g1 → text l t → gap g2 →
  ∃ root, parseJSONC (parse_fuel (g1 ++ l ++ g2)) (g1 ++ l ++ g2) = Some (Ok root) ∧
          tree_of root = t.
Proof.
  intros Hg1 Ht Hg2. destruct (document_scans g1 l t g2 Hg1 Ht Hg2) as (fuel & root & Hp & Hr).
  exists root. split; [|done]. by apply parse_fuel_enough in Hp.
Qed.

(** What the renderer writes reads back: the clients value rendered
    for some clients, at any line's indentation, scans to an array of one
    object per client, in order, with its email, its id and, when it has
    one, its flow, escapes undone. *)
Theorem rendered_clients_read_back doc pos add :
  Forall op_valid add → add ≠ [] →
  let written := bytes_of (renderClientsValue (lineIndent doc pos) add) in
  ∃ root, parseJSONC (parse_fuel written) written = Some (Ok root) ∧
          tree_of root = TArray (entry_tree <$> add).
Proof.
  intros Hv Hne written.
  pose proof (clients_value_text _ _ (lineIndent_blank doc pos) Hv Hne) as Ht.
  destruct (document_scans [] _ _ [] GapNil Ht GapNil) as (fuel & root & Hp & Hr).
  rewrite app_nil_r in Hp. exists root. split; [|done]. by apply parse_fuel_enough in Hp.
Qed.

End JsonText.
