(* ===== verification/RenderExamples.v ===== *)
(** * The raw-span renderer at concrete documents

    The renderer's theorems applied, and the documents on which it goes
    wrong. A document is written with a single quote for JSON's double one. *)

From Stdlib Require Import Ascii String.
From stdpp Require Import sorting.
From S2P Require Import Prelude GoJson Render RenderProps RenderTheorems GoText JsonText.

Module RenderExamples.
Import GoJson Render RenderProps RenderTheorems GoText JsonText.
Local Open Scope string_scope.

#[local] Existing Instance AsciiRuntime.runtime.

Definition doc (s : string) : list Z :=
  (λ c, if (c =? 39)%Z then b_quote else c) <$> bytes_of s.

(** A stable sort with the comparison of the code. *)
Definition descending (a b : textEdit) : Prop := (te_at b ≤ te_at a)%nat.

#[local] Instance descending_dec : RelDecision descending.
Proof. intros a b. unfold descending. apply _. Defined.

#[local] Instance descending_total : Total descending.
Proof. intros a b. unfold descending. lia. Qed.

#[local] Instance descending_trans : Transitive descending.
Proof. intros a b c. unfold descending. lia. Qed.

Definition sort_edits : list textEdit → list textEdit := merge_sort descending.

#[local] Instance sort_edits_desc : DescSort sort_edits.
Proof.
  split; intros l; [apply merge_sort_Permutation|].
  apply (StronglySorted_merge_sort descending).
Qed.

Definition client (email id : string) : ClientOp := {| co_email := email; co_id := id; co_flow := "" |}.

Definition plan_of (adds : list ClientOp) (removes : list string) (sets : list ClientOp) : RenderPlan := {|
  pl_adds := if decide (adds = []) then ∅ else {["in" := adds]};
  pl_removes := if decide (removes = []) then ∅ else {["in" := removes]};
  pl_sets := if decide (sets = []) then ∅ else {["in" := sets]} |}.

Definition inbound_of (clients : string) : string :=
  "{'inbounds':[{'tag':'in','protocol':'vless','settings':{'clients':" +:+ clients +:+ "}}]}".

Definition show (o : outcome) : string :=
  match o with
  | Rendered d _ => of_bytes ((λ c, if (c =? b_quote)%Z then 39%Z else c) <$> d)
  | RenderFailed _ => "failed" | Panics => "panics" | Diverges => "diverges"
  end.

Definition render (clients : string) adds removes sets : string :=
  show (RenderClients sort_edits (doc (inbound_of clients)) (plan_of adds removes sets)).

(** ** Renders as they should be *)

Example append_inline :
  render "[{'email':'a','id':'1'}]" [client "b" "2"] [] [] =
  inbound_of "[{'email':'a','id':'1'}, {'email': 'b', 'id': '2'}]".
Proof. vm_compute. reflexivity. Qed.

Example remove_set_append :
  render "[{'email':'a','id':'1'}, {'email':'b','id':'1'}, {'email':'c','id':'1'}]"
    [client "d" "4"] ["a"] [client "c" "3"] =
  inbound_of "[{'email':'b','id':'1'}, {'email':'c','id':'3'}, {'email': 'd', 'id': '4'}]".
Proof. vm_compute. reflexivity. Qed.

(** ** The theorems applied *)

Definition sample : list Z := doc (inbound_of "[{'email':'a','id':'1'}, {'email':'b','id':'1'}]").
Definition adding : RenderPlan := plan_of [client "c" "2"] [] [].
Definition rotating : RenderPlan := plan_of [client "c" "2"] ["a"] [client "b" "9"].
Definition content : RenderPlan := plan_of [client "a" "7"] ["z"] [client "b" "1"].

Definition sample_inbounds : node :=
  match parseJSONC (parse_fuel sample) sample with
  | Some (Ok root) => default (leaf KLiteral 0 0 "") (get root "inbounds")
  | _ => leaf KLiteral 0 0 ""
  end.

Definition rendered_of (plan : RenderPlan) : list Z :=
  match RenderClients sort_edits sample plan with Rendered d _ => d | _ => [] end.

Lemma sample_scanned : scanned_inbounds sample sample_inbounds.
Proof.
  assert (∃ root, parseJSONC (parse_fuel sample) sample = Some (Ok root) ∧
            get root "inbounds" = Some sample_inbounds) as (root & ? & ?).
  { destruct (parseJSONC (parse_fuel sample) sample) as [[root|]|] eqn:E;
      [|vm_compute in E; discriminate..].
    exists root. split; [done|]. unfold sample_inbounds. rewrite E.
    vm_compute in E. injection E as <-. vm_compute. reflexivity. }
  exists root. split_and!; [done..|]. vm_compute. reflexivity.
Qed.

Lemma scan_fuel_enough_witness :
  (∀ fuel r, parseJSONC fuel sample = Some r → parseJSONC (parse_fuel sample) sample = Some r) ∧
  is_Some (parseJSONC (parse_fuel sample) sample).
Proof. split; [apply (scan_fuel_enough sample)|vm_compute; by eexists]. Defined.

Lemma json_text_scans_witness :
  ∃ root, parseJSONC (parse_fuel (doc " /* x */ [1,true,] ")) (doc " /* x */ [1,true,] ") = Some (Ok root) ∧
          tree_of root = TArray [TLiteral; TLiteral].
Proof.
  apply (json_text_scans (doc " /* x */ ") (doc "[1,true,]") (TArray [TLiteral; TLiteral]) (doc " ")).
  - apply GapBlank; [done|]. apply (GapBlock (doc " x ") (doc " ")).
    + intros [|[|[|[|i]]]] [? ?]; vm_compute in *; try discriminate.
    + apply GapBlank; [done|apply GapNil].
  - assert (∀ c, (c =? 44)%Z = false → (c =? 125)%Z = false → (c =? 93)%Z = false →
        (c =? 58)%Z = false → is_blank c = false → (c =? 47)%Z = false → plain c) as Hp.
    { unfold plain, solid, closer, b_comma, b_rbrace, b_rbracket, b_colon, b_slash.
      intros c ?%Z.eqb_neq ?%Z.eqb_neq ?%Z.eqb_neq ?%Z.eqb_neq ? ?%Z.eqb_neq. tauto. }
    assert (text (doc "1") TLiteral) as H1 by (apply TxLiteral; [by apply Hp|done..|constructor]).
    assert (text (doc "true") TLiteral) as H2.
    { apply TxLiteral; [by apply Hp|done..|]. repeat constructor; try done; apply Hp; done. }
    exact (TxArray [] _ _ GapNil (ECons _ _ [] [] _ _ H1 GapNil GapNil
             (ECons _ _ [] [] _ _ H2 GapNil GapNil ENil))).
  - apply GapBlank; [done|apply GapNil].
Defined.

Lemma rendered_clients_read_back_witness :
  ∃ root, parseJSONC (parse_fuel (bytes_of (renderClientsValue (lineIndent sample 9) [client "a\b" "2"])))
            (bytes_of (renderClientsValue (lineIndent sample 9) [client "a\b" "2"])) = Some (Ok root) ∧
          tree_of root = TArray (entry_tree <$> [client "a\b" "2"]).
Proof.
  apply (rendered_clients_read_back sample 9 [client "a\b" "2"]); [|done].
  repeat constructor.
Defined.

Lemma additive_render_only_inserts_witness :
  ∃ inbounds inserts, scanned_inbounds sample inbounds ∧
      (length inserts ≤ length (n_items inbounds))%nat ∧
      Forall (λ e, te_at e = te_end e) inserts ∧
      disjoint_from (n_start inbounds + 1) inserts (n_end inbounds - 1) ∧
      rendered_of adding = splice sample 0 inserts ∧ sample `sublist_of` rendered_of adding.
Proof.
  apply (additive_render_only_inserts (sort_edits := sort_edits) sample adding);
    [vm_compute; reflexivity..].
Defined.

Lemma one_removal_renders_in_place_witness :
  ∃ inbounds edits, scanned_inbounds sample inbounds ∧
    planInbounds sample rotating (n_items inbounds) = Ok edits ∧
    let sorted := rev (sort_edits edits) in
    disjoint_from (n_start inbounds + 1) sorted (n_end inbounds - 1) ∧
    rendered_of rotating = splice sample 0 sorted ∧
    ∃ middle, rendered_of rotating =
      (take (n_start inbounds + 1) sample ++ middle ++ drop (n_end inbounds - 1) sample)%list.
Proof.
  apply (one_removal_renders_in_place (sort_edits := sort_edits) sample rotating).
  - unfold one_removal, rotating, plan_of. simpl. split_and!.
    + intros tag removes. rewrite lookup_singleton_Some. intros [_ <-]. simpl. lia.
    + intros tag sets. rewrite lookup_singleton_Some. intros [_ <-]. apply NoDup_singleton.
    + intros tag removes sets op. rewrite !lookup_singleton_Some. intros [_ <-] [_ <-].
      intros ->%list_elem_of_singleton. simpl. intros Hin%list_elem_of_singleton. discriminate.
  - intros inbounds Hs. assert (inbounds = sample_inbounds) as ->.
    { destruct Hs as (root & Hp & Hg & _), sample_scanned as (root' & Hp' & Hg' & _). congruence. }
    vm_compute. constructor; [|constructor]. intros settings clients. vm_compute.
    intros [= <-] [= <-]. reflexivity.
  - vm_compute. reflexivity.
Defined.

Lemma satisfied_plan_writes_nothing_witness : RenderClients sort_edits sample content = Rendered sample false.
Proof.
  apply (satisfied_plan_writes_nothing sort_edits sample content sample_inbounds sample_scanned).
  vm_compute. constructor; [|constructor]. intros tag Ht _. vm_compute in Ht. injection Ht as <-.
  do 3 eexists. split_and!; try (vm_compute; reflexivity).
  - intros op ->%list_elem_of_singleton. by eexists.
  - intros email ->%list_elem_of_singleton. reflexivity.
  - intros op ->%list_elem_of_singleton. do 2 eexists. split_and!; vm_compute; reflexivity.
Defined.

(** ** Where the surgery goes wrong *)

(** Two removals that reach the array's end overlap, whatever the comment at
    the edits says: the document is cut short. *)
Lemma removing_the_last_two_corrupts :
  render "[{'email':'a','id':'1'}, {'email':'b','id':'1'}]" [] ["a"; "b"] [] =
  "{'inbounds':[{'tag':'in','protocol':'vless','settings':{'clients':[}]}".
Proof. vm_compute. reflexivity. Qed.

(** Swapping the only client leaves the append's separator behind. *)
Lemma swapping_the_only_client_corrupts :
  render "[{'email':'a','id':'1'}]" [client "b" "2"] ["a"] [] =
  inbound_of "[, {'email': 'b', 'id': '2'}]".
Proof. vm_compute. reflexivity. Qed.

(** After a trailing comma the code looks for the next comma byte, which a
    comment may hold. *)
Lemma comma_in_comment_takes_the_append :
  render "[{'email':'a','id':'1'} /* x, y */,]" [client "b" "2"] [] [] =
  inbound_of "[{'email':'a','id':'1'} /* x, {'email': 'b', 'id': '2'} y */,]".
Proof. vm_compute. reflexivity. Qed.

(** A multi-line array whose closing bracket shares the last entry's line:
    the append lands before that entry, without a separator. *)
Lemma bracket_on_entry_line_corrupts :
  render ("[" +:+ nl +:+ "{'email':'a','id':'1'}," +:+ nl +:+ "{'email':'b','id':'1'},]")
    [client "c" "2"] [] [] =
  inbound_of ("[" +:+ nl +:+ "{'email':'a','id':'1'}," +:+ nl +:+ "{'email': 'c', 'id': '2'}" +:+ nl +:+
              "{'email':'b','id':'1'},]").
Proof. vm_compute. reflexivity. Qed.

(** Entries without separators pass the scan; removing the last one indexes
    past them. *)
Lemma removal_without_separators_panics :
  render "[{'email':'a','id':'1'} {'email':'b','id':'1'}]" [] ["b"] [] = "panics".
Proof. vm_compute. reflexivity. Qed.

(** A plan that only removes, on an inbound without a clients key, writes
    an empty one. *)
Lemma removal_inserts_empty_clients :
  show (RenderClients sort_edits (doc "{'inbounds':[{'tag':'in','protocol':'vless','settings':{}}]}")
          (plan_of [] ["a"] [])) =
  "{'inbounds':[{'tag':'in','protocol':'vless','settings':{'clients': []}}]}".
Proof. vm_compute. reflexivity. Qed.

(** A colon where an array expects an element: the scan never returns. *)
Lemma colon_in_array_never_returns : ∀ fuel, parseJSONC fuel (doc "{'inbounds':['a':1]}") = None.
Proof.
  intros fuel. destruct (parseJSONC fuel _) as [r|] eqn:E; [|done].
  apply parse_fuel_enough in E. vm_compute in E. discriminate.
Qed.

End RenderExamples.
