(* ===== verification/Roster.v ===== *)
(** * The roster's write path (internal/roster/service.go)

    Mutations validate, write the store and queue a change; one apply pass
    renders the queued changes into the config file and pushes them to the
    running xray. The store, the renderer, the pusher and the purge notifier
    are interfaces; the SQLite store, the FileRenderer, the gRPC client and
    the collector implement them elsewhere. *)

From Stdlib Require Import String.
From S2P Require Import Prelude GoJson XrayConfig Store Handler Render.

Local Open Scope Z_scope.

Module Roster.
Import XrayConfig Store Handler Render.

(** ** Data *)

Inductive SyncState := Synced | Pending | Failed.
Inductive ApplyState := ApplyPending | ApplyFailed.

Inductive conflictReason :=
| ReasonEmailInvalid | ReasonEmailTaken | ReasonClientIDInvalid
| ReasonClientIDTaken | ReasonUnknownInbound.

Inductive mutationError :=
| ConflictError (reason : conflictReason)
| NotFoundError (email : string)
| StoreFailure (err : storeError).

Inductive opKind := opAttach | opDetach | opRotate.

#[export] Instance opKind_eq_dec : EqDecision opKind.
Proof. solve_decision. Defined.

(** [po_flow] is the attach-time flow, resolved when the op was planned. *)
Record pushOp := PushOp { po_kind : opKind; po_tag : string; po_flow : string }.

(** One stored-not-yet-applied mutation. *)
Record pendingChange := {
  pc_id : string; pc_ops : list pushOp; pc_gen : Z; pc_purge : bool;
}.

(** The zero value a missing map entry reads as. *)
Definition zeroChange : pendingChange :=
  {| pc_id := ""; pc_ops := []; pc_gen := 0; pc_purge := false |}.

Record Service := {
  sv_nextGen : Z;
  sv_pending : gmap string pendingChange;
  sv_failed : gset string;
  sv_settled : nat;          (* how often the settled channel was replaced *)
  sv_kick : bool;            (* the one-slot kick channel is full *)
  sv_lastApplyErr : string;
}.

Definition NewService : Service := {|
  sv_nextGen := 0; sv_pending := ∅; sv_failed := ∅; sv_settled := 0%nat;
  sv_kick := false; sv_lastApplyErr := "";
|}.

Definition set_queue (pending : gmap string pendingChange) (failed : gset string) (s : Service)
    : Service := {|
  sv_nextGen := sv_nextGen s; sv_pending := pending; sv_failed := failed;
  sv_settled := sv_settled s; sv_kick := sv_kick s; sv_lastApplyErr := sv_lastApplyErr s;
|}.

Definition set_lastApplyErr (e : string) (s : Service) : Service := {|
  sv_nextGen := sv_nextGen s; sv_pending := sv_pending s; sv_failed := sv_failed s;
  sv_settled := sv_settled s; sv_kick := sv_kick s; sv_lastApplyErr := e;
|}.

(** How a mutation answers: at once, or once the email's change settles. *)
Inductive syncAnswer := Answer (s : SyncState) | WaitFor (email : string).

Record MutationResult := { mr_user : RosterRecord; mr_sync : syncAnswer }.

Record InboundOption := { io_tag : string; io_label : string }.

(** [None] keeps the stored value; an empty set detaches every inbound. *)
Record EditRequest := { er_client_id : string; er_inbounds : option (list string) }.

(** ** Pure helpers *)

Definition detachOps (tags : list string) : list pushOp :=
  (λ tag, PushOp opDetach tag "") <$> tags.

Definition dedupeOrder (inbounds : list string) : list string :=
  (foldl (λ st tag, if bool_decide (tag ∈ st.1) then st else ({[tag]} ∪ st.1, st.2 ++ [tag]))
    (∅ : gset string, []) inbounds).2.

Definition joins (op : pushOp) : bool :=
  match po_kind op with opAttach | opRotate => true | opDetach => false end.

(** The edit's operations; [flows] maps the final tags to their flows. *)
Definition diffOps (before after : RosterRecord) (flows : gmap string string)
    (prev : pendingChange) : list pushOp :=
  let idChanged := negb (String.eqb (rec_client_id before) (rec_client_id after)) in
  let attached tag := bool_decide (tag ∈ rec_inbounds before) in
  let kept tag := bool_decide (tag ∈ rec_inbounds after) in
  let prevAttached tag :=
    existsb (λ op, joins op && String.eqb (po_tag op) tag) (pc_ops prev) in
  let flow tag := default "" (flows !! tag) in
  let leaves := detachOps (filter (λ tag, kept tag = false) (rec_inbounds before)) in
  let owed := detachOps (po_tag <$> filter
    (λ op, po_kind op = opDetach ∧ kept (po_tag op) = false) (pc_ops prev)) in
  let merge := negb (bool_decide (pc_ops prev = [])) in
  let stays := omap (λ tag,
    if (idChanged && attached tag) || prevAttached tag then Some (PushOp opRotate tag (flow tag))
    else if negb (attached tag) && negb (prevAttached tag)
    then Some (PushOp opAttach tag (flow tag))
    else if merge then Some (PushOp opAttach tag (flow tag))
    else None) (rec_inbounds after) in
  leaves ++ owed ++ stays.

Section WithRuntime.
Context `{GoRuntime}.

Definition findManaged (view : View) (tag : string) : option Inbound :=
  find_first (λ ib, String.eqb (ib_tag ib) tag && Managed ib) (v_inbounds view).

(** The attach op of a managed tag. *)
Definition attachOp (tag : string) (inbound : Inbound) : pushOp :=
  PushOp opAttach tag (DefaultFlow inbound).

(** [flows]: the last attach op of a tag gives its flow. *)
Definition attach_flows (ops : list pushOp) : gmap string string :=
  foldl (λ m op, match po_kind op with
                 | opAttach => <[po_tag op := po_flow op]> m
                 | _ => m end) ∅ ops.

Definition inbound_label (flow : string) (inbound : Inbound) : Label := {|
  l_protocol := to_upper (ib_protocol inbound);
  l_security := SecurityLabel (sec_type (ib_security inbound)) flow;
  l_transport := TransportLabel (ts_type (ib_transport inbound));
|}.

Definition seedLabels (view : View) (ops : list pushOp) : list Label :=
  let flows := attach_flows ops in
  foldl (λ labels inbound,
    match flows !! ib_tag inbound with
    | Some flow =>
        if Managed inbound then append_new labels (inbound_label flow inbound) else labels
    | None => labels
    end) [] (v_inbounds view).

(** The middle dot between the label's parts. *)
Definition dot : string := " " +:+ GoJson.of_bytes [194; 183] +:+ " ".

Definition optionLabel (inbound : Inbound) : string :=
  let network := ts_type (ib_transport inbound) in
  let network := if String.eqb network "raw" then "tcp"
                 else if String.eqb network "splithttp" then "xhttp" else network in
  let label := to_upper (ib_protocol inbound) +:+ dot +:+
               SecurityLabel (sec_type (ib_security inbound)) "" +:+ dot +:+ network in
  if negb (String.eqb (ib_port inbound) "") then label +:+ " :" +:+ ib_port inbound else label.

Definition InboundOptions (view : View) : list InboundOption :=
  (λ ib, {| io_tag := ib_tag ib; io_label := optionLabel ib |}) <$>
    filter (λ ib, Managed ib = true) (v_inbounds view).

(** ** The interfaces the service is built on *)

(** Each store call may fail on its own account; the state carries that. *)
Class RosterStore (S : Type) := {
  st_AddRosterUser : NewRosterUser → Z → S → S * result storeError RosterRecord;
  st_RosterRecord : string → S → S * result storeError RosterRecord;
  st_DisabledRosterRecord : string → S → S * result storeError RosterRecord;
  st_RosterRecords : S → S * result storeError (list RosterRecord);
  st_EditRosterUser : string → RosterEdit → Z → S → S * result storeError RosterRecord;
  st_DisableRosterUser : string → Z → S → S * result storeError ();
  st_EnableRosterUser : string → Z → S → S * result storeError (RosterRecord * bool);
  st_MarkRosterDeleting : string → Z → S → S * result storeError ();
  st_PurgeRosterUser : string → S → S * result storeError ();
  st_DeletingRosterRecords : S → S * result storeError (list RosterRecord);
}.

(** Renders a plan into the config file; an error text, or whether it wrote. *)
Class Renderer (R : Type) := { st_Render : RenderPlan → R → R * result string bool }.

(** Told when a user's stored traces are about to be purged. *)
Class PurgeNotifier (C : Type) := { st_Purge : string → C → C }.

(** google/uuid: the canonical spelling of a valid UUID. *)
Class Uuid := { uuid_Parse : string → option string }.

Context `{Uuid} {S R X C : Type} `{RosterStore S} `{Renderer R} `{Pusher X} `{PurgeNotifier C}.

(** Everything a handler can read or change. [w_uuid] is the next
    uuid.NewString; [w_visit] is the order Go visits a map in. *)
Record World := {
  w_svc : Service;
  w_store : S;
  w_file : R;
  w_xray : X;
  w_collector : C;
  w_view : View;
  w_parse : RosterParse * Z;
  w_now : Z;
  w_uuid : string;
  w_visit : ∀ A, list A → list A;
}.

Definition put_svc (f : Service → Service) : M World () := modify (λ w,
  {| w_svc := f (w_svc w); w_store := w_store w; w_file := w_file w; w_xray := w_xray w;
     w_collector := w_collector w; w_view := w_view w; w_parse := w_parse w; w_now := w_now w;
     w_uuid := w_uuid w; w_visit := w_visit w |}).

(** Running one call of each seam. *)
Definition on_store {A} (f : S → S * A) : M World A := λ w,
  let (s, a) := f (w_store w) in
  ({| w_svc := w_svc w; w_store := s; w_file := w_file w; w_xray := w_xray w;
      w_collector := w_collector w; w_view := w_view w; w_parse := w_parse w; w_now := w_now w;
      w_uuid := w_uuid w; w_visit := w_visit w |}, a).

Definition on_file {A} (f : R → R * A) : M World A := λ w,
  let (r, a) := f (w_file w) in
  ({| w_svc := w_svc w; w_store := w_store w; w_file := r; w_xray := w_xray w;
      w_collector := w_collector w; w_view := w_view w; w_parse := w_parse w; w_now := w_now w;
      w_uuid := w_uuid w; w_visit := w_visit w |}, a).

Definition on_xray {A} (f : X → X * A) : M World A := λ w,
  let (x, a) := f (w_xray w) in
  ({| w_svc := w_svc w; w_store := w_store w; w_file := w_file w; w_xray := x;
      w_collector := w_collector w; w_view := w_view w; w_parse := w_parse w; w_now := w_now w;
      w_uuid := w_uuid w; w_visit := w_visit w |}, a).

Definition on_collector (f : C → C) : M World () := modify (λ w,
  {| w_svc := w_svc w; w_store := w_store w; w_file := w_file w; w_xray := w_xray w;
     w_collector := f (w_collector w); w_view := w_view w; w_parse := w_parse w; w_now := w_now w;
     w_uuid := w_uuid w; w_visit := w_visit w |}).

(** ** The queue *)

Definition syncLocked (s : Service) : SyncState :=
  if negb (bool_decide (sv_failed s = ∅)) then Failed
  else if negb (bool_decide (sv_pending s = ∅)) then Pending
  else Synced.

Definition Sync : M World SyncState := gets (λ w, syncLocked (w_svc w)).

Definition UserStates (s : Service) : gmap string ApplyState :=
  gset_to_gmap ApplyFailed (sv_failed s) ∪ ((λ _, ApplyPending) <$> sv_pending s).

Definition logFailure (err : string) : M World () := put_svc (λ s,
  if String.eqb (sv_lastApplyErr s) err then s else set_lastApplyErr err s).

Definition takePending (email : string) : M World pendingChange :=
  prev ← gets (λ w, default zeroChange (sv_pending (w_svc w) !! email));
  put_svc (λ s, set_queue (delete email (sv_pending s)) (sv_failed s) s) ;;
  mret prev.

Definition enqueueGen (record : RosterRecord) (ops : list pushOp) (purge : bool) : M World () :=
  put_svc (λ s,
    let gen := u64_add (sv_nextGen s) 1 in
    {| sv_nextGen := gen;
       sv_pending := <[rec_email record := {| pc_id := rec_client_id record; pc_ops := ops;
                                               pc_gen := gen; pc_purge := purge |}]> (sv_pending s);
       sv_failed := sv_failed s ∖ {[rec_email record]};
       sv_settled := sv_settled s; sv_kick := true; sv_lastApplyErr := sv_lastApplyErr s |}).

Definition enqueue (record : RosterRecord) (ops : list pushOp) : M World () :=
  enqueueGen record ops false.
Definition enqueueDelete (record : RosterRecord) (ops : list pushOp) : M World () :=
  enqueueGen record ops true.

Definition queueOps (record : RosterRecord) (ops : list pushOp) : M World MutationResult :=
  enqueue record ops ;;
  mret {| mr_user := record; mr_sync := WaitFor (rec_email record) |}.

Definition enqueueIfLive (record : RosterRecord) (ops : list pushOp) : M World () :=
  found ← on_store (st_RosterRecord (rec_email record));
  match found with
  | Err ErrRosterNotFound => mret ()
  | _ => enqueue record ops
  end.

(** One look of waitSettled at the state; [None] keeps waiting for the next
    broadcast, unless the settle window elapsed. *)
Definition waitSettled (email : string) (timedOut : bool) (s : Service) : option SyncState :=
  if bool_decide (email ∈ sv_failed s) then Some Failed
  else if bool_decide (sv_pending s !! email = None) then Some (syncLocked s)
  else if timedOut then Some Pending
  else None.

Definition hasPending (email : string) : M World bool :=
  gets (λ w, bool_decide (is_Some (sv_pending (w_svc w) !! email))).

Definition supersededLocked (email : string) (gen : Z) (s : Service) : bool :=
  match sv_pending s !! email with
  | Some current => negb (pc_gen current =? gen)
  | None => true
  end.

Definition broadcast : M World () := put_svc (λ s, {|
  sv_nextGen := sv_nextGen s; sv_pending := sv_pending s; sv_failed := sv_failed s;
  sv_settled := Datatypes.S (sv_settled s); sv_kick := sv_kick s;
  sv_lastApplyErr := sv_lastApplyErr s |}).

(** ** Mutations *)

(** Add maps the two conflicts only. *)
Definition add_store_error (e : storeError) : mutationError :=
  match e with
  | ErrEmailTaken _ => ConflictError ReasonEmailTaken
  | ErrClientIDTaken _ => ConflictError ReasonClientIDTaken
  | _ => StoreFailure e
  end.

(** Edit maps the Client ID conflict and the missing record. *)
Definition edit_store_error (email : string) (e : storeError) : mutationError :=
  match e with
  | ErrClientIDTaken _ => ConflictError ReasonClientIDTaken
  | ErrRosterNotFound => NotFoundError email
  | _ => StoreFailure e
  end.

(** Every selected tag as an attach op, or None at an unmanaged one. *)
Fixpoint attach_all (view : View) (tags : list string) : option (list pushOp) :=
  match tags with
  | [] => Some []
  | tag :: tags =>
      inbound ← findManaged view tag;
      ops ← attach_all view tags;
      Some (attachOp tag inbound :: ops)
  end.

(** The managed ones among the tags. *)
Definition attach_managed (view : View) (tags : list string) : list pushOp :=
  omap (λ tag, attachOp tag <$> findManaged view tag) tags.

Definition answer {A} (r : A) : M World (result mutationError A) := mret (Ok r).
Definition refuse {A} (e : mutationError) : M World (result mutationError A) := mret (Err e).

Definition Add (email clientID : string) (inbounds : list string)
    : M World (result mutationError MutationResult) :=
  let email := trim_space email in
  if String.eqb email "" then refuse (ConflictError ReasonEmailInvalid) else
  fresh ← gets w_uuid;
  let trimmed := trim_space clientID in
  let canonical := if String.eqb trimmed "" then Some fresh else uuid_Parse trimmed in
  match canonical with
  | None => refuse (ConflictError ReasonClientIDInvalid)
  | Some clientID =>
  view ← gets w_view;
  let tags := dedupeOrder inbounds in
  match attach_all view tags with
  | None => refuse (ConflictError ReasonUnknownInbound)
  | Some ops =>
  now ← gets w_now;
  stored ← on_store (st_AddRosterUser
    {| nu_email := email; nu_client_id := clientID; nu_inbounds := tags;
       nu_labels := seedLabels view ops |} now);
  match stored with
  | Err e => refuse (add_store_error e)
  | Ok record =>
      match ops with
      | [] => sync ← Sync; answer {| mr_user := record; mr_sync := Answer sync |}
      | _ => res ← queueOps record ops; answer res
      end
  end end end.

(** The final attachment set: [None] is an unknown inbound. The keep path
    prunes the tags the config dropped. *)
Definition edit_ops (view : View) (req : EditRequest) (before : RosterRecord)
    : option (list pushOp) :=
  match er_inbounds req with
  | Some selection => attach_all view selection
  | None => Some (attach_managed view (rec_inbounds before))
  end.

Definition set_inbounds (tags : list string) (r : RosterRecord) : RosterRecord :=
  MkRecord (rec_email r) (rec_client_id r) tags (rec_created_at r) (rec_updated_at r).

Definition Edit (email : string) (req : EditRequest)
    : M World (result mutationError MutationResult) :=
  let email := trim_space email in
  if String.eqb email "" then refuse (NotFoundError email) else
  let trimmed := trim_space (er_client_id req) in
  match (if String.eqb trimmed "" then Some "" else uuid_Parse trimmed) with
  | None => refuse (ConflictError ReasonClientIDInvalid)
  | Some clientID =>
  found ← on_store (st_RosterRecord email);
  match found with
  | Err ErrRosterNotFound => refuse (NotFoundError email)
  | Err e => refuse (StoreFailure e)
  | Ok before =>
  view ← gets w_view;
  match edit_ops view req before with
  | None => refuse (ConflictError ReasonUnknownInbound)
  | Some finalOps =>
  let tags := po_tag <$> finalOps in
  let before := match er_inbounds req with None => set_inbounds tags before | Some _ => before end in
  now ← gets w_now;
  stored ← on_store (st_EditRosterUser email
    {| ed_client_id := if String.eqb clientID "" then None else Some clientID;
       ed_inbounds := Some tags; ed_labels := seedLabels view finalOps |} now);
  match stored with
  | Err e => refuse (edit_store_error email e)
  | Ok after =>
  prev ← takePending email;
  match diffOps before after (attach_flows finalOps) prev with
  | [] => sync ← Sync; answer {| mr_user := after; mr_sync := Answer sync |}
  | ops => res ← queueOps after ops; answer res
  end
  end end end end.

(** Appending the tags a list lacks. *)
Definition add_tags (tags more : list string) : list string := foldl append_new tags more.

Definition Disable (email : string) : M World (result mutationError (syncAnswer * bool)) :=
  let email := trim_space email in
  if String.eqb email "" then sync ← Sync; answer (Answer sync, false) else
  found ← on_store (st_RosterRecord email);
  match found with
  | Err ErrRosterNotFound => sync ← Sync; answer (Answer sync, false)
  | Err e => refuse (StoreFailure e)
  | Ok before =>
  prev ← takePending email;
  let tags := add_tags (rec_inbounds before)
                (po_tag <$> filter (λ op, joins op = true) (pc_ops prev)) in
  now ← gets w_now;
  stored ← on_store (st_DisableRosterUser email now);
  match stored with
  | Err e => refuse (StoreFailure e)
  | Ok _ =>
  match tags with
  | [] => sync ← Sync; answer (Answer sync, true)
  | _ => res ← queueOps before (detachOps tags); answer (mr_sync res, true)
  end
  end end.

Definition Delete (email : string) : M World (result mutationError (syncAnswer * bool)) :=
  let email := trim_space email in
  if String.eqb email "" then sync ← Sync; answer (Answer sync, false) else
  active ← on_store (st_RosterRecord email);
  found ← match active with
          | Err ErrRosterNotFound => on_store (st_DisabledRosterRecord email)
          | _ => mret active
          end;
  match found with
  | Err ErrRosterNotFound => sync ← Sync; answer (Answer sync, false)
  | Err e => refuse (StoreFailure e)
  | Ok record =>
  prev ← takePending email;
  let tags := add_tags (rec_inbounds record) (po_tag <$> pc_ops prev) in
  now ← gets w_now;
  stored ← on_store (st_MarkRosterDeleting (rec_email record) now);
  match stored with
  | Err e => refuse (StoreFailure e)
  | Ok _ =>
      enqueueDelete record (detachOps tags) ;;
      answer (WaitFor (rec_email record), true)
  end end.

Definition Enable (email : string) : M World (result mutationError MutationResult) :=
  let email := trim_space email in
  if String.eqb email "" then refuse (NotFoundError email) else
  now ← gets w_now;
  found ← on_store (st_EnableRosterUser email now);
  match found with
  | Err ErrRosterNotFound => refuse (NotFoundError email)
  | Err e => refuse (StoreFailure e)
  | Ok (record, false) => sync ← Sync; answer {| mr_user := record; mr_sync := Answer sync |}
  | Ok (record, true) =>
  view ← gets w_view;
  let finalOps := attach_managed view (rec_inbounds record) in
  let kept := po_tag <$> finalOps in
  pruned ← (if bool_decide (length kept < length (rec_inbounds record))%nat
            then on_store (st_EditRosterUser (rec_email record)
                   {| ed_client_id := None; ed_inbounds := Some kept;
                      ed_labels := seedLabels view finalOps |} now)
            else mret (Ok record));
  match pruned with
  | Err e => refuse (StoreFailure e)
  | Ok record =>
      match finalOps with
      | [] => sync ← Sync; answer {| mr_user := record; mr_sync := Answer sync |}
      | _ => res ← queueOps record finalOps; answer res
      end
  end end.

(** ** The apply pass *)

Definition client_op (email : string) (change : pendingChange) (op : pushOp) : ClientOp :=
  {| co_email := email; co_id := pc_id change; co_flow := po_flow op |}.

(** plan.X[tag] = append(plan.X[tag], v). *)
Definition push_back {A} (tag : string) (v : A) (m : gmap string (list A)) : gmap string (list A) :=
  <[tag := default [] (m !! tag) ++ [v]]> m.

Definition plan_op (email : string) (change : pendingChange) (plan : RenderPlan) (op : pushOp)
    : RenderPlan :=
  match po_kind op with
  | opAttach => {| pl_adds := push_back (po_tag op) (client_op email change op) (pl_adds plan);
                   pl_removes := pl_removes plan; pl_sets := pl_sets plan |}
  | opDetach => {| pl_adds := pl_adds plan;
                   pl_removes := push_back (po_tag op) email (pl_removes plan);
                   pl_sets := pl_sets plan |}
  | opRotate => {| pl_adds := pl_adds plan; pl_removes := pl_removes plan;
                   pl_sets := push_back (po_tag op) (client_op email change op) (pl_sets plan) |}
  end.

Definition plan_change (plan : RenderPlan) (entry : string * pendingChange) : RenderPlan :=
  foldl (plan_op entry.1 entry.2) plan (pc_ops entry.2).

Definition render_plan (pending : list (string * pendingChange)) : RenderPlan :=
  foldl plan_change emptyPlan pending.

(** The live push of one operation: None is success. *)
Definition push_op (email : string) (change : pendingChange) (op : pushOp) : M World (option string) :=
  view ← gets w_view;
  match findManaged view (po_tag op) with
  | None => mret None
  | Some _ =>
      let user := {| mu_email := email; mu_id := pc_id change; mu_flow := po_flow op |} in
      match po_kind op with
      | opAttach => on_xray (push_add (po_tag op) user)
      | opDetach => on_xray (push_remove (po_tag op) email)
      | opRotate =>
          removed ← on_xray (push_remove (po_tag op) email);
          match removed with
          | Some e => mret (Some e)
          | None => on_xray (push_add (po_tag op) user)
          end
      end
  end.

(** The operations in order up to the first failure. *)
Fixpoint push_ops (email : string) (change : pendingChange) (ops : list pushOp)
    : M World (option string) :=
  match ops with
  | [] => mret None
  | op :: ops =>
      failed ← push_op email change op;
      match failed with
      | Some e => mret (Some e)
      | None => push_ops email change ops
      end
  end.

Definition finishDelete (email : string) : M World (result storeError ()) :=
  on_collector (st_Purge email) ;;
  on_store (st_PurgeRosterUser email).

Definition store_error_text (e : storeError) : string :=
  match e with
  | ErrEmailTaken e => "email taken: " +:+ e
  | ErrClientIDTaken e => "client ID taken: " +:+ e
  | ErrRosterNotFound => "roster record not found"
  | ErrUnavailable => "database unavailable"
  end.

Definition mark_failed (email : string) (s : Service) : Service :=
  set_queue (sv_pending s) ({[email]} ∪ sv_failed s) s.

(** The outcome of one change's pushes, under the lock. *)
Definition settle (email : string) (change : pendingChange) (failed : bool) : M World () :=
  s ← gets w_svc;
  if failed then
    if supersededLocked email (pc_gen change) s then mret () else put_svc (mark_failed email)
  else
    if supersededLocked email (pc_gen change) s then mret ()
    else
      put_svc (λ s, set_queue (delete email (sv_pending s)) (sv_failed s ∖ {[email]}) s) ;;
      if pc_purge change then
        purged ← finishDelete email;
        match purged with
        | Ok _ => mret ()
        | Err e =>
            put_svc (λ s, set_queue
              (<[email := {| pc_id := pc_id change; pc_ops := []; pc_gen := pc_gen change;
                             pc_purge := true |}]> (sv_pending s))
              ({[email]} ∪ sv_failed s) s) ;;
            logFailure (store_error_text e)
        end
      else mret ().

(** One user's share of a pass. *)
Definition apply_change (entry : string * pendingChange) : M World () :=
  let '(email, change) := entry in
  s ← gets w_svc;
  if supersededLocked email (pc_gen change) s then mret ()
  else
    failed ← push_ops email change (pc_ops change);
    match failed with Some e => logFailure e | None => mret () end ;;
    settle email change (match failed with Some _ => true | None => false end).

(** *** A pass among the other actors

    The loop's lock is free between its calls to xray, so mutations queue and
    take changes while a pass is on its way. *)

(** What a mutation does to the queue: enqueueGen and takePending. *)
Inductive queueEvent :=
  | Queued (record : RosterRecord) (ops : list pushOp) (purge : bool)
  | Taken (email : string).

Definition event_email (event : queueEvent) : string :=
  match event with Queued record _ _ => rec_email record | Taken email => email end.

Definition run_queueEvent (event : queueEvent) : M World () :=
  match event with
  | Queued record ops purge => enqueueGen record ops purge
  | Taken email => takePending email ;; mret ()
  end.

(** What the queue knows of one user. *)
Definition queue_at (email : string) (s : Service) : option pendingChange * bool :=
  (sv_pending s !! email, bool_decide (email ∈ sv_failed s)).

(** The other actors, from one moment of the loop to the next: mutations of
    the queue, and anything else (store writes, a reload, xray's own life,
    another user's turn) that leaves this user's place in it alone. *)
Inductive others (email : string) : list queueEvent → World → World → Prop :=
  | OthersDone w : others email [] w w
  | OthersQueue event events w w' :
      others email events (run_queueEvent event w).1 w' → others email (event :: events) w w'
  | OthersElse events w w1 w' :
      sv_nextGen (w_svc w1) = sv_nextGen (w_svc w) →
      queue_at email (w_svc w1) = queue_at email (w_svc w) →
      others email events w1 w' → others email events w w'.

(** The calls an operation makes, in order. *)
Inductive call := AddUserCall (tag : string) (user : ManagedUser) | RemoveUserCall (tag email : string).

Definition op_calls (email : string) (change : pendingChange) (op : pushOp) : list call :=
  let user := {| mu_email := email; mu_id := pc_id change; mu_flow := po_flow op |} in
  match po_kind op with
  | opAttach => [AddUserCall (po_tag op) user]
  | opDetach => [RemoveUserCall (po_tag op) email]
  | opRotate => [RemoveUserCall (po_tag op) email; AddUserCall (po_tag op) user]
  end.

Definition run_call (c : call) : M World (option string) :=
  match c with
  | AddUserCall tag user => on_xray (push_add tag user)
  | RemoveUserCall tag email => on_xray (push_remove tag email)
  end.

(** The push loop call by call: the calls left of the current operation, the
    operations after it, and whether a push failed. *)
Inductive pushes (email : string) (change : pendingChange)
    : list queueEvent → list call → list pushOp → World → bool → World → Prop :=
  | PushesDone w : pushes email change [] [] [] w false w
  | PushesMeanwhile events1 events2 calls ops w w1 failed w' :
      others email events1 w w1 → pushes email change events2 calls ops w1 failed w' →
      pushes email change (events1 ++ events2) calls ops w failed w'
  | PushesSkip events op ops w failed w' :
      findManaged (w_view w) (po_tag op) = None →
      pushes email change events [] ops w failed w' →
      pushes email change events [] (op :: ops) w failed w'
  | PushesOpen events op ops w failed w' :
      is_Some (findManaged (w_view w) (po_tag op)) →
      pushes email change events (op_calls email change op) ops w failed w' →
      pushes email change events [] (op :: ops) w failed w'
  | PushesCall events c calls ops w w1 failed w' :
      run_call c w = (w1, None) →
      pushes email change events calls ops w1 failed w' →
      pushes email change events (c :: calls) ops w failed w'
  | PushesFail events1 events2 c calls ops w w1 e w2 w' :
      run_call c w = (w1, Some e) →
      others email events1 w1 w2 → others email events2 (logFailure e w2).1 w' →
      pushes email change (events1 ++ events2) (c :: calls) ops w true w'.

(** One user's share of a pass, whatever happens meanwhile. *)
Inductive turn (email : string) (change : pendingChange) : list queueEvent → World → World → Prop :=
  | TurnSkipped w :
      supersededLocked email (pc_gen change) (w_svc w) = true → turn email change [] w w
  | TurnPushed events w failed w1 :
      supersededLocked email (pc_gen change) (w_svc w) = false →
      pushes email change events [] (pc_ops change) w failed w1 →
      turn email change events w (settle email change failed w1).1.

Definition apply_failed (pending : list (string * pendingChange)) : M World () :=
  visited ← gets (λ w, w_visit w _ pending);
  forM visited (λ entry,
    put_svc (λ s, if supersededLocked entry.1 (pc_gen entry.2) s then s else mark_failed entry.1 s)).

(** A pass over one snapshot of the queue. *)
Definition apply_snapshot (pending : list (string * pendingChange)) : M World () :=
  match pending with
  | [] => broadcast
  | _ =>
      rendered ← on_file (st_Render (render_plan pending));
      match rendered with
      | Err e => logFailure e ;; apply_failed pending ;; broadcast
      | Ok _ =>
          visited ← gets (λ w, w_visit w _ pending);
          forM visited apply_change ;;
          put_svc (λ s, if bool_decide (sv_pending s = ∅) && bool_decide (sv_failed s = ∅)
                        then set_lastApplyErr "" s else s) ;;
          broadcast
      end
  end.

Definition snapshot_queue : M World (list (string * pendingChange)) :=
  gets (λ w, w_visit w _ (map_to_list (sv_pending (w_svc w)))).

Definition apply : M World () := pending ← snapshot_queue; apply_snapshot pending.

Definition retry : M World () :=
  empty ← gets (λ w, bool_decide (sv_pending (w_svc w) = ∅));
  if empty : bool then mret () else apply.

(** ** Recovery and convergence *)

Definition recoverDeletes : M World () :=
  records ← on_store st_DeletingRosterRecords;
  match records with
  | Err _ => mret ()
  | Ok records => forM records (λ record, enqueueDelete record (detachOps (rec_inbounds record)))
  end.

(** The tags the current view manages. *)
Definition live_tags (view : View) : gset string :=
  list_to_set (ib_tag <$> filter (λ ib, Managed ib = true) (v_inbounds view)).

(** The attachments the file lost and the view still manages. *)
Definition drift_ops (view : View) (fileTags : list string) (tags : list string) : list pushOp :=
  attach_managed view
    (filter (λ tag, ¬ (tag ∈ fileTags ∨ tag ∉ live_tags view)) tags).

Definition converge_record (view : View) (parse : RosterParse) (record : RosterRecord) : M World () :=
  busy ← hasPending (rec_email record);
  if busy : bool then mret () else
  let kept := filter (λ tag, tag ∈ live_tags view) (rec_inbounds record) in
  pruned ← (if bool_decide (length kept < length (rec_inbounds record))%nat
            then (now ← gets w_now;
                  on_store (st_EditRosterUser (rec_email record)
                    {| ed_client_id := None; ed_inbounds := Some kept;
                       ed_labels := seedLabels view (attach_managed view kept) |} now))
            else mret (Ok record));
  match pruned with
  | Err ErrRosterNotFound => mret ()
  | Err e => logFailure (store_error_text e)
  | Ok record =>
      let fileTags := default [] (c_inbounds <$> rp_clients parse !! rec_email record) in
      match drift_ops view fileTags (rec_inbounds record) with
      | [] => mret ()
      | ops => enqueueIfLive record ops
      end
  end.

Definition converge : M World () :=
  '(parse, version) ← gets w_parse;
  if version =? 0 then mret () else
  view ← gets w_view;
  records ← on_store st_RosterRecords;
  match records with
  | Err e => logFailure (store_error_text e)
  | Ok records => forM records (converge_record view parse)
  end.

(** ** The loop *)

(** What wakes the loop: a kick, a config load, or an xray status poll. *)
Inductive loopEvent := Kick | ConfigChanged | StatusPolled (running : option bool).

(** One turn of the loop; the boolean is [lastRunning]. *)
Definition run_event (e : loopEvent) (lastRunning : bool) : M World bool :=
  match e with
  | Kick =>
      put_svc (λ s, {| sv_nextGen := sv_nextGen s; sv_pending := sv_pending s;
        sv_failed := sv_failed s; sv_settled := sv_settled s; sv_kick := false;
        sv_lastApplyErr := sv_lastApplyErr s |}) ;;
      apply ;; mret lastRunning
  | ConfigChanged => retry ;; converge ;; mret lastRunning
  | StatusPolled None => mret lastRunning
  | StatusPolled (Some running) =>
      (if running && negb lastRunning then retry else mret ()) ;; mret running
  end.

(** run, up to its first select. *)
Definition run_start (running : option bool) : M World bool :=
  recoverDeletes ;; converge ;; mret (default false running).

End WithRuntime.

End Roster.
