(* ===== verification/RosterProps.v ===== *)
(** * The roster's write path: what it promises

    The edit's plan converges the running xray to the stored record, a pass
    settles only the changes it snapshotted, nothing is pushed that the file
    does not lead, a delete purges only what it removed. *)

From Stdlib Require Import String.
From S2P Require Import Prelude GoJson XrayConfig Store StoreProps StoreTheorems Handler Render Roster Collector.

Local Open Scope Z_scope.

Module RosterProps.
Import XrayConfig Store Handler Render Roster.

(** ** The reference: what a list of operations does to one credential *)

Definition op_effect (id : string) (kind : opKind) (old : option string) : option string :=
  match kind with
  | opAttach => match old with Some o => Some o | None => Some id end
  | opDetach => None
  | opRotate => Some id
  end.

Definition ops_effect (id tag : string) (ops : list pushOp) (old : option string) : option string :=
  foldl (λ c op, if String.eqb (po_tag op) tag then op_effect id (po_kind op) c else c) old ops.

Definition prev_joined (prev : pendingChange) (tag : string) : bool :=
  existsb (λ op, joins op && String.eqb (po_tag op) tag) (pc_ops prev).

Definition prev_left (prev : pendingChange) (tag : string) : bool :=
  existsb (λ op, negb (joins op) && String.eqb (po_tag op) tag) (pc_ops prev).

(** What the running xray may hold for the user on one inbound when an edit
    is planned: the stored record's credential where nothing is unfinished;
    anything at all where an unfinished change joined an inbound the record
    lists; and, where
    an unfinished detach is about to be taken back by a bare attach, either
    nothing or the credential the record ends with. *)
Definition half_landed (before after : RosterRecord) (prev : pendingChange) (tag : string)
    (cred : option string) : Prop :=
  if prev_joined prev tag then tag ∈ rec_inbounds before
  else if prev_left prev tag then
    tag ∈ rec_inbounds after →
    rec_client_id before = rec_client_id after ∨ tag ∉ rec_inbounds before →
    cred = None ∨ cred = Some (rec_client_id after)
  else cred = if bool_decide (tag ∈ rec_inbounds before)
              then Some (rec_client_id before) else None.

(** ** Effects of an operation list *)

Lemma ops_effect_app id tag ops1 ops2 old :
  ops_effect id tag (ops1 ++ ops2) old = ops_effect id tag ops2 (ops_effect id tag ops1 old).
Proof. apply foldl_app. Qed.

Lemma ops_effect_other id tag ops old :
  (∀ op, op ∈ ops → po_tag op ≠ tag) → ops_effect id tag ops old = old.
Proof.
  unfold ops_effect. revert old. induction ops as [|op ops IH]; intros old Hn; simpl; [done|].
  destruct (String.eqb_spec (po_tag op) tag) as [E|].
  - exfalso. apply (Hn op); [by left|done].
  - apply IH. intros o Ho. apply Hn. by right.
Qed.

(** Operations of one kind: once or many times, the effect is one effect. *)
Lemma ops_effect_same id tag kind ops old :
  (∀ op, op ∈ ops → po_tag op = tag → po_kind op = kind) →
  ops_effect id tag ops old =
    if existsb (λ op, String.eqb (po_tag op) tag) ops then op_effect id kind old else old.
Proof.
  unfold ops_effect. revert old. induction ops as [|op ops IH]; intros old Hk; simpl; [done|].
  rewrite IH by (intros o Ho; apply Hk; by right).
  destruct (String.eqb_spec (po_tag op) tag) as [E|]; simpl; [|done].
  rewrite (Hk op) by (by left || done). destruct (existsb _ ops); [|done].
  destruct kind, old; done.
Qed.

Lemma existsb_tags tag ops :
  existsb (λ op, String.eqb (po_tag op) tag) ops = bool_decide (tag ∈ po_tag <$> ops).
Proof.
  induction ops as [|op ops IH]; [done|]. rewrite fmap_cons. simpl. rewrite IH.
  destruct (String.eqb_spec (po_tag op) tag) as [->|Hne]; simpl.
  - symmetry. apply bool_decide_eq_true. by left.
  - apply bool_decide_ext. rewrite elem_of_cons. split; [by right|]. by intros [->|].
Qed.

Lemma detachOps_tags tags : po_tag <$> detachOps tags = tags.
Proof. unfold detachOps. rewrite <-list_fmap_compose. apply list_fmap_id. Qed.

Lemma detachOps_kind tags op : op ∈ detachOps tags → po_kind op = opDetach.
Proof. unfold detachOps. intros (t & -> & _)%list_elem_of_fmap. done. Qed.

Lemma detach_effect id tag tags old :
  ops_effect id tag (detachOps tags) old = if bool_decide (tag ∈ tags) then None else old.
Proof.
  rewrite (ops_effect_same id tag opDetach) by (intros op Ho _; by eapply detachOps_kind).
  by rewrite existsb_tags, detachOps_tags.
Qed.

(** The kind of the operation the plan makes for a tag that stays or joins. *)
Definition stay_kind (before after : RosterRecord) (prev : pendingChange) (tag : string)
    : option opKind :=
  let idChanged := negb (String.eqb (rec_client_id before) (rec_client_id after)) in
  let attached := bool_decide (tag ∈ rec_inbounds before) in
  if (idChanged && attached) || prev_joined prev tag then Some opRotate
  else if negb attached && negb (prev_joined prev tag) then Some opAttach
  else if negb (bool_decide (pc_ops prev = [])) then Some opAttach else None.

Lemma diffOps_shape before after (flows : gmap string string) prev :
  diffOps before after flows prev =
    detachOps (filter (λ tag, bool_decide (tag ∈ rec_inbounds after) = false) (rec_inbounds before)) ++
    detachOps (po_tag <$> filter (λ op, po_kind op = opDetach ∧
                 bool_decide (po_tag op ∈ rec_inbounds after) = false) (pc_ops prev)) ++
    omap (λ tag, (λ kind, PushOp kind tag (default "" (flows !! tag))) <$>
                   stay_kind before after prev tag) (rec_inbounds after).
Proof.
  unfold diffOps, stay_kind. do 2 f_equal. apply list_omap_ext.
  induction (rec_inbounds after) as [|tag tags IH]; constructor; [|done].
  fold (prev_joined prev tag). by repeat case_match.
Qed.

Lemma stays_effect before after (flows : gmap string string) prev id tag old :
  ops_effect id tag (omap (λ tag, (λ kind, PushOp kind tag (default "" (flows !! tag))) <$>
                   stay_kind before after prev tag) (rec_inbounds after)) old =
    if bool_decide (tag ∈ rec_inbounds after)
    then match stay_kind before after prev tag with
         | Some kind => op_effect id kind old | None => old end
    else old.
Proof.
  set (ops := omap _ _).
  assert (∀ op, op ∈ ops → stay_kind before after prev (po_tag op) = Some (po_kind op)) as Hk.
  { intros op (t & Ht & E)%list_elem_of_omap.
    destruct (stay_kind before after prev t) eqn:Ek; [|done]. by injection E as <-. }
  assert (bool_decide (tag ∈ po_tag <$> ops) =
    bool_decide (tag ∈ rec_inbounds after) && bool_decide (is_Some (stay_kind before after prev tag)))
    as Hin.
  { rewrite <-bool_decide_and. apply bool_decide_ext. rewrite list_elem_of_fmap. split.
    - intros (op & -> & Ho). split; [|by rewrite (Hk op Ho)].
      apply list_elem_of_omap in Ho as (t & Ht & E).
      destruct (stay_kind before after prev t); [|done]. by injection E as <-.
    - intros [Ht [kind Hs]]. exists (PushOp kind tag (default "" (flows !! tag))).
      split; [done|]. apply list_elem_of_omap. exists tag. by rewrite Hs. }
  destruct (stay_kind before after prev tag) as [kind|] eqn:Ek.
  - rewrite (ops_effect_same id tag kind).
    + rewrite existsb_tags, Hin. simpl. rewrite andb_true_r. done.
    + intros op Ho E. specialize (Hk op Ho). rewrite E, Ek in Hk. by injection Hk.
  - rewrite ops_effect_other; [by destruct (bool_decide (tag ∈ rec_inbounds after))|].
    intros op Ho E. specialize (Hk op Ho). by rewrite E, Ek in Hk.
Qed.

Lemma prev_left_owed after prev tag :
  tag ∉ rec_inbounds after →
  bool_decide (tag ∈ po_tag <$> filter (λ op, po_kind op = opDetach ∧
                 bool_decide (po_tag op ∈ rec_inbounds after) = false) (pc_ops prev)) =
    prev_left prev tag.
Proof.
  intros Hn. unfold prev_left. induction (pc_ops prev) as [|op ops IH]; [done|].
  rewrite filter_cons. simpl. rewrite <-IH. clear IH. unfold joins.
  case_decide as Hd.
  - destruct Hd as [Hk Ht]. rewrite Hk, fmap_cons. simpl.
    destruct (String.eqb_spec (po_tag op) tag) as [->|Hne]; simpl.
    + apply bool_decide_eq_true. by left.
    + apply bool_decide_ext. rewrite elem_of_cons. split; [by intros [->|]|by right].
  - destruct (String.eqb_spec (po_tag op) tag) as [E|]; [|by rewrite andb_false_r].
    destruct (po_kind op); simpl; try done.
    exfalso. apply Hd. split; [done|]. rewrite E. by apply bool_decide_eq_false.
Qed.

(** The plan's effect, credential by credential. *)
Lemma diffOps_effect before after flows prev tag cred :
  half_landed before after prev tag cred →
  ops_effect (rec_client_id after) tag (diffOps before after flows prev) cred =
    if bool_decide (tag ∈ rec_inbounds after) then Some (rec_client_id after) else None.
Proof.
  intros Hc. rewrite diffOps_shape, !ops_effect_app, !detach_effect, stays_effect.
  destruct (bool_decide (tag ∈ rec_inbounds after)) eqn:Ea.
  - apply bool_decide_eq_true in Ea.
    rewrite bool_decide_eq_false_2.
    2: { intros (op & -> & [[_ Hf] _]%list_elem_of_filter)%list_elem_of_fmap.
         apply bool_decide_eq_false in Hf. done. }
    rewrite bool_decide_eq_false_2.
    2: { intros [Hf _]%list_elem_of_filter. apply bool_decide_eq_false in Hf. done. }
    unfold stay_kind, half_landed in *.
    destruct (String.eqb_spec (rec_client_id before) (rec_client_id after)) as [Eid|Eid]; simpl;
      destruct (prev_joined prev tag); rewrite ?orb_true_r; simpl; try done;
      destruct (bool_decide (tag ∈ rec_inbounds before)) eqn:Eb; simpl; try done.
    + destruct (prev_left prev tag) eqn:El.
      * destruct (bool_decide (pc_ops prev = [])) eqn:Ep.
        -- apply bool_decide_eq_true in Ep. unfold prev_left in El. by rewrite Ep in El.
        -- simpl. destruct Hc as [->| ->]; auto.
      * destruct (negb _); simpl; rewrite Hc; by rewrite Eid.
    + apply bool_decide_eq_false in Eb. destruct (prev_left prev tag); [|by rewrite Hc].
      destruct Hc as [->| ->]; auto.
    + apply bool_decide_eq_false in Eb. destruct (prev_left prev tag); [|by rewrite Hc].
      destruct Hc as [->| ->]; auto.
  - apply bool_decide_eq_false in Ea. rewrite prev_left_owed by done.
    unfold half_landed in Hc.
    destruct (bool_decide (tag ∈ filter _ (rec_inbounds before))) eqn:Ef;
      [by destruct (prev_left prev tag)|].
    destruct (prev_left prev tag); [done|].
    assert (tag ∉ rec_inbounds before) as Hb.
    { intros Hb. apply bool_decide_eq_false in Ef. apply Ef. apply list_elem_of_filter.
      split; [by apply bool_decide_eq_false|done]. }
    destruct (prev_joined prev tag); [done|].
    by rewrite (bool_decide_eq_false_2 _ Hb) in Hc.
Qed.

End RosterProps.
