(* ===== verification/RosterTheorems.v ===== *)
(** * The roster's write path over the whole world

    Theorems on the handlers and the apply pass, for any store, renderer,
    pusher and purge notifier that keep their interfaces' laws. *)

From Stdlib Require Import String.
From S2P Require Import Prelude GoJson XrayConfig Store StoreProps StoreTheorems Handler Render Roster RosterProps.

Local Open Scope Z_scope.

Module RosterTheorems.
Import XrayConfig Store StoreProps Handler Render Roster RosterProps.

Section WithRuntime.
Context `{GoRuntime} `{Uuid} {S R X C : Type}.
Context `{RosterStore S} `{Renderer R} `{Pusher X} `{PurgeNotifier C}.

Abbreviation World := (World (S := S) (R := R) (X := X) (C := C)).
Implicit Types (w : World).

(** Everything but the running xray. *)
Definition same_but_xray w w' : Prop :=
  w_svc w' = w_svc w ∧ w_store w' = w_store w ∧ w_file w' = w_file w ∧
  w_collector w' = w_collector w ∧ w_view w' = w_view w ∧ w_visit w' = w_visit w.

Lemma same_but_xray_trans w1 w2 w3 :
  same_but_xray w1 w2 → same_but_xray w2 w3 → same_but_xray w1 w3.
Proof. unfold same_but_xray. intuition congruence. Qed.

Lemma push_op_frame email change op w : same_but_xray w (push_op email change op w).1.
Proof.
  unfold push_op, mbind, M_bind, gets. destruct (findManaged _ _); [|by repeat split].
  destruct (po_kind op); unfold on_xray.
  - by destruct (push_add _ _ _); repeat split.
  - by destruct (push_remove _ _ _); repeat split.
  - destruct (push_remove _ _ _) as [x [e|]]; [by repeat split|]. simpl.
    by destruct (push_add _ _ _); repeat split.
Qed.

Lemma push_ops_frame email change ops w : same_but_xray w (push_ops email change ops w).1.
Proof.
  revert w. induction ops as [|op ops IH]; intros w; [by repeat split|]. simpl.
  unfold mbind, M_bind. pose proof (push_op_frame email change op w) as Hf.
  destruct (push_op email change op w) as [w1 [e|]]; simpl in *; [done|].
  by eapply same_but_xray_trans.
Qed.

(** ** The live credentials *)
Section Credentials.
Context `{!PusherLaws X}.

Lemma push_op_effect email change op w w' :
  push_op email change op w = (w', None) → is_Some (findManaged (w_view w) (po_tag op)) →
  ∀ tag, credential tag email (w_xray w') =
    if String.eqb (po_tag op) tag
    then op_effect (pc_id change) (po_kind op) (credential tag email (w_xray w))
    else credential tag email (w_xray w).
Proof.
  unfold push_op, mbind, M_bind, gets. intros Hp [inbound Hm] tag. rewrite Hm in Hp.
  set (user := {| mu_email := email; mu_id := pc_id change; mu_flow := po_flow op |}) in *.
  assert (∀ x x', push_add (po_tag op) user x = (x', None) →
    credential tag email x' = if String.eqb (po_tag op) tag
      then op_effect (pc_id change) opAttach (credential tag email x) else credential tag email x) as Hadd.
  { intros x x' E. destruct (String.eqb_spec (po_tag op) tag) as [Et|Hne].
    - rewrite <-Et. apply push_add_ok in E. exact E.
    - pose proof (push_add_frame (po_tag op) user x tag email) as Hf. rewrite E in Hf. apply Hf. congruence. }
  assert (∀ x x', push_remove (po_tag op) email x = (x', None) →
    credential tag email x' = if String.eqb (po_tag op) tag then None else credential tag email x) as Hrem.
  { intros x x' E. destruct (String.eqb_spec (po_tag op) tag) as [Et|Hne].
    - rewrite <-Et. by apply push_remove_ok in E.
    - pose proof (push_remove_frame (po_tag op) email x tag email) as Hf. rewrite E in Hf. apply Hf. congruence. }
  unfold on_xray in Hp. destruct (po_kind op).
  - destruct (push_add _ _ _) as [x r] eqn:E. injection Hp as <- ->. by apply Hadd.
  - destruct (push_remove _ _ _) as [x r] eqn:E. injection Hp as <- ->. simpl. by apply Hrem in E.
  - destruct (push_remove _ _ _) as [x [e|]] eqn:E; [done|]. simpl in Hp.
    destruct (push_add _ _ _) as [x' r] eqn:E'. injection Hp as <- ->. simpl.
    apply Hadd in E'. apply Hrem in E. rewrite E', E. by destruct (String.eqb _ _).
Qed.

Lemma push_ops_effect email change ops w w' :
  push_ops email change ops w = (w', None) →
  (∀ op, op ∈ ops → is_Some (findManaged (w_view w) (po_tag op))) →
  ∀ tag, credential tag email (w_xray w') =
    ops_effect (pc_id change) tag ops (credential tag email (w_xray w)).
Proof.
  revert w. induction ops as [|op ops IH]; intros w Hp Hm tag; simpl in Hp.
  { by injection Hp as <-. }
  unfold mbind, M_bind in Hp. pose proof (push_op_frame email change op w) as Hf.
  destruct (push_op email change op w) as [w1 [e|]] eqn:E; [done|]. simpl in Hf.
  rewrite (IH w1 Hp).
  - unfold ops_effect. simpl. f_equal. apply (push_op_effect email change op w w1 E). apply Hm. by left.
  - intros o Ho. destruct Hf as (_ & _ & _ & _ & -> & _). apply Hm. by right.
Qed.

(** C1: an edit that merges with an unfinished change converges the running
    xray, in the states [half_landed] allows. Where the unfinished change left
    an inbound alone, xray holds the stored record's credential; where it was
    to attach or rotate on an inbound the record already listed, xray may
    hold anything; where it owed a detach on an inbound the edit takes back by a
    bare attach, xray must hold nothing or already the ID the record ends
    with. Once every planned operation has been pushed, each to an inbound the
    view manages, every inbound holds the stored record's Client ID for the
    user exactly when the record lists it, and nothing otherwise. The third
    condition excludes a state the code can reach: when a detach never
    landed and the user returns to the inbound under a changed Client ID, the
    old credential is still live there and the bare attach does not replace it
    ([RosterExamples.reattach_keeps_old_credential]); there the plan does not
    converge. *)
Theorem edit_plan_converges email before after flows prev change w w' :
  pc_ops change = diffOps before after flows prev → pc_id change = rec_client_id after →
  (∀ op, op ∈ pc_ops change → is_Some (findManaged (w_view w) (po_tag op))) →
  (∀ tag, half_landed before after prev tag (credential tag email (w_xray w))) →
  push_ops email change (pc_ops change) w = (w', None) →
  ∀ tag, credential tag email (w_xray w') =
    if bool_decide (tag ∈ rec_inbounds after) then Some (rec_client_id after) else None.
Proof.
  intros Hops Hid Hm Hh Hp tag. rewrite (push_ops_effect _ _ _ _ _ Hp Hm tag).
  rewrite Hops, Hid. by apply diffOps_effect.
Qed.

(** ** Deleting *)

Lemma detach_pushed email change tags w w' :
  pc_ops change = detachOps tags →
  (∀ tag, tag ∈ tags → is_Some (findManaged (w_view w) tag)) →
  push_ops email change (pc_ops change) w = (w', None) →
  ∀ tag, tag ∈ tags → credential tag email (w_xray w') = None.
Proof.
  intros Hops Hm Hp tag Ht. rewrite (push_ops_effect _ _ _ _ _ Hp).
  - rewrite Hops, detach_effect. by rewrite bool_decide_eq_true_2.
  - intros op Ho. apply Hm. rewrite Hops in Ho. rewrite <-(detachOps_tags tags).
    by apply list_elem_of_fmap_2.
Qed.
End Credentials.

(** ** One change's turn *)

Lemma settle_superseded email change failed w :
  supersededLocked email (pc_gen change) (w_svc w) = true → settle email change failed w = (w, ()).
Proof. intros Hs. unfold settle, mbind, M_bind, gets. rewrite Hs. by destruct failed. Qed.

Lemma apply_change_superseded email change w :
  supersededLocked email (pc_gen change) (w_svc w) = true → apply_change (email, change) w = (w, ()).
Proof. intros Hs. unfold apply_change, mbind, M_bind, gets. by rewrite Hs. Qed.

(** Every queued change carries a generation already handed out. *)
Definition gens_ok (s : Service) : Prop :=
  0 <= sv_nextGen s ∧
  ∀ email change, sv_pending s !! email = Some change → 0 <= pc_gen change <= sv_nextGen s.

(** *** A change superseded while its turn runs *)

(** What a stretch of queue events leaves of one user's place. *)
Definition left_by (email : string) (events : list queueEvent) (s s' : Service) : Prop :=
  match last (filter (λ event, event_email event = email) events) with
  | None => queue_at email s' = queue_at email s
  | Some (Taken _) => sv_pending s' !! email = None
  | Some (Queued record ops purge) => ∃ gen, sv_nextGen s < gen <= sv_nextGen s' ∧
      sv_pending s' !! email = Some {| pc_id := rec_client_id record; pc_ops := ops;
                                       pc_gen := gen; pc_purge := purge |} ∧
      email ∉ sv_failed s'
  end.

(** The counter never runs back, and the place is as the events left it. *)
Definition moved (email : string) (events : list queueEvent) (s s' : Service) : Prop :=
  0 <= sv_nextGen s → sv_nextGen s + Z.of_nat (length events) < u64_mod →
  sv_nextGen s <= sv_nextGen s' <= sv_nextGen s + Z.of_nat (length events) ∧
  left_by email events s s'.

Lemma logFailure_queue e w :
  let w' := (logFailure e w).1 in
  sv_pending (w_svc w') = sv_pending (w_svc w) ∧ sv_failed (w_svc w') = sv_failed (w_svc w).
Proof. unfold logFailure, put_svc, modify. simpl. by destruct (String.eqb _ _). Qed.

Lemma logFailure_rest e w :
  let w' := (logFailure e w).1 in
  w_store w' = w_store w ∧ w_file w' = w_file w ∧ w_xray w' = w_xray w ∧
  w_collector w' = w_collector w ∧ w_view w' = w_view w ∧ w_visit w' = w_visit w.
Proof. by repeat split. Qed.

Lemma moved_still email s s' :
  sv_nextGen s' = sv_nextGen s → queue_at email s' = queue_at email s → moved email [] s s'.
Proof. intros Hn Hq _ _. rewrite Hn. split; [simpl; lia|exact Hq]. Qed.

Lemma moved_trans email events1 events2 s1 s2 s3 :
  moved email events1 s1 s2 → moved email events2 s2 s3 → moved email (events1 ++ events2) s1 s3.
Proof.
  intros Hm1 Hm2 Hn Hb. rewrite length_app in Hb. destruct (Hm1 Hn) as [Hle1 Hl1]; [lia|].
  destruct Hm2 as [Hle2 Hl2]; [lia..|]. rewrite length_app. split; [lia|].
  unfold left_by in *. rewrite filter_app, last_app.
  destruct (last (filter _ events2)) as [[record ops purge|other]|].
  - destruct Hl2 as (gen & Hg & Hrest). exists gen. split; [lia|done].
  - exact Hl2.
  - destruct (last (filter _ events1)) as [[record ops purge|other]|].
    + destruct Hl1 as (gen & Hg & Hp & Hf). exists gen.
      apply pair_equal_spec in Hl2 as [-> Hd]. split_and!; [lia..|done|].
      rewrite <-(bool_decide_eq_false (email ∈ sv_failed s3)), Hd. by apply bool_decide_eq_false.
    + by apply pair_equal_spec in Hl2 as [-> _].
    + congruence.
Qed.

Lemma moved_event email event w : moved email [event] (w_svc w) (w_svc (run_queueEvent event w).1).
Proof.
  intros Hn Hb. simpl in Hb. destruct event as [record ops purge|other]; simpl.
  - unfold u64_add. rewrite u64_small by (unfold is_u64; lia). split; [lia|].
    unfold left_by. rewrite filter_cons. simpl. destruct (decide (rec_email record = email)) as [->|Hne]; simpl.
    + eexists. split_and!; [..|by rewrite lookup_insert_eq|set_solver]; lia.
    + unfold queue_at. simpl. rewrite lookup_insert_ne by done. f_equal. apply bool_decide_ext. set_solver.
  - split; [lia|]. unfold left_by. rewrite filter_cons. simpl.
    destruct (decide (other = email)) as [->|Hne]; simpl; [apply lookup_delete_eq|].
    unfold queue_at. simpl. by rewrite lookup_delete_ne.
Qed.

Lemma others_moved email events w w' : others email events w w' → moved email events (w_svc w) (w_svc w').
Proof.
  induction 1 as [w|event events w w' _ IH|events w w1 w' Hn Hq _ IH]; [by apply moved_still|..].
  - apply (moved_trans email [event]) with (2 := IH). apply moved_event.
  - apply (moved_trans email []) with (2 := IH). by apply moved_still.
Qed.

Lemma run_call_svc c w : w_svc (run_call c w).1 = w_svc w.
Proof.
  destruct c; simpl; unfold on_xray; [by destruct (push_add _ _ _)|by destruct (push_remove _ _ _)].
Qed.

Lemma logFailure_moved email e w : moved email [] (w_svc w) (w_svc (logFailure e w).1).
Proof.
  destruct (logFailure_queue e w) as [Hp Hf]. apply moved_still.
  - unfold logFailure, put_svc, modify. simpl. by destruct (String.eqb _ _).
  - unfold queue_at. by rewrite Hp, Hf.
Qed.

Lemma pushes_moved email change events calls ops w failed w' :
  pushes email change events calls ops w failed w' → moved email events (w_svc w) (w_svc w').
Proof.
  induction 1 as [w|events1 events2 calls ops w w1 failed w' Ho _ IH|? ? ? ? ? ? _ _ IH|? ? ? ? ? ? _ _ IH
    |events c calls ops w w1 failed w' Hc _ IH|events1 events2 c calls ops w w1 e w2 w' Hc Ho1 Ho2].
  - by apply moved_still.
  - by apply (moved_trans _ _ _ _ (w_svc w1)); [apply others_moved|].
  - exact IH.
  - exact IH.
  - pose proof (run_call_svc c w) as Hs. rewrite Hc in Hs. by rewrite <-Hs.
  - pose proof (run_call_svc c w) as Hs. rewrite Hc in Hs. simpl in Hs. rewrite <-Hs.
    apply (moved_trans _ _ _ _ (w_svc w2)); [by apply others_moved|].
    apply (moved_trans _ [] _ _ _ _ (logFailure_moved email e w2)). by apply others_moved.
Qed.

Lemma last_concerning email events :
  Exists (λ event, event_email event = email) events →
  ∃ event, last (filter (λ event, event_email event = email) events) = Some event.
Proof.
  intros (event & Hin & He)%Exists_exists.
  destruct (last (filter _ events)) as [last|] eqn:E; [by eexists|]. apply last_None in E.
  assert (event ∈ filter (λ event, event_email event = email) events) as Hf by by apply list_elem_of_filter.
  rewrite E in Hf. by apply not_elem_of_nil in Hf.
Qed.

(** A place an event touched no longer holds the change. *)
Lemma left_superseded email change events s s' :
  gens_ok s → sv_pending s !! email = Some change →
  Exists (λ event, event_email event = email) events → left_by email events s s' →
  supersededLocked email (pc_gen change) s' = true.
Proof.
  intros [_ Hg] Hp [event E]%last_concerning Hl. specialize (Hg email change Hp).
  unfold left_by in Hl. rewrite E in Hl. unfold supersededLocked. destruct event as [record ops purge|other].
  - destruct Hl as (gen & Hgen & -> & _). simpl. apply negb_true_iff. lia.
  - by rewrite Hl.
Qed.

Lemma left_by_end email events s s' :
  let concerns event := event_email event = email in
  Exists concerns events → left_by email events s s' →
  match last (filter concerns events) with
  | Some (Queued record ops purge) =>
      (∃ gen, sv_pending s' !! email =
         Some {| pc_id := rec_client_id record; pc_ops := ops; pc_gen := gen; pc_purge := purge |}) ∧
      email ∉ sv_failed s'
  | _ => sv_pending s' !! email = None
  end.
Proof.
  intros concerns [event E]%last_concerning Hl. unfold left_by in Hl. unfold concerns. rewrite E in *.
  destruct event; [|done]. destruct Hl as (gen & _ & Hp & Hf). split; [by exists gen|done].
Qed.

(** With nobody else about, a turn is the pass's own step. *)
Lemma op_calls_run email change op w w' r :
  is_Some (findManaged (w_view w) (po_tag op)) → push_op email change op w = (w', r) →
  ∀ ops, (∀ failed w'', r = None → pushes email change [] [] ops w' failed w'' →
                      pushes email change [] (op_calls email change op) ops w failed w'') ∧
         ∀ e, r = Some e →
           pushes email change [] (op_calls email change op) ops w true (logFailure e w').1.
Proof.
  intros [inbound Hm]. unfold push_op, mbind, M_bind, gets. rewrite Hm.
  set (user := {| mu_email := email; mu_id := pc_id change; mu_flow := po_flow op |}).
  assert (∀ c calls ops w w1 e, run_call c w = (w1, Some e) →
    pushes email change [] (c :: calls) ops w true (logFailure e w1).1) as Hfail.
  { intros c calls ops v v1 e Hc. apply (PushesFail email change [] [] c calls ops v v1 e v1); [done|constructor..]. }
  unfold op_calls. destruct (po_kind op); intros Hr ops.
  - split; [intros failed w'' -> Hk; by eapply PushesCall|intros e ->; by apply Hfail].
  - split; [intros failed w'' -> Hk; by eapply PushesCall|intros e ->; by apply Hfail].
  - destruct (on_xray (push_remove (po_tag op) email) w) as [w1 [e|]] eqn:E.
    + injection Hr as <- <-. split; [done|]. intros e' [= <-]. by apply Hfail.
    + split; [intros failed w'' -> Hk|intros e ->]; (eapply PushesCall; [exact E|]);
        [by eapply PushesCall|by apply Hfail].
Qed.

Lemma push_ops_alone email change ops w :
  let (w1, r) := push_ops email change ops w in
  match r with
  | None => pushes email change [] [] ops w false w1
  | Some e => pushes email change [] [] ops w true (logFailure e w1).1
  end.
Proof.
  revert w. induction ops as [|op ops IH]; intros w; [apply PushesDone|]. simpl.
  unfold mbind, M_bind. destruct (push_op email change op w) as [w1 r] eqn:E.
  destruct (findManaged (w_view w) (po_tag op)) as [inbound|] eqn:Hm.
  - destruct (op_calls_run email change op w w1 r) with (ops := ops) as [Hok Hfail]; [by eexists|done|].
    destruct r as [e|]; simpl; [eapply PushesOpen; [by eexists|by apply Hfail]|].
    specialize (IH w1). destruct (push_ops email change ops w1) as [w2 [e|]];
      (eapply PushesOpen; [by eexists|by apply Hok]).
  - unfold push_op, mbind, M_bind, gets in E. rewrite Hm in E. injection E as <- <-. simpl.
    specialize (IH w). destruct (push_ops email change ops w) as [w2 [e|]]; by apply PushesSkip.
Qed.

Lemma superseded_queue email gen s s' :
  sv_pending s' = sv_pending s → supersededLocked email gen s' = supersededLocked email gen s.
Proof. unfold supersededLocked. by intros ->. Qed.

Lemma settle_other email change failed w other :
  other ≠ email →
  queue_at other (w_svc (settle email change failed w).1) = queue_at other (w_svc w).
Proof.
  intros Hne. unfold settle, mbind, M_bind, gets. unfold queue_at.
  destruct failed; destruct (supersededLocked _ _ _); try done.
  - unfold put_svc, modify. simpl. f_equal. apply bool_decide_ext. set_solver.
  - unfold put_svc, modify. simpl. destruct (pc_purge change).
    + unfold finishDelete, mbind, M_bind, on_collector, on_store, modify. simpl.
      destruct (st_PurgeRosterUser _ _) as [s [?|e]]; simpl.
      * rewrite lookup_delete_ne by done. f_equal. apply bool_decide_ext. set_solver.
      * destruct (String.eqb _ _); simpl; rewrite lookup_insert_ne, lookup_delete_ne by done;
          f_equal; apply bool_decide_ext; set_solver.
    + simpl. rewrite lookup_delete_ne by done. f_equal. apply bool_decide_ext. set_solver.
Qed.

Lemma apply_change_eq email change w :
  supersededLocked email (pc_gen change) (w_svc w) = false →
  apply_change (email, change) w =
    let (w1, r) := push_ops email change (pc_ops change) w in
    match r with
    | Some e => settle email change true (logFailure e w1).1
    | None => settle email change false w1
    end.
Proof.
  intros Hs. unfold apply_change, mbind, M_bind, gets. rewrite Hs.
  by destruct (push_ops _ _ _ _) as [w1 [e|]].
Qed.

Lemma apply_change_turn email change w : turn email change [] w (apply_change (email, change) w).1.
Proof.
  destruct (supersededLocked email (pc_gen change) (w_svc w)) eqn:Hs.
  { rewrite apply_change_superseded by done. by apply TurnSkipped. }
  rewrite apply_change_eq by done. pose proof (push_ops_alone email change (pc_ops change) w) as Hp.
  destruct (push_ops email change (pc_ops change) w) as [w1 [e|]]; by apply TurnPushed.
Qed.

(** C16: a mutation during a pass is never settled away. Take a pass that
    snapshotted a user's change and then comes to the user's turn, with the
    other actors free to act before the turn and between any two of its calls
    to xray, and at least one mutation that queues or takes a change of this
    user among them. If such a mutation came before the turn, the turn does
    nothing at all. If it came while the turn was pushing, the remaining calls
    of the old change are still made (the code looks once, before the first),
    but the turn ends where its pushes end: it settles nothing, marks nothing
    failed and purges nothing. Either way the queue holds for the user exactly
    what the last of the mutations left, the whole newer change, not marked
    failed, or nothing when it was taken. A turn in which nobody else acts is
    the pass's own step. *)
Theorem newer_change_survives_pass email change before during w w0 w' :
  gens_ok (w_svc w) → sv_pending (w_svc w) !! email = Some change →
  sv_nextGen (w_svc w) + Z.of_nat (length (before ++ during)) < u64_mod →
  others email before w w0 → turn email change during w0 w' →
  let concerns event := event_email event = email in
  Exists concerns (before ++ during) →
  (Exists concerns before → during = [] ∧ w' = w0) ∧
  (during = [] ∧ w' = w0 ∨ ∃ failed, pushes email change during [] (pc_ops change) w0 failed w') ∧
  match last (filter concerns (before ++ during)) with
  | Some (Queued record ops purge) =>
      (∃ gen, sv_pending (w_svc w') !! email =
         Some {| pc_id := rec_client_id record; pc_ops := ops; pc_gen := gen; pc_purge := purge |}) ∧
      email ∉ sv_failed (w_svc w')
  | _ => sv_pending (w_svc w') !! email = None
  end ∧
  turn email change [] w0 (apply_change (email, change) w0).1.
Proof.
  intros Hg Hp Hb Ho Ht concerns Hex.
  assert (moved email before (w_svc w) (w_svc w0)) as Hm0 by by apply others_moved.
  rewrite length_app in Hb. destruct Hm0 as [Hle Hl0]; [apply Hg|lia|].
  assert (∀ s', left_by email (before ++ during) (w_svc w) s' →
    match last (filter concerns (before ++ during)) with
    | Some (Queued record ops purge) =>
        (∃ gen, sv_pending s' !! email =
           Some {| pc_id := rec_client_id record; pc_ops := ops; pc_gen := gen; pc_purge := purge |}) ∧
        email ∉ sv_failed s'
    | _ => sv_pending s' !! email = None
    end) as Hend.
  { intros s'. by apply (left_by_end email _ (w_svc w)). }
  destruct Ht as [w0 Hs|during w0 failed w1 Hs Hpush].
  - rewrite app_nil_r in *. split_and!; [done|by left|by apply Hend|apply apply_change_turn].
  - assert (left_by email (before ++ during) (w_svc w) (w_svc w1)) as Hl.
    { apply (moved_trans email before during _ (w_svc w0)); [by apply others_moved| |apply Hg|rewrite length_app; lia].
      by eapply pushes_moved. }
    pose proof (left_superseded email change _ _ _ Hg Hp Hex Hl) as Hs1.
    rewrite (settle_superseded email change failed w1 Hs1). split_and!.
    + intros Hbefore. rewrite (left_superseded email change before _ _ Hg Hp Hbefore Hl0) in Hs. done.
    + right. by exists failed.
    + by apply Hend.
    + apply apply_change_turn.
Qed.

(** The world a turn settles in keeps the queue of the world it started in. *)
Lemma turn_queue email change w :
  let (w1, r) := push_ops email change (pc_ops change) w in
  w_svc w1 = w_svc w ∧
  ∀ e, sv_pending (w_svc (logFailure e w1).1) = sv_pending (w_svc w) ∧
       sv_failed (w_svc (logFailure e w1).1) = sv_failed (w_svc w).
Proof.
  pose proof (push_ops_frame email change (pc_ops change) w) as Hf.
  destruct (push_ops email change (pc_ops change) w) as [w1 r]. destruct Hf as (Hs & _).
  simpl in Hs. split; [done|]. intros e. rewrite <-Hs. apply logFailure_queue.
Qed.

Lemma apply_change_other email change w other :
  other ≠ email →
  queue_at other (w_svc (apply_change (email, change) w).1) = queue_at other (w_svc w).
Proof.
  intros Hne. destruct (supersededLocked email (pc_gen change) (w_svc w)) eqn:Hs.
  { by rewrite apply_change_superseded. }
  rewrite apply_change_eq by done. pose proof (turn_queue email change w) as Hq.
  destruct (push_ops email change (pc_ops change) w) as [w1 [e|]]; destruct Hq as [Hw Hl];
    rewrite settle_other by done; unfold queue_at.
  - by destruct (Hl e) as [-> ->].
  - by rewrite Hw.
Qed.

(** Settled or failed: what a waiter is told after the pass. *)
Definition answered (email : string) (s : Service) : Prop :=
  sv_pending s !! email = None ∨ email ∈ sv_failed s.

Lemma queue_at_pending e s s' :
  queue_at e s = queue_at e s' → sv_pending s !! e = sv_pending s' !! e.
Proof. unfold queue_at. congruence. Qed.

Lemma queue_at_answered e s s' : queue_at e s = queue_at e s' → answered e s' → answered e s.
Proof.
  unfold queue_at, answered. intros [= -> Hf] [?|Hin]; [by left|right].
  apply (bool_decide_eq_true (e ∈ sv_failed s)). rewrite Hf. by apply bool_decide_eq_true.
Qed.

Lemma settle_answered email change failed w :
  sv_pending (w_svc w) !! email = Some change → answered email (w_svc (settle email change failed w).1).
Proof.
  intros Hp. unfold settle, mbind, M_bind, gets, answered, supersededLocked. rewrite Hp.
  rewrite Z.eqb_refl. simpl. destruct failed.
  - right. unfold put_svc, modify. simpl. set_solver.
  - unfold put_svc, modify. simpl. destruct (pc_purge change).
    + unfold finishDelete, mbind, M_bind, on_collector, on_store, modify. simpl.
      destruct (st_PurgeRosterUser _ _) as [s [?|e]]; simpl.
      * left. apply lookup_delete_eq.
      * right. destruct (String.eqb _ _); simpl; set_solver.
    + left. apply lookup_delete_eq.
Qed.

Lemma apply_change_answered email change w :
  sv_pending (w_svc w) !! email = Some change →
  answered email (w_svc (apply_change (email, change) w).1).
Proof.
  intros Hp. rewrite apply_change_eq by (unfold supersededLocked; by rewrite Hp, Z.eqb_refl).
  pose proof (turn_queue email change w) as Hq.
  destruct (push_ops email change (pc_ops change) w) as [w1 [e|]]; destruct Hq as [Hw Hl];
    apply settle_answered; [by destruct (Hl e) as [-> _]|by rewrite Hw].
Qed.

(** ** The whole pass *)

Definition fair_world w : Prop := ∀ A (l : list A), w_visit w A l ≡ₚ l.

Lemma forM_cons {A} (x : A) l (f : A → M World ()) w : forM (x :: l) f w = forM l f (f x w).1.
Proof. simpl. unfold mbind, M_bind. by destruct (f x w) as [w1 []]. Qed.

Lemma forM_apply_queue l w other :
  other ∉ l.*1 →
  queue_at other (w_svc (forM l apply_change w).1) = queue_at other (w_svc w).
Proof.
  revert w. induction l as [|[email change] l IH]; intros w Hn; [done|].
  rewrite forM_cons, IH by (intros Hin; apply Hn; by right).
  apply apply_change_other. intros ->. apply Hn. by left.
Qed.

Lemma forM_apply_answered l w :
  NoDup l.*1 → (∀ email change, (email, change) ∈ l → sv_pending (w_svc w) !! email = Some change) →
  ∀ email change, (email, change) ∈ l → answered email (w_svc (forM l apply_change w).1).
Proof.
  revert w. induction l as [|[e0 c0] l IH]; intros w Hnd Hq email change Hin.
  { by apply not_elem_of_nil in Hin. }
  rewrite fmap_cons in Hnd. apply NoDup_cons in Hnd as [Hn Hnd]. rewrite forM_cons.
  apply elem_of_cons in Hin as [[= -> ->]|Hin].
  - apply (queue_at_answered _ _ _ (forM_apply_queue l _ e0 Hn)).
    apply apply_change_answered, Hq. by left.
  - apply (IH _ Hnd) with change; [|done]. intros e c Hec.
    assert (e ≠ e0) as Hne.
    { intros E. apply Hn. rewrite <-E. by apply (list_elem_of_fmap_2 fst l (e, c)). }
    rewrite (queue_at_pending _ _ _ (apply_change_other e0 c0 w e Hne)). apply Hq. by right.
Qed.

Lemma queue_entries w email change :
  fair_world w →
  (email, change) ∈ w_visit w _ (map_to_list (sv_pending (w_svc w))) ↔
    sv_pending (w_svc w) !! email = Some change.
Proof. intros Hf. rewrite (Hf _ _). apply elem_of_map_to_list. Qed.

Lemma on_file_frame {A} (f : R → R * A) w :
  let w' := (on_file f w).1 in
  w_svc w' = w_svc w ∧ w_store w' = w_store w ∧ w_xray w' = w_xray w ∧
  w_collector w' = w_collector w ∧ w_view w' = w_view w ∧ w_visit w' = w_visit w.
Proof. unfold on_file. destruct (f (w_file w)). cbv zeta. by repeat split. Qed.

(** Marking a snapshot failed. *)
Lemma apply_failed_marks l w :
  (∀ email change, (email, change) ∈ l → sv_pending (w_svc w) !! email = Some change) →
  let w' := (forM l (λ entry, put_svc (λ s,
    if supersededLocked entry.1 (pc_gen entry.2) s then s else mark_failed entry.1 s)) w).1 in
  sv_pending (w_svc w') = sv_pending (w_svc w) ∧
  sv_failed (w_svc w') = sv_failed (w_svc w) ∪ list_to_set l.*1 ∧
  w_xray w' = w_xray w ∧ w_store w' = w_store w ∧ w_collector w' = w_collector w.
Proof.
  revert w. induction l as [|[email change] l IH]; intros w Hq; cbv zeta.
  { simpl. split_and!; try done. set_solver. }
  rewrite forM_cons.
  set (w1 := (put_svc _ w).1).
  assert (sv_pending (w_svc w1) = sv_pending (w_svc w) ∧
          sv_failed (w_svc w1) = {[email]} ∪ sv_failed (w_svc w) ∧
          w_xray w1 = w_xray w ∧ w_store w1 = w_store w ∧ w_collector w1 = w_collector w)
    as (Hp & Hf & Hx & Hs & Hc).
  { unfold w1, put_svc, modify. simpl. unfold supersededLocked.
    rewrite (Hq email change) by (by left). rewrite Z.eqb_refl. done. }
  destruct (IH w1) as (Hp' & Hf' & Hx' & Hs' & Hc').
  { intros e c Hin. rewrite Hp. apply Hq. by right. }
  rewrite Hp', Hf', Hx', Hs', Hc', Hp, Hf, Hx, Hs, Hc. split_and!; try done.
  rewrite fmap_cons. simpl. set_solver.
Qed.

Lemma snapshot_render_failed pending w w0 e :
  pending ≠ [] → on_file (st_Render (render_plan pending)) w = (w0, Err e) →
  apply_snapshot pending w = broadcast (apply_failed pending (logFailure e w0).1).1.
Proof.
  intros Hne E. unfold apply_snapshot. destruct pending as [|entry rest]; [done|].
  unfold mbind, M_bind. rewrite E. destruct (logFailure e w0) as [w1 []]. simpl.
  by destruct (apply_failed _ w1) as [w2 []].
Qed.

Lemma snapshot_rendered pending w w0 b :
  pending ≠ [] → on_file (st_Render (render_plan pending)) w = (w0, Ok b) →
  let w1 := (forM (w_visit w0 _ pending) apply_change w0).1 in
  let w2 := (apply_snapshot pending w).1 in
  sv_pending (w_svc w2) = sv_pending (w_svc w1) ∧ sv_failed (w_svc w2) = sv_failed (w_svc w1).
Proof.
  intros Hne E. unfold apply_snapshot. destruct pending as [|entry rest]; [done|].
  unfold mbind, M_bind. rewrite E. unfold gets. destruct (forM _ apply_change w0) as [w1 []].
  unfold broadcast, put_svc, modify. simpl. by destruct (_ && _).
Qed.

(** A failed pass over the whole queue. *)
Lemma failed_pass w w0 e :
  let pending := w_visit w _ (map_to_list (sv_pending (w_svc w))) in
  fair_world w → pending ≠ [] → on_file (st_Render (render_plan pending)) w = (w0, Err e) →
  let w' := (apply_snapshot pending w).1 in
  sv_pending (w_svc w') = sv_pending (w_svc w) ∧
  sv_failed (w_svc w') = sv_failed (w_svc w) ∪ dom (sv_pending (w_svc w)) ∧
  w_xray w' = w_xray w ∧ w_store w' = w_store w ∧ w_collector w' = w_collector w.
Proof.
  intros pending Hf Hne E w'. unfold w'. rewrite (snapshot_render_failed _ _ _ _ Hne E).
  pose proof (on_file_frame (st_Render (render_plan pending)) w) as Hfr. rewrite E in Hfr.
  simpl in Hfr. destruct Hfr as (Hs0 & Hst0 & Hx0 & Hc0 & _ & Hv0).
  assert (pending ≡ₚ map_to_list (sv_pending (w_svc w))) as Hperm by apply Hf.
  pose proof (logFailure_queue e w0) as [E1 E2].
  pose proof (logFailure_rest e w0) as (R1 & _ & R2 & R3 & _ & R4).
  set (w1 := (logFailure e w0).1) in *. clearbody w1.
  unfold apply_failed, mbind, M_bind, gets.
  pose proof (apply_failed_marks (w_visit w1 _ pending) w1) as Hm. cbv zeta in Hm.
  assert (∀ x, x ∈ w_visit w1 _ pending ↔ x ∈ map_to_list (sv_pending (w_svc w))) as Hin.
  { intros x. by rewrite R4, Hv0, (Hf _ pending), Hperm. }
  destruct Hm as (Hp & Hfl & Hx & Hs & Hc).
  { intros email change Hec. rewrite E1, Hs0. by apply elem_of_map_to_list, Hin. }
  destruct (forM _ _ w1) as [w2 []]. simpl in *. rewrite Hp, Hfl, Hx, Hs, Hc, E1, E2, R1, R2, R3.
  rewrite Hs0, Hst0, Hx0, Hc0. split_and!; try done. f_equal. apply set_eq. intros x.
  rewrite elem_of_list_to_set, elem_of_dom, list_elem_of_fmap. split.
  - intros ([k c] & -> & Hkc%Hin). apply elem_of_map_to_list in Hkc. by exists c.
  - intros [c Hxc]. exists (x, c). split; [done|]. by apply Hin, elem_of_map_to_list.
Qed.

Lemma queue_nonempty w :
  fair_world w → sv_pending (w_svc w) ≠ ∅ →
  w_visit w _ (map_to_list (sv_pending (w_svc w))) ≠ [].
Proof.
  intros Hf Hne E. apply Hne. pose proof (Hf _ (map_to_list (sv_pending (w_svc w)))) as Hp.
  rewrite E in Hp. apply Permutation_nil in Hp. by apply map_to_list_empty_iff in Hp.
Qed.

(** No file, no push. When the plan cannot be rendered into the config
    file, the pass touches neither the running xray nor the store; every
    queued change stays queued and every one of its users is marked failed. *)
Theorem render_failure_pushes_nothing w r e :
  fair_world w → sv_pending (w_svc w) ≠ ∅ →
  st_Render (render_plan (w_visit w _ (map_to_list (sv_pending (w_svc w))))) (w_file w) = (r, Err e) →
  let w' := (apply w).1 in
  w_xray w' = w_xray w ∧ w_store w' = w_store w ∧ w_collector w' = w_collector w ∧
  sv_pending (w_svc w') = sv_pending (w_svc w) ∧
  sv_failed (w_svc w') = sv_failed (w_svc w) ∪ dom (sv_pending (w_svc w)).
Proof.
  intros Hf Hne Hr. unfold apply, snapshot_queue, gets, mbind, M_bind.
  set (pending := w_visit w _ _) in *.
  destruct (on_file (st_Render (render_plan pending)) w) as [w0 res] eqn:E.
  assert (res = Err e) as ->.
  { unfold on_file in E. rewrite Hr in E. by injection E as _ <-. }
  destruct (failed_pass w w0 e Hf (queue_nonempty w Hf Hne) E) as (? & ? & ? & ? & ?). done.
Qed.


(** ** The plan *)

(** The operations of one kind on one tag, in the order of the pass. *)
Definition planned {A} (f : string → pendingChange → pushOp → A) (kind : opKind) (tag : string)
    (pending : list (string * pendingChange)) : list A :=
  pending ≫= λ entry,
    f entry.1 entry.2 <$> filter (λ op, po_kind op = kind ∧ po_tag op = tag) (pc_ops entry.2).

Lemma push_back_lookup {A} tag (v : A) m t :
  default [] (push_back tag v m !! t) = default [] (m !! t) ++ (if String.eqb tag t then [v] else []).
Proof.
  unfold push_back. destruct (String.eqb_spec tag t) as [->|Hne].
  - by rewrite lookup_insert_eq.
  - rewrite lookup_insert_ne by done. by rewrite app_nil_r.
Qed.

Lemma plan_ops_spec email change ops plan tag :
  let plan' := foldl (plan_op email change) plan ops in
  let part {A} (f : string → pendingChange → pushOp → A) kind :=
    f email change <$> filter (λ op, po_kind op = kind ∧ po_tag op = tag) ops in
  default [] (pl_adds plan' !! tag) = default [] (pl_adds plan !! tag) ++ part client_op opAttach ∧
  default [] (pl_removes plan' !! tag) =
    default [] (pl_removes plan !! tag) ++ part (λ e _ _, e) opDetach ∧
  default [] (pl_sets plan' !! tag) = default [] (pl_sets plan !! tag) ++ part client_op opRotate.
Proof.
  cbv zeta. revert plan. induction ops as [|op ops IH]; intros plan; simpl; [by rewrite !app_nil_r|].
  destruct (IH (plan_op email change plan op)) as (-> & -> & ->). clear IH.
  rewrite !filter_cons. unfold plan_op.
  destruct (String.eqb_spec (po_tag op) tag) as [Ht|Ht].
  - destruct (po_kind op); simpl; rewrite !push_back_lookup;
      rewrite (proj2 (String.eqb_eq _ _) Ht);
      repeat (rewrite decide_True by done || rewrite decide_False by naive_solver);
      rewrite ?fmap_cons, <-?app_assoc; done.
  - apply String.eqb_neq in Ht as Hb.
    destruct (po_kind op); simpl; rewrite !push_back_lookup, Hb;
      repeat (rewrite decide_False by naive_solver); rewrite ?app_nil_r; done.
Qed.

(** The file is planned from the very operations the pass pushes. For
    every inbound, the clients to append, the emails to drop and the ids to
    rewrite are the attaches, detaches and rotates of the snapshot on that
    tag, in the pass's order, each with its change's Client ID: what goes
    live is what the file was asked to lead with. *)
Theorem render_plan_is_the_pushes pending tag :
  let plan := render_plan pending in
  default [] (pl_adds plan !! tag) = planned client_op opAttach tag pending ∧
  default [] (pl_removes plan !! tag) = planned (λ email _ _, email) opDetach tag pending ∧
  default [] (pl_sets plan !! tag) = planned client_op opRotate tag pending.
Proof.
  cbv zeta. unfold render_plan.
  enough (∀ plan,
    default [] (pl_adds (foldl plan_change plan pending) !! tag) =
      default [] (pl_adds plan !! tag) ++ planned client_op opAttach tag pending ∧
    default [] (pl_removes (foldl plan_change plan pending) !! tag) =
      default [] (pl_removes plan !! tag) ++ planned (λ email _ _, email) opDetach tag pending ∧
    default [] (pl_sets (foldl plan_change plan pending) !! tag) =
      default [] (pl_sets plan !! tag) ++ planned client_op opRotate tag pending) as Hall
    by apply (Hall emptyPlan).
  induction pending as [|[email change] pending IH]; intros plan; [by rewrite !app_nil_r|].
  simpl. destruct (IH (plan_change plan (email, change))) as (-> & -> & ->). clear IH.
  unfold plan_change. simpl.
  destruct (plan_ops_spec email change (pc_ops change) plan tag) as (-> & -> & ->).
  by rewrite <-!app_assoc.
Qed.

(** ** Delete *)

Lemma settle_purge email change w s' res :
  sv_pending (w_svc w) !! email = Some change → pc_purge change = true →
  st_PurgeRosterUser email (w_store w) = (s', res) →
  let w' := (settle email change false w).1 in
  w_store w' = s' ∧ w_collector w' = st_Purge email (w_collector w) ∧ w_xray w' = w_xray w ∧
  match res with
  | Ok _ => sv_pending (w_svc w') !! email = None ∧ email ∉ sv_failed (w_svc w')
  | Err _ => sv_pending (w_svc w') !! email =
      Some {| pc_id := pc_id change; pc_ops := []; pc_gen := pc_gen change; pc_purge := true |} ∧
      email ∈ sv_failed (w_svc w')
  end.
Proof.
  intros Hq Hp Hs. unfold settle, mbind, M_bind, gets.
  unfold supersededLocked. rewrite Hq, Z.eqb_refl. simpl. rewrite Hp.
  unfold finishDelete, mbind, M_bind, on_collector, on_store, modify. simpl. rewrite Hs.
  destruct res as [?|e]; simpl.
  - split_and!; try done; [apply lookup_delete_eq|set_solver].
  - split_and!; try done; destruct (String.eqb _ _); simpl; first [apply lookup_insert_eq|set_solver].
Qed.


(** ** The handlers *)

Lemma dedupe_fold st tags :
  NoDup st.2 → (∀ tag, tag ∈ st.1 ↔ tag ∈ st.2) →
  let st' := foldl (λ (st : gset string * list string) tag,
    if bool_decide (tag ∈ st.1) then st else ({[tag]} ∪ st.1, st.2 ++ [tag])) st tags in
  NoDup st'.2 ∧ ∀ tag, tag ∈ st'.2 ↔ tag ∈ st.2 ∨ tag ∈ tags.
Proof.
  revert st. induction tags as [|tag tags IH]; intros [seen l] Hnd Hs; simpl in *.
  { split; [done|]. intros t. rewrite elem_of_nil. tauto. }
  case_bool_decide as Hin.
  - destruct (IH (seen, l) Hnd Hs) as [? Hmem]. split; [done|]. intros t. rewrite Hmem, elem_of_cons.
    simpl. rewrite Hs in Hin. split; [tauto|]. intros [?|[->|?]]; auto.
  - destruct (IH ({[tag]} ∪ seen, l ++ [tag])) as [? Hmem]; simpl.
    + apply NoDup_app. split_and!; [done| |apply NoDup_singleton].
      intros t Ht ->%list_elem_of_singleton. by apply Hin, Hs.
    + intros t. rewrite elem_of_union, elem_of_singleton, elem_of_app, list_elem_of_singleton, Hs. tauto.
    + split; [done|]. intros t. rewrite Hmem. simpl.
      rewrite elem_of_app, list_elem_of_singleton, elem_of_cons. tauto.
Qed.

Lemma dedupeOrder_spec tags :
  NoDup (dedupeOrder tags) ∧ ∀ tag, tag ∈ dedupeOrder tags ↔ tag ∈ tags.
Proof.
  destruct (dedupe_fold (∅, []) tags) as [? Hmem]; [constructor|set_solver|].
  split; [done|]. intros tag. unfold dedupeOrder. rewrite Hmem. simpl. rewrite elem_of_nil. tauto.
Qed.

Lemma attach_all_spec view tags ops :
  attach_all view tags = Some ops →
  po_tag <$> ops = tags ∧ ∀ op, op ∈ ops → po_kind op = opAttach ∧
    ∃ inbound, findManaged view (po_tag op) = Some inbound ∧ po_flow op = DefaultFlow inbound.
Proof.
  revert ops. induction tags as [|tag tags IH]; intros ops; simpl.
  { intros [= <-]. split; [done|]. intros op Hop. by apply not_elem_of_nil in Hop. }
  destruct (findManaged view tag) as [inbound|] eqn:Ef; [|done]. simpl.
  destruct (attach_all view tags) as [ops'|]; [|done]. simpl. intros [= <-].
  destruct (IH ops' eq_refl) as [Ht Hops]. split; [by rewrite fmap_cons, Ht|].
  intros op [->|Hop]%elem_of_cons; [|auto]. split; [done|]. exists inbound. done.
Qed.

(** The queue after a change of the record is queued. *)
Definition queued_after (record : RosterRecord) (ops : list pushOp) (purge : bool) (s s' : Service)
    : Prop :=
  sv_pending s' = <[rec_email record := {| pc_id := rec_client_id record; pc_ops := ops;
    pc_gen := u64_add (sv_nextGen s) 1; pc_purge := purge |}]> (sv_pending s) ∧
  sv_failed s' = sv_failed s ∖ {[rec_email record]} ∧ sv_kick s' = true.

Lemma enqueueGen_queued record ops purge w :
  let w' := (enqueueGen record ops purge w).1 in
  queued_after record ops purge (w_svc w) (w_svc w') ∧
  w_store w' = w_store w ∧ w_file w' = w_file w ∧ w_xray w' = w_xray w.
Proof. by repeat split. Qed.

(** An add stores and queues exactly the request. A refused or failed
    add leaves the queue, the file and the xray as they were. An accepted one
    has a non-blank email, a canonical Client ID (the request's, or a fresh
    one), only managed inbounds without repetition; the store took exactly
    that user, and the queue holds one attach per inbound with the inbound's
    default flow, or nothing for a user without inbounds. *)
Theorem add_stores_and_queues email clientID inbounds w :
  let (w', res) := Add email clientID inbounds w in
  w_file w' = w_file w ∧ w_xray w' = w_xray w ∧
  match res with
  | Err _ => w_svc w' = w_svc w
  | Ok r => ∃ id ops,
      trim_space email ≠ ""%string ∧
      (if String.eqb (trim_space clientID) "" then id = w_uuid w
       else uuid_Parse (trim_space clientID) = Some id) ∧
      NoDup (po_tag <$> ops) ∧ (∀ tag, tag ∈ po_tag <$> ops ↔ tag ∈ inbounds) ∧
      (∀ op, op ∈ ops → po_kind op = opAttach ∧ ∃ inbound,
         findManaged (w_view w) (po_tag op) = Some inbound ∧ po_flow op = DefaultFlow inbound) ∧
      st_AddRosterUser {| nu_email := trim_space email; nu_client_id := id;
        nu_inbounds := po_tag <$> ops; nu_labels := seedLabels (w_view w) ops |} (w_now w) (w_store w) =
        (w_store w', Ok (mr_user r)) ∧
      (if bool_decide (ops = []) then w_svc w' = w_svc w
       else queued_after (mr_user r) ops false (w_svc w) (w_svc w') ∧
            mr_sync r = WaitFor (rec_email (mr_user r)))
  end.
Proof.
  unfold Add, refuse, answer, gets, mbind, M_bind, mret, M_ret.
  destruct (String.eqb_spec (trim_space email) "") as [He|He]; [done|].
  destruct (if String.eqb (trim_space clientID) "" then _ else _) as [id|] eqn:Eid; [|done].
  destruct (attach_all (w_view w) (dedupeOrder inbounds)) as [ops|] eqn:Ea; [|done].
  destruct (attach_all_spec _ _ _ Ea) as [Ht Hops]. destruct (dedupeOrder_spec inbounds) as [Hnd Hmem].
  rewrite <-Ht in Hnd, Hmem. unfold on_store. rewrite <-Ht.
  destruct (st_AddRosterUser _ _ _) as [s' [record|e]] eqn:Est; [|done].
  assert (if String.eqb (trim_space clientID) "" then id = w_uuid w
          else uuid_Parse (trim_space clientID) = Some id) as Hid.
  { destruct (String.eqb _ _); [by injection Eid|done]. }
  destruct ops as [|op ops].
  - simpl. split_and!; [done|done|]. exists id, []. by split_and!.
  - simpl. split_and!; [done|done|]. exists id, (op :: ops). by split_and!.
Qed.

Lemma elem_of_add_tags tags more tag : tag ∈ add_tags tags more ↔ tag ∈ tags ∨ tag ∈ more.
Proof. apply elem_of_append_new_all. Qed.

(** A delete leaves no inbound out. Whatever the store's answers, a
    delete that reports a deletion has queued one purge-marked change for the
    record's own email, made only of detaches, covering every inbound the
    record lists and every inbound the user's unfinished change touched. *)
Theorem delete_covers_unfinished email w w' answer :
  Delete email w = (w', Ok (answer, true)) →
  ∃ record tags,
    answer = WaitFor (rec_email record) ∧
    sv_pending (w_svc w') !! rec_email record =
      Some {| pc_id := rec_client_id record; pc_ops := detachOps tags;
              pc_gen := u64_add (sv_nextGen (w_svc w)) 1; pc_purge := true |} ∧
    (∀ tag, tag ∈ tags ↔ tag ∈ rec_inbounds record ∨
       tag ∈ po_tag <$> pc_ops (default zeroChange (sv_pending (w_svc w) !! trim_space email))) ∧
    w_xray w' = w_xray w ∧ w_file w' = w_file w.
Proof.
  unfold Delete, refuse, Roster.answer, takePending, Sync, gets, mbind, M_bind, mret, M_ret.
  destruct (String.eqb (trim_space email) ""); [done|].
  unfold on_store. destruct (st_RosterRecord (trim_space email) (w_store w)) as [s1 active].
  set (w1 := {| w_svc := w_svc w; w_store := s1 |}).
  destruct (match active with Err ErrRosterNotFound => _ | _ => _ end) as [w2 found] eqn:E2.
  assert (w_svc w2 = w_svc w ∧ w_xray w2 = w_xray w ∧ w_file w2 = w_file w) as (Hs2 & Hx2 & Hf2).
  { destruct active as [r|[| | |]]; simpl in E2; try (injection E2 as <- <-; done).
    destruct (st_DisabledRosterRecord _ _) as [s2 d]. by injection E2 as <- <-. }
  destruct found as [record|[| | |]]; try done. simpl.
  destruct (st_MarkRosterDeleting _ _ _) as [s3 [?|e]]; [|done].
  unfold enqueueDelete, enqueueGen, put_svc, modify. simpl. intros [= <- <-].
  exists record. eexists. split; [done|]. split.
  { simpl. rewrite lookup_insert_eq. by rewrite Hs2. }
  split; [|done]. intros tag. by rewrite elem_of_add_tags, ?Hs2.
Qed.

(** ** Convergence *)

Lemma filter_all {A} (P : A → Prop) `{∀ x, Decision (P x)} (l : list A) :
  (∀ x, x ∈ l → P x) → filter P l = l.
Proof.
  induction l as [|x l IH]; intros Hl; [done|]. rewrite filter_cons, decide_True by (apply Hl; by left).
  f_equal. apply IH. intros y Hy. apply Hl. by right.
Qed.

Lemma live_tags_managed view tag : tag ∈ live_tags view ↔ is_Some (findManaged view tag).
Proof.
  unfold live_tags, findManaged. rewrite elem_of_list_to_set, list_elem_of_fmap. split.
  - intros (ib & -> & [Hm Hin]%list_elem_of_filter).
    destruct (find_first _ _) as [x|] eqn:E; [done|]. rewrite find_first_None in E.
    specialize (E ib Hin). by rewrite String.eqb_refl, Hm in E.
  - intros [ib E]. apply find_first_Some in E as [Hin [Ht Hm]%andb_prop].
    apply String.eqb_eq in Ht. exists ib. split; [done|]. by apply list_elem_of_filter.
Qed.

(** The attaches a record's drifted inbounds need. *)
Definition missing_ops (view : View) (fileTags tags : list string) : list pushOp :=
  attach_managed view (filter (λ tag, tag ∉ fileTags) tags).

Lemma drift_ops_live view fileTags tags :
  (∀ tag, tag ∈ tags → tag ∈ live_tags view) → drift_ops view fileTags tags = missing_ops view fileTags tags.
Proof.
  intros Hl. unfold drift_ops, missing_ops. f_equal.
  induction tags as [|tag tags IH]; [done|]. rewrite !filter_cons.
  rewrite IH by (intros t Ht; apply Hl; by right).
  assert (tag ∈ live_tags view) by (apply Hl; by left).
  destruct (decide (tag ∈ fileTags)).
  - rewrite decide_False by tauto. by rewrite decide_False by tauto.
  - rewrite decide_True by tauto. by rewrite decide_True by tauto.
Qed.


End WithRuntime.
End RosterTheorems.
