(* ===== verification/RosterInstances.v ===== *)
(** * The roster's write path, wired as in production

    The SQLite store and the users collector as the service's store and purge
    notifier, the seed labels against the config parse, and the closed
    examples: witnesses of the theorems and the behaviours that diverge from
    what the code says of itself. *)

From Stdlib Require Import String.
From S2P Require Import Prelude GoJson Reconcile XrayConfig Store StoreProps StoreTheorems Collector Handler Render Roster RosterProps RosterTheorems.

Local Open Scope Z_scope.

Module RosterInstances.
Import XrayConfig Store StoreProps Handler Render Roster RosterProps RosterTheorems.

(** ** The SQLite store behind the seam

    [ss_faults] says which of the next calls find the engine unavailable. *)
Record storeState := { ss_db : db; ss_faults : list bool }.

Definition call {A} (f : db → db * result storeError A) (s : storeState)
    : storeState * result storeError A :=
  match ss_faults s with
  | true :: faults => ({| ss_db := ss_db s; ss_faults := faults |}, Err ErrUnavailable)
  | _ =>
      let (d, r) := f (ss_db s) in
      ({| ss_db := d; ss_faults := tail (ss_faults s) |}, r)
  end.

(** A statement that returns the database it leaves, or an error. *)
Definition writing {A} (r : result storeError (A * db)) (d : db) : db * result storeError A :=
  match r with Ok (a, d') => (d', Ok a) | Err e => (d, Err e) end.

#[export] Instance sqlite_store `{GoRuntime} : RosterStore storeState := {
  st_AddRosterUser user now := call (λ d, writing (AddRosterUser user now d) d);
  st_RosterRecord email := call (λ d, (d, RosterRecord_ email d));
  st_DisabledRosterRecord email := call (λ d, (d, DisabledRosterRecord email d));
  st_RosterRecords := call (λ d, (d, Ok (RosterRecords d)));
  st_EditRosterUser email edit now := call (λ d, writing (EditRosterUser email edit now d) d);
  st_DisableRosterUser email now := call (λ d, (DisableRosterUser email now d, Ok ()));
  st_EnableRosterUser email now := call (λ d, writing (EnableRosterUser email now d) d);
  st_MarkRosterDeleting email now := call (λ d, (MarkRosterDeleting email now d, Ok ()));
  st_PurgeRosterUser email := call (λ d, (PurgeRosterUser email d, Ok ()));
  st_DeletingRosterRecords := call (λ d, (d, Ok (DeletingRosterRecords d)));
}.

#[export] Instance collector_purges : PurgeNotifier Collector.Collector :=
  {| st_Purge := Collector.Purge |}.

(** ** The seed labels *)

Section Seed.
Context `{GoRuntimeLaws}.

(** The config carries the user exactly on the managed inbounds of [flows],
    once each and with that flow. *)
Definition carries (email : string) (flows : gmap string string) (ib : inboundConfig) : Prop :=
  let own := filter (λ c, cc_email c = email) (is_clients (ic_settings ib)) in
  match flows !! ic_tag ib with
  | Some flow =>
      if Managed (buildInbound ib) then ∃ c, own = [c] ∧ cc_flow c = flow else own = []
  | None => own = []
  end.

Lemma managed_protocol ib : Managed (buildInbound ib) = true → ic_protocol ib ≠ ""%string.
Proof.
  unfold Managed. simpl. intros [_ Hf]%andb_prop E. rewrite E in Hf.
  by apply (equal_fold_ascii_inv "" "vless") in Hf.
Qed.

Lemma entries_for_inbound email ib :
  entries_for email (if String.eqb (ic_protocol ib) "" then []
                     else pair ib <$> is_clients (ic_settings ib)) =
    if String.eqb (ic_protocol ib) "" then []
    else pair ib <$> filter (λ c, cc_email c = email) (is_clients (ic_settings ib)).
Proof.
  destruct (String.eqb _ _); [done|]. unfold entries_for.
  induction (is_clients (ic_settings ib)) as [|c cs IH]; [done|].
  rewrite fmap_cons, !filter_cons. simpl. rewrite IH. by case_decide.
Qed.

Lemma seed_fold email flows inbounds acc :
  Forall (carries email flows) inbounds →
  foldl append_new acc ((λ p, client_label p.1 p.2) <$> entries_for email (entries inbounds)) =
    foldl (λ labels inbound,
      match flows !! ib_tag inbound with
      | Some flow =>
          if Managed inbound then append_new labels (inbound_label flow inbound) else labels
      | None => labels
      end) acc (buildInbound <$> inbounds).
Proof.
  intros Hc. revert acc. induction Hc as [|ib inbounds Hib _ IH]; intros acc; [done|].
  unfold entries. simpl. fold (entries inbounds).
  unfold entries_for. rewrite filter_app, fmap_app, foldl_app. fold (entries_for email (entries inbounds)).
  rewrite IH. f_equal. fold (entries_for email (if String.eqb (ic_protocol ib) "" then []
                     else pair ib <$> is_clients (ic_settings ib))).
  rewrite entries_for_inbound. unfold carries in Hib.
  destruct (flows !! ic_tag ib) as [flow|].
  - destruct (Managed (buildInbound ib)) eqn:Em.
    + apply managed_protocol in Em. apply String.eqb_neq in Em. rewrite Em.
      destruct Hib as (c & -> & <-). done.
    + rewrite Hib. by destruct (String.eqb _ _).
  - rewrite Hib. by destruct (String.eqb _ _).
Qed.

(** The labels seeded when a change is stored are the labels the next
    parse resyncs. Once the config carries the user exactly on the managed
    inbounds of the change, each with the change's flow, the parsed label
    list of that email is the seeded one, order and collapsing included. *)
Theorem seed_is_the_resync cfg email ops :
  email ≠ ""%string → Forall (carries email (attach_flows ops)) (cfg_inbounds cfg) →
  default [] (u_labels <$> (default ∅ (rp_labels (buildRosterParse cfg)) !! email)) =
    seedLabels (buildView cfg) ops.
Proof.
  intros He Hc. unfold seedLabels, buildView. simpl. rewrite <-(seed_fold email) by done.
  unfold buildRosterParse. rewrite roster_fold.
  pose proof (roster_state_spec (entries (cfg_inbounds cfg)) _ email eq_refl He) as [Hl _].
  destruct (foldl _ _ _) as [labels clients]. simpl in *. rewrite Hl.
  unfold user_of. destruct (entries_for _ _) eqn:E; [done|]. by rewrite <-E.
Qed.

End Seed.

End RosterInstances.
