(* ===== verification/RosterExamples.v ===== *)
(** * The roster's write path on concrete worlds

    Witnesses of the theorems, and runs of the real handlers that end where
    the code's own comments say they cannot. *)

From Stdlib Require Import String.
From S2P Require Import Prelude GoJson Reconcile XrayConfig Store StoreProps StoreTheorems Collector Handler Render Roster RosterProps RosterTheorems RosterInstances.

Local Open Scope Z_scope.

Module RosterExamples.
Import XrayConfig Store StoreProps Handler Render Roster RosterProps RosterTheorems RosterInstances.
Import AsciiRuntime StoreTheorems.Examples XrayConfig.Examples Handler.Xray.
Local Open Scope string_scope.

(** Any text that starts with "id-" is a UUID here. *)
#[local] Instance uuids : Uuid :=
  {| uuid_Parse s := if String.prefix "id-" s then Some s else None |}.

(** A config file that takes every plan, or none. *)
Record file := { f_broken : bool }.
#[local] Instance file_renderer : Renderer file :=
  {| st_Render _ f := (f, if f_broken f then Err "read-only file system" else Ok true) |}.

Abbreviation world := (World (S := storeState) (R := file) (X := xray) (C := Collector.Collector)).

Definition cfg : config := {| cfg_inbounds := [
  plainInbound "in-1" "vless" "raw" "reality" [client "alice@x" "id-a" "xtls-rprx-vision"];
  plainInbound "in-2" "vless" "ws" "tls" [] ] |}.

Definition live_xray (down : bool) : xray := {| x_down := down; x_inbounds :=
  {["in-1" := {["alice@x" := {| mu_email := "alice@x"; mu_id := "id-a"; mu_flow := "xtls-rprx-vision" |}]};
    "in-2" := ∅]} |}.

Definition start (down : bool) (faults : list bool) : world := {|
  w_svc := NewService; w_store := {| ss_db := sampleDb; ss_faults := faults |};
  w_file := {| f_broken := false |}; w_xray := live_xray down;
  w_collector := Collector.NewCollector; w_view := buildView cfg;
  w_parse := (buildRosterParse cfg, 1%Z); w_now := 9; w_uuid := "id-fresh";
  w_visit := λ _ l, l;
|}.

Definition set_down (down : bool) (w : world) : world := {|
  w_svc := w_svc w; w_store := w_store w; w_file := w_file w;
  w_xray := {| x_down := down; x_inbounds := x_inbounds (w_xray w) |};
  w_collector := w_collector w; w_view := w_view w; w_parse := w_parse w; w_now := w_now w;
  w_uuid := w_uuid w; w_visit := w_visit w |}.

Definition set_faults (faults : list bool) (w : world) : world := {|
  w_svc := w_svc w; w_store := {| ss_db := ss_db (w_store w); ss_faults := faults |};
  w_file := w_file w; w_xray := w_xray w; w_collector := w_collector w; w_view := w_view w;
  w_parse := w_parse w; w_now := w_now w; w_uuid := w_uuid w; w_visit := w_visit w |}.

(** A handler run for its effect. *)
Definition exec {A} (m : M world A) (w : world) : world := (m w).1.

Definition drop_all : EditRequest := {| er_client_id := ""; er_inbounds := Some [] |}.
Definition rejoin (id : string) : EditRequest := {| er_client_id := id; er_inbounds := Some ["in-1"] |}.
Definition new_id (id : string) : EditRequest := {| er_client_id := id; er_inbounds := None |}.

(** ** Divergences *)

(** Disable keeps only an unfinished change's joins. After a detach that
    could not be pushed, disabling the user forgets it: nothing is queued,
    the failed mark stays for good, no retry has anything to do, and xray
    still authenticates the disabled user. *)
Lemma disable_strands_credential :
  let w := exec (Disable "alice@x") (exec apply (exec (Edit "alice@x" drop_all) (start true []))) in
  let w' := exec retry (set_down false w) in
  sv_pending (w_svc w') = ∅ ∧ syncLocked (w_svc w') = Failed ∧
  xray_credential "in-1" "alice@x" (w_xray w') = Some "id-a" ∧
  RosterRecord_ "alice@x" (ss_db (w_store w')) = Err ErrRosterNotFound.
Proof. vm_compute. repeat split. Qed.

(** Disable takes the unfinished change before it writes the store. When the
    write fails the mutation reports an error, and the change is gone. *)
Lemma failed_disable_loses_change :
  let w := exec apply (exec (Edit "alice@x" drop_all) (start true [])) in
  let w' := exec (Disable "alice@x") (set_faults [false; true] w) in
  is_Some (sv_pending (w_svc w) !! "alice@x") ∧ sv_pending (w_svc w') = ∅ ∧
  is_ok (Disable "alice@x" (set_faults [false; true] w)).2 = false.
Proof. vm_compute. split_and!; [by eexists|reflexivity|reflexivity]. Qed.

(** Rejoining an inbound under a new Client ID while its detach is
    unfinished is planned as a bare attach: xray answers that the user
    exists, the roster reads as synced, and the old credential stays live. *)
Lemma reattach_keeps_old_credential :
  let w := exec apply (exec (Edit "alice@x" drop_all) (start true [])) in
  let w' := exec apply (exec (Edit "alice@x" (rejoin "id-new")) (set_down false w)) in
  syncLocked (w_svc w') = Synced ∧
  xray_credential "in-1" "alice@x" (w_xray w') = Some "id-a" ∧
  (rec_client_id <$> match RosterRecord_ "alice@x" (ss_db (w_store w')) with
                     | Ok r => Some r | Err _ => None end) = Some "id-new".
Proof. vm_compute. repeat split. Qed.

(** Enable replaces the user's unfinished change instead of merging with it:
    a rotation and a disable that never reached xray are followed by a bare
    attach, which the old credential swallows. *)
Lemma enable_keeps_old_credential :
  let w := exec apply (exec (Edit "alice@x" (new_id "id-new")) (start true [])) in
  let w := exec apply (exec (Disable "alice@x") w) in
  let w' := exec apply (exec (Enable "alice@x") (set_down false w)) in
  syncLocked (w_svc w') = Synced ∧
  xray_credential "in-1" "alice@x" (w_xray w') = Some "id-a" ∧
  (rec_client_id <$> match RosterRecord_ "alice@x" (ss_db (w_store w')) with
                     | Ok r => Some r | Err _ => None end) = Some "id-new".
Proof. vm_compute. repeat split. Qed.

(** The store finds an email in any case, the queue only in the case it was
    queued under: a delete in another case misses the unfinished detach and
    purges the user with the credential still live. *)
Lemma respelled_delete_strands_credential :
  let w := exec apply (exec (Edit "alice@x" drop_all) (start true [])) in
  let w' := exec apply (exec (Delete "ALICE@x") (set_down false w)) in
  syncLocked (w_svc w') = Synced ∧
  row_at rr_email "alice@x" (t_roster (ss_db (w_store w'))) = None ∧
  xray_credential "in-1" "alice@x" (w_xray w') = Some "id-a".
Proof. vm_compute. repeat split. Qed.

(** ** Witnesses *)

Definition aliceBefore : RosterRecord := MkRecord "alice@x" "id-a" ["in-1"] 1 1.
Definition aliceAfter : RosterRecord := MkRecord "alice@x" "id-new" ["in-2"] 1 9.
Definition moveChange : pendingChange := {| pc_id := "id-new";
  pc_ops := diffOps aliceBefore aliceAfter {["in-2" := ""]} zeroChange; pc_gen := 1; pc_purge := false |}.

Lemma edit_plan_converges_witness :
  is_Some (credential "in-1" "alice@x" (w_xray (start false []))) ∧
  ∀ tag, credential tag "alice@x"
      (w_xray (push_ops "alice@x" moveChange (pc_ops moveChange) (start false [])).1) =
    if bool_decide (tag ∈ ["in-2"]) then Some "id-new" else None.
Proof.
  split; [vm_compute; by eexists|].
  apply (edit_plan_converges "alice@x" aliceBefore aliceAfter {["in-2" := ""]} zeroChange moveChange
    (start false []) _).
  - reflexivity.
  - reflexivity.
  - intros op Hop. change (pc_ops moveChange) with
      [PushOp opDetach "in-1" ""; PushOp opAttach "in-2" ""] in Hop.
    cases_in Hop; vm_compute; by eexists.
  - intros tag. unfold half_landed. simpl.
    destruct (decide (tag = "in-1")) as [->|H1]; [reflexivity|].
    destruct (decide (tag = "in-2")) as [->|H2]; [reflexivity|].
    rewrite bool_decide_eq_false_2 by (intros Hin; cases_in Hin; done).
    change (xray_credential tag "alice@x" (live_xray false) = None).
    unfold xray_credential, live_xray. cbn [x_inbounds].
    by rewrite lookup_insert_ne, lookup_singleton_ne by done.
  - vm_compute. reflexivity.
Defined.

Definition queued : world := exec (Edit "alice@x" drop_all) (start true []).
Definition queuedChange : pendingChange :=
  default zeroChange (sv_pending (w_svc queued) !! "alice@x").

(** The move is queued, and while its detach is being pushed the user is
    moved back under yet another ID: the old attach is still pushed, and the
    newer change waits, whole. *)
Definition aliceLater : RosterRecord := MkRecord "alice@x" "id-later" ["in-1"] 1 9.
Definition backChange : list pushOp := [PushOp opDetach "in-2" ""; PushOp opAttach "in-1" ""].
Definition moveQueued : world := exec (enqueue aliceAfter (pc_ops moveChange)) (start false []).
Definition halfPushed : world :=
  exec (run_call (RemoveUserCall "in-1" "alice@x")) moveQueued.
Definition overtaken : world := exec (run_queueEvent (Queued aliceLater backChange false)) halfPushed.
Definition allPushed : world := exec (run_call
  (AddUserCall "in-2" {| mu_email := "alice@x"; mu_id := "id-new"; mu_flow := "" |})) overtaken.

Lemma moveQueued_gens : gens_ok (w_svc moveQueued).
Proof.
  split; [by vm_compute|]. intros email change Hc.
  change (sv_pending (w_svc moveQueued)) with ({["alice@x" := moveChange]} : gmap string pendingChange) in Hc.
  apply lookup_singleton_Some in Hc as [_ <-]. by vm_compute.
Qed.

Lemma moveQueued_turn :
  turn "alice@x" moveChange [Queued aliceLater backChange false] moveQueued
    (exec (settle "alice@x" moveChange false) allPushed).
Proof.
  apply TurnPushed; [reflexivity|]. apply PushesOpen; [vm_compute; by eexists|].
  apply PushesCall with (w1 := halfPushed); [vm_compute; reflexivity|].
  apply (PushesMeanwhile _ _ [_] []) with (w1 := overtaken).
  { apply OthersQueue, OthersDone. }
  apply PushesOpen; [vm_compute; by eexists|].
  apply PushesCall with (w1 := allPushed); [vm_compute; reflexivity|]. apply PushesDone.
Qed.

Lemma newer_change_survives_pass_witness :
  let w' := exec (settle "alice@x" moveChange false) allPushed in
  xray_credential "in-2" "alice@x" (w_xray w') = Some "id-new" ∧
  ((∃ gen, sv_pending (w_svc w') !! "alice@x" = Some {| pc_id := "id-later"; pc_ops := backChange;
      pc_gen := gen; pc_purge := false |}) ∧
   "alice@x" ∉ sv_failed (w_svc w')).
Proof.
  split; [by vm_compute|].
  apply (newer_change_survives_pass "alice@x" moveChange [] [Queued aliceLater backChange false]
    moveQueued moveQueued).
  - apply moveQueued_gens.
  - reflexivity.
  - vm_compute. reflexivity.
  - constructor.
  - apply moveQueued_turn.
  - apply Exists_cons_hd. reflexivity.
Defined.

Lemma fair_start down faults : fair_world (start down faults).
Proof. intros A l. reflexivity. Qed.

Definition unwritable : world := {|
  w_svc := w_svc queued; w_store := w_store queued; w_file := {| f_broken := true |};
  w_xray := w_xray queued; w_collector := w_collector queued; w_view := w_view queued;
  w_parse := w_parse queued; w_now := 9; w_uuid := "id-fresh"; w_visit := λ _ l, l |}.

Lemma render_failure_pushes_nothing_witness :
  let w' := (apply unwritable).1 in
  w_xray w' = w_xray unwritable ∧ w_store w' = w_store unwritable ∧
  w_collector w' = w_collector unwritable ∧
  sv_pending (w_svc w') = sv_pending (w_svc unwritable) ∧
  sv_failed (w_svc w') = sv_failed (w_svc unwritable) ∪ dom (sv_pending (w_svc unwritable)).
Proof.
  apply (render_failure_pushes_nothing unwritable {| f_broken := true |} "read-only file system").
  - intros A l. reflexivity.
  - vm_compute. discriminate.
  - reflexivity.
Defined.


Definition deleting : world := exec (Delete "alice@x") (start false []).
Definition deleteChange : pendingChange :=
  default zeroChange (sv_pending (w_svc deleting) !! "alice@x").


Lemma delete_covers_unfinished_witness :
  ∃ record tags,
    WaitFor "alice@x" = WaitFor (rec_email record) ∧
    sv_pending (w_svc deleting) !! rec_email record =
      Some {| pc_id := rec_client_id record; pc_ops := detachOps tags; pc_gen := 1; pc_purge := true |} ∧
    (∀ tag, tag ∈ tags ↔ tag ∈ rec_inbounds record ∨ tag ∈ po_tag <$> pc_ops zeroChange) ∧
    w_xray deleting = w_xray (start false []) ∧ w_file deleting = w_file (start false []).
Proof.
  apply (delete_covers_unfinished "alice@x" (start false []) deleting (WaitFor "alice@x")).
  vm_compute. reflexivity.
Defined.

Definition lost : RosterParse := {| rp_labels := Some ∅; rp_clients := ∅ |}.


Lemma add_stores_and_queues_witness :
  let (w', res) := Add " erin@x " "" ["in-2"; "in-2"] (start false []) in
  match res with
  | Err _ => False
  | Ok r => rec_client_id (mr_user r) = "id-fresh" ∧ rec_inbounds (mr_user r) = ["in-2"] ∧
            w_xray w' = w_xray (start false [])
  end.
Proof.
  pose proof (add_stores_and_queues " erin@x " "" ["in-2"; "in-2"] (start false [])) as Ha.
  destruct (Add " erin@x " "" ["in-2"; "in-2"] (start false [])) as [w' res] eqn:E.
  destruct res as [r|e]; [|vm_compute in E; discriminate E].
  destruct Ha as (_ & Hx & _). vm_compute in E. injection E as <- <-. repeat split.
Defined.

Lemma seed_is_the_resync_witness :
  default [] (u_labels <$> (default ∅ (rp_labels (buildRosterParse cfg)) !! "alice@x")) =
    seedLabels (buildView cfg) [PushOp opAttach "in-1" "xtls-rprx-vision"].
Proof.
  apply (seed_is_the_resync cfg "alice@x" [PushOp opAttach "in-1" "xtls-rprx-vision"]); [discriminate|].
  apply Forall_forall. intros ib Hib. cases_in Hib; vm_compute; [|reflexivity].
  eexists. split; reflexivity.
Defined.

End RosterExamples.
