(* ===== verification/Auth.v ===== *)
(** * Admission to the Panel (internal/auth/auth.go)

    The Authentication gateway: its modes, the Password Session store, the
    trusted proxy's assertion, and the HTTP wrapper that routes by them. *)

From Stdlib Require Import Ascii String.
From S2P Require Import Prelude GoJson.

Module Auth.
Import GoJson.

Inductive Mode := ModePassword | ModeTrustedProxy.

#[export] Instance Mode_eq_dec : EqDecision Mode.
Proof. solve_decision. Defined.

(** Seconds on the code's clock. *)
Definition SessionTTL : Z := 24 * 60 * 60.

Definition sessionCookieName : string := "xform_session".

(** ** Requests and responses *)

(** An http.Header: each key with its values. *)
Abbreviation Headers := (gmap string (list string)).

(** The body is the first JSON value in it, if it decodes. *)
Record Request := {
  rq_method : string;
  rq_path : string;
  rq_headers : Headers;
  rq_body : option json;
}.

Record Cookie := { ck_value : string; ck_max_age : Z; ck_http_only : bool; ck_secure : bool }.

Inductive Body :=
| JSONError (status : Z) (error : string) (authentication_mode : option Mode)
| NoContent
| Forwarded (request : Request)
| Panicked.  (* a nil session store *)

(** What the wrapper wrote, or the request it handed on. *)
Record Response := {
  rs_no_store : bool;
  rs_cookie : option Cookie;
  rs_body : Body;
}.

(** What the wrapper takes from Go's library: sha256.Sum256, and the
    parsing of a request's cookies. *)
Class AuthRuntime := {
  sha256 : string → string;
  request_cookie : Headers → string → option string;
}.

(** One admitted request's surroundings: the clock's two readings and the
    entropy pool's answer. *)
Record Moment := { m_now : Z; m_then : Z; m_entropy : option (list Z) }.

Record sessions := { s_passwordHash : string; s_sessions : gmap string Z }.

Record Gateway := { g_mode : Mode; g_sessions : option sessions; g_trustedHash : string }.

Definition hex (bytes : list Z) : string :=
  of_bytes (b ← bytes; [hex_digit (b / 16); hex_digit (b mod 16)]).

Definition trustedHeaders : list string := [
  "X-Xform-Authenticated"; "Authorization"; "Proxy-Authorization"; "Forwarded"; "Cookie";
  "X-Forwarded-For"; "X-Forwarded-Host"; "X-Forwarded-Port"; "X-Forwarded-Proto";
  "X-Forwarded-User"; "X-Forwarded-Email"; "X-Forwarded-Groups"; "X-Forwarded-Preferred-Username";
  "X-Forwarded-Access-Token"; "X-Forwarded-Authorization"; "X-Forwarded-Client-Cert"; "X-Forwarded-Server";
  "X-Auth-Request-User"; "X-Auth-Request-Email"; "X-Auth-Request-Groups";
  "X-Auth-Request-Preferred-Username"; "X-Auth-Request-Token"; "X-Auth-Request-Access-Token"; "X-Auth-Request-Redirect";
  "X-Auth-Request-Id-Token"; "X-Auth-Request-IdToken"; "X-Access-Token"; "X-ID-Token"; "X-Id-Token";
  "Remote-User"; "Remote-Email"; "Remote-Groups"; "X-Remote-User"; "X-Remote-Email"; "X-Remote-Groups";
  "X-Authenticated-User"; "X-Authenticated-Email"; "X-User"; "X-Email"; "X-Groups"; "X-Group";
  "X-Real-IP"; "X-Original-URL"; "X-Original-URI"; "X-Original-Method"; "X-Forwarded-Uri"; "X-SSL-Client-Cert"; "X-Client-Cert"
]%string.

(** ** The Session store *)

Section WithRuntime.
Context `{AuthRuntime} `{GoRuntime}.

Definition newSessionStore (password : string) : sessions :=
  {| s_passwordHash := sha256 password; s_sessions := ∅ |}.

Definition put_session (token : string) (expiry : Z) (s : sessions) : sessions :=
  {| s_passwordHash := s_passwordHash s; s_sessions := <[token := expiry]> (s_sessions s) |}.

Definition drop_session (token : string) (s : sessions) : sessions :=
  {| s_passwordHash := s_passwordHash s; s_sessions := delete token (s_sessions s) |}.

(** [Ok None] is a wrong password; [Err] an entropy failure. *)
Definition Login (at_ : Moment) (candidate : string) (s : sessions) : sessions * result () (option string) :=
  if negb (String.eqb (sha256 candidate) (s_passwordHash s)) then (s, Ok None) else
  match m_entropy at_ with
  | None => (s, Err ())
  | Some bytes => let token := hex bytes in
      (put_session token (m_now at_ + SessionTTL) s, Ok (Some token))
  end.

Definition Validate (at_ : Moment) (token : string) (s : sessions) : sessions * bool :=
  match s_sessions s !! token with
  | None => (s, false)
  | Some expiry =>
      if negb (m_now at_ <? expiry)%Z then (drop_session token s, false)
      else (put_session token (m_then at_ + SessionTTL) s, true)
  end.

Definition Logout (token : string) (s : sessions) : sessions := drop_session token s.

(** ** Constructors *)

Definition NewPassword (password : string) : Gateway :=
  {| g_mode := ModePassword; g_sessions := Some (newSessionStore password); g_trustedHash := "" |}.

Inductive authError := SecretFormat | UnsupportedMode (mode : string).

Definition secret_char (b : Z) : bool := ((48 <=? b) && (b <=? 57) || (97 <=? b) && (b <=? 102))%Z.

Definition ValidateTrustedProxySecret (secret : string) : result authError () :=
  if negb (String.length secret =? 64) then Err SecretFormat else
  if forallb secret_char (bytes_of secret) then Ok () else Err SecretFormat.

Definition NewTrustedProxy (secret : string) : result authError Gateway :=
  match ValidateTrustedProxySecret secret with
  | Err e => Err e
  | Ok _ => Ok {| g_mode := ModeTrustedProxy; g_sessions := None; g_trustedHash := sha256 secret |}
  end.

Definition New (mode credential : string) : result authError Gateway :=
  let mode := if String.eqb mode "" then "password"%string else mode in
  if String.eqb mode "password" then Ok (NewPassword credential)
  else if String.eqb mode "trusted_proxy" then NewTrustedProxy credential
  else Err (UnsupportedMode mode).

(** ** The HTTP wrapper *)

Definition headerValues (headers : Headers) (name : string) : list string :=
  concat (filter (λ kv : string * list string, equal_fold kv.1 name = true) (map_to_list headers)).*2.

Definition trusted_header (key : string) : bool := existsb (equal_fold key) trustedHeaders.

Definition stripTrustedHeaders (headers : Headers) : Headers :=
  filter (λ kv : string * list string, trusted_header kv.1 = false) headers.

Definition strip_request (rq : Request) : Request :=
  {| rq_method := rq_method rq; rq_path := rq_path rq;
     rq_headers := stripTrustedHeaders (rq_headers rq); rq_body := rq_body rq |}.

Definition isHealthRequest (rq : Request) : bool :=
  (String.eqb (rq_method rq) "GET" || String.eqb (rq_method rq) "HEAD") &&
  String.eqb (rq_path rq) "/api/v1/healthz".

Definition unauthorized (g : Gateway) : Body := JSONError 401 "unauthenticated" (Some (g_mode g)).

Definition sessionCookie (token : string) : Cookie :=
  {| ck_value := token; ck_max_age := SessionTTL; ck_http_only := true; ck_secure := true |}.

Definition clearedCookie : Cookie :=
  {| ck_value := ""; ck_max_age := -1; ck_http_only := true; ck_secure := true |}.

Definition with_sessions (g : Gateway) (s : sessions) : Gateway :=
  {| g_mode := g_mode g; g_sessions := Some s; g_trustedHash := g_trustedHash g |}.

(** json.Decoder into a struct with a password string: keys match whatever
    their case, the last one wins, null keeps the empty default. *)
Definition decode_password (body : json) : option string :=
  match body with
  | JNull => Some ""%string
  | JObject fields =>
      foldl (λ acc kv, password ← acc;
        if equal_fold kv.1 "password" then
          match kv.2 with JString s => Some s | JNull => Some password | _ => None end
        else Some password) (Some ""%string) fields
  | _ => None
  end.

Definition login (at_ : Moment) (g : Gateway) (rq : Request) : Gateway * Response :=
  let reply cookie body := {| rs_no_store := true; rs_cookie := cookie; rs_body := body |} in
  match rq_body rq ≫= decode_password with
  | None | Some EmptyString => (g, reply None (JSONError 400 "invalid request" None))
  | Some password =>
      match g_sessions g with
      | None => (g, reply None Panicked)
      | Some s =>
          let (s, out) := Login at_ password s in
          (with_sessions g s,
           match out with
           | Err _ => reply None (JSONError 500 "login unavailable" None)
           | Ok None => reply None (JSONError 401 "invalid password" (Some (g_mode g)))
           | Ok (Some token) => reply (Some (sessionCookie token)) NoContent
           end)
      end
  end.

Definition logout (at_ : Moment) (g : Gateway) (rq : Request) : Gateway * Response :=
  let reply cookie body := {| rs_no_store := true; rs_cookie := cookie; rs_body := body |} in
  match request_cookie (rq_headers rq) sessionCookieName, g_sessions g with
  | None, _ => (g, reply None (unauthorized g))
  | Some _, None => (g, reply None Panicked)
  | Some token, Some s =>
      let (s, ok) := Validate at_ token s in
      if ok then (with_sessions g (Logout token s), reply (Some clearedCookie) NoContent)
      else (with_sessions g s, reply None (unauthorized g))
  end.

Definition requireSession (at_ : Moment) (g : Gateway) (rq : Request) : Gateway * Response :=
  let reply cookie body := {| rs_no_store := true; rs_cookie := cookie; rs_body := body |} in
  match request_cookie (rq_headers rq) sessionCookieName, g_sessions g with
  | None, _ => (g, reply None (unauthorized g))
  | Some _, None => (g, reply None Panicked)
  | Some token, Some s =>
      let (s, ok) := Validate at_ token s in
      (with_sessions g s,
       if ok then reply (Some (sessionCookie token)) (Forwarded rq)
       else reply None (unauthorized g))
  end.

Definition requireTrustedAssertion (g : Gateway) (rq : Request) : Response :=
  let reply body := {| rs_no_store := true; rs_cookie := None; rs_body := body |} in
  match headerValues (rq_headers rq) "X-Xform-Authenticated" with
  | [value] =>
      if String.eqb (sha256 value) (g_trustedHash g) then reply (Forwarded (strip_request rq))
      else reply (unauthorized g)
  | _ => reply (unauthorized g)
  end.

Definition Handler (at_ : Moment) (g : Gateway) (rq : Request) : Gateway * Response :=
  let forward rq := {| rs_no_store := false; rs_cookie := None; rs_body := Forwarded rq |} in
  if isHealthRequest rq then
    (g, forward (match g_mode g with ModeTrustedProxy => strip_request rq | ModePassword => rq end))
  else
    match g_mode g with
    | ModeTrustedProxy => (g, requireTrustedAssertion g rq)
    | ModePassword =>
        if String.eqb (rq_method rq) "POST" && String.eqb (rq_path rq) "/api/v1/login"
        then login at_ g rq
        else if String.eqb (rq_method rq) "POST" && String.eqb (rq_path rq) "/api/v1/logout"
        then logout at_ g rq
        else if String.prefix "/api/" (rq_path rq) then requireSession at_ g rq
        else (g, forward rq)
    end.

(** ** The compatibility facade (internal/session)

    The gateway's own Login, Validate and Logout; without a session store a
    login is an error and nothing validates. *)

Definition gateway_Login (at_ : Moment) (candidate : string) (g : Gateway)
    : Gateway * result (option ()) (option string) :=
  match g_sessions g with
  | None => (g, Err None)
  | Some s =>
      let (s, out) := Login at_ candidate s in
      (with_sessions g s, match out with Ok token => Ok token | Err _ => Err (Some ()) end)
  end.

Definition gateway_Validate (at_ : Moment) (token : string) (g : Gateway) : Gateway * bool :=
  match g_sessions g with
  | None => (g, false)
  | Some s => let (s, ok) := Validate at_ token s in (with_sessions g s, ok)
  end.

Definition gateway_Logout (token : string) (g : Gateway) : Gateway :=
  match g_sessions g with None => g | Some s => with_sessions g (Logout token s) end.

Definition NewManager (password : string) : Gateway := NewPassword password.

End WithRuntime.

End Auth.
