(* ===== verification/AuthTheorems.v ===== *)
(** * Admission: theorems

    A trusted gateway admits exactly the assertion and strips what the proxy
    added; a password gateway's API needs a live session; and a session is
    alive exactly while its history says so. *)

From Stdlib Require Import Ascii String.
From S2P Require Import Prelude GoJson Auth.

Module AuthTheorems.
Import GoJson Auth.

Section WithRuntime.
Context `{AuthRuntime} `{GoRuntime}.

(** ** The trusted proxy *)

Lemma strip_lookup headers key :
  stripTrustedHeaders headers !! key = if trusted_header key then None else headers !! key.
Proof.
  unfold stripTrustedHeaders. destruct (headers !! key) as [v|] eqn:E.
  - destruct (trusted_header key) eqn:Et.
    + apply map_lookup_filter_None. right. intros w _. simpl. by rewrite Et.
    + apply map_lookup_filter_Some. done.
  - rewrite (proj2 (map_lookup_filter_None _ _ _)) by (by left). by destruct (trusted_header key).
Qed.

(** The assertion's header, in any case. *)
Definition assertion_key (key : string) : Prop := equal_fold key "X-Xform-Authenticated" = true.

(** What a trusted proxy's assertion is: of all the values the request has
    under any spelling of the header's name there is one, and it hashes as the
    secret does. *)
Definition asserted (secret : string) (rq : Request) : Prop :=
  ∃ key value, rq_headers rq !! key = Some [value] ∧ assertion_key key ∧ sha256 value = sha256 secret ∧
    ∀ other values, other ≠ key → assertion_key other → rq_headers rq !! other = Some values → values = [].

(** A concatenation is one value when one list holds it and the others are
    empty. *)
Lemma concat_singleton (l : list (list string)) v :
  concat l = [v] ↔ ∃ before after, l = before ++ [v] :: after ∧ Forall (eq []) before ∧ Forall (eq []) after.
Proof.
  assert (∀ l : list (list string), concat l = [] ↔ Forall (eq []) l) as Hnil.
  { clear. induction l as [|x l IH]; simpl; [done|]. rewrite Forall_cons, <-IH. destruct x; naive_solver. }
  induction l as [|x l IH]; simpl.
  { split; [done|]. by intros ([|] & ? & ? & _). }
  split.
  - destruct x as [|y [|]]; simpl; [|intros [= -> Hl]|done].
    + intros (before & after & -> & ? & ?)%IH. exists ([] :: before), after. split_and!; [done| |done]. by constructor.
    + exists [], l. split_and!; [done|done|]. by apply Hnil.
  - intros ([|x' before] & after & [= -> ->] & Hb & Ha).
    + simpl. f_equal. by apply Hnil.
    + apply Forall_cons in Hb as [<- Hb]. apply IH. by exists before, after.
Qed.

(** The values collected are one exactly when one key has it alone. *)
Lemma headerValues_one headers v :
  headerValues headers "X-Xform-Authenticated" = [v] ↔
  ∃ key, headers !! key = Some [v] ∧ assertion_key key ∧
    ∀ other values, other ≠ key → assertion_key other → headers !! other = Some values → values = [].
Proof.
  unfold headerValues. set (l := filter _ (map_to_list headers)).
  assert (∀ key values, (key, values) ∈ l ↔ assertion_key key ∧ headers !! key = Some values) as Hin.
  { intros. unfold l. by rewrite list_elem_of_filter, elem_of_map_to_list. }
  assert (NoDup l.*1) as Hnd.
  { eapply sublist_NoDup; [apply (NoDup_fst_map_to_list headers)|]. apply fmap_sublist, sublist_filter. }
  clearbody l. rewrite concat_singleton. split.
  - intros (before & after & Hl & Hb & Ha). apply fmap_app_inv in Hl as (l1 & l2 & -> & Hl & ->).
    symmetry in Hl. apply fmap_cons_inv in Hl as ([key ?] & l3 & Hv & -> & ->). cbn in Hv. subst.
    assert ((key, [v]) ∈ l1 ++ (key, [v]) :: l3) as [Hk Hv]%Hin by set_solver. exists key. split_and!; [done..|].
    intros other values Hne Ho Hv'. rewrite Forall_fmap, Forall_forall in Hb, Ha.
    assert ((other, values) ∈ l1 ++ (key, [v]) :: l3) as [Hx|[[=]|Hx]%elem_of_cons]%elem_of_app by (by apply Hin);
      [by specialize (Hb _ Hx)|done|by specialize (Ha _ Hx)].
  - intros (key & Hv & Hk & Hother). assert ((key, [v]) ∈ l) as (l1 & l3 & ->)%list_elem_of_split by by apply Hin.
    exists l1.*2, l3.*2. split; [by rewrite fmap_app|].
    assert (∀ kv, kv ∈ l1 ∨ kv ∈ l3 → [] = kv.2) as Hempty.
    { intros [other values] Hx. assert ((other, values) ∈ l1 ++ (key, [v]) :: l3) as [Ho Hv']%Hin by set_solver.
      symmetry. apply (Hother other); [|done|done]. intros ->. rewrite fmap_app, fmap_cons in Hnd. simpl in Hnd.
      apply NoDup_app in Hnd as (_ & Hdis & [Hn _]%NoDup_cons).
      destruct Hx as [Hx|Hx]; apply (list_elem_of_fmap_2 fst) in Hx; simpl in Hx; [|done].
      apply (Hdis key); [done|by left]. }
    split; apply Forall_fmap, Forall_forall; intros kv Hx; apply Hempty; auto.
Qed.

Lemma trusted_assertion_spec g secret rq :
  g_trustedHash g = sha256 secret →
  (asserted secret rq ∧ rs_body (requireTrustedAssertion g rq) = Forwarded (strip_request rq)) ∨
  (¬ asserted secret rq ∧ rs_body (requireTrustedAssertion g rq) = unauthorized g).
Proof.
  intros Hg. assert (asserted secret rq ↔ ∃ value,
    headerValues (rq_headers rq) "X-Xform-Authenticated" = [value] ∧ sha256 value = sha256 secret) as ->.
  { unfold asserted. setoid_rewrite headerValues_one. naive_solver. }
  unfold requireTrustedAssertion.
  destruct (headerValues _ _) as [|value [|? ?]]; simpl; [right|..|right];
    [split; [by intros (? & ? & _)|done]| |split; [by intros (? & ? & _)|done]].
  rewrite Hg. destruct (String.eqb_spec (sha256 value) (sha256 secret)) as [E|E]; simpl; [left|right].
  - split; [by exists value|done].
  - split; [|done]. by intros (? & [= <-] & ?).
Qed.

Lemma NewTrustedProxy_inv secret g :
  NewTrustedProxy secret = Ok g →
  String.length secret = 64 ∧ Forall (λ b, secret_char b = true) (bytes_of secret) ∧
  g_mode g = ModeTrustedProxy ∧ g_trustedHash g = sha256 secret.
Proof.
  unfold NewTrustedProxy, ValidateTrustedProxySecret.
  destruct (Nat.eqb_spec (String.length secret) 64) as [El|]; simpl; [|done].
  destruct (forallb secret_char (bytes_of secret)) eqn:Ef; [|done]. intros [= <-].
  split_and!; [done| |done..]. clear El.
  induction (bytes_of secret) as [|b l IH]; simpl in Ef; [constructor|].
  apply andb_prop in Ef as [? ?]. constructor; auto.
Qed.

(** A request for the health route. *)
Definition health (rq : Request) : Prop :=
  (rq_method rq = "GET" ∨ rq_method rq = "HEAD")%string ∧ rq_path rq = "/api/v1/healthz"%string.

Lemma isHealthRequest_spec rq : isHealthRequest rq = true ↔ health rq.
Proof.
  unfold isHealthRequest, health. rewrite andb_true_iff, orb_true_iff, !String.eqb_eq. done.
Qed.

(** A header of the proxy's vocabulary, in any case. *)
Definition vocabulary (key : string) : Prop := ∃ name, name ∈ trustedHeaders ∧ equal_fold key name = true.

Lemma trusted_header_spec key : trusted_header key = true ↔ vocabulary key.
Proof.
  unfold trusted_header, vocabulary. rewrite existsb_exists. by setoid_rewrite list_elem_of_In.
Qed.

(** C9: a trusted gateway, which only a secret of 64 lowercase hexadecimal
    characters constructs, hands a request to the application exactly when
    it is a health check (GET or HEAD of /api/v1/healthz) or, of all the
    values it has under any spelling of X-Xform-Authenticated, there is one,
    and that hashes as the secret does; a missing, a repeated and a wrong one
    get the same 401. What the application sees is the request less every
    header of the proxy's vocabulary, whatever its case, and nothing else
    changed. *)
Theorem trusted_admission secret g at_ rq :
  NewTrustedProxy secret = Ok g →
  let (g', r) := Handler at_ g rq in
  String.length secret = 64 ∧ Forall (λ b, secret_char b = true) (bytes_of secret) ∧ g' = g ∧
  ((health rq ∨ asserted secret rq) ∧
     (∃ seen, rs_body r = Forwarded seen ∧
        rq_method seen = rq_method rq ∧ rq_path seen = rq_path rq ∧ rq_body seen = rq_body rq ∧
        ∀ key, (vocabulary key → rq_headers seen !! key = None) ∧
          (¬ vocabulary key → rq_headers seen !! key = rq_headers rq !! key)) ∨
   (¬ health rq ∧ ¬ asserted secret rq) ∧
     rs_body r = JSONError 401 "unauthenticated" (Some ModeTrustedProxy)).
Proof.
  intros (Hl & Hc & Hm & Hh)%NewTrustedProxy_inv. unfold Handler.
  assert (∃ seen, Forwarded (strip_request rq) = Forwarded seen ∧
    rq_method seen = rq_method rq ∧ rq_path seen = rq_path rq ∧ rq_body seen = rq_body rq ∧
    ∀ key, (vocabulary key → rq_headers seen !! key = None) ∧
      (¬ vocabulary key → rq_headers seen !! key = rq_headers rq !! key)) as Hseen.
  { exists (strip_request rq). split_and!; [done..|]. intros key. cbn [rq_headers strip_request]. rewrite strip_lookup.
    pose proof (trusted_header_spec key). destruct (trusted_header key); naive_solver. }
  pose proof (isHealthRequest_spec rq) as Hhealth. destruct (isHealthRequest rq); rewrite Hm.
  { split_and!; [done..|]. left. split; [left; by apply Hhealth|done]. }
  assert (¬ health rq) as Hn by (by rewrite <-Hhealth).
  destruct (trusted_assertion_spec g secret rq Hh) as [[Ha ->]|[Ha ->]];
    (split_and!; [done..|]); [left; split; [by right|done]|right].
  split; [done|]. unfold unauthorized. by rewrite Hm.
Qed.

(** ** Password sessions *)

(** What the store is asked, newest first. *)
Inductive event :=
| ELogin (at_ : Moment) (candidate : string)
| EValidate (at_ : Moment) (token : string)
| ELogout (token : string).

Definition run_event (e : event) (s : sessions) : sessions :=
  match e with
  | ELogin at_ candidate => (Login at_ candidate s).1
  | EValidate at_ token => (Validate at_ token s).1
  | ELogout token => Logout token s
  end.

Fixpoint history (password : string) (events : list event) : sessions :=
  match events with
  | [] => newSessionStore password
  | e :: events => run_event e (history password events)
  end.

(** A login that issues a token. *)
Definition issues (password : string) (at_ : Moment) (candidate token : string) : Prop :=
  sha256 candidate = sha256 password ∧ ∃ bytes, m_entropy at_ = Some bytes ∧ hex bytes = token.

(** The session's last use, as its history tells it: issued by a login with
    the password, used again before it was idle for the lifetime, and not
    logged out since. *)
Inductive live (password token : string) : list event → Z → Prop :=
| LiveLogin at_ candidate events :
    issues password at_ candidate token →
    live password token (ELogin at_ candidate :: events) (m_now at_)
| LiveUse at_ events last :
    live password token events last → (m_now at_ < last + SessionTTL)%Z →
    live password token (EValidate at_ token :: events) (m_then at_)
| LiveOther e events last :
    live password token events last →
    match e with
    | ELogin at_ candidate => ¬ issues password at_ candidate token
    | EValidate _ other | ELogout other => other ≠ token
    end →
    live password token (e :: events) last.

Lemma history_hash password events : s_passwordHash (history password events) = sha256 password.
Proof.
  induction events as [|e events IH]; simpl; [done|].
  destruct e; simpl; unfold Login, Validate; repeat (case_match; simpl); done.
Qed.

Lemma history_login password at_ candidate events token :
  (issues password at_ candidate token ∧
   s_sessions (history password (ELogin at_ candidate :: events)) !! token = Some (m_now at_ + SessionTTL)%Z) ∨
  (¬ issues password at_ candidate token ∧
   s_sessions (history password (ELogin at_ candidate :: events)) !! token =
   s_sessions (history password events) !! token).
Proof.
  simpl. unfold Login, issues. rewrite history_hash.
  destruct (String.eqb_spec (sha256 candidate) (sha256 password)) as [E|E]; simpl; [|right; naive_solver].
  destruct (m_entropy at_) as [bytes|]; simpl; [|right; naive_solver].
  destruct (decide (hex bytes = token)) as [<-|Hne].
  - left. rewrite lookup_insert_eq. eauto.
  - right. rewrite lookup_insert_ne by done. naive_solver.
Qed.

Lemma history_validate password at_ other events token :
  s_sessions (history password (EValidate at_ other :: events)) !! token =
  if decide (other = token) then
    match s_sessions (history password events) !! token with
    | Some expiry => if (m_now at_ <? expiry)%Z then Some (m_then at_ + SessionTTL)%Z else None
    | None => None
    end
  else s_sessions (history password events) !! token.
Proof.
  simpl. unfold Validate. destruct (s_sessions (history password events) !! other) as [expiry|] eqn:E.
  - destruct (m_now at_ <? expiry)%Z eqn:El; simpl; case_decide as Hd; subst.
    + rewrite lookup_insert_eq, E, El. done.
    + by rewrite lookup_insert_ne.
    + rewrite lookup_delete_eq, E, El. done.
    + by rewrite lookup_delete_ne.
  - simpl. case_decide; subst; [by rewrite E|done].
Qed.

Lemma history_logout password other events token :
  s_sessions (history password (ELogout other :: events)) !! token =
  if decide (other = token) then None else s_sessions (history password events) !! token.
Proof.
  simpl. case_decide; subst; [apply lookup_delete_eq|by apply lookup_delete_ne].
Qed.

Lemma live_sound password token events last :
  live password token events last →
  s_sessions (history password events) !! token = Some (last + SessionTTL)%Z.
Proof.
  induction 1 as [at_ candidate events Hi|at_ events last _ IH Hlt|e events last _ IH He].
  - by destruct (history_login password at_ candidate events token) as [[_ ->]|[? _]].
  - rewrite history_validate, decide_True, IH by done. by rewrite (proj2 (Z.ltb_lt _ _) Hlt).
  - destruct e as [at_ candidate|at_ other|other].
    + destruct (history_login password at_ candidate events token) as [[? _]|[_ ->]]; done.
    + by rewrite history_validate, decide_False.
    + by rewrite history_logout, decide_False.
Qed.

Lemma live_complete password token events expiry :
  s_sessions (history password events) !! token = Some expiry →
  live password token events (expiry - SessionTTL).
Proof.
  revert expiry. induction events as [|[at_ candidate|at_ other|other] events IH]; intros expiry.
  - simpl. by rewrite lookup_empty.
  - destruct (history_login password at_ candidate events token) as [[Hi ->]|[Hi ->]].
    + intros [= <-]. replace (m_now at_ + SessionTTL - SessionTTL)%Z with (m_now at_) by lia. by constructor.
    + intros ?%IH. by apply LiveOther.
  - rewrite history_validate. case_decide as Hd; [subst other|intros ?%IH; by apply LiveOther].
    destruct (s_sessions (history password events) !! token) as [x|]; [|done].
    destruct (Z.ltb_spec (m_now at_) x); [|done]. intros [= <-].
    replace (m_then at_ + SessionTTL - SessionTTL)%Z with (m_then at_) by lia.
    apply (LiveUse _ _ _ _ (x - SessionTTL)); [by apply IH|]. lia.
  - rewrite history_logout. case_decide; [done|]. intros ?%IH. by apply LiveOther.
Qed.

(** C10: the session store is its history: after any logins, uses and
    logouts, a token validates at some moment exactly when the history has
    it alive, issued by a login with the password, never idle for the
    lifetime between uses, not logged out, and last used less than the
    lifetime ago. *)
Theorem sessions_follow_history password events at_ token :
  (Validate at_ token (history password events)).2 = true ↔
  ∃ last, live password token events last ∧ (m_now at_ < last + SessionTTL)%Z.
Proof.
  unfold Validate. split.
  - destruct (s_sessions _ !! token) as [expiry|] eqn:E; [|done].
    destruct (Z.ltb_spec (m_now at_) expiry); simpl; [|done]. intros _.
    exists (expiry - SessionTTL)%Z. split; [by apply live_complete|lia].
  - intros (last & Hl%live_sound & Hlt). rewrite Hl. by rewrite (proj2 (Z.ltb_lt _ _) Hlt).
Qed.

(** Behind a password gateway every path under /api/ other than the
    health check, the login and the logout reaches the application only
    with a cookie that names a live session: the session and its cookie are
    then renewed for the lifetime from now. Otherwise the reply is the 401,
    the application is not called, and the named session, expired or never
    issued, is not in the store. *)
Theorem password_gates_api at_ g s rq :
  g_mode g = ModePassword → g_sessions g = Some s →
  String.prefix "/api/" (rq_path rq) = true → isHealthRequest rq = false →
  (rq_method rq = "POST" → rq_path rq ≠ "/api/v1/login" ∧ rq_path rq ≠ "/api/v1/logout")%string →
  let (g', r) := Handler at_ g rq in
  (∃ token expiry, request_cookie (rq_headers rq) sessionCookieName = Some token ∧
     s_sessions s !! token = Some expiry ∧ (m_now at_ < expiry)%Z ∧
     r = {| rs_no_store := true; rs_cookie := Some (sessionCookie token); rs_body := Forwarded rq |} ∧
     g' = with_sessions g (put_session token (m_then at_ + SessionTTL) s)) ∨
  (r = {| rs_no_store := true; rs_cookie := None;
          rs_body := JSONError 401 "unauthenticated" (Some ModePassword) |} ∧
   match request_cookie (rq_headers rq) sessionCookieName with
   | None => g' = g
   | Some token => (∀ expiry, s_sessions s !! token = Some expiry → (expiry ≤ m_now at_)%Z) ∧
                   g' = with_sessions g (drop_session token s)
   end).
Proof.
  intros Hm Hs Hp Hh Hr. unfold Handler. rewrite Hh, Hm, Hp.
  assert (∀ path, (path = "/api/v1/login" ∨ path = "/api/v1/logout")%string →
    String.eqb (rq_method rq) "POST" && String.eqb (rq_path rq) path = false) as Hroute.
  { intros path Hpath. apply andb_false_iff.
    destruct (String.eqb_spec (rq_method rq) "POST") as [E|]; [right|by left].
    apply String.eqb_neq. destruct (Hr E), Hpath; congruence. }
  rewrite !Hroute by auto. unfold requireSession. rewrite Hs.
  destruct (request_cookie _ _) as [token|]; [|right; unfold unauthorized; by rewrite Hm].
  unfold Validate. destruct (s_sessions s !! token) as [expiry|] eqn:E.
  - destruct (Z.ltb_spec (m_now at_) expiry); simpl.
    + left. exists token, expiry. done.
    + right. unfold unauthorized. rewrite Hm. split_and!; [done| |done]. by intros ? [= <-].
  - right. unfold unauthorized. rewrite Hm. split_and!; [done|done|].
    f_equal. unfold drop_session. rewrite delete_id by done. by destruct s.
Qed.

End WithRuntime.

(** ** Concrete gateways *)

Module Examples.
Import AsciiRuntime.
Local Open Scope string_scope.

(** A hash that keeps its input, and a Cookie header that is the session's
    value. *)
#[local] Instance plain_runtime : AuthRuntime := {
  sha256 s := s;
  request_cookie headers _ := match headers !! "Cookie" with Some [v] => Some v | _ => None end;
}.

Definition secret : string := "0123456789abcdef0123456789abcdef0123456789abcdef0123456789abcdef".

Definition at_time (t : Z) : Moment := {| m_now := t; m_then := t; m_entropy := Some [171; 205]%Z |}.

Definition request (method path : string) (headers : list (string * list string)) : Request :=
  {| rq_method := method; rq_path := path; rq_headers := list_to_map headers; rq_body := None |}.

Definition proxied : Request := request "GET" "/api/v1/users"
  [("X-Xform-Authenticated", [secret]); ("x-forwarded-user", ["root"]); ("Accept", ["*/*"])].

Example strips_any_case :
  match (Handler (at_time 0) {| g_mode := ModeTrustedProxy; g_sessions := None; g_trustedHash := secret |}
           proxied).2 with
  | {| rs_body := Forwarded seen |} => map_to_list (rq_headers seen) = [("Accept", ["*/*"])]
  | _ => False
  end.
Proof. vm_compute. reflexivity. Qed.

Lemma trusted_admission_witness :
  let g := {| g_mode := ModeTrustedProxy; g_sessions := None; g_trustedHash := secret |} in
  let (g', r) := Handler (at_time 0) g proxied in
  String.length secret = 64%nat ∧ Forall (λ b, secret_char b = true) (bytes_of secret) ∧ g' = g ∧
  ((health proxied ∨ asserted secret proxied) ∧
     (∃ seen, rs_body r = Forwarded seen ∧
        rq_method seen = rq_method proxied ∧ rq_path seen = rq_path proxied ∧ rq_body seen = rq_body proxied ∧
        ∀ key, (vocabulary key → rq_headers seen !! key = None) ∧
          (¬ vocabulary key → rq_headers seen !! key = rq_headers proxied !! key)) ∨
   (¬ health proxied ∧ ¬ asserted secret proxied) ∧
     rs_body r = JSONError 401 "unauthenticated" (Some ModeTrustedProxy)).
Proof. apply (trusted_admission secret _ (at_time 0) proxied). vm_compute. reflexivity. Defined.

Definition lifetime : list event :=
  [EValidate (at_time 80000) "abcd"; ELogin (at_time 0) "pw"; ELogin (at_time 0) "guess"].

Lemma sessions_follow_history_witness :
  ∃ last, live "pw" "abcd" lifetime last ∧ (150000 < last + SessionTTL)%Z.
Proof. apply (sessions_follow_history "pw" lifetime (at_time 150000) "abcd"). vm_compute. reflexivity. Defined.

Definition signed_in : sessions := {| s_passwordHash := "pw"; s_sessions := {["abcd" := 100%Z]} |}.
Definition panel : Gateway := {| g_mode := ModePassword; g_sessions := Some signed_in; g_trustedHash := "" |}.
Definition stale : Request := request "GET" "/api/v1/users" [("Cookie", ["abcd"])].

Lemma password_gates_api_witness :
  let (g', r) := Handler (at_time 100) panel stale in
  (∃ token expiry, request_cookie (rq_headers stale) sessionCookieName = Some token ∧
     s_sessions signed_in !! token = Some expiry ∧ (100 < expiry)%Z ∧
     r = {| rs_no_store := true; rs_cookie := Some (sessionCookie token); rs_body := Forwarded stale |} ∧
     g' = with_sessions panel (put_session token (100 + SessionTTL) signed_in)) ∨
  (r = {| rs_no_store := true; rs_cookie := None;
          rs_body := JSONError 401 "unauthenticated" (Some ModePassword) |} ∧
   match request_cookie (rq_headers stale) sessionCookieName with
   | None => g' = panel
   | Some token => (∀ expiry, s_sessions signed_in !! token = Some expiry → (expiry ≤ 100)%Z) ∧
                   g' = with_sessions panel (drop_session token signed_in)
   end).
Proof.
  apply (password_gates_api (at_time 100) panel signed_in stale); try reflexivity.
  vm_compute. discriminate.
Defined.

End Examples.

End AuthTheorems.
