(* ===== verification/Advertisements.v ===== *)
(** * Advertised connection settings (internal/advertisements/view.go)

    The operator's document that says how clients reach each inbound: the
    view of its validated records, and the host names they hold. *)

From Stdlib Require Import Ascii String.
From S2P Require Import Prelude GoJson.

(** ** Addresses and host names

    What the code takes from net/netip and golang.org/x/net/idna. *)
Record Addr := { addr_zone : string; addr_is6 : bool; addr_string : string }.

Class HostRuntime := {
  netip_ParseAddr : string → option Addr;
  idna_ToASCII : string → option string;
}.

Module Advertisements.
Import GoJson.

(** ** The view *)

Definition TopologyDirect : string := "direct".
Definition TopologyFronted : string := "fronted".

Definition TransportTCP : string := "tcp".
Definition TransportWebSocket : string := "ws".
Definition TransportHTTPUpgrade : string := "httpupgrade".
Definition TransportGRPC : string := "grpc".
Definition TransportXHTTP : string := "xhttp".

Definition SecurityTLS : string := "tls".
Definition SecurityReality : string := "reality".
Definition SecurityNone : string := "none".

(** [tr_extra]: the XHTTP extra object's text, when present. *)
Record Transport := {
  tr_type : string; tr_path : string; tr_host : string; tr_service_name : string;
  tr_mode : string; tr_authority : string; tr_extra : option string;
}.

Record Security := {
  se_type : string; se_fingerprint : string; se_server_name : string; se_ech : string;
  se_verify_name : string; se_public_key : string; se_short_id : string;
  se_short_id_present : bool; se_post_quantum_verify : string; se_spider_x : string;
  se_alpn : list string; se_certificate_pins : list string;
}.

Record Advertisement := {
  ad_inbound_tag : string; ad_name : string; ad_topology : string; ad_host : string;
  ad_port : Z; ad_transport : Transport; ad_security : Security;
  ad_validation_error : option string; ad_duplicate : bool;
}.

(** The accessors clone; with immutable values a view is its records. *)
Record View := { advertisements : list Advertisement }.

Definition zeroTransport : Transport := {|
  tr_type := ""; tr_path := ""; tr_host := ""; tr_service_name := ""; tr_mode := "";
  tr_authority := ""; tr_extra := None |}.

Definition zeroSecurity : Security := {|
  se_type := ""; se_fingerprint := ""; se_server_name := ""; se_ech := ""; se_verify_name := "";
  se_public_key := ""; se_short_id := ""; se_short_id_present := false;
  se_post_quantum_verify := ""; se_spider_x := ""; se_alpn := []; se_certificate_pins := [] |}.

(** ** Strings *)

(** strings.Split on one character. *)
Fixpoint split_on (c : ascii) (s : string) : list string :=
  match s with
  | EmptyString => [""%string]
  | String b s =>
      if Ascii.eqb b c then ""%string :: split_on c s
      else match split_on c s with
           | [] => [String b EmptyString]
           | part :: parts => String b part :: parts
           end
  end.

Definition all_digits (s : string) : bool :=
  forallb (λ b, (48 <=? b) && (b <=? 57))%Z (bytes_of s).

End Advertisements.
