(* ===== verification/AdvertisementsParse.v ===== *)
(** * Parsing the advertised settings (internal/advertisements/parse.go)

    The strict document root, then each advertisement on its own: a record
    that does not validate stays in the view with its problem. *)

From Stdlib Require Import Ascii String.
From S2P Require Import Prelude GoJson GoDecode Advertisements.

Module AdvertisementsParse.
Import GoJson GoDecode Advertisements.

(** ** The document before it is decoded *)

Inductive jsonError := NotUTF8 | BadToken (e : token_error) | DuplicateKey (key : string)
  | BadKey | NotTerminated | UnexpectedDelimiter | TrailingValues.

(** One value from the decoder's tokens; no object repeats a key. Every call
    reads a token and every token reads a byte, so twice the document's
    length is fuel enough; without fuel the value is an unexpected one. *)
Fixpoint validateJSONValue (fuel : nat) (dec : Decoder) {struct fuel} : result jsonError Decoder :=
  match fuel with
  | O => Err UnexpectedDelimiter
  | S fuel =>
      match next_token dec with
      | Err e => Err (BadToken e)
      | Ok (Delim c, dec) =>
          if (c =? 123)%Z then validateMembers fuel [] dec
          else if (c =? 91)%Z then validateItems fuel dec
          else Err UnexpectedDelimiter
      | Ok (_, dec) => Ok dec
      end
  end
with validateMembers (fuel : nat) (keys : list string) (dec : Decoder) {struct fuel} : result jsonError Decoder :=
  match fuel with
  | O => Err UnexpectedDelimiter
  | S fuel =>
      if more dec then
        match next_token dec with
        | Err e => Err (BadToken e)
        | Ok (StringToken key, dec) =>
            if existsb (String.eqb key) keys then Err (DuplicateKey key)
            else match validateJSONValue fuel dec with
                 | Ok dec => validateMembers fuel (key :: keys) dec
                 | Err e => Err e
                 end
        | Ok (_, _) => Err BadKey
        end
      else match next_token dec with
           | Err e => Err (BadToken e)
           | Ok (Delim 125, dec) => Ok dec
           | Ok (_, _) => Err NotTerminated
           end
  end
with validateItems (fuel : nat) (dec : Decoder) {struct fuel} : result jsonError Decoder :=
  match fuel with
  | O => Err UnexpectedDelimiter
  | S fuel =>
      if more dec then
        match validateJSONValue fuel dec with
        | Ok dec => validateItems fuel dec
        | Err e => Err e
        end
      else match next_token dec with
           | Err e => Err (BadToken e)
           | Ok (Delim 93, dec) => Ok dec
           | Ok (_, _) => Err NotTerminated
           end
  end.

Definition validate_fuel (document : string) : nat := 2 * String.length document + 2.

Definition validateJSONDocument (document : string) : option jsonError :=
  if negb (utf8_valid document) then Some NotUTF8 else
  match validateJSONValue (validate_fuel document) (new_decoder document) with
  | Err e => Some e
  | Ok dec =>
      match next_token dec with
      | Err TokenEOF => None
      | Err e => Some (BadToken e)
      | Ok _ => Some TrailingValues
      end
  end.

(** ** The documents' structs *)

(** stringField: set when the field was there, and then a string. *)
Definition stringField := option string.
Definition sf_value (f : stringField) : string := default "" f.

Definition unmarshal_string_field (d : doc) : option stringField :=
  match d with DString _ s => Some (Some s) | _ => None end.

(** intField: null leaves the value, 0 at first, but sets the field. *)
Definition intField := option Z.

Definition unmarshal_int_field (d : doc) (f : intField) : option intField :=
  n ← decode_int d (default 0%Z f); Some (Some n).

Definition stringArrayField := option (list string).
Definition saf_values (f : stringArrayField) : list string := default [] f.

Definition unmarshal_array_field (d : doc) (f : stringArrayField) : option stringArrayField :=
  match d with
  | DNull => None
  | _ => values ← decode_strings d (saf_values f);
         if existsb (String.eqb "") values then None else Some (Some values)
  end.

Record rootDocument := { rd_version : option Z; rd_advertisements : option (list doc) }.

Record advertisementDocument := {
  adoc_inbound_tag : stringField; adoc_name : stringField; adoc_topology : stringField;
  adoc_host : stringField; adoc_port : intField; adoc_transport : option doc; adoc_security : option doc;
}.

Record transportDocument := {
  td_type : stringField; td_path : stringField; td_host : stringField; td_service_name : stringField;
  td_mode : stringField; td_authority : stringField; td_extra : option doc;
}.

Record securityDocument := {
  sd_type : stringField; sd_fingerprint : stringField; sd_server_name : stringField;
  sd_alpn : stringArrayField; sd_ech : stringField; sd_certificate_pins : stringArrayField;
  sd_verify_name : stringField; sd_public_key : stringField; sd_short_id : stringField;
  sd_post_quantum_verify : stringField; sd_spider_x : stringField;
}.

Definition zero_root : rootDocument := {| rd_version := None; rd_advertisements := None |}.

Definition zero_advertisement : advertisementDocument := {|
  adoc_inbound_tag := None; adoc_name := None; adoc_topology := None; adoc_host := None;
  adoc_port := None; adoc_transport := None; adoc_security := None |}.

Definition zero_transport : transportDocument := {|
  td_type := None; td_path := None; td_host := None; td_service_name := None; td_mode := None;
  td_authority := None; td_extra := None |}.

Definition zero_security : securityDocument := {|
  sd_type := None; sd_fingerprint := None; sd_server_name := None; sd_alpn := None; sd_ech := None;
  sd_certificate_pins := None; sd_verify_name := None; sd_public_key := None; sd_short_id := None;
  sd_post_quantum_verify := None; sd_spider_x := None |}.

Definition set_root (name : string) (d : doc) (r : rootDocument) : option rootDocument :=
  if String.eqb name "version" then
    match d with
    | DNull => Some {| rd_version := None; rd_advertisements := rd_advertisements r |}
    | _ => n ← decode_int d 0%Z; Some {| rd_version := Some n; rd_advertisements := rd_advertisements r |}
    end
  else
    match d with
    | DNull => Some {| rd_version := rd_version r; rd_advertisements := None |}
    | DArray _ items => Some {| rd_version := rd_version r; rd_advertisements := Some items |}
    | _ => None
    end.

(** A json.RawMessage field takes any value. *)
Definition set_advertisement (name : string) (d : doc) (a : advertisementDocument) : option advertisementDocument :=
  let '(Build_advertisementDocument tag nm top host port tr se) := a in
  if String.eqb name "inbound_tag" then
    f ← unmarshal_string_field d; Some (Build_advertisementDocument f nm top host port tr se)
  else if String.eqb name "name" then
    f ← unmarshal_string_field d; Some (Build_advertisementDocument tag f top host port tr se)
  else if String.eqb name "topology" then
    f ← unmarshal_string_field d; Some (Build_advertisementDocument tag nm f host port tr se)
  else if String.eqb name "host" then
    f ← unmarshal_string_field d; Some (Build_advertisementDocument tag nm top f port tr se)
  else if String.eqb name "port" then
    f ← unmarshal_int_field d port; Some (Build_advertisementDocument tag nm top host f tr se)
  else if String.eqb name "transport" then
    Some (Build_advertisementDocument tag nm top host port (Some d) se)
  else Some (Build_advertisementDocument tag nm top host port tr (Some d)).

Definition set_transport (name : string) (d : doc) (t : transportDocument) : option transportDocument :=
  let '(Build_transportDocument ty path host service mode authority extra) := t in
  if String.eqb name "type" then
    f ← unmarshal_string_field d; Some (Build_transportDocument f path host service mode authority extra)
  else if String.eqb name "path" then
    f ← unmarshal_string_field d; Some (Build_transportDocument ty f host service mode authority extra)
  else if String.eqb name "host" then
    f ← unmarshal_string_field d; Some (Build_transportDocument ty path f service mode authority extra)
  else if String.eqb name "service_name" then
    f ← unmarshal_string_field d; Some (Build_transportDocument ty path host f mode authority extra)
  else if String.eqb name "mode" then
    f ← unmarshal_string_field d; Some (Build_transportDocument ty path host service f authority extra)
  else if String.eqb name "authority" then
    f ← unmarshal_string_field d; Some (Build_transportDocument ty path host service mode f extra)
  else Some (Build_transportDocument ty path host service mode authority (Some d)).

Definition set_security (name : string) (d : doc) (s : securityDocument) : option securityDocument :=
  let '(Build_securityDocument ty fp sni alpn ech pins verify pbk sid pqv spx) := s in
  if String.eqb name "alpn" then
    f ← unmarshal_array_field d alpn; Some (Build_securityDocument ty fp sni f ech pins verify pbk sid pqv spx)
  else if String.eqb name "certificate_pins" then
    f ← unmarshal_array_field d pins; Some (Build_securityDocument ty fp sni alpn ech f verify pbk sid pqv spx)
  else
    f ← unmarshal_string_field d;
    Some (
      if String.eqb name "type" then Build_securityDocument f fp sni alpn ech pins verify pbk sid pqv spx
      else if String.eqb name "fingerprint" then Build_securityDocument ty f sni alpn ech pins verify pbk sid pqv spx
      else if String.eqb name "server_name" then Build_securityDocument ty fp f alpn ech pins verify pbk sid pqv spx
      else if String.eqb name "ech" then Build_securityDocument ty fp sni alpn f pins verify pbk sid pqv spx
      else if String.eqb name "verify_name" then Build_securityDocument ty fp sni alpn ech pins f pbk sid pqv spx
      else if String.eqb name "public_key" then Build_securityDocument ty fp sni alpn ech pins verify f sid pqv spx
      else if String.eqb name "short_id" then Build_securityDocument ty fp sni alpn ech pins verify pbk f pqv spx
      else if String.eqb name "post_quantum_verify"
      then Build_securityDocument ty fp sni alpn ech pins verify pbk sid f spx
      else Build_securityDocument ty fp sni alpn ech pins verify pbk sid pqv f).

Definition root_names : list string := ["version"; "advertisements"]%string.
Definition advertisement_names : list string :=
  ["inbound_tag"; "name"; "topology"; "host"; "port"; "transport"; "security"]%string.
Definition type_names : list string := ["type"]%string.
Definition http_names : list string := ["type"; "path"; "host"]%string.
Definition grpc_names : list string := ["type"; "service_name"; "mode"; "authority"]%string.
Definition xhttp_names : list string := ["type"; "path"; "host"; "mode"; "extra"]%string.
Definition tls_names : list string :=
  ["type"; "fingerprint"; "server_name"; "alpn"; "ech"; "certificate_pins"; "verify_name"]%string.
Definition reality_names : list string :=
  ["type"; "fingerprint"; "server_name"; "public_key"; "short_id"; "post_quantum_verify"; "spider_x"]%string.

(** ** Values *)

(** The escapes of a text's string literals name Unicode scalar values. *)
Fixpoint scalar_escapes (fuel : nat) (quoted : bool) (l : list Z) : bool :=
  match fuel with
  | O => false
  | S fuel =>
      match l with
      | [] => negb quoted
      | b :: r =>
          if negb quoted then scalar_escapes fuel (b =? 34)%Z r
          else if (b =? 34)%Z then scalar_escapes fuel false r
          else if negb (b =? 92)%Z then scalar_escapes fuel true r
          else match r with
          | [] => false
          | e :: r =>
              if negb (e =? 117)%Z then scalar_escapes fuel true r
              else match hex4 r with
              | None => false
              | Some (code, r) =>
                  if ((55296 <=? code) && (code <=? 56319))%Z then
                    match strip [92; 117]%Z r with
                    | Some r =>
                        match hex4 r with
                        | Some (low, r) =>
                            if ((low <? 56320) || (57343 <? low))%Z then false else scalar_escapes fuel true r
                        | None => false
                        end
                    | None => false
                    end
                  else if ((56320 <=? code) && (code <=? 57343))%Z then false
                  else scalar_escapes fuel true r
              end
          end
      end
  end.

(** Every round reads a byte. *)
Definition validUnicodeScalarEscapes (document : string) : bool :=
  scalar_escapes (S (String.length document)) false (bytes_of document).

(** The value as json.Decoder builds it: of equal keys the last counts. *)
Fixpoint validJCSValue (d : doc) : bool :=
  match d with
  | DNull | DBool _ | DString _ _ => true
  | DNumber literal => float_finite literal
  | DArray _ items => forallb validJCSValue items
  | DObject _ fields =>
      (fix go (fields : list (string * doc)) : bool :=
         match fields with
         | [] => true
         | (key, d) :: fields =>
             (existsb (λ f, String.eqb key f.1) fields || validJCSValue d) && go fields
         end) fields
  end.

Definition validJCSObject (d : doc) : bool :=
  validUnicodeScalarEscapes (raw_text d) &&
  match d with DObject _ _ => validJCSValue d | _ => false end.

(** The non-empty string of a field that is set. *)
Definition set_nonempty (f : stringField) : bool := negb (String.eqb (sf_value f) "").

Definition fingerprint (f : stringField) : string * string :=
  match f with
  | None => ("chrome", "")
  | Some "" => ("", "security fingerprint must not be empty when present.")
  | Some v => (v, "")
  end%string.

(** ** One advertisement *)

Section WithRuntime.
Context `{GoRuntime} `{HostRuntime}.

(** objectType, of a raw message that may be absent. *)
Definition objectType (document : option doc) : option string :=
  d ← document;
  t ← decode_struct false type_names set_transport d zero_transport;
  if set_nonempty (td_type t) then td_type t else None.

Definition transport_of (names : list string) (d : doc) : option transportDocument :=
  decode_struct true names set_transport d zero_transport.

Definition security_of (names : list string) (d : doc) : option securityDocument :=
  decode_struct true names set_security d zero_security.

Definition plain_transport (t : string) : Transport := {|
  tr_type := t; tr_path := ""; tr_host := ""; tr_service_name := ""; tr_mode := "";
  tr_authority := ""; tr_extra := None |}.

Definition parseHTTPTransport (ty : string) (d : doc) : result string Transport :=
  match transport_of http_names d with
  | Some raw =>
      if set_nonempty (td_path raw) && set_nonempty (td_host raw)
      then Ok {| tr_type := ty; tr_path := sf_value (td_path raw); tr_host := sf_value (td_host raw);
                 tr_service_name := ""; tr_mode := ""; tr_authority := ""; tr_extra := None |}
      else Err "WebSocket and HTTPUpgrade transport require non-empty path and host strings."%string
  | None => Err "WebSocket and HTTPUpgrade transport require non-empty path and host strings."%string
  end.

Definition parseGRPCTransport (d : doc) : result string Transport :=
  match transport_of grpc_names d with
  | Some raw =>
      if set_nonempty (td_service_name raw) then
        let mode := if set_nonempty (td_mode raw) then sf_value (td_mode raw) else "gun"%string in
        if existsb (String.eqb mode) ["gun"; "multi"; "guna"]%string
        then Ok {| tr_type := TransportGRPC; tr_path := ""; tr_host := "";
                   tr_service_name := sf_value (td_service_name raw); tr_mode := mode;
                   tr_authority := sf_value (td_authority raw); tr_extra := None |}
        else Err "gRPC mode must be gun, multi, or guna."%string
      else Err "gRPC transport requires a non-empty service_name string."%string
  | None => Err "gRPC transport requires a non-empty service_name string."%string
  end.

Definition parseXHTTPTransport (d : doc) : result string Transport :=
  match transport_of xhttp_names d with
  | Some raw =>
      if set_nonempty (td_path raw) && set_nonempty (td_host raw) && set_nonempty (td_mode raw) then
        if existsb (String.eqb (sf_value (td_mode raw))) ["auto"; "packet-up"; "stream-up"; "stream-one"]%string
        then
          let transport extra := {|
            tr_type := TransportXHTTP; tr_path := sf_value (td_path raw); tr_host := sf_value (td_host raw);
            tr_service_name := ""; tr_mode := sf_value (td_mode raw); tr_authority := "";
            tr_extra := extra |} in
          match td_extra raw with
          | Some extra =>
              if validJCSObject extra then Ok (transport (Some (raw_text extra)))
              else Err "XHTTP extra must be a JSON object accepted by JSON Canonicalization Scheme processing."%string
          | None => Ok (transport None)
          end
        else Err "XHTTP mode must be auto, packet-up, stream-up, or stream-one."%string
      else Err "XHTTP transport requires non-empty path, host, and mode strings."%string
  | None => Err "XHTTP transport requires non-empty path, host, and mode strings."%string
  end.

(** [Err] is the problem to report. *)
Definition parseTransport (document : option doc) : result string Transport :=
  match document, objectType document with
  | Some d, Some ty =>
      if String.eqb ty TransportTCP then
        match transport_of type_names d with
        | Some _ => Ok (plain_transport TransportTCP)
        | None => Err "tcp transport accepts only type."%string
        end
      else if String.eqb ty TransportWebSocket || String.eqb ty TransportHTTPUpgrade
      then parseHTTPTransport ty d
      else if String.eqb ty TransportGRPC then parseGRPCTransport d
      else if String.eqb ty TransportXHTTP then parseXHTTPTransport d
      else match transport_of type_names d with
           | Some _ => Ok (plain_transport ty)
           | None => Err "unsupported transport accepts only type."%string
           end
  | _, _ => Err "transport must be a typed object."%string
  end.

Definition plain_security (t : string) : Security := {|
  se_type := t; se_fingerprint := ""; se_server_name := ""; se_ech := ""; se_verify_name := "";
  se_public_key := ""; se_short_id := ""; se_short_id_present := false;
  se_post_quantum_verify := ""; se_spider_x := ""; se_alpn := []; se_certificate_pins := [] |}.

Definition parseTLSSecurity (d : doc) (advertisedHost : string) : result string Security :=
  match security_of tls_names d with
  | None => Err "TLS fields must use the documented names and JSON types."%string
  | Some raw =>
      let '(fp, problem) := fingerprint (sd_fingerprint raw) in
      if negb (String.eqb problem "") then Err problem else
      Ok {| se_type := SecurityTLS; se_fingerprint := fp;
            se_server_name := if set_nonempty (sd_server_name raw) then sf_value (sd_server_name raw) else advertisedHost;
            se_ech := sf_value (sd_ech raw); se_verify_name := sf_value (sd_verify_name raw);
            se_public_key := ""; se_short_id := ""; se_short_id_present := false;
            se_post_quantum_verify := ""; se_spider_x := "";
            se_alpn := saf_values (sd_alpn raw); se_certificate_pins := saf_values (sd_certificate_pins raw) |}
  end.

Definition parseRealitySecurity (d : doc) : result string Security :=
  match security_of reality_names d with
  | None => Err "REALITY fields must use the documented names and JSON types."%string
  | Some raw =>
      let '(fp, problem) := fingerprint (sd_fingerprint raw) in
      if negb (String.eqb problem "") then Err problem else
      if negb (set_nonempty (sd_server_name raw))
      then Err "REALITY server_name is required and must not be empty."%string else
      if negb (set_nonempty (sd_public_key raw))
      then Err "REALITY public_key is required and must not be empty."%string else
      match sd_short_id raw with
      | None => Err "REALITY short_id must be present."%string
      | Some shortID =>
          Ok {| se_type := SecurityReality; se_fingerprint := fp;
                se_server_name := sf_value (sd_server_name raw); se_ech := ""; se_verify_name := "";
                se_public_key := sf_value (sd_public_key raw); se_short_id := shortID;
                se_short_id_present := true;
                se_post_quantum_verify := sf_value (sd_post_quantum_verify raw);
                se_spider_x := sf_value (sd_spider_x raw); se_alpn := []; se_certificate_pins := [] |}
      end
  end.

Definition parseSecurity (document : option doc) (advertisedHost : string) : result string Security :=
  match document, objectType document with
  | Some d, Some ty =>
      if String.eqb ty SecurityTLS then parseTLSSecurity d advertisedHost
      else if String.eqb ty SecurityReality then parseRealitySecurity d
      else if String.eqb ty SecurityNone then
        match security_of type_names d with
        | Some _ => Ok (plain_security SecurityNone)
        | None => Err "none security accepts only type."%string
        end
      else match security_of type_names d with
           | Some _ => Ok (plain_security ty)
           | None => Err "unsupported security accepts only type."%string
           end
  | _, _ => Err "security must be a typed object."%string
  end.

Definition valid_ascii_name (host : string) : bool :=
  match idna_ToASCII host with
  | None => false
  | Some ascii =>
      negb (String.eqb ascii "" || (253 <? String.length ascii) || has_suffix "." ascii) &&
      forallb (λ label, negb (String.eqb label "" || (63 <? String.length label))) (split_on "."%char ascii) &&
      negb (forallb (λ b, (b =? 46) || ((48 <=? b) && (b <=? 57)))%Z (bytes_of ascii))
  end.

Definition validAdvertisedHost (host : string) : bool :=
  if String.eqb host "" || has_suffix "." host || contains_any "/?#@%" host ||
     existsb (λ r, rune_space r.1) (runes host) then false else
  let bracketed := String.prefix "[" host in
  if bracketed && negb (has_suffix "]" host) then false else
  let addressHost := if bracketed then String.substring 1 (String.length host - 2) host else host in
  match netip_ParseAddr addressHost with
  | Some address => String.eqb (addr_zone address) "" && (negb bracketed || addr_is6 address)
  | None => if bracketed || contains_any ":" host then false else valid_ascii_name host
  end.

Definition advertisementIdentity (document : doc) : Advertisement :=
  let get key fields := match object_map fields !! key with Some (DString _ s) => s | _ => "" end in
  let identity tag name := {|
    ad_inbound_tag := tag; ad_name := if String.eqb name "" then tag else name; ad_topology := "";
    ad_host := ""; ad_port := 0; ad_transport := zeroTransport; ad_security := zeroSecurity;
    ad_validation_error := None; ad_duplicate := false |}%string in
  match document with
  | DObject _ fields => identity (get "inbound_tag" fields) (get "name" fields)
  | _ => identity "" ""
  end%string.

Definition invalidate (record : Advertisement) (message : string) : Advertisement := {|
  ad_inbound_tag := ad_inbound_tag record; ad_name := ad_name record; ad_topology := ad_topology record;
  ad_host := ad_host record; ad_port := ad_port record; ad_transport := ad_transport record;
  ad_security := ad_security record; ad_validation_error := Some message;
  ad_duplicate := ad_duplicate record |}.

Definition with_settings (record : Advertisement) (port : Z) (tr : Transport) (se : Security) : Advertisement := {|
  ad_inbound_tag := ad_inbound_tag record; ad_name := ad_name record; ad_topology := ad_topology record;
  ad_host := ad_host record; ad_port := port; ad_transport := tr; ad_security := se;
  ad_validation_error := ad_validation_error record; ad_duplicate := ad_duplicate record |}.

Definition fields_record (raw : advertisementDocument) : Advertisement := {|
  ad_inbound_tag := sf_value (adoc_inbound_tag raw);
  ad_name := if set_nonempty (adoc_name raw) then sf_value (adoc_name raw) else sf_value (adoc_inbound_tag raw);
  ad_topology := sf_value (adoc_topology raw); ad_host := sf_value (adoc_host raw);
  ad_port := 0; ad_transport := zeroTransport; ad_security := zeroSecurity;
  ad_validation_error := None; ad_duplicate := false |}.

(** The first problem of the record's own fields, in the code's order. *)
Definition fields_problem (raw : advertisementDocument) : option string :=
  let port := default 0%Z (adoc_port raw) in
  if negb (set_nonempty (adoc_inbound_tag raw)) then Some "inbound_tag is required and must not be empty."
  else if bool_decide (adoc_name raw = Some "") then Some "name must not be empty when present."
  else if negb (existsb (String.eqb (sf_value (adoc_topology raw))) [TopologyDirect; TopologyFronted])
  then Some "topology must be direct or fronted."
  else if negb (validAdvertisedHost (sf_value (adoc_host raw)))
  then Some "host must be a domain, IPv4 address, or IPv6 address without a scheme or path."
  else if bool_decide (adoc_port raw = None) || (port <? 1)%Z || (65535 <? port)%Z
  then Some "port must be an integer from 1 through 65535."
  else None%string.

Definition parseAdvertisement (document : doc) : Advertisement :=
  match decode_struct true advertisement_names set_advertisement document zero_advertisement with
  | None => invalidate (advertisementIdentity document)
              "Advertisement fields must use the documented names and JSON types."
  | Some raw =>
      let record := fields_record raw in
      match fields_problem raw with
      | Some problem => invalidate record problem
      | None =>
          let port := default 0%Z (adoc_port raw) in
          match parseTransport (adoc_transport raw) with
          | Err problem => invalidate (with_settings record port zeroTransport zeroSecurity) problem
          | Ok tr =>
              match parseSecurity (adoc_security raw) (ad_host record) with
              | Err problem => invalidate (with_settings record port tr zeroSecurity) problem
              | Ok se => with_settings record port tr se
              end
          end
      end
  end.

(** ** The document *)

Inductive parseError :=
| RootJSON (e : jsonError) | RootFields | VersionRequired | ErrUnsupportedVersion | AdvertisementsRequired.

Definition duplicated (records : list Advertisement) (tag : string) : bool :=
  negb (String.eqb tag "") && (1 <? length (filter (λ r, ad_inbound_tag r = tag) records))%nat.

Definition markDuplicates (records : list Advertisement) : list Advertisement :=
  (λ r, {| ad_inbound_tag := ad_inbound_tag r; ad_name := ad_name r; ad_topology := ad_topology r;
           ad_host := ad_host r; ad_port := ad_port r; ad_transport := ad_transport r;
           ad_security := ad_security r; ad_validation_error := ad_validation_error r;
           ad_duplicate := duplicated records (ad_inbound_tag r) |}) <$> records.

Definition decode_root (document : string) : option rootDocument :=
  d ← parse_document document; decode_struct true root_names set_root d zero_root.

Definition Parse (document : string) : result parseError View :=
  match validateJSONDocument document with
  | Some e => Err (RootJSON e)
  | None =>
      match decode_root document with
      | None => Err RootFields
      | Some root =>
          match rd_version root with
          | None => Err VersionRequired
          | Some version =>
              if negb (version =? 1)%Z then Err ErrUnsupportedVersion else
              match rd_advertisements root with
              | None => Err AdvertisementsRequired
              | Some items => Ok {| advertisements := markDuplicates (parseAdvertisement <$> items) |}
              end
          end
      end
  end.

End WithRuntime.

End AdvertisementsParse.
