(* ===== verification/AdvertisementsTokens.v ===== *)
(** * The advertised settings' strict document check

    validateJSONDocument walks the document by tokens. It accepts exactly
    the UTF-8 texts of one JSON value in which no object repeats a key. *)

From Stdlib Require Import Ascii String.
From S2P Require Import Prelude GoJson GoText GoDecode GoDecodeProps Advertisements AdvertisementsParse.

Module AdvertisementsTokens.
Import GoJson GoText GoDecode GoDecodeProps Advertisements AdvertisementsParse.

Local Open Scope Z_scope.

(** ** The reference: no object repeats a key *)

Fixpoint unique_keys (d : doc) : bool :=
  match d with
  | DArray _ items => forallb unique_keys items
  | DObject _ fields => bool_decide (NoDup fields.*1) && forallb (λ f, unique_keys f.2) fields
  | _ => true
  end.

(** ** Tokens at a value *)

(** Past its separators, the decoder stands where a value may start. *)
Definition at_value (dec : Decoder) (l : list Z) (st : tokenState) : Prop :=
  token_prefix (S (length (dc_rest dec))) (dc_rest dec) (dc_state dec) = Some (l, st) ∧
  tokenValueAllowed st = true.

Definition decoder (l : list Z) (st : tokenState) (stack : list tokenState) : Decoder :=
  {| dc_rest := l; dc_state := st; dc_stack := stack |}.

Lemma prefix_here l st fuel :
  head_is 58 (skip_space l) = false → head_is 44 (skip_space l) = false →
  token_prefix (S fuel) l st = Some (skip_space l, st).
Proof. intros H1 H2. cbn [token_prefix]. by rewrite H1, H2. Qed.

Lemma prefix_comma l r fuel st st' :
  skip_space l = 44 :: r → head_is 58 (skip_space r) = false → head_is 44 (skip_space r) = false →
  (st = tokenArrayComma ∧ st' = tokenArrayValue ∨ st = tokenObjectComma ∧ st' = tokenObjectKey) →
  token_prefix (S (S fuel)) l st = Some (skip_space r, st').
Proof.
  intros E H1 H2 Hst. cbn [token_prefix]. rewrite E. cbn [head_is tail].
  destruct Hst as [[-> ->]|[-> ->]]; simpl; by rewrite H1, H2.
Qed.

Lemma prefix_colon l r fuel :
  skip_space l = 58 :: r → head_is 58 (skip_space r) = false → head_is 44 (skip_space r) = false →
  token_prefix (S (S fuel)) l tokenObjectColon = Some (skip_space r, tokenObjectValue).
Proof. intros E H1 H2. cbn [token_prefix]. rewrite E. cbn [head_is tail]. simpl. by rewrite H1, H2. Qed.

(** What a value starts with. *)
Definition value_head (l : list Z) : Prop :=
  ∃ c r, l = c :: r ∧ is_space c = false ∧ c ≠ 58 ∧ c ≠ 44 ∧ c ≠ 93 ∧ c ≠ 125.

Lemma scalar_head l d rest : scalar l = Some (d, rest) →
  value_head l ∧ head_is 91 l = false ∧ head_is 123 l = false.
Proof.
  unfold scalar. destruct (head_is 34 l) eqn:E.
  { apply head_is_cons in E as (r & ->). intros _. split; [|done]. by eexists _, _. }
  destruct (strip (bytes_of "null") l) eqn:E1; [apply strip_app in E1 as ->; split; [by eexists _, _|done]|].
  destruct (strip (bytes_of "true") l) eqn:E2; [apply strip_app in E2 as ->; split; [by eexists _, _|done]|].
  destruct (strip (bytes_of "false") l) eqn:E3; [apply strip_app in E3 as ->; split; [by eexists _, _|done]|].
  intros ([lit rest'] & (-> & (b & t & -> & Hb) & _)%scan_number_spec & _)%bind_Some.
  assert (is_space b = false ∧ b ≠ 58 ∧ b ≠ 44 ∧ b ≠ 93 ∧ b ≠ 125 ∧ b ≠ 91 ∧ b ≠ 123) as (?&?&?&?&?&H1&H2).
  { unfold is_digit, is_space in *. destruct Hb as [[?%Z.leb_le ?%Z.leb_le]%andb_prop| ->]; [|done].
    split_and!; lia. }
  apply Z.eqb_neq in H1, H2. split; [by eexists _, _|done].
Qed.

Lemma value_starts depth l d rest : value depth l = Some (d, rest) → value_head l.
Proof.
  destruct (head_is 91 l) eqn:E1; [apply head_is_cons in E1 as (r & ->); by exists 91, r|].
  destruct (head_is 123 l) eqn:E2; [apply head_is_cons in E2 as (r & ->); by exists 123, r|].
  destruct depth; cbn [value]; rewrite E1, E2; by intros [? _]%scalar_head.
Qed.

Lemma value_head_not l c : value_head l → c = 58 ∨ c = 44 ∨ c = 93 ∨ c = 125 → head_is c l = false.
Proof. intros (b & r & -> & _ & ? & ? & ? & ?) Hc. simpl. apply Z.eqb_neq. intros ->. lia. Qed.

Lemma value_head_solid l : value_head l → skip_space l = l.
Proof. intros (b & r & -> & ? & _). by apply skip_space_id. Qed.

Lemma more_head l st stack : value_head (skip_space l) ∨ head_is 44 (skip_space l) = true →
  more (decoder l st stack) = true.
Proof.
  unfold more, decoder. simpl. intros [(b & r & -> & _ & _ & _ & H1 & H2)|(r & ->)%head_is_cons]; [|done].
  apply Z.eqb_neq in H1, H2. by rewrite H1, H2.
Qed.

(** A closing delimiter. *)
Lemma token_close c l r st0 stack st :
  skip_space l = c :: r → (c = 93 ∧ closes_array st = true ∨ c = 125 ∧ closes_object st = true) →
  more (decoder l st (st0 :: stack)) = false ∧
  next_token (decoder l st (st0 :: stack)) = Ok (Delim c, decoder r (tokenValueEnd st0) stack).
Proof.
  intros E Hc. unfold more, next_token, decoder. cbn [dc_rest dc_state dc_stack].
  rewrite prefix_here by (rewrite E; destruct Hc as [[-> _]|[-> _]]; done). rewrite E.
  destruct Hc as [[-> Hst]|[-> Hst]]; simpl; by rewrite Hst.
Qed.

Lemma token_scalar dec l st d rest :
  at_value dec l st → scalar l = Some (d, rest) →
  ∃ tok, next_token dec = Ok (tok, decoder rest (tokenValueEnd st) (dc_stack dec)) ∧ ∀ c, tok ≠ Delim c.
Proof.
  intros [Hp Ha] Hs. destruct (scalar_head l d rest Hs) as ((c & r & -> & _ & _ & _ & H93 & H125) & H91 & H123).
  unfold next_token. rewrite Hp. cbn [head_is] in H91, H123. apply Z.eqb_neq in H93, H125.
  rewrite H91, H93, H123, H125.
  assert (expects_key st = false) as -> by (by destruct st).
  rewrite andb_false_r, Ha, Hs. eexists. split; [done|]. by destruct d.
Qed.

Lemma token_open dec c r st :
  at_value dec (c :: r) st → c = 91 ∨ c = 123 →
  next_token dec = Ok (Delim c, decoder r (if c =? 91 then tokenArrayStart else tokenObjectStart) (st :: dc_stack dec)).
Proof. intros [Hp Ha] [->| ->]; unfold next_token; rewrite Hp; simpl; by rewrite Ha. Qed.

(** ** Accepting *)

Lemma value_length depth l d rest : Forall is_byte l → value depth l = Some (d, rest) →
  (length rest < length l)%nat ∧ Forall is_byte rest.
Proof.
  intros Hb Hv. destruct (value_local depth _ _ _ Hb Hv) as (E & Hne & _). rewrite E in Hb |- *.
  apply Forall_app in Hb as [_ ?]. rewrite length_app. split; [|done].
  destruct (bytes_of (raw_text d)); [done|simpl; lia].
Qed.

Lemma skip_tail l c r : skip_space l = c :: r → Forall is_byte l →
  (length r < length l)%nat ∧ Forall is_byte r.
Proof.
  intros E Hb. pose proof (skip_space_length l) as Hl. apply skip_space_bytes in Hb. rewrite E in *.
  simpl in Hl. split; [lia|]. by apply Forall_inv_tail in Hb.
Qed.

(** What validateJSONValue does wherever [value] reads. *)
Definition accepts (depth : nat) : Prop :=
  ∀ l d rest dec st fuel, Forall is_byte l → value depth l = Some (d, rest) → unique_keys d = true →
    at_value dec l st → (2 * length l < fuel)%nat →
    validateJSONValue fuel dec = Ok (decoder rest (tokenValueEnd st) (dc_stack dec)).

Lemma starts_not depth l d rest c : value depth l = Some (d, rest) → c = 58 ∨ c = 44 ∨ c = 93 ∨ c = 125 →
  head_is c l = false.
Proof. intros Hv%value_starts. by apply value_head_not. Qed.

Lemma accept_items depth n : accepts depth → ∀ r ds rest l st st' st0 stk fuel,
  Forall is_byte r → elements (value depth) n r = Some (ds, rest) → forallb unique_keys ds = true →
  at_value (decoder l st (st0 :: stk)) (skip_space r) st' → tokenValueEnd st' = tokenArrayComma →
  more (decoder l st (st0 :: stk)) = true → (2 * length r + 1 < fuel)%nat →
  validateItems fuel (decoder l st (st0 :: stk)) = Ok (decoder rest (tokenValueEnd st0) stk).
Proof.
  intros Hacc. induction n as [|n IH]; [done|]. intros r ds rest l st st' st0 stk fuel Hb He Hu Hat Hend Hm Hf.
  cbn [elements] in He. apply bind_Some in He as ([d l1] & Hv & H).
  pose proof (skip_space_length r) as Hlen. pose proof (skip_space_bytes _ Hb) as Hb'.
  destruct (value_length _ _ _ _ Hb' Hv) as [Hl1 Hb1].
  destruct fuel as [|fuel]; [lia|]. cbn [validateItems]. rewrite Hm.
  assert (unique_keys d = true) as Hd.
  { destruct (head_is 44 _); [apply bind_Some in H as ([? ?] & _ & [= <- <-])|
      destruct (head_is 93 _); [injection H as <- <-|done]]; by apply andb_prop in Hu as [? _]. }
  rewrite (Hacc _ _ _ _ st' fuel Hb' Hv Hd Hat) by lia. rewrite Hend. cbn [dc_stack decoder].
  destruct (head_is 44 (skip_space l1)) eqn:E44.
  - apply head_is_cons in E44 as (r' & E'). rewrite E' in H. cbn [tail] in H.
    apply bind_Some in H as ([ds' l2] & Hr & [= <- <-]). apply andb_prop in Hu as [_ Hu].
    destruct (skip_tail _ _ _ E' Hb1) as [Hr' Hb2].
    assert (∃ d' l', value depth (skip_space r') = Some (d', l')) as (d' & l' & Hv').
    { destruct n as [|n]; [done|]. cbn [elements] in Hr. apply bind_Some in Hr as ([d' l'] & Hv' & _). eauto. }
    apply (IH r' ds' _ l1 tokenArrayComma tokenArrayValue); try done; [|apply more_head; right; by rewrite E'|lia].
    split; [|done]. cbn [decoder dc_rest dc_state]. destruct l1 as [|b l1]; [done|].
    cbn [length]. apply (prefix_comma _ r'); [done|by eapply starts_not; [done|lia]..|by left].
  - destruct (head_is 93 (skip_space l1)) eqn:E93; [|done].
    apply head_is_cons in E93 as (r' & E'). rewrite E' in H. injection H as <- <-.
    destruct (token_close 93 l1 r' st0 stk tokenArrayComma E') as [Hm' Ht]; [by left|].
    unfold decoder in *. destruct fuel as [|fuel]; [lia|]. cbn [validateItems]. by rewrite Hm', Ht.
Qed.

Lemma accept_members depth n : accepts depth → ∀ r fs rest keys l st st' st0 stk fuel,
  Forall is_byte r → members (value depth) n r = Some (fs, rest) →
  forallb (λ f, unique_keys f.2) fs = true → NoDup fs.*1 → Forall (λ k, k ∉ keys) fs.*1 →
  token_prefix (S (length l)) l st = Some (skip_space r, st') → expects_key st' = true →
  more (decoder l st (st0 :: stk)) = true → (2 * length r + 1 < fuel)%nat →
  validateMembers fuel keys (decoder l st (st0 :: stk)) = Ok (decoder rest (tokenValueEnd st0) stk).
Proof.
  intros Hacc. induction n as [|n IH]; [done|].
  intros r fs rest keys l st st' st0 stk fuel Hb He Hu Hnd Hks Hp Hkey Hm Hf.
  cbn [members] in He. apply bind_Some in He as (l1 & H1 & H). apply bind_Some in H as ([key l2] & H2 & H).
  apply bind_Some in H as (l3 & H3 & H). apply bind_Some in H as ([d l4] & Hv & H).
  pose proof (skip_space_length r) as Hlen. pose proof (skip_space_bytes _ Hb) as Hb'.
  apply strip_app in H1. cbn [app] in H1. apply strip_app in H3. cbn [app] in H3.
  rewrite H1 in Hlen, Hb'. apply Forall_inv_tail in Hb'.
  destruct (scan_string_spec _ _ _ H2) as [El1 _]. rewrite El1 in Hb', Hlen.
  apply Forall_app in Hb' as [_ Hb2%Forall_inv_tail].
  destruct (skip_tail _ _ _ H3 Hb2) as [Hl3 Hb3]. pose proof (skip_space_length l3) as Hlen3.
  pose proof (skip_space_bytes _ Hb3) as Hb3'. destruct (value_length _ _ _ _ Hb3' Hv) as [Hl4 Hb4].
  simpl in Hlen. rewrite length_app in Hlen. simpl in Hlen.
  assert (∃ fs', fs = (string_value key, d) :: fs') as (fs' & ->).
  { destruct (head_is 44 _); [apply bind_Some in H as ([? ?] & _ & [= <- <-]); eauto|].
    destruct (head_is 125 _); [injection H as <- <-; eauto|done]. }
  apply andb_prop in Hu as [Hd Hu]. cbn [fmap list_fmap fst] in Hnd, Hks.
  apply NoDup_cons in Hnd as [Hni Hnd]. apply Forall_cons in Hks as [Hk Hks].
  destruct fuel as [|fuel]; [lia|]. cbn [validateMembers]. rewrite Hm.
  assert (next_token (decoder l st (st0 :: stk)) =
    Ok (StringToken (string_value key), decoder l2 tokenObjectColon (st0 :: stk))) as ->.
  { unfold next_token. cbn [decoder dc_rest dc_state dc_stack]. rewrite Hp, H1. simpl. rewrite Hkey. simpl.
    by rewrite H2. }
  assert (existsb (String.eqb (string_value key)) keys = false) as ->.
  { apply not_true_iff_false. rewrite existsb_exists. intros (k & Hin & E%String.eqb_eq).
    apply Hk. rewrite E. by apply list_elem_of_In. }
  rewrite (Hacc _ _ _ _ tokenObjectValue fuel Hb3' Hv Hd) by
    (lia || (split; [|done]; cbn [decoder dc_rest dc_state]; destruct l2 as [|b l2]; [done|];
             cbn [length]; apply (prefix_colon _ l3); [done|by eapply starts_not; [done|lia]..])).
  cbn [dc_stack decoder tokenValueEnd].
  destruct (head_is 44 (skip_space l4)) eqn:E44.
  - apply head_is_cons in E44 as (r' & E'). rewrite E' in H. cbn [tail] in H.
    apply bind_Some in H as ([fs'' l5] & Hr & [= <- <-]).
    destruct (skip_tail _ _ _ E' Hb4) as [Hr' Hb5].
    assert (∃ l', skip_space r' = 34 :: l') as (l' & Eq).
    { destruct n as [|n]; [done|]. cbn [members] in Hr. apply bind_Some in Hr as (l' & Hq & _).
      apply strip_app in Hq. eauto. }
    apply (IH r' fs'' _ (string_value key :: keys) l4 tokenObjectComma tokenObjectKey); try done.
    + rewrite Forall_forall in *. intros k Hin [-> |]%elem_of_cons; [done|]. by apply (Hks k).
    + destruct l4 as [|b l4]; [done|]. cbn [length].
      apply (prefix_comma _ r'); [done|by rewrite Eq..|by right].
    + apply more_head. right. by rewrite E'.
    + lia.
  - destruct (head_is 125 (skip_space l4)) eqn:E125; [|done].
    apply head_is_cons in E125 as (r' & E'). rewrite E' in H. injection H as <- <-.
    destruct (token_close 125 l4 r' st0 stk tokenObjectComma E') as [Hm' Ht]; [by right|].
    unfold decoder in *. destruct fuel as [|fuel]; [lia|]. cbn [validateMembers]. by rewrite Hm', Ht.
Qed.

Lemma accept_scalar l d rest dec st fuel : scalar l = Some (d, rest) → at_value dec l st → (0 < fuel)%nat →
  validateJSONValue fuel dec = Ok (decoder rest (tokenValueEnd st) (dc_stack dec)).
Proof.
  intros Hs Hat Hf. destruct (token_scalar _ _ _ _ _ Hat Hs) as (tok & Ht & Hne).
  destruct fuel as [|fuel]; [lia|]. cbn [validateJSONValue]. rewrite Ht.
  destruct tok as [c|s|]; [by destruct (Hne c)|done..].
Qed.

Lemma accepts_all depth : accepts depth.
Proof.
  induction depth as [|depth IH]; intros l d rest dec st fuel Hb Hv Hu Hat Hf; cbn [value] in Hv.
  all: destruct (head_is 91 l) eqn:E1; [|destruct (head_is 123 l) eqn:E2].
  all: try done.
  all: try (by eapply accept_scalar; [done|done|lia]).
  - apply head_is_cons in E1 as (r & ->). cbn [tail length] in *. apply Forall_inv_tail in Hb.
    destruct fuel as [|fuel]; [lia|]. cbn [validateJSONValue]. rewrite (token_open _ _ _ _ Hat) by auto. simpl.
    unfold container in Hv. cbn [tail] in Hv. destruct (head_is 93 (skip_space r)) eqn:E93.
    + apply head_is_cons in E93 as (r' & E'). rewrite E' in Hv. injection Hv as <- <-. cbn [tail].
      destruct (token_close 93 r r' st (dc_stack dec) tokenArrayStart E') as [Hm Ht]; [by left|].
      destruct fuel as [|fuel]; [lia|]. cbn [validateItems]. by rewrite Hm, Ht.
    + apply bind_Some in Hv as ([ds rest'] & He & [= <- <-]).
      pose proof (skip_space_length r). pose proof (skip_space_bytes _ Hb) as Hb'.
      assert (∃ d' l', value depth (skip_space r) = Some (d', l')) as (d' & l' & Hv').
      { destruct (length (skip_space r)) as [|n]; [done|]. cbn [elements] in He.
        rewrite skip_space_idem in He. apply bind_Some in He as ([d' l'] & Hv' & _). eauto. }
      apply (accept_items depth _ IH _ _ _ r tokenArrayStart tokenArrayStart st (dc_stack dec) fuel Hb' He Hu);
        try done; [|apply more_head; left; by eapply value_starts|lia].
      split; [|done]. cbn [decoder dc_rest dc_state]. rewrite skip_space_idem.
      apply prefix_here; (eapply starts_not; [done|lia]).
  - apply head_is_cons in E2 as (r & ->). cbn [tail length] in *. apply Forall_inv_tail in Hb.
    destruct fuel as [|fuel]; [lia|]. cbn [validateJSONValue]. rewrite (token_open _ _ _ _ Hat) by auto. simpl.
    unfold container in Hv. cbn [tail] in Hv. destruct (head_is 125 (skip_space r)) eqn:E93.
    + apply head_is_cons in E93 as (r' & E'). rewrite E' in Hv. injection Hv as <- <-. cbn [tail].
      destruct (token_close 125 r r' st (dc_stack dec) tokenObjectStart E') as [Hm Ht]; [by right|].
      destruct fuel as [|fuel]; [lia|]. cbn [validateMembers]. by rewrite Hm, Ht.
    + apply bind_Some in Hv as ([fs rest'] & He & [= <- <-]).
      pose proof (skip_space_length r). pose proof (skip_space_bytes _ Hb) as Hb'.
      cbn [unique_keys] in Hu. apply andb_prop in Hu as [Hnd%bool_decide_eq_true Hu].
      assert (∃ l', skip_space r = 34 :: l') as (l' & Eq).
      { destruct (length (skip_space r)) as [|n]; [done|]. cbn [members] in He.
        rewrite skip_space_idem in He. apply bind_Some in He as (l' & Hq & _). apply strip_app in Hq. eauto. }
      apply (accept_members depth _ IH _ _ _ [] r tokenObjectStart tokenObjectStart st (dc_stack dec) fuel Hb' He Hu Hnd);
        try done; [by apply Forall_true; intros k ?%not_elem_of_nil| | |lia].
      * rewrite skip_space_idem. apply prefix_here; by rewrite Eq.
      * unfold more, decoder. cbn [dc_rest]. by rewrite Eq.
Qed.

(** ** Nothing else is accepted *)

(** The separators before a token, inverted. *)
Lemma prefix_inv l st l' st' :
  token_prefix (S (length l)) l st = Some (l', st') →
  (st' = st ∧ l' = skip_space l) ∨
  ∃ r, l' = skip_space r ∧
    (skip_space l = 44 :: r ∧ (st = tokenArrayComma ∧ st' = tokenArrayValue ∨ st = tokenObjectComma ∧ st' = tokenObjectKey) ∨
     skip_space l = 58 :: r ∧ st = tokenObjectColon ∧ st' = tokenObjectValue).
Proof.
  generalize (length l). intros n. cbn [token_prefix].
  assert (∀ n r st1 st2 l2, token_prefix n r st1 = Some (l2, st2) →
    (st1 = tokenArrayValue ∨ st1 = tokenObjectKey ∨ st1 = tokenObjectValue) → st2 = st1 ∧ l2 = skip_space r) as Hstop.
  { intros [|m] r st1 st2 l2; [done|]. cbn [token_prefix]. intros Hp Hst.
    destruct (head_is 58 _); [by destruct Hst as [->|[->| ->]]|].
    destruct (head_is 44 _); [by destruct Hst as [->|[->| ->]]|]. by injection Hp as <- <-. }
  destruct (head_is 58 _) eqn:E58.
  { apply head_is_cons in E58 as (r & E). rewrite E. cbn [tail]. destruct st; try done. intros Hp.
    apply Hstop in Hp as [-> ->]; [|auto]. right. exists r. auto. }
  destruct (head_is 44 _) eqn:E44; [|intros [= <- <-]; by left].
  apply head_is_cons in E44 as (r & E). rewrite E. cbn [tail].
  destruct st; try done; intros Hp; (apply Hstop in Hp as [-> ->]; [|auto]); right; exists r; auto 6.
Qed.

Definition value_state (st : tokenState) : Prop :=
  st = tokenTopValue ∨ st = tokenArrayStart ∨ st = tokenArrayComma ∨ st = tokenObjectColon.

Lemma at_value_inv l st stk l' st' :
  at_value (decoder l st stk) l' st' →
  (st = tokenTopValue → l' = skip_space l ∧ st' = st) ∧ (st = tokenArrayStart → l' = skip_space l ∧ st' = st) ∧
  (st = tokenArrayComma → ∃ r, skip_space l = 44 :: r ∧ l' = skip_space r ∧ st' = tokenArrayValue) ∧
  (st = tokenObjectColon → ∃ r, skip_space l = 58 :: r ∧ l' = skip_space r ∧ st' = tokenObjectValue).
Proof.
  intros [Hp Ha]. cbn [decoder dc_rest dc_state] in Hp.
  apply prefix_inv in Hp as [[-> ->]|(r & -> & [[E [[-> ->]|[-> ->]]]|[E [-> ->]]])]; split_and!;
    intros Hst; try done; try (by subst st); by exists r.
Qed.

(** A token read where a value may start. *)
Lemma token_value_inv l st stk tok dec' :
  value_state st → next_token (decoder l st stk) = Ok (tok, dec') →
  tok = Delim 93 ∨ tok = Delim 125 ∨
  ∃ l' st', at_value (decoder l st stk) l' st' ∧
    ((∃ r, l' = 91 :: r ∧ tok = Delim 91 ∧ dec' = decoder r tokenArrayStart (st' :: stk)) ∨
     (∃ r, l' = 123 :: r ∧ tok = Delim 123 ∧ dec' = decoder r tokenObjectStart (st' :: stk)) ∨
     (∃ d rest, scalar l' = Some (d, rest) ∧ (∀ c, tok ≠ Delim c) ∧ dec' = decoder rest (tokenValueEnd st') stk)).
Proof.
  intros Hst. unfold next_token. cbn [decoder dc_rest dc_state dc_stack].
  destruct (token_prefix _ l st) as [[l' st']|] eqn:Ep; [|done].
  assert (expects_key st' = false) as Hk.
  { apply prefix_inv in Ep as [[-> _]|(r & _ & [[_ [[-> ->]|[-> ->]]]|[_ [-> ->]]])]; try done.
    - by destruct Hst as [->|[->|[->| ->]]].
    - by destruct Hst as [|[|[|]]]. }
  destruct l' as [|c r]; [done|]. rewrite Hk, andb_false_r.
  assert (at_value (decoder l st stk) (c :: r) st' ↔ tokenValueAllowed st' = true) as Hat.
  { unfold at_value. cbn [decoder dc_rest dc_state]. rewrite Ep. intuition. }
  destruct (Z.eqb_spec c 91) as [->|].
  { destruct (tokenValueAllowed st'); [|done]. intros [= <- <-]. right. right. eexists _, _.
    split; [by apply Hat|]. left. eauto. }
  destruct (Z.eqb_spec c 93) as [->|].
  { destruct (closes_array st'); [|done]. unfold close. destruct stk; [done|]. intros [= <- _]. auto. }
  destruct (Z.eqb_spec c 123) as [->|].
  { destruct (tokenValueAllowed st'); [|done]. intros [= <- <-]. right. right. eexists _, _.
    split; [by apply Hat|]. right. left. eauto. }
  destruct (Z.eqb_spec c 125) as [->|].
  { destruct (closes_object st'); [|done]. unfold close. destruct stk; [done|]. intros [= <- _]. auto. }
  destruct (tokenValueAllowed st') eqn:Ea; [|done].
  destruct (scalar (c :: r)) as [[d rest]|] eqn:Es; [|done]. intros [= <- <-]. right. right. eexists _, _.
  split; [by apply Hat|]. right. right. eexists _, _. split_and!; [done|by destruct d|done].
Qed.

Lemma close_inv c l st st0 stk dec' :
  more (decoder l st (st0 :: stk)) = false → next_token (decoder l st (st0 :: stk)) = Ok (Delim c, dec') →
  ∃ r, skip_space l = c :: r ∧ dec' = decoder r (tokenValueEnd st0) stk.
Proof.
  unfold more, next_token. cbn [decoder dc_rest dc_state dc_stack].
  destruct (skip_space l) as [|b r] eqn:E.
  - intros _. rewrite prefix_here by (by rewrite E). by rewrite E.
  - intros [->%negb_false_iff%Z.eqb_eq| ->%negb_false_iff%Z.eqb_eq]%andb_false_iff;
      rewrite prefix_here by (by rewrite E); rewrite E; simpl; case_match; try done; intros [= <- <-]; eauto.
Qed.

Lemma key_token_inv l st stk key dec' :
  st = tokenObjectStart ∨ st = tokenObjectComma →
  next_token (decoder l st stk) = Ok (StringToken key, dec') →
  ∃ l1 body rest,
    (st = tokenObjectStart ∧ skip_space l = 34 :: l1 ∨
     st = tokenObjectComma ∧ ∃ r, skip_space l = 44 :: r ∧ skip_space r = 34 :: l1) ∧
    scan_string l1 = Some (body, rest) ∧ key = string_value body ∧ dec' = decoder rest tokenObjectColon stk.
Proof.
  intros Hst. unfold next_token. cbn [decoder dc_rest dc_state dc_stack].
  destruct (token_prefix _ l st) as [[l' st']|] eqn:Ep; [|done]. destruct l' as [|c r]; [done|].
  assert (st' = tokenObjectComma ∨ expects_key st' = true ∧
    (st = tokenObjectStart ∧ skip_space l = c :: r ∨
     st = tokenObjectComma ∧ ∃ r', skip_space l = 44 :: r' ∧ skip_space r' = c :: r)) as Hcases.
  { apply prefix_inv in Ep as [[-> E]|(r' & E & [[E' [[-> ->]|[-> ->]]]|[E' [-> ->]]])]; try done.
    - destruct Hst as [->| ->]; [|by left]. right. auto.
    - by destruct Hst.
    - right. split; [done|]. right. eauto.
    - by destruct Hst. }
  assert (tokenValueAllowed st' = false) as ->.
  { destruct Hcases as [->|[Hk _]]; [done|]. by destruct st'. }
  assert (∀ k, close k r stk ≠ Ok (StringToken key, dec')) as Hclose by (intros k; unfold close; by destruct stk).
  destruct (c =? 91); [done|]. destruct (c =? 93); [case_match; [by intros ?%Hclose|done]|].
  destruct (c =? 123); [done|]. destruct (c =? 125); [case_match; [by intros ?%Hclose|done]|].
  destruct (Z.eqb_spec c 34) as [->|]; [|done]. cbn [andb].
  destruct (expects_key st') eqn:Ek; [|done].
  destruct (scan_string r) as [[body rest]|] eqn:Es; [|done]. intros [= <- <-].
  exists r, body, rest. split_and!; try done. destruct Hcases as [->|[_ ?]]; done.
Qed.

(** Items and members after a first one. *)
Definition more_items (v : list Z → option (doc * list Z)) (l : list Z) (ds : list doc) (rest : list Z) : Prop :=
  (ds = [] ∧ skip_space l = 93 :: rest) ∨ ∃ n r, skip_space l = 44 :: r ∧ elements v n r = Some (ds, rest).

Definition more_members (v : list Z → option (doc * list Z)) (l : list Z) (fs : list (string * doc)) (rest : list Z) : Prop :=
  (fs = [] ∧ skip_space l = 125 :: rest) ∨ ∃ n r, skip_space l = 44 :: r ∧ members v n r = Some (fs, rest).

Lemma elements_cons v r d l1 ds rest :
  v (skip_space r) = Some (d, l1) → more_items v l1 ds rest → ∃ n, elements v n r = Some (d :: ds, rest).
Proof.
  intros Hv [[-> E]|(n & r' & E & He)]; [exists 1%nat|exists (S n)]; cbn [elements]; rewrite Hv;
    cbn [mbind option_bind]; rewrite E; cbn [head_is tail]; simpl; [done|]. by rewrite He.
Qed.

Lemma members_cons v r l1 body l2 l3 d l4 fs rest :
  skip_space r = 34 :: l1 → scan_string l1 = Some (body, l2) → skip_space l2 = 58 :: l3 →
  v (skip_space l3) = Some (d, l4) → more_members v l4 fs rest →
  ∃ n, members v n r = Some ((string_value body, d) :: fs, rest).
Proof.
  intros E1 E2 E3 Hv [[-> E]|(n & r' & E & He)]; [exists 1%nat|exists (S n)]; cbn [members]; rewrite E1;
    cbn [strip]; simpl; rewrite E2; cbn [mbind option_bind]; rewrite E3; simpl; rewrite Hv;
    cbn [mbind option_bind]; rewrite E; cbn [head_is tail]; simpl; [done|]. by rewrite He.
Qed.

Lemma more_items_mono (v w : list Z → option (doc * list Z)) l ds rest :
  (∀ l r, v l = Some r → w l = Some r) → more_items v l ds rest → more_items w l ds rest.
Proof. intros Hvw [?|(n & r & ? & ?)]; [by left|right]. exists n, r. split; [done|]. by eapply elements_mono. Qed.

Lemma more_members_mono (v w : list Z → option (doc * list Z)) l fs rest :
  (∀ l r, v l = Some r → w l = Some r) → more_members v l fs rest → more_members w l fs rest.
Proof. intros Hvw [?|(n & r & ? & ?)]; [by left|right]. exists n, r. split; [done|]. by eapply members_mono. Qed.

(** What was read when [fuel] rounds accepted: a value, items, members. *)
Definition sound_value (fuel : nat) : Prop :=
  ∀ l st stk dec', Forall is_byte l → value_state st → validateJSONValue fuel (decoder l st stk) = Ok dec' →
    ∃ l' st' d rest, at_value (decoder l st stk) l' st' ∧ value fuel l' = Some (d, rest) ∧
      unique_keys d = true ∧ dec' = decoder rest (tokenValueEnd st') stk ∧ Forall is_byte rest.

Definition sound_items (fuel : nat) : Prop :=
  ∀ l st st0 stk dec', Forall is_byte l → validateItems fuel (decoder l st (st0 :: stk)) = Ok dec' →
    st = tokenArrayStart ∨ st = tokenArrayComma →
    ∃ ds rest, dec' = decoder rest (tokenValueEnd st0) stk ∧ forallb unique_keys ds = true ∧
      (st = tokenArrayStart → (ds = [] ∧ skip_space l = 93 :: rest) ∨ ∃ n, elements (value fuel) n (skip_space l) = Some (ds, rest)) ∧
      (st = tokenArrayComma → more_items (value fuel) l ds rest).

Definition sound_members (fuel : nat) : Prop :=
  ∀ keys l st st0 stk dec', Forall is_byte l → validateMembers fuel keys (decoder l st (st0 :: stk)) = Ok dec' →
    st = tokenObjectStart ∨ st = tokenObjectComma →
    ∃ fs rest, dec' = decoder rest (tokenValueEnd st0) stk ∧ forallb (λ f, unique_keys f.2) fs = true ∧
      NoDup fs.*1 ∧ Forall (λ k, k ∉ keys) fs.*1 ∧
      (st = tokenObjectStart → (fs = [] ∧ skip_space l = 125 :: rest) ∨ ∃ n, members (value fuel) n (skip_space l) = Some (fs, rest)) ∧
      (st = tokenObjectComma → more_members (value fuel) l fs rest).

Lemma value_S fuel l r : value fuel l = Some r → value (S fuel) l = Some r.
Proof. apply value_mono. lia. Qed.

Lemma sound_items_step fuel : sound_value fuel → sound_items fuel → sound_items (S fuel).
Proof.
  intros Hval Hit l st st0 stk dec' Hb. cbn [validateItems].
  destruct (more (decoder l st (st0 :: stk))) eqn:Em.
  - destruct (validateJSONValue fuel _) as [dec1|e] eqn:Ev; [|done]. intros Hv Hst.
    assert (value_state st) as Hvs by (unfold value_state; destruct Hst; auto).
    destruct (Hval _ _ _ _ Hb Hvs Ev) as (l' & st' & d & l1 & Hat & Hd & Hu & -> & Hb1).
    apply at_value_inv in Hat as (_ & Hs & Hc & _).
    assert (tokenValueEnd st' = tokenArrayComma) as He.
    { destruct Hst as [Hst|Hst]; [by destruct (Hs Hst) as [_ ->]; subst st|by destruct (Hc Hst) as (r & _ & _ & ->)]. }
    rewrite He in Hv. destruct (Hit _ _ _ _ _ Hb1 Hv (or_intror eq_refl)) as (ds & rest & -> & Hus & _ & Hmore).
    specialize (Hmore eq_refl). apply (more_items_mono _ _ _ _ _ (value_S fuel)) in Hmore. apply value_S in Hd.
    exists (d :: ds), rest. split_and!; [done|simpl; by rewrite Hu| |]; intros ->.
    + right. destruct (Hs eq_refl) as [-> _]. rewrite <-skip_space_idem in Hd. by eapply elements_cons.
    + right. destruct (Hc eq_refl) as (r & E & -> & _).
      destruct (elements_cons _ _ _ _ _ _ Hd Hmore) as [n Hn]. by exists n, r.
  - destruct (next_token _) as [[tok dec1]|e] eqn:Et; [|done]. intros Hv Hst.
    assert (tok = Delim 93 ∧ dec' = dec1) as [-> ->].
    { repeat case_match; try done. by injection Hv as <-. }
    destruct (close_inv _ _ _ _ _ _ Em Et) as (r & E & ->).
    exists [], r. split_and!; [done|done|by left|by left].
Qed.

Lemma sound_members_step fuel : sound_value fuel → sound_members fuel → sound_members (S fuel).
Proof.
  intros Hval Hmem keys l st st0 stk dec' Hb. cbn [validateMembers].
  destruct (more (decoder l st (st0 :: stk))) eqn:Em.
  - destruct (next_token _) as [[[c|key|] dec1]|e] eqn:Et; try done.
    destruct (existsb (String.eqb key) keys) eqn:Ex; [done|].
    destruct (validateJSONValue fuel dec1) as [dec2|e] eqn:Ev; [|done]. intros Hv Hst.
    destruct (key_token_inv _ _ _ _ _ Hst Et) as (l1 & body & l2 & Hpos & Hscan & -> & ->).
    assert (Forall is_byte l1) as Hb1.
    { apply skip_space_bytes in Hb. destruct Hpos as [[_ E]|(_ & r & E & E2)]; rewrite E in Hb;
        [by apply Forall_inv_tail in Hb|].
      apply Forall_inv_tail, skip_space_bytes in Hb. rewrite E2 in Hb. by apply Forall_inv_tail in Hb. }
    destruct (scan_string_spec _ _ _ Hscan) as [El1 _]. rewrite El1 in Hb1.
    apply Forall_app in Hb1 as [_ Hb2%Forall_inv_tail].
    assert (value_state tokenObjectColon) as Hvs by (unfold value_state; auto).
    destruct (Hval _ _ _ _ Hb2 Hvs Ev) as (l' & st' & d & l4 & Hat & Hd & Hu & -> & Hb4).
    apply at_value_inv in Hat as (_ & _ & _ & Hc). destruct (Hc eq_refl) as (l3 & E3 & -> & ->).
    cbn [tokenValueEnd] in Hv.
    destruct (Hmem _ _ _ _ _ _ Hb4 Hv (or_intror eq_refl)) as (fs & rest & -> & Hus & Hnd & Hks & _ & Hmore).
    specialize (Hmore eq_refl). apply (more_members_mono _ _ _ _ _ (value_S fuel)) in Hmore. apply value_S in Hd.
    assert (∀ r, skip_space r = 34 :: l1 → ∃ n, members (value (S fuel)) n r = Some ((string_value body, d) :: fs, rest))
      as Hcons by (intros r Er; by eapply members_cons).
    exists ((string_value body, d) :: fs), rest. rewrite Forall_forall in Hks. split_and!.
    + done.
    + simpl. by rewrite Hu.
    + cbn [fmap list_fmap fst]. apply NoDup_cons. split; [|done].
      intros Hin. apply (Hks _ Hin). by left.
    + cbn [fmap list_fmap fst]. apply Forall_cons. split.
      * intros Hin. apply not_true_iff_false in Ex. apply Ex, existsb_exists.
        exists (string_value body). split; [by apply list_elem_of_In|apply String.eqb_refl].
      * apply Forall_forall. intros k Hin Hk. apply (Hks _ Hin). by right.
    + intros ->. right. destruct Hpos as [[_ E]|[? _]]; [|done]. apply Hcons. by rewrite skip_space_idem.
    + intros ->. right. destruct Hpos as [[? _]|(_ & r & E & E2)]; [done|].
      destruct (Hcons r E2) as [n Hn]. by exists n, r.
  - destruct (next_token _) as [[tok dec1]|e] eqn:Et; [|done]. intros Hv Hst.
    assert (tok = Delim 125 ∧ dec' = dec1) as [-> ->].
    { repeat case_match; try done. by injection Hv as <-. }
    destruct (close_inv _ _ _ _ _ _ Em Et) as (r & E & ->).
    exists [], r. split_and!; [done|done|constructor|constructor|by left|by left].
Qed.

(** A container from its content. *)
Lemma container_of {A} close (build : string → list A → doc) read r items rest :
  closed read → Forall is_byte r →
  (items = [] ∧ skip_space r = close :: rest) ∨ (head_is close (skip_space r) = false ∧ ∃ n, read n (skip_space r) = Some (items, rest)) →
  ∀ c, container close build read (c :: r) = Some (build (consumed (c :: r) rest) items, rest).
Proof.
  intros Hread Hb Hcase c. unfold container. cbn [tail]. destruct Hcase as [[-> E]|[Hh [n Hn]]].
  - rewrite E. cbn [head_is tail]. by rewrite Z.eqb_refl.
  - rewrite Hh. destruct (Hread _ _ _ _ (skip_space_bytes _ Hb) Hn) as (p & Ep & _ & _ & Hk).
    rewrite Ep at 2. rewrite Hk; [done|]. rewrite Ep, length_app. lia.
Qed.

Lemma elements_starts depth n r a : elements (value depth) n (skip_space r) = Some a → head_is 93 (skip_space r) = false.
Proof.
  destruct n as [|n]; [done|]. cbn [elements]. rewrite skip_space_idem. intros ([d l] & Hv & _)%bind_Some.
  eapply starts_not; [exact Hv|lia].
Qed.

Lemma members_starts depth n r a : members (value depth) n (skip_space r) = Some a → head_is 125 (skip_space r) = false.
Proof.
  destruct n as [|n]; [done|]. cbn [members]. rewrite skip_space_idem. intros (l & Hv & _)%bind_Some.
  apply strip_app in Hv. by rewrite Hv.
Qed.

Lemma at_value_bytes l st stk l' st' : at_value (decoder l st stk) l' st' → Forall is_byte l → Forall is_byte l'.
Proof.
  intros [Hp _] Hb. cbn [decoder dc_rest dc_state] in Hp. apply skip_space_bytes in Hb.
  apply prefix_inv in Hp as [[_ ->]|(r & -> & [[E _]|[E _]])]; [done|..];
    rewrite E in Hb; by apply Forall_inv_tail, skip_space_bytes in Hb.
Qed.

Lemma sound_value_step fuel : sound_items fuel → sound_members fuel → sound_value (S fuel).
Proof.
  intros Hit Hmem l st stk dec' Hb Hst. cbn [validateJSONValue].
  destruct (next_token _) as [[tok dec1]|e] eqn:Et; [|done].
  apply token_value_inv in Et as [->|[->|(l' & st' & Hat & Hcases)]]; [done|done| |done].
  pose proof (at_value_bytes _ _ _ _ _ Hat Hb) as Hb'.
  destruct Hcases as [(r & -> & -> & ->)|[(r & -> & -> & ->)|(d & rest & Hs & Hne & ->)]]; simpl.
  - intros Hv. pose proof (Forall_inv_tail Hb') as Hbr.
    destruct (Hit _ _ _ _ _ Hbr Hv (or_introl eq_refl)) as (ds & rest & -> & Hu & Hcase & _).
    assert (value (S fuel) (91 :: r) = Some (DArray (consumed (91 :: r) rest) ds, rest)) as Hval.
    { cbn [value head_is]. simpl. apply container_of; [apply elements_closed, value_local|done|].
      destruct (Hcase eq_refl) as [?|[n Hn]]; [by left|right]. split; [by eapply elements_starts|by exists n]. }
    destruct (value_length _ _ _ _ Hb' Hval) as [_ Hbr']. by eexists _, _, _, _.
  - intros Hv. pose proof (Forall_inv_tail Hb') as Hbr.
    destruct (Hmem _ _ _ _ _ _ Hbr Hv (or_introl eq_refl)) as (fs & rest & -> & Hu & Hnd & _ & Hcase & _).
    assert (value (S fuel) (123 :: r) = Some (DObject (consumed (123 :: r) rest) fs, rest)) as Hval.
    { cbn [value head_is]. simpl. apply container_of; [apply members_closed, value_local|done|].
      destruct (Hcase eq_refl) as [?|[n Hn]]; [by left|right]. split; [by eapply members_starts|by exists n]. }
    destruct (value_length _ _ _ _ Hb' Hval) as [_ Hbr']. eexists _, _, _, _. split_and!; [done|done| |done|done].
    simpl. rewrite Hu, andb_true_r. by apply bool_decide_eq_true.
  - intros Hv. assert (dec' = decoder rest (tokenValueEnd st') stk) as ->.
    { destruct tok as [c|s|]; [by destruct (Hne c)|by injection Hv|by injection Hv]. }
    pose proof (scalar_head _ _ _ Hs) as (_ & H1 & H2).
    assert (value (S fuel) l' = Some (d, rest)) as Hval by (cbn [value]; by rewrite H1, H2).
    destruct (value_length _ _ _ _ Hb' Hval) as [_ Hbr']. eexists _, _, _, _. split_and!; try done.
    apply scalar_build in Hs as [Ha Ho]. destruct d; try done; first [destruct (Ha _ _ eq_refl)|destruct (Ho _ _ eq_refl)].
Qed.

Lemma sound_all fuel : sound_value fuel ∧ sound_items fuel ∧ sound_members fuel.
Proof.
  induction fuel as [|fuel (Hv & Hi & Hm)]; [done|].
  split_and!; [by apply sound_value_step|by apply sound_items_step|by apply sound_members_step].
Qed.

(** ** The document *)

(** C21: the strict document check is the grammar. validateJSONDocument
    accepts a document exactly when it is valid UTF-8, one JSON value with
    nothing but white space around it, and no object in it, at any depth,
    has two keys that decode to the same string. *)
Theorem validateJSONDocument_spec s :
  validateJSONDocument s = None ↔
  utf8_valid s = true ∧ ∃ depth d, parse_within depth (bytes_of s) = Some d ∧ unique_keys d = true.
Proof.
  unfold validateJSONDocument. destruct (utf8_valid s); [|naive_solver]. cbn [negb].
  assert (length (bytes_of s) = String.length s) as Hlen by (induction s; simpl; congruence).
  pose proof (bytes_of_range s) as Hb.
  assert (∀ rest, next_token (decoder rest tokenTopValue []) = Err TokenEOF ↔ skip_space rest = []) as Heof.
  { intros rest. unfold next_token. cbn [decoder dc_rest dc_state dc_stack]. cbn [token_prefix].
    destruct (head_is 58 _) eqn:E1; [apply head_is_cons in E1 as (r & ->); done|].
    destruct (head_is 44 _) eqn:E2; [apply head_is_cons in E2 as (r & ->); done|].
    destruct (skip_space rest); [done|]. split; [|done]. unfold close. repeat case_match; done. }
  split.
  - destruct (validateJSONValue _ _) as [dec|e] eqn:Ev; [|done]. intros Hn. split; [done|].
    assert (value_state tokenTopValue) as Hvs by (by left).
    destruct (proj1 (sound_all _) _ _ _ _ Hb Hvs Ev) as (l' & st' & d & rest & Hat & Hd & Hu & -> & _).
    apply at_value_inv in Hat as [Htop _]. destruct (Htop eq_refl) as [-> ->].
    eexists _, d. split; [|done]. unfold parse_within. rewrite Hd. cbn [mbind option_bind].
    destruct (next_token _) as [p|[]] eqn:Et; [done| |done]. cbn [tokenValueEnd] in Et. apply Heof in Et. by rewrite Et.
  - intros (_ & depth & d & Hp & Hu). unfold parse_within in Hp.
    apply bind_Some in Hp as ([d' rest] & Hv & Hd). case_match eqn:Es; [|done]. injection Hd as ->.
    pose proof (skip_space_length (bytes_of s)) as Hsk.
    rewrite (accepts_all depth _ _ _ (new_decoder s) tokenTopValue _ (skip_space_bytes _ Hb) Hv Hu).
    + cbn [tokenValueEnd dc_stack new_decoder]. by rewrite (proj2 (Heof rest) Es).
    + split; [|done]. cbn [new_decoder dc_rest dc_state]. apply prefix_here; (eapply starts_not; [exact Hv|lia]).
    + unfold validate_fuel. lia.
Qed.

End AdvertisementsTokens.
