(* ===== verification/AdvertisementsTheorems.v ===== *)
(** * The advertised settings: theorems

    Every record a parse lets through is well formed; the records that share
    a tag are marked; and a document written from well-formed records reads
    back as them. *)

From Stdlib Require Import Ascii String.
From S2P Require Import Prelude GoJson GoText GoDecode GoDecodeProps GoPrint Advertisements AdvertisementsParse AdvertisementsTokens.

Module AdvertisementsTheorems.
Import GoJson GoText GoDecode GoDecodeProps GoPrint Advertisements AdvertisementsParse AdvertisementsTokens.

(** ** Well-formed records *)

Definition known_transports : list string :=
  [TransportTCP; TransportWebSocket; TransportHTTPUpgrade; TransportGRPC; TransportXHTTP].

(** The transport of each type carries that type's settings and no others;
    an unknown type none. *)
Inductive wf_transport : Transport → Prop :=
| WfTCP : wf_transport (plain_transport TransportTCP)
| WfHTTP ty path host :
    ty = TransportWebSocket ∨ ty = TransportHTTPUpgrade → path ≠ ""%string → host ≠ ""%string →
    wf_transport {| tr_type := ty; tr_path := path; tr_host := host; tr_service_name := "";
                    tr_mode := ""; tr_authority := ""; tr_extra := None |}
| WfGRPC service mode authority :
    service ≠ ""%string → mode ∈ ["gun"; "multi"; "guna"]%string →
    wf_transport {| tr_type := TransportGRPC; tr_path := ""; tr_host := ""; tr_service_name := service;
                    tr_mode := mode; tr_authority := authority; tr_extra := None |}
| WfXHTTP path host mode extra :
    path ≠ ""%string → host ≠ ""%string → mode ∈ ["auto"; "packet-up"; "stream-up"; "stream-one"]%string →
    (∀ text, extra = Some text → ∃ d, text = raw_text d ∧ validJCSObject d = true) →
    wf_transport {| tr_type := TransportXHTTP; tr_path := path; tr_host := host; tr_service_name := "";
                    tr_mode := mode; tr_authority := ""; tr_extra := extra |}
| WfOtherTransport ty : ty ≠ ""%string → ty ∉ known_transports → wf_transport (plain_transport ty).

Definition nonempty (s : string) : Prop := s ≠ ""%string.

Inductive wf_security : Security → Prop :=
| WfTLS fp sni ech verify alpn pins :
    fp ≠ ""%string → sni ≠ ""%string → Forall nonempty alpn → Forall nonempty pins →
    wf_security {| se_type := SecurityTLS; se_fingerprint := fp; se_server_name := sni; se_ech := ech;
                   se_verify_name := verify; se_public_key := ""; se_short_id := "";
                   se_short_id_present := false; se_post_quantum_verify := ""; se_spider_x := "";
                   se_alpn := alpn; se_certificate_pins := pins |}
| WfReality fp sni pbk sid pqv spx :
    fp ≠ ""%string → sni ≠ ""%string → pbk ≠ ""%string →
    wf_security {| se_type := SecurityReality; se_fingerprint := fp; se_server_name := sni; se_ech := "";
                   se_verify_name := ""; se_public_key := pbk; se_short_id := sid;
                   se_short_id_present := true; se_post_quantum_verify := pqv; se_spider_x := spx;
                   se_alpn := []; se_certificate_pins := [] |}
| WfOtherSecurity ty : ty ≠ ""%string → ty ≠ SecurityTLS → ty ≠ SecurityReality → wf_security (plain_security ty).

(** A record, with the fields of its XHTTP transport's extra object. *)
Abbreviation written := (Advertisement * option (list (string * json)))%type.

Section WithRuntime.
Context {GR : GoRuntime} {GL : GoRuntimeLaws} {HR : HostRuntime}.

Record wf_advertisement (ad : Advertisement) : Prop := {
  wf_tag : ad_inbound_tag ad ≠ ""%string;
  wf_name : ad_name ad ≠ ""%string;
  wf_topology : ad_topology ad = TopologyDirect ∨ ad_topology ad = TopologyFronted;
  wf_host : validAdvertisedHost (ad_host ad) = true;
  wf_port : (1 ≤ ad_port ad ≤ 65535)%Z;
  wf_tr : wf_transport (ad_transport ad);
  wf_se : wf_security (ad_security ad);
}.

(** ** A parsed record is well formed *)

Lemma set_nonempty_spec f : set_nonempty f = true ↔ sf_value f ≠ ""%string.
Proof. unfold set_nonempty. by rewrite negb_true_iff, String.eqb_neq. Qed.

Lemma existsb_elem s l : existsb (String.eqb s) l = true ↔ s ∈ l.
Proof.
  rewrite existsb_exists. split.
  - intros (x & Hin & ->%String.eqb_eq). by apply list_elem_of_In.
  - intros Hin. exists s. split; [by apply list_elem_of_In|apply String.eqb_refl].
Qed.

Lemma decode_fields_inv {A} (P : A → Prop) strict names set fields a a' :
  (∀ name d a a', P a → set name d a = Some a' → P a') → P a →
  decode_fields strict names set fields a = Some a' → P a'.
Proof.
  intros Hset. revert a. induction fields as [|[key d] fields IH]; intros a Ha; simpl; [by intros [= <-]|].
  destruct (field_of names key) as [name|].
  - intros (b & Hb & Hr)%bind_Some. eapply IH; [|exact Hr]. by eapply Hset.
  - destruct strict; [done|]. by apply IH.
Qed.

Lemma decode_struct_inv {A} (P : A → Prop) strict names set d a a' :
  (∀ name d a a', P a → set name d a = Some a' → P a') → P a →
  decode_struct strict names set d a = Some a' → P a'.
Proof.
  intros Hset Ha. destruct d; simpl; try done; [by intros [= <-]|]. by apply decode_fields_inv.
Qed.

Lemma objectType_spec document ty : objectType document = Some ty → ty ≠ ""%string ∧ ∃ d, document = Some d.
Proof.
  unfold objectType. intros (d & -> & H1)%bind_Some. apply bind_Some in H1 as (t & _ & H1).
  destruct (set_nonempty (td_type t)) eqn:E; [|done]. apply set_nonempty_spec in E. rewrite H1 in E. eauto.
Qed.

Lemma parseTransport_wf document tr : parseTransport document = Ok tr → wf_transport tr.
Proof.
  unfold parseTransport. destruct document as [d|]; [|done].
  destruct (objectType (Some d)) as [ty|] eqn:Ety; [|done]. apply objectType_spec in Ety as [Hne _].
  destruct (String.eqb_spec ty TransportTCP) as [->|H1].
  { case_match; [|done]. intros [= <-]. constructor. }
  destruct (String.eqb ty TransportWebSocket || String.eqb ty TransportHTTPUpgrade) eqn:E2.
  { unfold parseHTTPTransport. case_match; [|done].
    destruct (set_nonempty _ && set_nonempty _) eqn:E; [|done].
    apply andb_prop in E as [?%set_nonempty_spec ?%set_nonempty_spec]. intros [= <-].
    apply WfHTTP; [|done|done]. apply orb_true_iff in E2 as [->%String.eqb_eq| ->%String.eqb_eq]; auto. }
  apply orb_false_iff in E2 as [H2%String.eqb_neq H3%String.eqb_neq].
  destruct (String.eqb_spec ty TransportGRPC) as [->|H4].
  { unfold parseGRPCTransport. case_match; [|done]. destruct (set_nonempty (td_service_name _)) eqn:E; [|done].
    apply set_nonempty_spec in E. destruct (existsb _ _) eqn:Em; [|done]. intros [= <-].
    apply WfGRPC; [done|]. by apply existsb_elem. }
  destruct (String.eqb_spec ty TransportXHTTP) as [->|H5].
  { unfold parseXHTTPTransport. case_match; [|done].
    destruct (set_nonempty _ && set_nonempty _ && set_nonempty _) eqn:E; [|done].
    apply andb_prop in E as [[?%set_nonempty_spec ?%set_nonempty_spec]%andb_prop _].
    destruct (existsb _ _) eqn:Em; [|done]. apply existsb_elem in Em.
    destruct (td_extra _) as [extra|]; [destruct (validJCSObject extra) eqn:Ex; [|done]|]; intros [= <-];
      apply WfXHTTP; try done. intros text [= <-]. by exists extra. }
  case_match; [|done]. intros [= <-]. apply WfOtherTransport; [done|].
  unfold known_transports. rewrite !elem_of_cons, elem_of_nil. tauto.
Qed.

Lemma fingerprint_ok f fp problem : fingerprint f = (fp, problem) → problem = ""%string → fp ≠ ""%string.
Proof. unfold fingerprint. destruct f as [[|c s]|]; intros [= <- <-]; done. Qed.

(** The lists of a TLS document hold no empty string. *)
Definition lists_nonempty (s : securityDocument) : Prop :=
  Forall nonempty (saf_values (sd_alpn s)) ∧ Forall nonempty (saf_values (sd_certificate_pins s)).

Lemma array_field_nonempty d f f' : unmarshal_array_field d f = Some f' → Forall nonempty (saf_values f').
Proof.
  assert (∀ o, (values ← o; if existsb (String.eqb "") values then None else Some (Some values)) = Some f' →
    Forall nonempty (saf_values f')) as Hv.
  { intros o (values & _ & Hb)%bind_Some. destruct (existsb _ _) eqn:E; [done|]. injection Hb as <-. simpl.
    apply Forall_forall. intros s Hs ->. apply not_true_iff_false in E. apply E. by apply existsb_elem. }
  unfold unmarshal_array_field. destruct d; try done; apply Hv.
Qed.

Lemma set_security_lists name d s s' : lists_nonempty s → set_security name d s = Some s' → lists_nonempty s'.
Proof.
  unfold lists_nonempty. destruct s. simpl. intros [Ha Hp]. unfold set_security.
  destruct (String.eqb name "alpn").
  { intros (f & Hf%array_field_nonempty & [= <-])%bind_Some. done. }
  destruct (String.eqb name "certificate_pins").
  { intros (f & Hf%array_field_nonempty & [= <-])%bind_Some. done. }
  intros (f & _ & [= <-])%bind_Some. repeat case_match; done.
Qed.

Lemma parseSecurity_wf document host se :
  host ≠ ""%string → parseSecurity document host = Ok se → wf_security se.
Proof.
  intros Hhost. unfold parseSecurity. destruct document as [d|]; [|done].
  destruct (objectType (Some d)) as [ty|] eqn:Ety; [|done]. apply objectType_spec in Ety as [Hne _].
  destruct (String.eqb_spec ty SecurityTLS) as [->|H1].
  { unfold parseTLSSecurity. destruct (security_of tls_names d) as [raw|] eqn:Er; [|done].
    apply (decode_struct_inv lists_nonempty) in Er as [Hal Hpi];
      [|intros; by eapply set_security_lists|split; constructor].
    destruct (fingerprint _) as [fp problem] eqn:Ef. destruct (String.eqb_spec problem "") as [->|]; [|done].
    intros [= <-]. apply WfTLS; [by eapply fingerprint_ok| |done|done].
    destruct (set_nonempty _) eqn:E; [by apply set_nonempty_spec|done]. }
  destruct (String.eqb_spec ty SecurityReality) as [->|H2].
  { unfold parseRealitySecurity. destruct (security_of reality_names d) as [raw|]; [|done].
    destruct (fingerprint _) as [fp problem] eqn:Ef. destruct (String.eqb_spec problem "") as [->|]; [|done]. simpl.
    destruct (set_nonempty (sd_server_name raw)) eqn:E1; [|done].
    destruct (set_nonempty (sd_public_key raw)) eqn:E2; [|done]. apply set_nonempty_spec in E1, E2. simpl.
    destruct (sd_short_id raw); [|done]. intros [= <-]. apply WfReality; [by eapply fingerprint_ok|done|done]. }
  destruct (String.eqb_spec ty SecurityNone) as [->|H3];
    (case_match; [|done]); intros [= <-]; by apply WfOtherSecurity.
Qed.

Lemma parseAdvertisement_wf d :
  ad_validation_error (parseAdvertisement d) = None → wf_advertisement (parseAdvertisement d).
Proof.
  unfold parseAdvertisement. case_match; [|done]. rename a into raw.
  destruct (fields_problem raw) eqn:Ep; [done|]. unfold fields_problem in Ep.
  destruct (set_nonempty (adoc_inbound_tag raw)) eqn:E1; [|done].
  destruct (bool_decide (adoc_name raw = Some ""%string)); [done|].
  destruct (existsb _ _) eqn:E3; [|done]. destruct (validAdvertisedHost _) eqn:E4; [|done].
  destruct (bool_decide (adoc_port raw = None) || _ || _) eqn:E5; [done|]. simpl in Ep.
  rewrite !orb_false_iff, !Z.ltb_ge in E5. destruct E5 as [[_ ?] ?].
  destruct (parseTransport _) as [tr|] eqn:Et; [|done]. destruct (parseSecurity _ _) as [se|] eqn:Es; [|done].
  intros _. apply existsb_elem in E3. rewrite !elem_of_cons, elem_of_nil in E3. apply set_nonempty_spec in E1.
  split; simpl; try done.
  - destruct (set_nonempty (adoc_name raw)) eqn:E; [by apply set_nonempty_spec|done].
  - tauto.
  - by eapply parseTransport_wf.
  - eapply parseSecurity_wf; [|exact Es]. simpl. intros Hn. by rewrite Hn in E4.
Qed.

(** Another element of a list has what one has. *)
Lemma filter_two {A} (P : A → Prop) `{∀ x, Decision (P x)} (l : list A) i x :
  l !! i = Some x → P x →
  (1 < length (filter P l) ↔ ∃ j y, j ≠ i ∧ l !! j = Some y ∧ P y).
Proof.
  intros Hi Hx. pose proof (take_drop_middle l i x Hi) as E. pose proof (lookup_lt_Some _ _ _ Hi) as Hlt.
  rewrite <-E at 1. rewrite filter_app, filter_cons_True, length_app by done. cbn [length].
  assert (∀ k : list A, 0 < length (filter P k) ↔ ∃ j y, k !! j = Some y ∧ P y) as Hpos.
  { intros k. split.
    - intros Hk. destruct (filter P k) as [|y ys] eqn:Ef; [simpl in Hk; lia|].
      assert (y ∈ filter P k) as [Hy [j Hj]%list_elem_of_lookup]%list_elem_of_filter by (rewrite Ef; by left). eauto.
    - intros (j & y & Hj%list_elem_of_lookup_2 & Hy).
      assert (y ∈ filter P k) as Hin by (by apply list_elem_of_filter).
      destruct (filter P k); [by apply not_elem_of_nil in Hin|simpl; lia]. }
  split.
  - intros Hl. assert (0 < length (filter P (take i l)) ∨ 0 < length (filter P (drop (S i) l))) as [Hk|Hk] by lia;
      apply Hpos in Hk as (j & y & Hj & Hy).
    + apply lookup_take_Some in Hj as [Hj ?]. exists j, y. split_and!; [lia|done|done].
    + rewrite lookup_drop in Hj. exists (S i + j), y. split_and!; [lia|done|done].
  - intros (j & y & Hne & Hj & Hy). destruct (decide (j < i)).
    + assert (0 < length (filter P (take i l))); [|lia]. apply Hpos. exists j, y.
      split; [|done]. by apply lookup_take_Some.
    + assert (0 < length (filter P (drop (S i) l))); [|lia]. apply Hpos. exists (j - S i), y.
      split; [|done]. rewrite lookup_drop. by replace (S i + (j - S i)) with j by lia.
Qed.

Lemma markDuplicates_lookup records i r :
  markDuplicates records !! i = Some r →
  ∃ r0, records !! i = Some r0 ∧ ad_inbound_tag r = ad_inbound_tag r0 ∧
    ad_validation_error r = ad_validation_error r0 ∧ ad_duplicate r = duplicated records (ad_inbound_tag r0) ∧
    (wf_advertisement r0 → wf_advertisement r).
Proof.
  unfold markDuplicates. rewrite list_lookup_fmap. intros (r0 & Hr & ->)%fmap_Some. exists r0. split_and!; try done.
  intros []. by split.
Qed.

(** C20: every record of a parsed view is either one whose problem is stated
    or a well-formed advertisement: a tag and a name, a topology, a host a
    client can reach, a port a TCP connection has, and the transport and
    security settings of their types and no others. There is one record per
    element of the document, and a record is marked duplicate exactly when
    another has its tag. *)
Theorem parsed_records_well_formed document view :
  Parse document = Ok view →
  (∃ items, decode_root document = Some {| rd_version := Some 1%Z; rd_advertisements := Some items |} ∧
     length (advertisements view) = length items) ∧
  Forall (λ r, (∃ problem, ad_validation_error r = Some problem) ∨ wf_advertisement r) (advertisements view) ∧
  ∀ i r, advertisements view !! i = Some r →
    (ad_duplicate r = true ↔
     ad_inbound_tag r ≠ ""%string ∧
     ∃ j r', j ≠ i ∧ advertisements view !! j = Some r' ∧ ad_inbound_tag r' = ad_inbound_tag r).
Proof.
  unfold Parse. case_match; [done|]. destruct (decode_root document) as [[version ads]|]; [|done]. simpl.
  destruct version as [version|]; [|done]. destruct (Z.eqb_spec version 1) as [->|]; [|done]. simpl.
  destruct ads as [items|]; [|done]. intros [= <-]. simpl. split_and!.
  - exists items. split; [done|]. unfold markDuplicates. by rewrite !length_fmap.
  - apply Forall_forall. intros r [i Hi]%list_elem_of_lookup.
    apply markDuplicates_lookup in Hi as (r0 & Hr0 & _ & He & _ & Hwf). rewrite list_lookup_fmap in Hr0.
    apply fmap_Some in Hr0 as (d & _ & ->). rewrite He.
    destruct (ad_validation_error (parseAdvertisement d)) eqn:E; [eauto|].
    right. by apply Hwf, parseAdvertisement_wf.
  - intros i r Hi. pose proof Hi as (r0 & Hr0 & Ht & _ & Hd & _)%markDuplicates_lookup.
    rewrite Hd, Ht. unfold duplicated. rewrite andb_true_iff, negb_true_iff, String.eqb_neq, Nat.ltb_lt.
    rewrite (filter_two (λ r, ad_inbound_tag r = ad_inbound_tag r0) _ i r0 Hr0) by done.
    assert (∀ j, (∃ y, (parseAdvertisement <$> items) !! j = Some y ∧ ad_inbound_tag y = ad_inbound_tag r0) ↔
      ∃ r', markDuplicates (parseAdvertisement <$> items) !! j = Some r' ∧ ad_inbound_tag r' = ad_inbound_tag r0) as Hj.
    { intros j. split.
      - intros (y & Hy & Hty). unfold markDuplicates. rewrite list_lookup_fmap, Hy. eexists. split; [done|]. done.
      - intros (r' & (y & Hy & Hty & _)%markDuplicates_lookup & Hr'). exists y. split; [done|]. congruence. }
    naive_solver.
Qed.

(** ** Writing a document *)

Definition j_string (name value : string) : string * json := (name, JString value).

Definition json_of_transport (t : Transport) (extra : option (list (string * json))) : json :=
  JObject (j_string "type" (tr_type t) ::
    if String.eqb (tr_type t) TransportWebSocket || String.eqb (tr_type t) TransportHTTPUpgrade
    then [j_string "path" (tr_path t); j_string "host" (tr_host t)]
    else if String.eqb (tr_type t) TransportGRPC
    then [j_string "service_name" (tr_service_name t); j_string "mode" (tr_mode t); j_string "authority" (tr_authority t)]
    else if String.eqb (tr_type t) TransportXHTTP
    then [j_string "path" (tr_path t); j_string "host" (tr_host t); j_string "mode" (tr_mode t)] ++
         match extra with Some fields => [("extra"%string, JObject fields)] | None => [] end
    else []).

Definition json_of_security (s : Security) : json :=
  JObject (j_string "type" (se_type s) ::
    if String.eqb (se_type s) SecurityTLS
    then [j_string "fingerprint" (se_fingerprint s); j_string "server_name" (se_server_name s);
          ("alpn", JArray (JString <$> se_alpn s)); j_string "ech" (se_ech s);
          ("certificate_pins", JArray (JString <$> se_certificate_pins s)); j_string "verify_name" (se_verify_name s)]
    else if String.eqb (se_type s) SecurityReality
    then [j_string "fingerprint" (se_fingerprint s); j_string "server_name" (se_server_name s);
          j_string "public_key" (se_public_key s); j_string "short_id" (se_short_id s);
          j_string "post_quantum_verify" (se_post_quantum_verify s); j_string "spider_x" (se_spider_x s)]
    else [])%string.

Definition json_of_advertisement (w : written) : json :=
  let (ad, extra) := w in
  JObject [j_string "inbound_tag" (ad_inbound_tag ad); j_string "name" (ad_name ad);
    j_string "topology" (ad_topology ad); j_string "host" (ad_host ad); ("port", JNumber (itoa (ad_port ad)));
    ("transport", json_of_transport (ad_transport ad) extra); ("security", json_of_security (ad_security ad))]%string.

Definition root_of (ads : list written) : json :=
  JObject [("version", JNumber "1"); ("advertisements", JArray (json_of_advertisement <$> ads))]%string.

Definition document_of (ads : list written) : string :=
  text_of (root_of ads).

(** An extra object a document can hold: an object the canonicalization takes,
    with no key twice in any object of it, and as deep as the decoder goes
    below a transport. *)
Definition extra_writable (fields : list (string * json)) : Prop :=
  validJCSObject (doc_of (JObject fields)) = true ∧ unique_keys (doc_of (JObject fields)) = true ∧
  (Z.of_nat (height (JObject fields)) <= 9996)%Z.

(** A record a document can hold as it is: well formed, its strings text, and
    its extra the text of the object it is written with. *)
Definition writable (w : written) : Prop :=
  let (ad, extra) := w in
  wf_advertisement ad ∧ ad_validation_error ad = None ∧ ad_duplicate ad = false ∧
  tr_extra (ad_transport ad) = text_of ∘ JObject <$> extra ∧
  (∀ fields, extra = Some fields → extra_writable fields) ∧
  printable (json_of_advertisement w) = true.

Lemma decode_items_strings l old : decode_items (doc_of <$> (JString <$> l)) old = Some l.
Proof. revert old. induction l as [|s l IH]; intros old; simpl; [done|]. by rewrite IH. Qed.

Lemma no_empty l : Forall nonempty l → existsb (String.eqb "") l = false.
Proof. intros Hl. apply not_true_iff_false. rewrite existsb_elem. intros Hin. rewrite Forall_forall in Hl. by apply (Hl _ Hin). Qed.

Lemma array_field_strings l f text : Forall nonempty l →
  unmarshal_array_field (DArray text (doc_of <$> (JString <$> l))) f = Some (Some l).
Proof.
  intros Hl. unfold unmarshal_array_field. cbn [decode_strings]. rewrite decode_items_strings. cbn [mbind option_bind].
  by rewrite no_empty.
Qed.

Lemma eqb_ne (s t : string) : s ≠ t → String.eqb s t = false.
Proof. apply String.eqb_neq. Qed.

Lemma set_nonempty_some s : s ≠ ""%string → set_nonempty (Some s) = true.
Proof. intros. by apply set_nonempty_spec. Qed.

(** A key that is not the type's, whatever its case. *)
Lemma not_type key : all_ascii key = true → String.eqb (ascii_lower key) "type" = false →
  field_of type_names key = None.
Proof.
  intros Ha Hne%String.eqb_neq. unfold field_of, type_names. cbn [List.find].
  destruct (String.eqb_spec key "type") as [->|]; [done|].
  destruct (equal_fold "type" key) eqn:E; [|done]. by apply equal_fold_ascii_inv in E.
Qed.

(** The type of an object that writes it first and no other key like it. *)
Lemma typed_object ty fields :
  ty ≠ ""%string →
  Forall (λ f : string * doc, all_ascii f.1 = true ∧ String.eqb (ascii_lower f.1) "type" = false) fields →
  ∀ text, objectType (Some (DObject text (("type"%string, DString (quote ty) ty) :: fields))) = Some ty.
Proof.
  intros Hty Hf text. unfold objectType. simpl.
  assert (∀ a, decode_fields false type_names set_transport fields a = Some a) as ->.
  { intros a. induction Hf as [|[key d] fields [Ha Hl] _ IH]; [done|]. cbn [decode_fields].
    simpl in Ha, Hl. by rewrite not_type. }
  simpl. by rewrite set_nonempty_some.
Qed.

Ltac other_keys := repeat (apply Forall_cons; split; [done|]); apply Forall_nil_2.

Lemma written_transport tr extra : wf_transport tr → tr_extra tr = text_of ∘ JObject <$> extra →
  (∀ fields, extra = Some fields → extra_writable fields) →
  parseTransport (Some (doc_of (json_of_transport tr extra))) = Ok tr.
Proof.
  intros Hwf Hx Hw. unfold parseTransport.
  destruct Hwf as [|ty path host Hty ? ?|service mode authority ? Hm|path host mode extra' ? ? Hm _|ty Hne Hk].
  - unfold json_of_transport. cbn [doc_of]. simpl fmap. by rewrite typed_object by (done || other_keys).
  - assert (ty ≠ ""%string ∧ ty ≠ TransportTCP) as [Hn1 Hn2] by (by destruct Hty as [->| ->]).
    assert (String.eqb ty TransportWebSocket || String.eqb ty TransportHTTPUpgrade = true) as He
      by (by destruct Hty as [->| ->]).
    unfold json_of_transport. cbn [tr_type]. rewrite He. cbn [doc_of]. simpl fmap.
    rewrite typed_object by (done || other_keys). rewrite (eqb_ne _ _ Hn2), He.
    unfold parseHTTPTransport. simpl. by rewrite !set_nonempty_some.
  - unfold json_of_transport. cbn [doc_of]. simpl fmap. rewrite typed_object by (done || other_keys). simpl.
    unfold parseGRPCTransport. simpl.
    rewrite !elem_of_cons, elem_of_nil in Hm.
    destruct_or! Hm; try done; subst mode; by rewrite !set_nonempty_some.
  - rewrite !elem_of_cons, elem_of_nil in Hm. simpl in Hx. subst extra'.
    destruct extra as [fields|].
    + destruct (Hw fields) as [Hj _]; [done|].
      unfold json_of_transport. cbn [doc_of]. simpl fmap. rewrite typed_object by (done || other_keys). simpl.
      unfold parseXHTTPTransport. simpl. cbn [doc_of] in Hj. rewrite !set_nonempty_some by done.
      destruct_or! Hm; try done; subst mode; simpl; rewrite ?set_nonempty_some by done; simpl; by rewrite Hj.
    + unfold json_of_transport. cbn [doc_of]. simpl fmap. rewrite typed_object by (done || other_keys). simpl.
      unfold parseXHTTPTransport. simpl.
      destruct_or! Hm; try done; subst mode; by rewrite !set_nonempty_some.
  - unfold known_transports in Hk. rewrite !not_elem_of_cons in Hk. destruct Hk as (H1 & H2 & H3 & H4 & H5 & _).
    unfold json_of_transport. cbn [tr_type plain_transport]. rewrite !eqb_ne by done. cbn [orb doc_of]. simpl fmap.
    rewrite typed_object by (done || other_keys). by rewrite !eqb_ne.
Qed.

Lemma written_security se host : wf_security se →
  parseSecurity (Some (doc_of (json_of_security se))) host = Ok se.
Proof.
  intros Hwf. unfold parseSecurity.
  destruct Hwf as [fp sni ech verify alpn pins Hfp Hsni Ha Hp|fp sni pbk sid pqv spx Hfp Hsni Hpbk|ty Hne H1 H2].
  - unfold json_of_security. cbn [doc_of]. simpl fmap. rewrite typed_object by (done || other_keys). simpl.
    unfold parseTLSSecurity, security_of. cbn -[unmarshal_array_field]. rewrite array_field_strings by done.
    cbn -[unmarshal_array_field]. rewrite array_field_strings by done.
    destruct fp as [|c fp]; [done|]. by destruct sni as [|c' sni].
  - unfold json_of_security. cbn [doc_of]. simpl fmap. rewrite typed_object by (done || other_keys). simpl.
    unfold parseRealitySecurity, security_of. simpl.
    destruct fp as [|c fp]; [done|]. destruct sni as [|c' sni]; [done|]. by destruct pbk as [|c'' pbk].
  - unfold json_of_security. cbn [se_type plain_security]. rewrite !eqb_ne by done. cbn [doc_of]. simpl fmap.
    rewrite typed_object by (done || other_keys). rewrite !eqb_ne by done.
    destruct (String.eqb_spec ty SecurityNone) as [->|]; done.
Qed.

#[local] Arguments parseTransport : simpl never.
#[local] Arguments parseSecurity : simpl never.
#[local] Arguments validAdvertisedHost : simpl never.

Lemma written_advertisement w : writable w → parseAdvertisement (doc_of (json_of_advertisement w)) = w.1.
Proof.
  destruct w as [ad extra]. intros ([Htag Hname Htop Hhost Hport Htr Hse] & He & Hd & Hx & Hw & _). cbn [fst].
  destruct ad as [tag name topology host port tr se err dup]. cbn in Htag, Hname, Htop, Hhost, Hport, Htr, Hse, He, Hd, Hx.
  subst err dup.
  pose proof (written_transport tr extra Htr Hx Hw) as Et. pose proof (written_security se host Hse) as Es.
  unfold json_of_advertisement. cbn [ad_transport ad_security ad_inbound_tag ad_name ad_topology ad_host ad_port].
  revert Et Es. generalize (json_of_transport tr extra), (json_of_security se). intros jt js Et Es.
  unfold parseAdvertisement.
  simpl. unfold unmarshal_int_field. simpl. rewrite json_int_itoa by lia. simpl. unfold fields_problem, fields_record. simpl.
  rewrite !set_nonempty_some by done. simpl. rewrite bool_decide_eq_false_2 by congruence.
  assert (String.eqb topology TopologyDirect || (String.eqb topology TopologyFronted || false) = true) as ->.
  { destruct Htop as [->| ->]; done. }
  simpl. rewrite Hhost. simpl.
  replace (port <? 1)%Z with false by lia. replace (65535 <? port)%Z with false by lia. simpl.
  by rewrite Et, Es.
Qed.

Lemma string_items l : unique_keys (doc_of (JArray (JString <$> l))) = true ∧ height (JArray (JString <$> l)) = 1.
Proof.
  split; [cbn [doc_of unique_keys]|cbn [height]; apply (f_equal S)];
    induction l as [|s l IH]; [done|exact IH|done|exact IH].
Qed.

Lemma transport_shape tr extra : (∀ fields, extra = Some fields → extra_writable fields) →
  unique_keys (doc_of (json_of_transport tr extra)) = true ∧
  (Z.of_nat (height (json_of_transport tr extra)) <= 9997)%Z.
Proof.
  intros Hw. unfold json_of_transport. destruct (_ || _); [split; simpl; done || lia|].
  destruct (String.eqb _ _); [split; simpl; done || lia|].
  destruct (String.eqb _ _); [|split; simpl; done || lia].
  destruct extra as [fields|]; [|split; simpl; done || lia]. destruct (Hw fields) as (_ & Hu & Hh); [done|].
  revert Hu Hh. generalize (JObject fields). intros j Hu Hh. split; simpl; [by rewrite Hu|lia].
Qed.

Lemma written_shape w : writable w →
  unique_keys (doc_of (json_of_advertisement w)) = true ∧
  (Z.of_nat (height (json_of_advertisement w)) <= 9998)%Z.
Proof.
  destruct w as [ad extra]. intros (_ & _ & _ & _ & Hw & _).
  destruct (transport_shape (ad_transport ad) extra Hw) as [Ht1 Ht2].
  assert (unique_keys (doc_of (json_of_security (ad_security ad))) = true ∧
          height (json_of_security (ad_security ad)) ≤ 2) as [Hs1 Hs2].
  { unfold json_of_security.
    destruct (string_items (se_alpn (ad_security ad))) as [Ha1 Ha2].
    destruct (string_items (se_certificate_pins (ad_security ad))) as [Hp1 Hp2].
    revert Ha1 Ha2 Hp1 Hp2.
    generalize (JArray (JString <$> se_alpn (ad_security ad))), (JArray (JString <$> se_certificate_pins (ad_security ad))).
    intros ja jp Ha1 Ha2 Hp1 Hp2.
    destruct (String.eqb _ _); [|destruct (String.eqb _ _)]; (split; [|simpl; lia]); simpl; rewrite ?Ha1, ?Hp1; done. }
  unfold json_of_advertisement. revert Ht1 Ht2 Hs1 Hs2.
  generalize (json_of_transport (ad_transport ad) extra), (json_of_security (ad_security ad)). intros jt js Ht1 Ht2 Hs1 Hs2.
  split; [|simpl; lia]. simpl. by rewrite Ht1, Hs1.
Qed.

Lemma list_max_le l n : Forall (λ m, m ≤ n) l → list_max l ≤ n.
Proof. induction 1; simpl; lia. Qed.

Lemma root_shape ads : Forall writable ads →
  printable (root_of ads) = true ∧ unique_keys (doc_of (root_of ads)) = true ∧
  (Z.of_nat (height (root_of ads)) <= 10000)%Z.
Proof.
  intros Hads. split_and!.
  - simpl. rewrite andb_true_r. induction Hads as [|[ad extra] ads (_ & _ & _ & _ & _ & Hp) _ IH]; [done|].
    cbn [forallb fmap list_fmap]. by rewrite Hp.
  - cbn [root_of doc_of]. cbn [fmap list_fmap]. cbn. rewrite andb_true_r.
    induction Hads as [|w ads Hw _ IH]; [done|]. cbn [forallb fmap list_fmap].
    by rewrite (proj1 (written_shape w Hw)).
  - assert (list_max (height <$> (json_of_advertisement <$> ads)) ≤ Z.to_nat 9998) as Hmax; [|cbn [root_of height snd fmap list_fmap]; simpl; lia].
    apply list_max_le, Forall_fmap, Forall_fmap. eapply Forall_impl; [exact Hads|].
    intros w [_ Hh]%written_shape. unfold compose. lia.
Qed.

Lemma parse_root ads : Forall writable ads → parse_document (document_of ads) = Some (doc_of (root_of ads)).
Proof.
  intros (Hp & _ & Hh)%root_shape. unfold document_of. apply parse_print; [exact Hp|].
  exact Hh.
Qed.

Lemma written_document ads : Forall writable ads →
  utf8_valid (document_of ads) = true ∧
  ∃ depth d, parse_within depth (bytes_of (document_of ads)) = Some d ∧ unique_keys d = true.
Proof.
  intros (Hp & Hu & Hh)%root_shape. split; [by apply text_utf8|].
  exists (height (root_of ads)), (doc_of (root_of ads)). split; [|done]. by apply print_within.
Qed.

Lemma written_root ads : Forall writable ads →
  decode_root (document_of ads) =
    Some {| rd_version := Some 1%Z; rd_advertisements := Some (doc_of <$> (json_of_advertisement <$> ads)) |}.
Proof. intros Hads. unfold decode_root. rewrite (parse_root ads Hads). reflexivity. Qed.

(** C22: what is written reads back. A document written from well-formed
    advertisements parses, without a problem in any record, to exactly those
    records in order, the extra object of an XHTTP transport included, byte
    for byte; only the records that share a tag come back marked. The records
    are those a document can hold as they are ([writable]): their strings are
    UTF-8 text, and an extra is written as compact JSON, an object the
    canonicalization accepts, with no key twice and at most 9996 levels
    deep. *)
Theorem written_document_reads_back ads :
  Forall writable ads →
  Parse (document_of ads) = Ok {| advertisements := markDuplicates ads.*1 |}.
Proof.
  intros Hads. unfold Parse.
  rewrite (proj2 (validateJSONDocument_spec (document_of ads)) (written_document ads Hads)), (written_root ads Hads).
  cbn. do 3 f_equal. induction Hads as [|w ads Hw _ IH]; [done|].
  rewrite !fmap_cons, IH. by rewrite written_advertisement.
Qed.
End WithRuntime.

(** ** Two advertisements, concretely *)

Module Examples.
Import AsciiRuntime.
Local Open Scope string_scope.

#[local] Instance plain_hosts : HostRuntime := { netip_ParseAddr _ := None; idna_ToASCII s := Some s }.

Definition websocket : Advertisement := {|
  ad_inbound_tag := "in"; ad_name := "Edge, by TLS"; ad_topology := "fronted"; ad_host := "cdn.example"; ad_port := 443;
  ad_transport := {| tr_type := "ws"; tr_path := "/ws"; tr_host := "cdn.example"; tr_service_name := ""; tr_mode := "";
                     tr_authority := ""; tr_extra := None |};
  ad_security := {| se_type := "tls"; se_fingerprint := "chrome"; se_server_name := "cdn.example"; se_ech := "";
                    se_verify_name := ""; se_public_key := ""; se_short_id := ""; se_short_id_present := false;
                    se_post_quantum_verify := ""; se_spider_x := ""; se_alpn := ["h2"; "http/1.1"];
                    se_certificate_pins := [] |};
  ad_validation_error := None; ad_duplicate := false |}.

Definition direct : Advertisement := {|
  ad_inbound_tag := "in"; ad_name := "Direct"; ad_topology := "direct"; ad_host := "vpn.example"; ad_port := 8443;
  ad_transport := plain_transport "tcp";
  ad_security := {| se_type := "reality"; se_fingerprint := "firefox"; se_server_name := "www.example"; se_ech := "";
                    se_verify_name := ""; se_public_key := "pbk"; se_short_id := ""; se_short_id_present := true;
                    se_post_quantum_verify := ""; se_spider_x := "/"; se_alpn := []; se_certificate_pins := [] |};
  ad_validation_error := None; ad_duplicate := false |}.

(** The extra object of an XHTTP transport, as compact JSON. *)
Definition padding : list (string * json) :=
  [("xPaddingBytes", JString "100-1000"); ("xmux", JObject [("maxConcurrency", JNumber "16"); ("warm", JBool true)])].

Definition xhttp : Advertisement := {|
  ad_inbound_tag := "in-x"; ad_name := "Split"; ad_topology := "fronted"; ad_host := "cdn.example"; ad_port := 443;
  ad_transport := {| tr_type := "xhttp"; tr_path := "/x"; tr_host := "cdn.example"; tr_service_name := ""; tr_mode := "auto";
                     tr_authority := ""; tr_extra := Some (text_of (JObject padding)) |};
  ad_security := ad_security websocket; ad_validation_error := None; ad_duplicate := false |}.

Definition examples : list written := [(websocket, None); (direct, None); (xhttp, Some padding)].

Lemma padding_writable fields : Some padding = Some fields → extra_writable fields.
Proof. intros [= <-]. split_and!; [vm_compute; reflexivity..|by vm_compute]. Qed.

Lemma examples_writable : Forall writable examples.
Proof.
  repeat (apply Forall_cons; split); [..|apply Forall_nil_2];
    (split_and!; [split|done|done|done|(by intros ? [=]) || apply padding_writable|vm_compute; reflexivity]);
    try done; try (vm_compute; split; congruence).
  - by right.
  - apply WfHTTP; [by left|done|done].
  - apply WfTLS; [done|done| |constructor]. repeat constructor; done.
  - by left.
  - apply WfTCP.
  - by apply WfReality.
  - by right.
  - apply WfXHTTP; [done|done|by left|]. intros text [= <-]. exists (doc_of (JObject padding)).
    split; vm_compute; reflexivity.
  - apply WfTLS; [done|done| |constructor]. repeat constructor; done.
Qed.

(** The three records come back, the extra with them, two marked as sharing
    their tag. *)
Lemma written_document_reads_back_witness :
  (ad_duplicate <$> markDuplicates examples.*1, tr_extra ∘ ad_transport <$> markDuplicates examples.*1) =
    ([true; true; false], [None; None; Some (text_of (JObject padding))]) ∧
  Parse (document_of examples) = Ok {| advertisements := markDuplicates examples.*1 |}.
Proof.
  split; [vm_compute; reflexivity|]. apply (written_document_reads_back examples), examples_writable.
Defined.

(** A record of port 0 and one that is sound. *)
Definition mixed : string := text_of (JObject [("version", JNumber "1"); ("advertisements", JArray
  [json_of_advertisement (websocket, None); JObject [("inbound_tag", JString "in"); ("topology", JString "direct");
     ("host", JString "vpn.example"); ("port", JNumber "0")]])]).

Definition parsed : View :=
  match Parse mixed with Ok view => view | Err _ => {| advertisements := [] |} end.

Lemma parsed_records_well_formed_witness :
  Parse mixed = Ok parsed ∧ length (advertisements parsed) = 2 ∧
  Forall (λ r, (∃ problem, ad_validation_error r = Some problem) ∨ wf_advertisement r) (advertisements parsed).
Proof.
  split; [vm_compute; reflexivity|]. split; [vm_compute; reflexivity|].
  apply (parsed_records_well_formed mixed parsed). vm_compute. reflexivity.
Defined.

Example mixed_problems : ad_validation_error <$> advertisements parsed =
  [None; Some "port must be an integer from 1 through 65535."].
Proof. vm_compute. reflexivity. Qed.
End Examples.
End AdvertisementsTheorems.
