(* ===== verification/Profiles.v ===== *)
(** * Connection profiles (internal/profiles)

    What a User's client needs to connect through each inbound that lists
    them: evaluated from the two watched sources, and serialised as a
    vless:// URI. *)

From Stdlib Require Import Ascii String.
From S2P Require Import Prelude GoJson XrayConfig Advertisements.

(** What the code takes from other libraries: the canonical text of a Client
    ID, and the JSON canonicalisation scheme. *)
Class ProfileRuntime := {
  uuid_ParseString : string → option string;
  jcs_Transform : string → option string;
}.

Module Profiles.
Import GoJson XrayConfig Advertisements.

Inductive State := StateReady | StateDisabledUser | StateNoMatchingInbound | StateSourceUnavailable.

Inductive Reason :=
| ReasonSourceUnavailable | ReasonAdvertisementMissing | ReasonAdvertisementInvalid
| ReasonDuplicateInboundTag | ReasonDuplicateUser | ReasonInboundTagMissing | ReasonReverseUser
| ReasonUnsupportedTransport | ReasonUnsupportedSecurity | ReasonUnsupportedEncryption
| ReasonInsecureConnection | ReasonInboundMismatch | ReasonInvalidClientID.

Inductive Source := SourceXrayConfig | SourceAdvertisements.

(** filesource.SourceError: a reason's name and its message. *)
Record fileError := { fe_reason : string; fe_message : string }.

Record SourceError := { er_source : Source; er_reason : string; er_message : string }.

(** Times are the code's, the zero time 0. *)
Record Sources := {
  so_xray_view : XrayConfig.View; so_xray_available : bool; so_xray_loaded_at : Z;
  so_xray_stale : bool; so_xray_error : option fileError;
  so_ads_view : Advertisements.View; so_ads_configured : bool; so_ads_available : bool;
  so_ads_loaded_at : Z; so_ads_stale : bool; so_ads_error : option fileError;
}.

Record Endpoint := { ep_host : string; ep_port : Z }.

(** An available profile's transport is the advertised one, its extra
    canonical; its security the advertised one, its names canonical. *)
Record Available := {
  av_inbound_tag : string; av_name : string; av_topology : string; av_client_id : string;
  av_flow : option string; av_endpoint : Endpoint; av_transport : Transport;
  av_security : Security; av_uri : string;
}.

Record Unavailable := {
  un_inbound_tag : option string; un_name : option string; un_reason : Reason; un_message : string;
}.

(** Exactly one of the two result variants. *)
Inductive Item := ItemAvailable (a : Available) | ItemUnavailable (u : Unavailable).

Record Collection := {
  co_state : State; co_loaded_at : option Z; co_stale : bool;
  co_errors : list SourceError; co_items : list Item;
}.

(** ** URIs (uri.go) *)

Definition isURIComponentByte (b : Z) : bool :=
  ((97 <=? b) && (b <=? 122) || (65 <=? b) && (b <=? 90) || (48 <=? b) && (b <=? 57) ||
   existsb (Z.eqb b) (bytes_of "-_.!~*'()"))%Z.

Definition upper_hex (n : Z) : Z := if (n <? 10)%Z then 48 + n else 55 + n.

Definition encode_byte (b : Z) : list Z :=
  if isURIComponentByte b then [b] else [37; upper_hex (Z.shiftr b 4); upper_hex (Z.land b 15)]%Z.

Definition encodeURIComponent (value : string) : string :=
  of_bytes (b ← bytes_of value; encode_byte b).

Record queryField := { qf_name : string; qf_value : string }.

Definition field (name value : string) : queryField := {| qf_name := name; qf_value := value |}.

Definition present (name value : string) : list queryField :=
  if String.eqb value "" then [] else [field name value].

Fixpoint join (sep : string) (l : list string) : string :=
  match l with
  | [] => ""
  | [x] => x
  | x :: l => x +:+ sep +:+ join sep l
  end.

Definition joined (name : string) (values : list string) : list queryField :=
  match values with [] => [] | _ => [field name (join "," values)] end.

Definition transport_fields (t : Transport) : list queryField :=
  if String.eqb (tr_type t) "ws" || String.eqb (tr_type t) "httpupgrade"
  then [field "path" (tr_path t); field "host" (tr_host t)]
  else if String.eqb (tr_type t) "grpc"
  then [field "serviceName" (tr_service_name t); field "mode" (tr_mode t)] ++
       present "authority" (tr_authority t)
  else if String.eqb (tr_type t) "xhttp"
  then [field "path" (tr_path t); field "host" (tr_host t); field "mode" (tr_mode t)] ++
       match tr_extra t with Some extra => [field "extra" extra] | None => [] end
  else [].

Definition security_fields (s : Security) : list queryField :=
  if String.eqb (se_type s) "tls"
  then joined "alpn" (se_alpn s) ++ present "ech" (se_ech s) ++
       joined "pcs" (se_certificate_pins s) ++ present "vcn" (se_verify_name s)
  else if String.eqb (se_type s) "reality"
  then [field "pbk" (se_public_key s)] ++
       (if se_short_id_present s then [field "sid" (se_short_id s)] else []) ++
       present "pqv" (se_post_quantum_verify s) ++ present "spx" (se_spider_x s)
  else [].

Definition query_fields (flow : option string) (t : Transport) (s : Security) : list queryField :=
  [field "type" (tr_type t); field "encryption" "none"] ++
  match flow with Some flow => [field "flow" flow] | None => [] end ++
  [field "security" (se_type s)] ++ transport_fields t ++
  [field "fp" (se_fingerprint s); field "sni" (se_server_name s)] ++ security_fields s.

Definition write_field (f : queryField) : string := qf_name f +:+ "=" +:+ encodeURIComponent (qf_value f).

(** The separator of the fragment is a middle dot in UTF-8. *)
Definition middle_dot : string := of_bytes [32; 194; 183; 32]%Z.

Definition serializeURI (email : string) (profile : Available) : string :=
  "vless://" +:+ av_client_id profile +:+ "@" +:+ ep_host (av_endpoint profile) +:+ ":" +:+
  itoa (ep_port (av_endpoint profile)) +:+ "?" +:+
  join "&" (write_field <$> query_fields (av_flow profile) (av_transport profile) (av_security profile)) +:+
  "#" +:+ encodeURIComponent (email +:+ middle_dot +:+ av_name profile).

(** ** Values and names *)

Definition defaultNone (value : string) : string := if String.eqb value "" then "none"%string else value.

Definition supportedTransport (t : string) : bool :=
  existsb (String.eqb t) [TransportTCP; TransportWebSocket; TransportHTTPUpgrade; TransportGRPC; TransportXHTTP].

Definition supportedSecurity (s : string) : bool :=
  existsb (String.eqb s) [SecurityTLS; SecurityReality; SecurityNone].

Definition normalizedPath (path : string) : string := if String.eqb path "" then "/"%string else path.
Definition normalizedXHTTPMode (mode : string) : string := if String.eqb mode "" then "auto"%string else mode.

(** The last slash: what is before it and after it. *)
Fixpoint cut_last_slash (s : string) : option (string * string) :=
  match s with
  | EmptyString => None
  | String c s' =>
      match cut_last_slash s' with
      | Some (before, after) => Some (String c before, after)
      | None => if Ascii.eqb c "/"%char then Some (""%string, s') else None
      end
  end.

Definition splitGRPCService (service : string) : option (string * list string) :=
  match cut_last_slash service with
  | None => None
  | Some (before, after) =>
      if negb (String.prefix "/" service) || String.eqb before "" || String.eqb after "" then None
      else Some (before, split_on "|"%char after)
  end.

Definition acceptedGRPCService (inbound advertised mode : string) : bool :=
  if negb (String.prefix "/" inbound) then String.eqb inbound advertised else
  match splitGRPCService inbound with
  | Some (serverPrefix, serverNames) =>
      if existsb (Z.eqb 124) (bytes_of advertised) then false else
      match serverNames, splitGRPCService advertised with
      | first :: rest, Some (clientPrefix, [client]) =>
          String.eqb clientPrefix serverPrefix &&
          String.eqb client
            (match rest with
             | second :: _ => if String.eqb mode "multi" then second else first
             | [] => first
             end)
      | _, _ => false
      end
  | None => false
  end.

(** base64.RawURLEncoding.DecodeString: the length of what it decodes. It
    skips line ends and does not look at the trailing bits. *)
Definition base64_char (b : Z) : bool :=
  ((97 <=? b) && (b <=? 122) || (65 <=? b) && (b <=? 90) || (48 <=? b) && (b <=? 57) ||
   (b =? 45) || (b =? 95))%Z.

Definition base64_length (s : string) : option nat :=
  let l := filter (λ b, (b =? 10)%Z = false ∧ (b =? 13)%Z = false) (bytes_of s) in
  if forallb base64_char l && negb (length l mod 4 =? 1)%nat
  then Some (length l * 3 / 4)%nat else None.

(** hex.DecodeString without error. *)
Definition hex_valid (s : string) : bool :=
  forallb (λ b, match hex_value b with Some _ => true | None => false end) (bytes_of s) &&
  Nat.even (String.length s).

Section WithRuntime.
Context `{GoRuntime} `{HostRuntime} `{ProfileRuntime}.

Definition canonicalInboundTransport (value : string) : option string :=
  let v := to_lower value in
  if existsb (String.eqb v) [""; "raw"; "tcp"]%string then Some TransportTCP
  else if existsb (String.eqb v) ["ws"; "websocket"]%string then Some TransportWebSocket
  else if String.eqb v "httpupgrade" then Some TransportHTTPUpgrade
  else if String.eqb v "grpc" then Some TransportGRPC
  else if existsb (String.eqb v) ["xhttp"; "splithttp"]%string then Some TransportXHTTP
  else None.

Definition canonicalInboundSecurity (value : string) : option string :=
  let v := to_lower value in
  if existsb (String.eqb v) [""; "none"]%string then Some SecurityNone
  else if String.eqb v "tls" then Some SecurityTLS
  else if String.eqb v "reality" then Some SecurityReality
  else None.

Definition canonical_name (host : string) : option string :=
  match idna_ToASCII host with
  | None => None
  | Some ascii =>
      let labels := split_on "."%char ascii in
      if String.eqb ascii "" || (253 <? String.length ascii) || has_suffix "." ascii then None
      else if existsb (λ label, String.eqb label "" || (63 <? String.length label)) labels then None
      else if forallb all_digits labels then None
      else Some (to_lower ascii)
  end.

Definition canonicalHost (host : string) : option string :=
  if String.eqb host "" || has_suffix "." host then None else
  let bracketed := String.prefix "[" host in
  if bracketed && negb (has_suffix "]" host) then None else
  let addressHost := if bracketed then String.substring 1 (String.length host - 2) host else host in
  match netip_ParseAddr addressHost with
  | Some address =>
      if negb (String.eqb (addr_zone address) "") || (bracketed && negb (addr_is6 address)) then None
      else if addr_is6 address then Some ("[" +:+ addr_string address +:+ "]")
      else Some (addr_string address)
  | None =>
      if bracketed || contains_any "[]:/?#@%" host then None else canonical_name host
  end.

Definition equalHost (left right : string) : bool :=
  match canonicalHost left, canonicalHost right with
  | Some l, Some r => String.eqb l r
  | _, _ => equal_fold left right
  end.

Definition containsHost (hosts : list string) (wanted : string) : bool :=
  existsb (λ host, equalHost host wanted) hosts.

Definition containsFold (values : list string) (wanted : string) : bool :=
  existsb (λ value, equal_fold value wanted) values.

Definition acceptedHost (inboundHost advertisedHost : string) : bool :=
  String.eqb inboundHost "" || equalHost inboundHost advertisedHost.

(** ** The checks of one candidate *)

Definition unsupportedDirectTransportFeature (inbound : Inbound) : bool :=
  let t := ib_transport inbound in
  if ts_final_mask_configured t then true else
  match canonicalInboundTransport (ts_type t) with
  | Some transport =>
      String.eqb transport TransportTCP && ts_raw_header_configured t &&
      negb (equal_fold (defaultNone (ts_raw_header_type t)) "none")
  | None => false
  end.

Definition emptyRealityShortIDAccepted (inbound : Inbound) (ad : Advertisement) : bool :=
  negb (String.eqb (se_type (ad_security ad)) SecurityReality) ||
  negb (String.eqb (se_short_id (ad_security ad)) "") ||
  containsFold (re_short_ids (sec_reality (ib_security inbound))) "".

Definition compatibleShape (flow transport security : string) : bool :=
  if negb (String.eqb flow "") && negb (String.eqb flow "xtls-rprx-vision") then false
  else if String.eqb security SecurityReality && negb (String.eqb transport TransportTCP) &&
          negb (String.eqb transport TransportGRPC) && negb (String.eqb transport TransportXHTTP)
  then false
  else if String.eqb flow "xtls-rprx-vision"
  then String.eqb transport TransportTCP &&
       (String.eqb security SecurityTLS || String.eqb security SecurityReality)
  else true.

Definition directTransportMatch (inbound : Inbound) (transport : string) (t : Transport) : bool :=
  let settings := ib_transport inbound in
  if String.eqb transport TransportWebSocket then
    String.eqb (normalizedPath (hts_path (ts_websocket settings))) (tr_path t) &&
    acceptedHost (hts_host (ts_websocket settings)) (tr_host t)
  else if String.eqb transport TransportHTTPUpgrade then
    String.eqb (normalizedPath (hts_path (ts_httpupgrade settings))) (tr_path t) &&
    acceptedHost (hts_host (ts_httpupgrade settings)) (tr_host t)
  else if String.eqb transport TransportGRPC then
    acceptedGRPCService (gts_service_name (ts_grpc settings)) (tr_service_name t) (tr_mode t)
  else if String.eqb transport TransportXHTTP then
    String.eqb (normalizedPath (xts_path (ts_xhttp settings))) (tr_path t) &&
    acceptedHost (xts_host (ts_xhttp settings)) (tr_host t) &&
    String.eqb (normalizedXHTTPMode (xts_mode (ts_xhttp settings))) (tr_mode t)
  else true.

Definition directSecurityMatch (inbound : Inbound) (security : string) (s : Security) : bool :=
  if String.eqb security SecurityTLS then
    let tls := sec_tls (ib_security inbound) in
    negb (tls_reject_unknown_sni tls && negb (String.eqb (tls_server_name tls) "") &&
          negb (equalHost (tls_server_name tls) (se_server_name s)))
  else if String.eqb security SecurityReality then
    let reality := sec_reality (ib_security inbound) in
    containsHost (re_server_names reality) (se_server_name s) &&
    containsFold (re_short_ids reality) (se_short_id s)
  else true.

Definition directMatch (inbound : Inbound) (inboundTransport inboundSecurity : string)
    (ad : Advertisement) : bool :=
  String.eqb inboundTransport (tr_type (ad_transport ad)) &&
  String.eqb inboundSecurity (se_type (ad_security ad)) &&
  directTransportMatch inbound inboundTransport (ad_transport ad) &&
  directSecurityMatch inbound inboundSecurity (ad_security ad).

(** The first problem of the advertised client values, as its message. *)
Definition invalidRealityValues (s : Security) : string :=
  if negb (bool_decide (base64_length (se_public_key s) = Some 32))
  then "The advertised REALITY public_key is not a valid X25519 public key."
  else if (16 <? String.length (se_short_id s)) || negb (hex_valid (se_short_id s))
  then "The advertised REALITY short_id is not valid hexadecimal data."
  else if negb (String.eqb (se_post_quantum_verify s) "") &&
          negb (bool_decide (base64_length (se_post_quantum_verify s) = Some 1952))
  then "The advertised REALITY post_quantum_verify value is invalid."
  else if negb (String.eqb (se_spider_x s) "") && negb (String.prefix "/" (se_spider_x s))
  then "The advertised REALITY spider_x must start with a slash."
  else "".

Definition invalidClientValues (ad : Advertisement) : string :=
  let s := ad_security ad in
  match canonicalHost (ad_host ad) with
  | None => "The advertised public host cannot be canonicalized."
  | Some _ =>
      if negb (String.eqb (se_type s) SecurityTLS) && negb (String.eqb (se_type s) SecurityReality)
      then "" else
      match canonicalHost (se_server_name s) with
      | None => "The advertised security server_name is not a valid host."
      | Some _ =>
          if String.eqb (se_type s) SecurityTLS && negb (String.eqb (se_verify_name s) "") &&
             bool_decide (canonicalHost (se_verify_name s) = None)
          then "The advertised TLS verify_name is not a valid host."
          else if negb (String.eqb (se_type s) SecurityReality) then ""
          else invalidRealityValues s
      end
  end.

(** ** Building a profile *)

(** [None] is a value that cannot be canonicalised. *)
Definition buildAvailable (email clientID flow : string) (ad : Advertisement) : option Available :=
  let t := ad_transport ad in
  let s := ad_security ad in
  host ← canonicalHost (ad_host ad);
  extra ← (match tr_extra t with Some extra => Some <$> jcs_Transform extra | None => Some None end);
  serverName ← canonicalHost (se_server_name s);
  verifyName ← (if String.eqb (se_verify_name s) "" then Some ""%string
                else canonicalHost (se_verify_name s));
  let transport := {|
    tr_type := tr_type t; tr_path := tr_path t; tr_host := tr_host t;
    tr_service_name := tr_service_name t; tr_mode := tr_mode t; tr_authority := tr_authority t;
    tr_extra := extra |} in
  let security := {|
    se_type := se_type s; se_fingerprint := se_fingerprint s; se_server_name := serverName;
    se_ech := se_ech s; se_verify_name := verifyName; se_public_key := se_public_key s;
    se_short_id := se_short_id s; se_short_id_present := se_short_id_present s;
    se_post_quantum_verify := se_post_quantum_verify s; se_spider_x := se_spider_x s;
    se_alpn := se_alpn s; se_certificate_pins := se_certificate_pins s |} in
  let profile uri := {|
    av_inbound_tag := ad_inbound_tag ad; av_name := ad_name ad; av_topology := ad_topology ad;
    av_client_id := clientID; av_flow := if String.eqb flow "" then None else Some flow;
    av_endpoint := {| ep_host := host; ep_port := ad_port ad |};
    av_transport := transport; av_security := security; av_uri := uri |} in
  Some (profile (serializeURI email (profile ""%string))).

(** ** Evaluating *)

Definition matchingUsers (email : string) (users : list InboundUser) : list InboundUser :=
  filter (λ user, iu_email user = email) users.

Definition unavailable (tag name : option string) (reason : Reason) (message : string) : Item :=
  ItemUnavailable {| un_inbound_tag := tag; un_name := name; un_reason := reason; un_message := message |}.

Definition nonempty (s : string) : option string := if String.eqb s "" then None else Some s.

Definition unavailableIdentity (inbound : Inbound) (ad : option Advertisement) : option string * option string :=
  (nonempty (ib_tag inbound), ad ≫= λ ad, nonempty (ad_name ad)).

Definition duplicateAdvertisementName (selected : list Advertisement) : option string :=
  match selected with [ad] => nonempty (ad_name ad) | _ => None end.

Definition messages (reason : Reason) : string :=
  match reason with
  | ReasonInboundTagMissing => "The matching VLESS inbound has no tag."
  | ReasonDuplicateInboundTag => "The inbound tag does not identify one unique inbound and advertisement."
  | ReasonDuplicateUser => "The User appears more than once in this inbound."
  | ReasonReverseUser => "The matching User is configured for reverse connections."
  | ReasonSourceUnavailable => "The configured Advertised connection settings have not loaded successfully."
  | ReasonAdvertisementMissing => "No Advertised connection settings select this inbound."
  | ReasonInvalidClientID => "The configured Client ID cannot be converted to a UUID."
  | ReasonUnsupportedTransport => "The applicable transport is not supported for Connection profiles."
  | ReasonUnsupportedSecurity => "The applicable transport security is not supported for Connection profiles."
  | ReasonUnsupportedEncryption => "The inbound requires unsupported VLESS Encryption."
  | ReasonInsecureConnection => "An unsecured VLESS profile is not available."
  | ReasonInboundMismatch => "The advertised client view is incompatible with the matching inbound or effective flow."
  | ReasonAdvertisementInvalid => "The Advertised connection settings cannot be serialized canonically."
  end.

Definition effectiveFlow (inbound : Inbound) (user : InboundUser) : string :=
  if String.eqb (iu_flow user) "" then ib_flow inbound else iu_flow user.

(** evaluateInbound once one valid advertisement and one user are known. *)
Definition evaluateCandidate (email : string) (inbound : Inbound) (user : InboundUser)
    (ad : Advertisement) (tag name : option string) : Item :=
  let no reason := unavailable tag name reason (messages reason) in
  match uuid_ParseString (iu_client_id user) with
  | None => no ReasonInvalidClientID
  | Some clientID =>
      let direct := String.eqb (ad_topology ad) TopologyDirect in
      let inboundTransport := canonicalInboundTransport (ts_type (ib_transport inbound)) in
      if negb (supportedTransport (tr_type (ad_transport ad))) ||
         (direct && (bool_decide (inboundTransport = None) || unsupportedDirectTransportFeature inbound))
      then no ReasonUnsupportedTransport else
      let inboundSecurity := canonicalInboundSecurity (sec_type (ib_security inbound)) in
      if negb (supportedSecurity (se_type (ad_security ad))) ||
         (direct && bool_decide (inboundSecurity = None))
      then no ReasonUnsupportedSecurity else
      if negb (equal_fold (defaultNone (ib_decryption inbound)) "none")
      then no ReasonUnsupportedEncryption else
      if String.eqb (se_type (ad_security ad)) SecurityNone then no ReasonInsecureConnection else
      let flow := effectiveFlow inbound user in
      if negb (compatibleShape flow (tr_type (ad_transport ad)) (se_type (ad_security ad))) ||
         negb (emptyRealityShortIDAccepted inbound ad) ||
         (direct && negb (directMatch inbound (default "" inboundTransport) (default "" inboundSecurity) ad))
      then no ReasonInboundMismatch else
      match buildAvailable email clientID flow ad with
      | None => no ReasonAdvertisementInvalid
      | Some profile => ItemAvailable profile
      end
  end.

Definition evaluateInbound (email : string) (inbound : Inbound) (duplicateTagCount : nat)
    (selected : list Advertisement) (sources : Sources) : Item :=
  let users := matchingUsers email (ib_users inbound) in
  let advertisement := match selected with [ad] => Some ad | _ => None end in
  let (tag, name) := unavailableIdentity inbound advertisement in
  let no tag name reason := unavailable tag name reason (messages reason) in
  if String.eqb (ib_tag inbound) "" then no None None ReasonInboundTagMissing
  else if (1 <? duplicateTagCount)%nat || (1 <? length selected)%nat
  then no tag (duplicateAdvertisementName selected) ReasonDuplicateInboundTag
  else if (1 <? length users)%nat then no tag name ReasonDuplicateUser
  else
    match users with
    | [] => no tag name ReasonDuplicateUser  (* never: the inbound was matched by a user *)
    | user :: _ =>
        if iu_reverse user then no tag name ReasonReverseUser
        else if so_ads_configured sources && negb (so_ads_available sources)
        then no tag None ReasonSourceUnavailable
        else
          match so_ads_configured sources, advertisement with
          | true, Some ad =>
              match ad_validation_error ad with
              | Some problem => unavailable tag name ReasonAdvertisementInvalid problem
              | None =>
                  if negb (String.eqb (invalidClientValues ad) "")
                  then unavailable tag name ReasonAdvertisementInvalid (invalidClientValues ad)
                  else evaluateCandidate email inbound user ad tag name
              end
          | _, _ => no tag None ReasonAdvertisementMissing
          end
    end.

Definition sourceErrors (sources : Sources) : list SourceError :=
  let err source (e : option fileError) := match e with
    | Some e => [{| er_source := source; er_reason := fe_reason e; er_message := fe_message e |}]
    | None => [] end in
  err SourceXrayConfig (so_xray_error sources) ++ err SourceAdvertisements (so_ads_error sources).

(** The earlier of the two loads; none before xray's config has loaded. *)
Definition loadedAt (sources : Sources) : option Z :=
  if so_xray_available sources && negb (so_xray_loaded_at sources =? 0)%Z then
    Some (if so_ads_available sources && negb (so_ads_loaded_at sources =? 0)%Z &&
             (so_ads_loaded_at sources <? so_xray_loaded_at sources)%Z
          then so_ads_loaded_at sources else so_xray_loaded_at sources)
  else None.

Definition sourceState (sources : Sources) (state : State) (items : list Item) : Collection := {|
  co_state := state; co_loaded_at := loadedAt sources;
  co_stale := so_xray_stale sources || so_ads_stale sources;
  co_errors := sourceErrors sources; co_items := items |}.

(** The VLESS inbounds that list the email, in config order. *)
Definition matchingInbounds (email : string) (view : XrayConfig.View) : list Inbound :=
  filter (λ inbound, equal_fold (ib_protocol inbound) "vless" = true ∧
                     existsb (λ user, String.eqb (iu_email user) email) (ib_users inbound) = true)
    (v_inbounds view).

Definition tagCount (tag : string) (view : XrayConfig.View) : nat :=
  if String.eqb tag "" then 0%nat
  else length (filter (λ inbound, ib_tag inbound = tag) (v_inbounds view)).

Definition selectedAdvertisements (tag : string) (sources : Sources) : list Advertisement :=
  if so_ads_available sources
  then filter (λ ad, ad_inbound_tag ad = tag) (advertisements (so_ads_view sources)) else [].

Definition Evaluate (email : string) (disabled : bool) (sources : Sources) : Collection :=
  if disabled then sourceState sources StateDisabledUser []
  else if negb (so_xray_available sources) then sourceState sources StateSourceUnavailable []
  else
    match matchingInbounds email (so_xray_view sources) with
    | [] => sourceState sources StateNoMatchingInbound []
    | matching => sourceState sources StateReady
        ((λ inbound, evaluateInbound email inbound (tagCount (ib_tag inbound) (so_xray_view sources))
                       (selectedAdvertisements (ib_tag inbound) sources) sources) <$> matching)
    end.

End WithRuntime.

End Profiles.
