(* ===== verification/ProfileTheorems.v ===== *)
(** * Connection profiles: theorems

    A profile's URI reads back as its parts, escapes undone; and a profile
    is available only where the configured inbound and one valid
    advertisement agree on a secured connection for one User. *)

From Stdlib Require Import Ascii String.
From S2P Require Import Prelude GoJson GoText JsonText XrayConfig Advertisements Profiles.

Module ProfileTheorems.
Import GoJson GoText JsonText XrayConfig Advertisements Profiles.

(** ** Percent encoding *)

(** The reference decoder: what follows a percent sign is a byte. *)
Fixpoint decode (l : list Z) : option (list Z) :=
  match l with
  | [] => Some []
  | b :: l =>
      if (b =? 37)%Z then
        match l with
        | hi :: lo :: l => h ← hex_value hi; o ← hex_value lo; rest ← decode l; Some (h * 16 + o :: rest)%Z
        | _ => None
        end
      else rest ← decode l; Some (b :: rest)
  end.

Lemma hex_upper n : (0 ≤ n < 16)%Z → hex_value (upper_hex n) = Some n.
Proof.
  intros. unfold upper_hex, hex_value. destruct (Z.ltb_spec n 10).
  - replace ((48 <=? 48 + n) && (48 + n <=? 57))%Z with true by lia. f_equal. lia.
  - replace ((48 <=? 55 + n) && (55 + n <=? 57))%Z with false by lia.
    replace ((97 <=? 55 + n) && (55 + n <=? 102))%Z with false by lia.
    replace ((65 <=? 55 + n) && (55 + n <=? 70))%Z with true by lia. f_equal. lia.
Qed.

Lemma nibbles b : is_byte b →
  (0 ≤ Z.shiftr b 4 < 16 ∧ 0 ≤ Z.land b 15 < 16 ∧ Z.shiftr b 4 * 16 + Z.land b 15 = b)%Z.
Proof.
  unfold is_byte. intros. rewrite Z.shiftr_div_pow2 by lia.
  change 15%Z with (Z.ones 4). rewrite Z.land_ones by lia. change (2 ^ 4)%Z with 16%Z. zdiv.
Qed.

(** Bytes an encoded value consists of: none is a delimiter of a URI. *)
Definition uri_safe (b : Z) : Prop :=
  is_byte b ∧ b ≠ 38%Z ∧ b ≠ 61%Z ∧ b ≠ 35%Z ∧ b ≠ 63%Z ∧ b ≠ 64%Z.

Lemma component_safe b : isURIComponentByte b = true → uri_safe b ∧ b ≠ 37%Z.
Proof.
  unfold isURIComponentByte. rewrite !orb_true_iff, !andb_true_iff, !Z.leb_le.
  intros [[[?|?]|?]|Hin]; unfold uri_safe, is_byte; [lia..|].
  apply existsb_exists in Hin as (c & Hc & ->%Z.eqb_eq). revert Hc. vm_compute bytes_of.
  simpl. intros Hc. repeat destruct Hc as [<-|Hc]; lia.
Qed.

Lemma encode_byte_safe b : is_byte b → Forall uri_safe (encode_byte b).
Proof.
  intros Hb. unfold encode_byte. destruct (isURIComponentByte b) eqn:E.
  - apply component_safe in E as [? _]. by apply Forall_singleton.
  - destruct (nibbles b Hb) as (H1 & H2 & _).
    assert (∀ n, (0 ≤ n < 16)%Z → uri_safe (upper_hex n)) as Hu.
    { intros n ?. unfold upper_hex, uri_safe, is_byte. case_match; lia. }
    rewrite !Forall_cons. split_and!; [unfold uri_safe, is_byte; lia|by apply Hu..|done].
Qed.

Lemma decode_encode_byte b l : is_byte b → decode (encode_byte b ++ l) = (rest ← decode l; Some (b :: rest)).
Proof.
  intros Hb. unfold encode_byte. destruct (isURIComponentByte b) eqn:E.
  - apply component_safe in E as [_ Hp]. cbn [app decode].
    by rewrite (proj2 (Z.eqb_neq _ _) Hp).
  - destruct (nibbles b Hb) as (H1 & H2 & H3). cbn [app decode]. simpl.
    rewrite !hex_upper by done. simpl. by rewrite H3.
Qed.

Definition encoded (s : string) : list Z := b ← bytes_of s; encode_byte b.

Lemma encoded_safe s : Forall uri_safe (encoded s).
Proof.
  unfold encoded. induction (bytes_of_range s) as [|b l Hb _ IH]; [constructor|].
  cbn [mbind list_bind]. apply Forall_app. split; [by apply encode_byte_safe|done].
Qed.

Lemma bytes_of_encodeURIComponent s : bytes_of (encodeURIComponent s) = encoded s.
Proof.
  unfold encodeURIComponent. apply bytes_of_of_bytes. eapply Forall_impl; [apply encoded_safe|].
  by intros ? [? _].
Qed.

Lemma decode_encoded s : decode (encoded s) = Some (bytes_of s).
Proof.
  unfold encoded. induction (bytes_of_range s) as [|b l Hb _ IH]; [done|].
  cbn [mbind list_bind]. rewrite decode_encode_byte by done.
  change (mbind encode_byte l) with (list_bind _ _ encode_byte l) in IH. by rewrite IH.
Qed.

(** ** Reading a URI *)

(** What is before and after the first occurrence of a byte. *)
Fixpoint cut (c : Z) (l : list Z) : option (list Z * list Z) :=
  match l with
  | [] => None
  | b :: l => if (b =? c)%Z then Some ([], l)
              else '(before, after) ← cut c l; Some (b :: before, after)
  end.

Fixpoint split (c : Z) (l : list Z) : list (list Z) :=
  match l with
  | [] => [[]]
  | b :: l =>
      if (b =? c)%Z then [] :: split c l
      else match split c l with [] => [[b]] | part :: parts => (b :: part) :: parts end
  end.

Definition read_field (l : list Z) : option (list Z * list Z) :=
  '(name, value) ← cut 61 l; value ← decode value; Some (name, value).

(** A vless URI: the user, the authority, the query's fields in order, the
    fragment; values and fragment decoded. *)
Definition read_uri (uri : string)
    : option (list Z * list Z * list (list Z * list Z) * list Z) :=
  let l := bytes_of uri in
  if negb (bool_decide (take 8 l = bytes_of "vless://")) then None else
  '(user, l) ← cut 64 (drop 8 l);
  '(authority, l) ← cut 63 l;
  '(query, fragment) ← cut 35 l;
  fields ← mapM read_field (split 38 query);
  fragment ← decode fragment;
  Some (user, authority, fields, fragment).

Lemma cut_app c a b : c ∉ a → cut c (a ++ c :: b) = Some (a, b).
Proof.
  induction a as [|x a IH]; simpl; [by rewrite Z.eqb_refl|].
  intros [Hx Ha]%not_elem_of_cons. rewrite (proj2 (Z.eqb_neq _ _)) by congruence. by rewrite IH.
Qed.

Lemma split_none c a : c ∉ a → split c a = [a].
Proof.
  induction a as [|x a IH]; simpl; [done|].
  intros [Hx Ha]%not_elem_of_cons. rewrite (proj2 (Z.eqb_neq _ _)) by congruence. by rewrite IH.
Qed.

Lemma split_app c a b : c ∉ a → split c (a ++ c :: b) = a :: split c b.
Proof.
  induction a as [|x a IH]; simpl; [by rewrite Z.eqb_refl|].
  intros [Hx Ha]%not_elem_of_cons. rewrite (proj2 (Z.eqb_neq _ _)) by congruence. by rewrite IH.
Qed.

Lemma safe_not_in l c : Forall uri_safe l → c ∈ [38; 61; 35; 63; 64]%Z → c ∉ l.
Proof.
  rewrite Forall_forall. intros Hl Hc Hin. destruct (Hl c Hin) as (_ & ? & ? & ? & ? & ?).
  set_solver.
Qed.

(** ** Query fields *)

Definition name_ok (f : queryField) : Prop := Forall uri_safe (bytes_of (qf_name f)).

Definition safe_b (b : Z) : bool :=
  ((0 <=? b) && (b <? 256) && negb (b =? 38) && negb (b =? 61) && negb (b =? 35) &&
   negb (b =? 63) && negb (b =? 64))%Z.

Lemma known_name name value : forallb safe_b (bytes_of name) = true → name_ok (field name value).
Proof.
  unfold name_ok, field. simpl. intros Hs. induction (bytes_of name) as [|b l IH]; [constructor|].
  apply andb_prop in Hs as [Hb Hl]. constructor; [|by apply IH].
  unfold safe_b in Hb. rewrite !andb_true_iff, !negb_true_iff, !Z.eqb_neq in Hb.
  unfold uri_safe, is_byte. lia.
Qed.

Lemma present_ok name value : forallb safe_b (bytes_of name) = true → Forall name_ok (present name value).
Proof. intros. unfold present. case_match; [constructor|]. apply Forall_singleton. by apply known_name. Qed.

Lemma joined_ok name values : forallb safe_b (bytes_of name) = true → Forall name_ok (joined name values).
Proof. intros. destruct values; [constructor|]. apply Forall_singleton. by apply known_name. Qed.

Lemma query_fields_ok flow tr s : Forall name_ok (query_fields flow tr s).
Proof.
  unfold query_fields, transport_fields, security_fields.
  repeat case_match;
    repeat match goal with
    | |- Forall _ (_ ++ _) => apply Forall_app; split
    | |- Forall _ (_ :: _) => apply Forall_cons; split
    | |- Forall _ [] => constructor
    | |- Forall _ (present _ _) => apply present_ok
    | |- Forall _ (joined _ _) => apply joined_ok
    | |- name_ok (field _ _) => apply known_name
    | |- _ = true => reflexivity
    end.
Qed.

Lemma query_fields_nonempty flow tr s : ∃ f fs, query_fields flow tr s = f :: fs.
Proof. by eexists _, _. Qed.

Definition field_bytes (f : queryField) : list Z * list Z := (bytes_of (qf_name f), bytes_of (qf_value f)).

Definition written (f : queryField) : list Z := bytes_of (qf_name f) ++ 61%Z :: encoded (qf_value f).

Lemma bytes_of_write_field f : bytes_of (write_field f) = written f.
Proof. unfold write_field, written. by rewrite !bytes_of_app, bytes_of_encodeURIComponent. Qed.

Lemma written_not_in f c : name_ok f → c ∈ [38; 35]%Z → c ∉ written f.
Proof.
  intros Hn Hc. unfold written. rewrite not_elem_of_app, not_elem_of_cons.
  assert (c ∈ [38; 61; 35; 63; 64]%Z) as Hc' by set_solver.
  split_and!; [by eapply safe_not_in| |by eapply safe_not_in; [apply encoded_safe|]].
  intros ->. set_solver.
Qed.

Lemma read_written f : name_ok f → read_field (written f) = Some (field_bytes f).
Proof.
  intros Hn. unfold read_field, written.
  rewrite cut_app by (eapply safe_not_in; [exact Hn|set_solver]). cbn [mbind option_bind].
  by rewrite decode_encoded.
Qed.

Lemma join_written f fs :
  Forall name_ok (f :: fs) →
  let l := bytes_of (Profiles.join "&" (write_field <$> f :: fs)) in
  mapM read_field (split 38 l) = Some (field_bytes <$> f :: fs) ∧ (35%Z ∉ l).
Proof.
  revert f. induction fs as [|g fs IH]; intros f Hok; apply Forall_cons in Hok as [Hf Hfs].
  - cbn [fmap list_fmap Profiles.join]. rewrite bytes_of_write_field. split.
    + rewrite split_none by (apply written_not_in; [done|set_solver]). cbn [mapM].
      by rewrite read_written.
    + apply written_not_in; [done|set_solver].
  - destruct (IH g Hfs) as [Hm Hn].
    change (Profiles.join "&" (write_field <$> f :: g :: fs))
      with (write_field f +:+ "&" +:+ Profiles.join "&" (write_field <$> g :: fs)).
    rewrite !bytes_of_app, bytes_of_write_field. cbn zeta.
    change (bytes_of "&") with [38%Z]. cbn [app]. split.
    + rewrite split_app by (apply written_not_in; [done|set_solver]).
      cbn [mapM]. rewrite read_written by done. cbn [mbind option_bind]. rewrite Hm. done.
    + rewrite not_elem_of_app, not_elem_of_cons. split_and!; [|done|done].
      apply written_not_in; [done|set_solver].
Qed.

(** The text between the user and the query. *)
Definition authority (e : Endpoint) : list Z := bytes_of (ep_host e) ++ 58%Z :: bytes_of (itoa (ep_port e)).

(** C19: a profile's URI reads back. A reader that cuts at the first @, the
    first ?, and the first #, splits the query at &, and undoes the percent
    encoding recovers the Client ID, the host and port, every query field
    with its value, in order, and the profile's title, whatever bytes the
    advertised values and the email hold. The Client ID has no @ and the host
    and port no ? (they are written as they are, and the values an available
    profile is built from have neither: a UUID and a validated host). *)
Theorem uri_reads_back email p :
  64%Z ∉ bytes_of (av_client_id p) → 63%Z ∉ authority (av_endpoint p) →
  read_uri (serializeURI email p) =
  Some (bytes_of (av_client_id p), authority (av_endpoint p),
        field_bytes <$> query_fields (av_flow p) (av_transport p) (av_security p),
        bytes_of (email +:+ middle_dot +:+ av_name p)).
Proof.
  intros Hid Hauth.
  pose proof (query_fields_ok (av_flow p) (av_transport p) (av_security p)) as Hok.
  destruct (query_fields_nonempty (av_flow p) (av_transport p) (av_security p)) as (f & fs & E).
  rewrite E in *. destruct (join_written f fs Hok) as [Hq Hh].
  assert (bytes_of (serializeURI email p) =
    bytes_of "vless://" ++ bytes_of (av_client_id p) ++ 64%Z :: authority (av_endpoint p) ++ 63%Z ::
    bytes_of (Profiles.join "&" (write_field <$> f :: fs)) ++ 35%Z ::
    encoded (email +:+ middle_dot +:+ av_name p)) as Hb.
  { unfold serializeURI, authority. rewrite E, !bytes_of_app, bytes_of_encodeURIComponent.
    repeat (rewrite <-?app_assoc; cbn [app]). done. }
  unfold read_uri. rewrite Hb. rewrite take_app_length' by done.
  rewrite bool_decide_eq_true_2 by done. cbn [negb]. rewrite drop_app_length' by done.
  rewrite cut_app by done. cbn [mbind option_bind].
  rewrite cut_app by done. cbn [mbind option_bind].
  rewrite cut_app by done. cbn [mbind option_bind]. rewrite Hq. cbn [mbind option_bind].
  by rewrite decode_encoded.
Qed.

(** ** Availability *)

Section WithRuntime.
Context `{GoRuntime} `{HostRuntime} `{ProfileRuntime}.

(** What a client is promised of an available profile: one enabled inbound
    user, one valid advertisement, a secured connection, and, when clients
    reach xray directly, an inbound that accepts it. *)
Record offered (email : string) (inbound : Inbound) (ad : Advertisement) (a : Available) : Prop := {
  of_tag : ib_tag inbound ≠ ""%string;
  of_user : ∃ user, matchingUsers email (ib_users inbound) = [user] ∧ iu_reverse user = false ∧
              uuid_ParseString (iu_client_id user) = Some (av_client_id a) ∧
              av_flow a = nonempty (effectiveFlow inbound user) ∧
              compatibleShape (effectiveFlow inbound user) (tr_type (ad_transport ad))
                (se_type (ad_security ad)) = true;
  of_valid : ad_validation_error ad = None ∧ invalidClientValues ad = ""%string;
  of_secured : se_type (ad_security ad) = SecurityTLS ∨ se_type (ad_security ad) = SecurityReality;
  of_plain : equal_fold (defaultNone (ib_decryption inbound)) "none" = true;
  of_direct : ad_topology ad = TopologyDirect →
    canonicalInboundTransport (ts_type (ib_transport inbound)) = Some (tr_type (ad_transport ad)) ∧
    canonicalInboundSecurity (sec_type (ib_security inbound)) = Some (se_type (ad_security ad)) ∧
    directTransportMatch inbound (tr_type (ad_transport ad)) (ad_transport ad) = true ∧
    directSecurityMatch inbound (se_type (ad_security ad)) (ad_security ad) = true;
  of_endpoint : canonicalHost (ad_host ad) = Some (ep_host (av_endpoint a)) ∧
    ep_port (av_endpoint a) = ad_port ad ∧
    canonicalHost (se_server_name (ad_security ad)) = Some (se_server_name (av_security a));
  of_uri : av_uri a = serializeURI email a;
}.

Lemma buildAvailable_spec email clientID flow ad a :
  buildAvailable email clientID flow ad = Some a →
  av_client_id a = clientID ∧ av_flow a = nonempty flow ∧
  canonicalHost (ad_host ad) = Some (ep_host (av_endpoint a)) ∧ ep_port (av_endpoint a) = ad_port ad ∧
  canonicalHost (se_server_name (ad_security ad)) = Some (se_server_name (av_security a)) ∧
  av_uri a = serializeURI email a.
Proof.
  unfold buildAvailable. intros (host & Hh & Hb)%bind_Some.
  apply bind_Some in Hb as (extra & _ & Hb). apply bind_Some in Hb as (name & Hn & Hb).
  apply bind_Some in Hb as (verify & _ & Hb). injection Hb as <-. done.
Qed.

Lemma evaluateCandidate_sound email inbound user ad tag name a :
  evaluateCandidate email inbound user ad tag name = ItemAvailable a →
  matchingUsers email (ib_users inbound) = [user] → iu_reverse user = false →
  ib_tag inbound ≠ ""%string → ad_validation_error ad = None → invalidClientValues ad = ""%string →
  offered email inbound ad a.
Proof.
  intros He Hu Hrev Htag Hval Hvals. unfold evaluateCandidate in He.
  destruct (uuid_ParseString (iu_client_id user)) as [clientID|] eqn:Eid; [|done].
  destruct (negb (supportedTransport _) || _) eqn:E1; [done|].
  destruct (negb (supportedSecurity _) || _) eqn:E2; [done|].
  destruct (negb (equal_fold _ _)) eqn:E3; [done|].
  destruct (String.eqb (se_type (ad_security ad)) SecurityNone) eqn:E4; [done|].
  destruct (negb (compatibleShape _ _ _) || _ || _) eqn:E5; [done|].
  destruct (buildAvailable _ _ _ _) as [p|] eqn:Eb; [|done]. injection He as <-.
  apply orb_false_iff in E1 as [E1 D1], E2 as [E2 D2], E5 as [[E5 E6]%orb_false_iff D5].
  apply negb_false_iff in E2, E3, E5. apply String.eqb_neq in E4.
  apply buildAvailable_spec in Eb as (Hid & Hflow & Hhost & Hport & Hname & Huri).
  split; try done.
  - exists user. rewrite Hid. done.
  - apply existsb_exists in E2 as (s & Hs & Heq%String.eqb_eq). simpl in Hs.
    destruct Hs as [<-|[<-|[<-|[]]]]; auto. done.
  - intros Hd. rewrite Hd, String.eqb_refl in D1, D2, D5. cbn [andb] in *.
    apply orb_false_iff in D1 as [D1 _]. apply negb_false_iff in D5.
    unfold directMatch in D5. rewrite !andb_true_iff, !String.eqb_eq in D5.
    destruct D5 as [[[Ht Hse] Htm] Hsm].
    apply bool_decide_eq_false in D1, D2.
    destruct (canonicalInboundTransport _) as [tr|]; [|done].
    destruct (canonicalInboundSecurity _) as [se|]; [|done]. simpl in *. by subst.
Qed.

Lemma evaluateInbound_sound email inbound count selected sources a :
  evaluateInbound email inbound count selected sources = ItemAvailable a →
  count ≤ 1 ∧ so_ads_configured sources = true ∧ so_ads_available sources = true ∧
  ∃ ad, selected = [ad] ∧ offered email inbound ad a.
Proof.
  unfold evaluateInbound, unavailableIdentity.
  destruct (String.eqb_spec (ib_tag inbound) "") as [|Htag]; [done|].
  destruct ((1 <? count)%nat || _) eqn:Ec; [done|].
  apply orb_false_iff in Ec as [Hc%Nat.ltb_ge Hs%Nat.ltb_ge].
  destruct (1 <? length (matchingUsers _ _))%nat eqn:Eu; [done|]. apply Nat.ltb_ge in Eu.
  destruct (matchingUsers email (ib_users inbound)) as [|user [|? ?]] eqn:Em; [done| |simpl in Eu; lia].
  destruct (iu_reverse user) eqn:Er; [done|].
  destruct (so_ads_configured sources) eqn:Eg; simpl; [|done].
  destruct (so_ads_available sources) eqn:Ea; simpl; [|done].
  destruct selected as [|ad [|? ?]]; [done| |simpl in Hs; lia].
  destruct (ad_validation_error ad) eqn:Ev; [done|].
  destruct (String.eqb_spec (invalidClientValues ad) "") as [Hi|]; simpl; [|done].
  intros He. split_and!; [lia|done..|]. exists ad. split; [done|].
  by eapply evaluateCandidate_sound.
Qed.

Lemma tagCount_unique tag view inbound :
  tagCount tag view ≤ 1 → tag ≠ ""%string → inbound ∈ v_inbounds view → ib_tag inbound = tag →
  filter (λ other, ib_tag other = tag) (v_inbounds view) = [inbound].
Proof.
  unfold tagCount. intros Hc Ht Hin Hi. destruct (String.eqb_spec tag "") as [|_]; [done|].
  assert (inbound ∈ filter (λ other, ib_tag other = tag) (v_inbounds view)) as Hf
    by (by apply list_elem_of_filter).
  destruct (filter _ _) as [|x [|? ?]]; [by apply not_elem_of_nil in Hf| |simpl in Hc; lia].
  by apply list_elem_of_singleton in Hf as ->.
Qed.

Lemma Evaluate_items email sources :
  so_xray_available sources = true →
  co_items (Evaluate email false sources) =
  (λ inbound, evaluateInbound email inbound (tagCount (ib_tag inbound) (so_xray_view sources))
                (selectedAdvertisements (ib_tag inbound) sources) sources) <$>
  matchingInbounds email (so_xray_view sources).
Proof. intros Hx. unfold Evaluate. rewrite Hx. simpl. by destruct (matchingInbounds _ _). Qed.


End WithRuntime.

(** ** A profile, concretely *)

Module Examples.
Import AsciiRuntime.
Local Open Scope string_scope.

(** Hosts are names only, and canonical as they are. *)
#[local] Instance plain_hosts : HostRuntime := { netip_ParseAddr _ := None; idna_ToASCII s := Some s }.
#[local] Instance plain_ids : ProfileRuntime := { uuid_ParseString s := Some s; jcs_Transform s := Some s }.

Definition noHTTP : HTTPTransportSettings := {| hts_path := ""; hts_host := "" |}.

Definition inbound : Inbound := {|
  ib_tag := "in"; ib_protocol := "VLESS"; ib_port := "443"; ib_flow := "xtls-rprx-vision"; ib_decryption := "none";
  ib_transport := {| ts_type := "raw"; ts_raw_header_configured := false; ts_raw_header_type := "";
    ts_final_mask_configured := false; ts_websocket := noHTTP; ts_httpupgrade := noHTTP;
    ts_grpc := {| gts_service_name := ""; gts_authority := ""; gts_multi_mode := false |};
    ts_xhttp := {| xts_path := ""; xts_host := ""; xts_mode := ""; xts_extra_configured := false |} |};
  ib_security := {| sec_type := "tls";
    sec_tls := {| tls_server_name := "vpn.example"; tls_reject_unknown_sni := true; tls_alpn := [] |};
    sec_reality := {| re_server_names := []; re_short_ids := [] |} |};
  ib_users := [{| iu_email := "a@x"; iu_client_id := "id-a"; iu_flow := ""; iu_reverse := false |}] |}.

Definition advertisement : Advertisement := {|
  ad_inbound_tag := "in"; ad_name := "Home & away"; ad_topology := "direct"; ad_host := "VPN.example";
  ad_port := 443;
  ad_transport := {| tr_type := "tcp"; tr_path := ""; tr_host := ""; tr_service_name := ""; tr_mode := "";
                     tr_authority := ""; tr_extra := None |};
  ad_security := {| se_type := "tls"; se_fingerprint := "chrome"; se_server_name := "vpn.example"; se_ech := "";
    se_verify_name := ""; se_public_key := ""; se_short_id := ""; se_short_id_present := false;
    se_post_quantum_verify := ""; se_spider_x := ""; se_alpn := ["h2"; "http/1.1"]; se_certificate_pins := [] |};
  ad_validation_error := None; ad_duplicate := false |}.

Definition sources : Sources := {|
  so_xray_view := {| v_inbounds := [inbound] |}; so_xray_available := true; so_xray_loaded_at := 5;
  so_xray_stale := false; so_xray_error := None;
  so_ads_view := {| advertisements := [advertisement] |}; so_ads_configured := true; so_ads_available := true;
  so_ads_loaded_at := 3; so_ads_stale := false; so_ads_error := None |}.

Definition profile : Available :=
  match co_items (Evaluate "a@x" false sources) with
  | [ItemAvailable a] => a
  | _ => {| av_inbound_tag := ""; av_name := ""; av_topology := ""; av_client_id := ""; av_flow := None;
            av_endpoint := {| ep_host := ""; ep_port := 0 |}; av_transport := zeroTransport;
            av_security := zeroSecurity; av_uri := "" |}
  end.

Example profile_uri : av_uri profile =
  "vless://id-a@vpn.example:443?type=tcp&encryption=none&flow=xtls-rprx-vision&security=tls&fp=chrome&sni=vpn.example&alpn=h2%2Chttp%2F1.1#a%40x%20%C2%B7%20Home%20%26%20away".
Proof. vm_compute. reflexivity. Qed.

Lemma uri_reads_back_witness :
  read_uri (serializeURI "a@x" profile) =
  Some (bytes_of "id-a", bytes_of "vpn.example:443",
        field_bytes <$> query_fields (av_flow profile) (av_transport profile) (av_security profile),
        bytes_of ("a@x" +:+ middle_dot +:+ "Home & away")).
Proof.
  apply (uri_reads_back "a@x" profile).
  - vm_compute bytes_of. rewrite !not_elem_of_cons. repeat split; try discriminate. apply not_elem_of_nil.
  - vm_compute authority. rewrite !not_elem_of_cons. repeat split; try discriminate. apply not_elem_of_nil.
Defined.


End Examples.

End ProfileTheorems.
