(* ===== verification/Journal.v ===== *)
(** * The journal reader (internal/journal)

    One bounded read of journalctl's output: the two fixed units, the fixed
    argv, the process slot, the stream of JSON records under its caps, their
    normalisation, and the one reason a failure is reported by. *)

From Stdlib Require Import Ascii String.
From S2P Require Import Prelude GoJson GoDecode.

(** What ValidateExecutable asks the operating system: filepath.EvalSymlinks
    followed by os.Stat, and the effective identity of the process. *)
Record FileInfo := { fi_regular : bool; fi_mode : Z; fi_uid : Z; fi_gid : Z }.

Class HostFiles := {
  eval_stat : string → option FileInfo;
  geteuid : Z;
  getegid : Z;
  getgroups : option (list Z);
}.

Module Journal.
Import GoJson GoDecode.

Local Open Scope Z_scope.

(** ** The fixed vocabulary *)

Definition Source := string.
Definition SourcePanel : Source := "panel".
Definition SourceXray : Source := "xray".

Definition Filter := string.
Definition FilterAll : Filter := "all".
Definition FilterSystem : Filter := "system".

Definition accessRecordPattern : string :=
  "^(?![0-9]{4}/[0-9]{2}/[0-9]{2} [0-9]{2}:[0-9]{2}:[0-9]{2}(\.[0-9]+)? from )".
Definition PanelUnit : string := "xform.service".
Definition namespace : string := "xform".
Definition outputFields : string :=
  "__CURSOR,__REALTIME_TIMESTAMP,_SYSTEMD_UNIT,UNIT,OBJECT_SYSTEMD_UNIT,COREDUMP_UNIT,SYSLOG_IDENTIFIER,_PID,PRIORITY,MESSAGE".

Inductive Reason :=
| ReasonSnapshotInProgress | ReasonJournalctlUnavailable | ReasonAccessDenied | ReasonTimeout
| ReasonOutputTooLarge | ReasonMalformedOutput | ReasonCommandFailed.

(** context.Context's two errors. *)
Inductive ctxError := Canceled | DeadlineExceeded.

#[export] Instance Reason_eq_dec : EqDecision Reason.
Proof. solve_decision. Defined.
#[export] Instance ctxError_eq_dec : EqDecision ctxError.
Proof. solve_decision. Defined.

(** What Collect returns as an error: a stable reason (its detail, a text for
    the Panel's own log, is left out), the caller's own cancellation, or a
    source or filter that is not one of the fixed ones. *)
Inductive collectError :=
| Failure (reason : Reason) | CallerGone (e : ctxError)
| UnknownSource (source : string) | UnknownFilter (filter : string).

Record Entry := {
  e_cursor : string;
  e_timestamp_us : Z;
  e_unit : string;
  e_identifier : option string;
  e_pid : option Z;
  e_priority : option Z;
  e_message : option string;
  e_message_encoding : option string;
  e_message_truncated : bool;
}.

Record Snapshot := {
  sn_source : Source; sn_filter : Filter; sn_unit : string; sn_limit : nat; sn_entries : list Entry;
}.

Record limits := { l_entries : nat; l_stdout_bytes : Z; l_stderr_bytes : Z }.

Definition contractLimits : limits :=
  {| l_entries := 500; l_stdout_bytes := Z.shiftl 8 20; l_stderr_bytes := Z.shiftl 64 10 |}.

Record Reader := { executable : string; xrayUnit : string; r_limits : limits }.

Definition NewReader (executable xrayUnit : string) : Reader :=
  {| executable := executable; xrayUnit := xrayUnit; r_limits := contractLimits |}.

(** ** Normalisation (normalize.go)

    A record is the map json.Unmarshal makes of a JSON object; an absent key
    reads as no message at all. *)

Definition unitFields : list string := ["_SYSTEMD_UNIT"; "UNIT"; "OBJECT_SYSTEMD_UNIT"; "COREDUMP_UNIT"]%string.
Definition encodingUTF8 : string := "utf-8".
Definition encodingBase64 : string := "base64".

Inductive malformed :=
| NoCursor | NoTimestamp | TimestampRange | UnitNotScalar (field : string)
| MessageNotJSON | MessageEmptyArray | MessageMixedStrings | MessageMixedBytes
| MessageNotByte | MessageBadArray | MessageBadShape.

Definition scalarString (raw : option doc) : option string :=
  match raw with Some (DString _ s) => Some s | _ => None end.

Definition isDecimalDigits (value : string) : bool :=
  negb (String.eqb value "") && forallb (λ r, (48 <=? r.1) && (r.1 <=? 57)) (runes value).

Definition timestampMicroseconds (raw : option doc) : result malformed Z :=
  match scalarString raw with
  | Some value =>
      if isDecimalDigits value then
        match digits_value 0 value with
        | Some n => if n <? u64_mod then Ok n else Err TimestampRange
        | None => Err TimestampRange
        end
      else Err NoTimestamp
  | None => Err NoTimestamp
  end.

Fixpoint unit_of (record : gmap string doc) (fields : list string) (fallbackUnit : string) : result malformed string :=
  match fields with
  | [] => Ok fallbackUnit
  | field :: fields =>
      match record !! field with
      | None | Some DNull => unit_of record fields fallbackUnit
      | Some raw =>
          match scalarString (Some raw) with
          | None => Err (UnitNotScalar field)
          | Some value => if String.eqb value "" then unit_of record fields fallbackUnit else Ok value
          end
      end
  end.

Definition unitOf (record : gmap string doc) (fallbackUnit : string) : result malformed string :=
  unit_of record unitFields fallbackUnit.

Record message := { m_text : option string; m_encoding : option string; m_truncated : bool }.

Definition textMessage (text : string) : message :=
  {| m_text := Some text; m_encoding := Some encodingUTF8; m_truncated := false |}.

(** A value decoded into [any] holds its numbers as float64, so a number out
    of its range is an error wherever it stands. *)
Fixpoint floats_finite (d : doc) : bool :=
  match d with
  | DNumber literal => float_finite literal
  | DArray _ items => forallb floats_finite items
  | DObject _ fields => forallb (λ f, floats_finite f.2) fields
  | _ => true
  end.

(** The byte a number literal is, as the float64 it decodes to: the literal
    lies no further from it than half way to the next float64 (and at half
    way the even one, the integer, is taken). Below [n], a power of two, the
    next float64 is half as far; the numbers around 0 are the denormals. *)
Definition rounds_to_byte (literal : string) (n : Z) : bool :=
  let '(negative, m, k) := float_parts literal in
  let up := if 0 <=? k then 10 ^ k else 1 in
  let down := if 0 <=? k then 1 else 10 ^ (- k) in
  if n =? 0 then m * up * 2 ^ 1075 <=? down
  else
    let scale := 2 ^ (54 - Z.log2 n) in
    let below := if n =? 2 ^ Z.log2 n then 1 else 2 in
    negb negative && ((n * scale - below) * down <=? m * up * scale) && (m * up * scale <=? (n * scale + 2) * down).

Definition float_byte (literal : string) : option Z :=
  List.find (rounds_to_byte literal) (seqZ 0 256).

Fixpoint joined_strings (values : list doc) : option (list string) :=
  match values with
  | [] => Some []
  | DString _ s :: values => ss ← joined_strings values; Some (s :: ss)
  | _ :: _ => None
  end.

Fixpoint message_bytes (values : list doc) : result malformed (list Z) :=
  match values with
  | [] => Ok []
  | DNumber literal :: values =>
      match float_byte literal with
      | None => Err MessageNotByte
      | Some b => match message_bytes values with Ok bs => Ok (b :: bs) | Err e => Err e end
      end
  | _ :: _ => Err MessageMixedBytes
  end.

(** encoding/base64's StdEncoding. *)
Definition base64_digit (n : Z) : Z :=
  if n <? 26 then 65 + n else if n <? 52 then 71 + n else if n <? 62 then n - 4 else if n =? 62 then 43 else 47.

Fixpoint base64_encode (l : list Z) : list Z :=
  match l with
  | a :: b :: c :: l =>
      base64_digit (a / 4) :: base64_digit (a mod 4 * 16 + b / 16) ::
      base64_digit (b mod 16 * 4 + c / 64) :: base64_digit (c mod 64) :: base64_encode l
  | [a; b] => [base64_digit (a / 4); base64_digit (a mod 4 * 16 + b / 16); base64_digit (b mod 16 * 4); 61]
  | [a] => [base64_digit (a / 4); base64_digit (a mod 4 * 16); 61; 61]
  | [] => []
  end.

Definition repeatedMessage (values : list doc) : result malformed message :=
  match values with
  | [] => Err MessageEmptyArray
  | DString _ _ :: _ =>
      match joined_strings values with
      | Some texts => Ok (textMessage (String.concat (String newline "") texts))
      | None => Err MessageMixedStrings
      end
  | DNumber _ :: _ =>
      match message_bytes values with
      | Ok bytes => Ok {| m_text := Some (of_bytes (base64_encode bytes)); m_encoding := Some encodingBase64;
                          m_truncated := false |}
      | Err e => Err e
      end
  | _ => Err MessageBadArray
  end.

Definition messageOf (record : gmap string doc) : result malformed message :=
  match record !! "MESSAGE"%string with
  | None => Ok (textMessage "")
  | Some DNull => Ok {| m_text := None; m_encoding := None; m_truncated := true |}
  | Some raw =>
      if negb (floats_finite raw) then Err MessageNotJSON else
      match raw with
      | DString _ s => Ok (textMessage s)
      | DArray _ values => repeatedMessage values
      | _ => Err MessageBadShape
      end
  end.

Definition optionalString (raw : option doc) : option string := scalarString raw.

(** strconv.Atoi fails beyond an int. *)
Definition optionalNumber (raw : option doc) (low high : Z) : option Z :=
  value ← scalarString raw;
  if isDecimalDigits value then
    n ← digits_value 0 value;
    if (2 ^ 63 <=? n) || (n <? low) || (high <? n) then None else Some n
  else None.

Definition maxInt : Z := 2 ^ 63 - 1.

Definition normalize (record : gmap string doc) (fallbackUnit : string) : result malformed Entry :=
  match scalarString (record !! "__CURSOR") with
  | None | Some "" => Err NoCursor
  | Some cursor =>
      match timestampMicroseconds (record !! "__REALTIME_TIMESTAMP") with
      | Err e => Err e
      | Ok timestamp =>
          match unitOf record fallbackUnit with
          | Err e => Err e
          | Ok unit =>
              match messageOf record with
              | Err e => Err e
              | Ok message => Ok {|
                  e_cursor := cursor; e_timestamp_us := timestamp; e_unit := unit;
                  e_identifier := optionalString (record !! "SYSLOG_IDENTIFIER");
                  e_pid := optionalNumber (record !! "_PID") 0 maxInt;
                  e_priority := optionalNumber (record !! "PRIORITY") 0 7;
                  e_message := m_text message; e_message_encoding := m_encoding message;
                  e_message_truncated := m_truncated message |}
              end
          end
      end
  end%string.

(** ** The stream *)

(** Decoding a value into map[string]json.RawMessage: null makes no map. *)
Definition record_of (d : doc) : option (gmap string doc) :=
  match d with DNull => Some ∅ | DObject _ fields => Some (object_map fields) | _ => None end.

(** json.Decoder.More at the top level. *)
Definition stream_more (l : list Z) : bool :=
  more {| dc_rest := l; dc_state := tokenTopValue; dc_stack := [] |}.

Section Read.
Context (lim : limits) (unit : string).

(** countingReader.count as the loop sees it: the decoder reads ahead by its
    own buffer, so the count at the loop's [k]-th look is the run's. *)
Variable seen : nat → Z.

Definition stdoutOverflow (k : nat) : option Reason :=
  if l_stdout_bytes lim <? seen k then Some ReasonOutputTooLarge else None.

(** The loop over [l], what is left of the capped output, with room for
    [room] more entries. It looks at the count on every round, once more
    when a record does not decode, and at the end. *)
Fixpoint read_records (room : nat) (k : nat) (l : list Z) : result Reason (list Entry) :=
  if stream_more l then
    match stdoutOverflow k with
    | Some reason => Err reason
    | None =>
        match room with
        | O => Err ReasonMalformedOutput
        | S room =>
            match decode_next l with
            | DecodedValue d rest =>
                match record_of d with
                | Some record =>
                    match normalize record unit with
                    | Ok entry =>
                        match read_records room (S (S k)) rest with
                        | Ok entries => Ok (entry :: entries)
                        | Err reason => Err reason
                        end
                    | Err _ => Err ReasonMalformedOutput
                    end
                | None => Err (default ReasonMalformedOutput (stdoutOverflow (S k)))
                end
            | _ => Err (default ReasonMalformedOutput (stdoutOverflow (S k)))
            end
        end
    end
  else match stdoutOverflow k with Some reason => Err reason | None => Ok [] end.

(** read: one byte past the cap is as much of the output as is read. *)
Definition read (output : list Z) : result Reason (list Entry) :=
  read_records (l_entries lim) 0 (take (Z.to_nat (l_stdout_bytes lim + 1)) output).
End Read.

(** ** The child's end *)

Record stderrRead := { se_text : string; se_oversized : bool }.

Definition readCapped (output : list Z) (limit : Z) : stderrRead :=
  {| se_text := of_bytes (take (Z.to_nat limit) output); se_oversized := limit <? Z.of_nat (length output) |}.

Section WithRuntime.
Context `{GoRuntime}.

Definition deniedAccess (stderrText : string) : bool :=
  let lowered := to_lower stderrText in
  contains "permission denied" lowered || contains "insufficient permissions" lowered.

Definition classify (callerErr runErr : option ctxError) (collectErr : option Reason) (exited : bool)
    (stderr : stderrRead) : option collectError :=
  match callerErr with
  | Some e => Some (CallerGone e)
  | None =>
      if bool_decide (collectErr = None) && exited && bool_decide (runErr = None) && negb (se_oversized stderr)
      then None
      else if deniedAccess (se_text stderr) then Some (Failure ReasonAccessDenied)
      else if bool_decide (runErr = Some DeadlineExceeded) then Some (Failure ReasonTimeout)
      else if se_oversized stderr then Some (Failure ReasonOutputTooLarge)
      else match collectErr with
           | Some reason => Some (Failure reason)
           | None => Some (Failure ReasonCommandFailed)
           end
  end.

(** ** The unit name (unit.go) *)

Inductive unitProblem :=
| UnitEmpty | UnitTooLong | UnitNotService | UnitDash | UnitTemplate | UnitChar (r : Z).

Definition maxUnitNameLength : nat := 255.
Definition serviceSuffix : string := ".service".

Definition validUnitChar (r : Z) : bool :=
  (97 <=? r) && (r <=? 122) || (65 <=? r) && (r <=? 90) || (48 <=? r) && (r <=? 57) ||
  (r =? 58) || (r =? 45) || (r =? 95) || (r =? 46) || (r =? 64) || (r =? 92).

Definition validUnitName (name : string) : option unitProblem :=
  if String.eqb (trim_space name) "" then Some UnitEmpty
  else if (maxUnitNameLength <? String.length name)%nat then Some UnitTooLong
  else if negb (has_suffix serviceSuffix name) then Some UnitNotService
  else if String.prefix "-" name then Some UnitDash
  else if has_suffix ("@" +:+ serviceSuffix) name then Some UnitTemplate
  else match List.find (λ r, negb (validUnitChar r.1)) (runes name) with
       | Some r => Some (UnitChar r.1)
       | None => None
       end.

Inductive resolveError := ConfiguredUnit (p : unitProblem) | SystemdFailed | ResolvedUnit (id : string) (p : unitProblem).

(** [canonicalID] is systemd's answer. *)
Definition ResolveXrayUnit (canonicalID : string → option string) (configured : string) : result resolveError string :=
  match validUnitName configured with
  | Some p => Err (ConfiguredUnit p)
  | None =>
      match canonicalID configured with
      | None => Err SystemdFailed
      | Some id => match validUnitName id with Some p => Err (ResolvedUnit id p) | None => Ok id end
      end
  end.

(** ** The executable (executable.go)

    On Linux every FileInfo carries its owner. *)

Inductive execProblem := NoPath | NotAbsolute | Unresolvable | NotRegular | NotExecutable.

Section WithFiles.
Context `{HostFiles}.

Definition inSupplementaryGroup (gid : Z) : bool :=
  match getgroups with Some groups => existsb (Z.eqb gid) groups | None => false end.

Definition ownerExecute : Z := 64.
Definition groupExecute : Z := 8.
Definition otherExecute : Z := 1.

Definition executableBy (info : FileInfo) (euid egid : Z) : bool :=
  let any bits := negb (Z.land (fi_mode info) bits =? 0) in
  if euid =? 0 then any (Z.lor (Z.lor ownerExecute groupExecute) otherExecute)
  else if fi_uid info =? euid then any ownerExecute
  else if (fi_gid info =? egid) || inSupplementaryGroup (fi_gid info) then any groupExecute
  else any otherExecute.

Definition ValidateExecutable (path : string) : option execProblem :=
  if String.eqb path "" then Some NoPath
  else if negb (String.prefix "/" path) then Some NotAbsolute
  else match eval_stat path with
       | None => Some Unresolvable
       | Some info =>
           if negb (fi_regular info) then Some NotRegular
           else if negb (executableBy info geteuid getegid) then Some NotExecutable
           else None
       end.

(** ** Collecting *)

Section WithReader.
Context (r : Reader).

Definition unitFor (source : Source) : result collectError string :=
  if String.eqb source SourcePanel then Ok PanelUnit
  else if String.eqb source SourceXray then Ok (xrayUnit r)
  else Err (UnknownSource source).

Definition arguments (unit : string) (entries : nat) (filter : Filter) : result collectError (list string) :=
  let args grep :=
    ["--system"; "--namespace=" +:+ namespace; "--unit=" +:+ unit] ++ grep ++
    ["--lines=" +:+ itoa (Z.of_nat entries); "--reverse"; "--output=json";
     "--output-fields=" +:+ outputFields; "--no-pager"] in
  if String.eqb filter FilterAll then Ok (args [])
  else if String.eqb filter FilterSystem then Ok (args ["--grep=" +:+ accessRecordPattern])
  else Err (UnknownFilter filter).

Record childCommand := { cc_path : string; cc_args : list string; cc_env : list string }.

Definition fixedEnvironment : list string := ["LC_ALL=C"; "LANG=C"; "SYSTEMD_COLORS=0"]%string.

(** One run of the child as the reader meets it: what its pipes deliver, how
    far the decoder had read at each look, whether stderr was still open at
    the deadline, whether it exited with 0, and how the two contexts ended. *)
Record childRun := {
  run_stdout : list Z; run_seen : nat → Z; run_stderr : list Z; run_stderr_late : bool;
  run_exited : bool; run_caller : option ctxError; run_deadline : option ctxError;
}.

(** Up to the process slot. *)
Definition enter (slot : bool) (source : Source) (filter : Filter) : result collectError (string * childCommand) :=
  match unitFor source with
  | Err e => Err e
  | Ok unit =>
      match arguments unit (l_entries (r_limits r)) filter with
      | Err e => Err e
      | Ok args =>
          if slot then Err (Failure ReasonSnapshotInProgress)
          else Ok (unit, {| cc_path := executable r; cc_args := args; cc_env := fixedEnvironment |})
      end
  end.

(** The executable checked again and the child started. *)
Definition launch (started : option childRun) : result collectError childRun :=
  match ValidateExecutable (executable r) with
  | Some _ => Err (Failure ReasonJournalctlUnavailable)
  | None => match started with None => Err (Failure ReasonJournalctlUnavailable) | Some run => Ok run end
  end.

Definition awaitStderr (run : childRun) : stderrRead :=
  if run_stderr_late run then {| se_text := ""; se_oversized := false |}
  else readCapped (run_stderr run) (l_stderr_bytes (r_limits r)).

(** From the child's output to the answer. *)
Definition conclude (source : Source) (filter : Filter) (unit : string) (run : childRun) : result collectError Snapshot :=
  let entries := read (r_limits r) unit (run_seen run) (run_stdout run) in
  let collectErr := match entries with Ok _ => None | Err reason => Some reason end in
  match classify (run_caller run) (run_deadline run) collectErr (run_exited run) (awaitStderr run) with
  | Some e => Err e
  | None => Ok {| sn_source := source; sn_filter := filter; sn_unit := unit;
                  sn_limit := l_entries (r_limits r);
                  sn_entries := match entries with Ok es => es | Err _ => [] end |}
  end.

(** Collect; it leaves the slot as it found it. *)
Definition Collect (slot : bool) (started : option childRun) (source : Source) (filter : Filter) :
    result collectError Snapshot :=
  match enter slot source filter with
  | Err e => Err e
  | Ok (unit, _) =>
      match launch started with
      | Err e => Err e
      | Ok run => conclude source filter unit run
      end
  end.

(** Collections that overlap share the slot. Each is between taking it and
    starting its child, or has a child. *)
Record collections := { slot : bool; entered : list childCommand; running : list childCommand }.

Definition idle : collections := {| slot := false; entered := []; running := [] |}.

Inductive collect_step : collections → collections → Prop :=
| StepEnter c source filter unit command :
    enter (slot c) source filter = Ok (unit, command) →
    collect_step c {| slot := true; entered := command :: entered c; running := running c |}
| StepLaunch c i command started run :
    entered c !! i = Some command → launch started = Ok run →
    collect_step c {| slot := slot c; entered := delete i (entered c); running := command :: running c |}
| StepLaunchFails c i command started e :
    entered c !! i = Some command → launch started = Err e →
    collect_step c {| slot := false; entered := delete i (entered c); running := running c |}
| StepConclude c i command :
    running c !! i = Some command →
    collect_step c {| slot := false; entered := entered c; running := delete i (running c) |}.
End WithReader.
End WithFiles.
End WithRuntime.
End Journal.
