(* ===== verification/JournalTheorems.v ===== *)
(** * The journal reader: theorems

    A message reads back as the bytes journald held, an entry's unit is what
    journald itself attached, a snapshot is the whole of a bounded and clean
    read, and one child runs at a time with a fixed command. *)

From Stdlib Require Import Ascii String.
From S2P Require Import Prelude GoJson GoText GoDecode GoPrint Journal.

Module JournalTheorems.
Import GoJson GoText GoDecode GoPrint Journal.

Local Open Scope Z_scope.

(** ** Messages *)

(** A reference decoder of base64, padding included. *)
Definition base64_value (c : Z) : option Z :=
  if (65 <=? c) && (c <=? 90) then Some (c - 65)
  else if (97 <=? c) && (c <=? 122) then Some (c - 71)
  else if (48 <=? c) && (c <=? 57) then Some (c + 4)
  else if c =? 43 then Some 62 else if c =? 47 then Some 63 else None.

Fixpoint base64_decode (l : list Z) : option (list Z) :=
  match l with
  | [] => Some []
  | [c1; c2; 61; 61] =>
      v1 ← base64_value c1; v2 ← base64_value c2; Some [v1 * 4 + v2 / 16]
  | [c1; c2; c3; 61] =>
      v1 ← base64_value c1; v2 ← base64_value c2; v3 ← base64_value c3;
      Some [v1 * 4 + v2 / 16; v2 mod 16 * 16 + v3 / 4]
  | c1 :: c2 :: c3 :: c4 :: l =>
      v1 ← base64_value c1; v2 ← base64_value c2; v3 ← base64_value c3; v4 ← base64_value c4;
      bs ← base64_decode l;
      Some (v1 * 4 + v2 / 16 :: v2 mod 16 * 16 + v3 / 4 :: v3 mod 4 * 64 + v4 :: bs)
  | _ => None
  end.

(** A decidable fact about a range is checked value by value. *)
Lemma check_range (P : Z → Prop) `{∀ n, Decision (P n)} low size :
  forallb (λ n, bool_decide (P n)) (seqZ low size) = true → ∀ n, low ≤ n < low + size → P n.
Proof.
  intros Hf n Hn. rewrite forallb_forall in Hf. apply (bool_decide_eq_true_1 (P n)), Hf, list_elem_of_In, elem_of_seqZ. lia.
Qed.

Lemma base64_value_digit n : 0 ≤ n < 64 → base64_value (base64_digit n) = Some n ∧ base64_digit n ≠ 61.
Proof.
  apply (check_range (λ n, base64_value (base64_digit n) = Some n ∧ base64_digit n ≠ 61) 0 64).
  vm_compute. reflexivity.
Qed.

Lemma three_bytes_ind (P : list Z → Prop) :
  P [] → (∀ a, P [a]) → (∀ a b, P [a; b]) → (∀ a b c l, P l → P (a :: b :: c :: l)) → ∀ l, P l.
Proof.
  intros H0 H1 H2 H3 l. induction l as [l IH] using (induction_ltof1 _ (@length Z)). unfold ltof in IH.
  destruct l as [|a [|b [|c l]]]; [done|done|done|]. apply H3, IH. simpl. lia.
Qed.

Lemma base64_value_of n : 0 ≤ n < 64 → base64_value (base64_digit n) = Some n.
Proof. apply base64_value_digit. Qed.

Lemma decode_quad c1 c2 c3 c4 l : c4 ≠ 61 →
  base64_decode (c1 :: c2 :: c3 :: c4 :: l) =
    v1 ← base64_value c1; v2 ← base64_value c2; v3 ← base64_value c3; v4 ← base64_value c4;
    bs ← base64_decode l;
    Some (v1 * 4 + v2 / 16 :: v2 mod 16 * 16 + v3 / 4 :: v3 mod 4 * 64 + v4 :: bs).
Proof.
  intros H4. simpl. destruct (Z.eq_dec c4 61); [done|].
  repeat case_match; subst; try done.
Qed.

Lemma decode_triple c1 c2 c3 : c3 ≠ 61 →
  base64_decode [c1; c2; c3; 61] =
    v1 ← base64_value c1; v2 ← base64_value c2; v3 ← base64_value c3;
    Some [v1 * 4 + v2 / 16; v2 mod 16 * 16 + v3 / 4].
Proof.
  intros H3. simpl. destruct (Z.eq_dec c3 61); [done|].
  repeat case_match; subst; try done.
Qed.

Lemma sextets a b : is_byte a → 0 ≤ b < 16 →
  0 ≤ a / 4 < 64 ∧ 0 ≤ a mod 4 * 16 + b < 64 ∧ a / 4 * 4 + (a mod 4 * 16 + b) / 16 = a ∧ (a mod 4 * 16 + b) mod 16 = b.
Proof. unfold is_byte. intros. split_and!; zdiv. Qed.

Lemma sextets_low b c : is_byte b → 0 ≤ c < 4 →
  0 ≤ b / 16 < 16 ∧ 0 ≤ b mod 16 * 4 + c < 64 ∧ b / 16 * 16 + (b mod 16 * 4 + c) / 4 = b ∧
  (b mod 16 * 4 + c) mod 4 = c.
Proof. unfold is_byte. intros. split_and!; zdiv. Qed.

Lemma base64_decode_encode l : Forall is_byte l → base64_decode (base64_encode l) = Some l.
Proof.
  induction l as [|a|a b|a b c l IH] using three_bytes_ind; intros Hl; [done| | |];
    repeat match goal with H : Forall _ (_ :: _) |- _ => apply Forall_cons in H as [? H] end; cbn [base64_encode].
  - destruct (sextets a 0) as (? & ? & E & _); [done|lia|]. rewrite Z.add_0_r in *.
    cbn -[Z.div Z.modulo Z.mul Z.add base64_value base64_digit]. rewrite !base64_value_of by done. cbn [mbind option_bind].
    by rewrite E.
  - destruct (sextets_low b 0) as (? & ? & E2 & _); [done|lia|]. rewrite Z.add_0_r in *.
    destruct (sextets a (b / 16)) as (? & ? & E & E'); [done..|].
    rewrite decode_triple by (by apply base64_value_digit). rewrite !base64_value_of by done.
    cbn [mbind option_bind]. by rewrite E, E', E2.
  - destruct (sextets_low b (c / 64)) as (? & ? & E2 & E2'); [done|unfold is_byte in *; zdiv|].
    destruct (sextets a (b / 16)) as (? & ? & E & E'); [done..|].
    assert (0 ≤ c mod 64 < 64 ∧ c / 64 * 64 + c mod 64 = c) as [? E3] by (unfold is_byte in *; split; zdiv).
    rewrite decode_quad by (by apply base64_value_digit). rewrite !base64_value_of by done.
    cbn [mbind option_bind]. rewrite IH by done. cbn [mbind option_bind]. by rewrite E, E', E2, E2', E3.
Qed.

(** The bytes a message's text holds, by the encoding it is reported with. *)
Definition decoded_message (encoding text : string) : option (list Z) :=
  if String.eqb encoding encodingUTF8 then Some (bytes_of text)
  else if String.eqb encoding encodingBase64 then base64_decode (bytes_of text)
  else None.

(** How journalctl writes the bytes of a MESSAGE field: as a string, as the
    array of the values of a repeated field, which read one below the other,
    or as an array of numbers. *)
Inductive journald_value : doc → list Z → Prop :=
| WroteString lit s : journald_value (DString lit s) (bytes_of s)
| WroteRepeated text lits values :
    values ≠ [] → length lits = length values →
    journald_value (DArray text (zip_with DString lits values)) (bytes_of (String.concat (String newline "") values))
| WroteBytes text bytes :
    bytes ≠ [] → Forall is_byte bytes →
    journald_value (DArray text ((λ b, DNumber (itoa b)) <$> bytes)) bytes.

Lemma byte_literal b : is_byte b → float_byte (itoa b) = Some b ∧ float_finite (itoa b) = true.
Proof.
  apply (check_range (λ b, float_byte (itoa b) = Some b ∧ float_finite (itoa b) = true) 0 256).
  vm_compute. reflexivity.
Qed.

Lemma joined_strings_of lits values : length lits = length values →
  joined_strings (zip_with DString lits values) = Some values.
Proof.
  revert values. induction lits as [|lit lits IH]; intros [|v values]; try done. intros [= Hl]. simpl. by rewrite IH.
Qed.

Lemma message_bytes_of bytes : Forall is_byte bytes → message_bytes ((λ b, DNumber (itoa b)) <$> bytes) = Ok bytes.
Proof.
  induction 1 as [|b bytes Hb _ IH]; [done|]. rewrite fmap_cons. cbn [message_bytes].
  by rewrite (proj1 (byte_literal b Hb)), IH.
Qed.

Lemma base64_bytes l : Forall is_byte l → Forall is_byte (base64_encode l).
Proof.
  assert (∀ n, 0 ≤ n < 64 → is_byte (base64_digit n)) as Hd.
  { apply (check_range (λ n, is_byte (base64_digit n)) 0 64). vm_compute. reflexivity. }
  induction l as [|a|a b|a b c l IH] using three_bytes_ind; intros Hl; [done| | |];
    repeat match goal with H : Forall _ (_ :: _) |- _ => apply Forall_cons in H as [? H] end; cbn [base64_encode];
    repeat apply Forall_cons_2; auto; unfold is_byte in *; try done; apply Hd; zdiv.
Qed.

Lemma decoded_text text : decoded_message encodingUTF8 text = Some (bytes_of text).
Proof. reflexivity. Qed.

Lemma decoded_base64 bytes : Forall is_byte bytes →
  decoded_message encodingBase64 (of_bytes (base64_encode bytes)) = Some bytes.
Proof.
  intros Hb. unfold decoded_message. cbn [String.eqb]. simpl. rewrite bytes_of_of_bytes by (by apply base64_bytes).
  by apply base64_decode_encode.
Qed.

Lemma finite_strings lits values : forallb floats_finite (zip_with DString lits values) = true.
Proof. revert values. induction lits as [|lit lits IH]; intros [|v values]; simpl; auto. Qed.

Lemma finite_bytes bytes : Forall is_byte bytes →
  forallb floats_finite ((λ b, DNumber (itoa b)) <$> bytes) = true.
Proof.
  induction 1 as [|b bytes Hb _ IH]; [done|]. rewrite fmap_cons. cbn [forallb floats_finite].
  by rewrite (proj2 (byte_literal b Hb)), IH.
Qed.

(** A message is kept whole. In each of the forms journalctl writes a
    MESSAGE field in, a string, a repeated field, or data that is not text
    as an array of byte numbers, the entry carries a text and its encoding
    from which exactly the field's bytes decode; only a field journalctl
    elided is reported as truncated, and a record without the field has the
    empty message. *)
Theorem message_reads_back record :
  (∀ d bytes, record !! "MESSAGE"%string = Some d → journald_value d bytes →
     ∃ text encoding, messageOf record = Ok {| m_text := Some text; m_encoding := Some encoding; m_truncated := false |} ∧
       decoded_message encoding text = Some bytes) ∧
  (record !! "MESSAGE"%string = None → messageOf record = Ok (textMessage "")) ∧
  ∀ m, messageOf record = Ok m → (m_truncated m = true ↔ record !! "MESSAGE"%string = Some DNull) ∧
    (m_truncated m = true ↔ m_text m = None).
Proof.
  split_and!.
  - intros d bytes Hd Hv. unfold messageOf. rewrite Hd. destruct Hv as [lit s|text lits values Hne Hl|text bytes Hne Hb].
    + exists s, encodingUTF8. split; [done|apply decoded_text].
    + assert (floats_finite (DArray text (zip_with DString lits values)) = true) as -> by apply finite_strings.
      exists (String.concat (String newline "") values), encodingUTF8. split; [|apply decoded_text].
      destruct lits as [|lit lits], values as [|v values]; try done. cbn -[joined_strings String.concat].
      change (DString lit v :: zip_with DString lits values) with (zip_with DString (lit :: lits) (v :: values)).
      by rewrite joined_strings_of.
    + assert (floats_finite (DArray text ((λ b, DNumber (itoa b)) <$> bytes)) = true) as -> by by apply finite_bytes.
      exists (of_bytes (base64_encode bytes)), encodingBase64. split; [|by apply decoded_base64].
      pose proof (message_bytes_of bytes Hb) as Hm. destruct bytes as [|b bytes]; [done|].
      rewrite fmap_cons in *. cbn -[message_bytes base64_encode]. by rewrite Hm.
  - intros Hn. unfold messageOf. by rewrite Hn.
  - intros m. unfold messageOf, repeatedMessage. repeat case_match; intros Hm; simplify_eq; simpl; naive_solver.
Qed.

(** ** Entries *)

(** What a unit field says: nothing when it is absent, null or empty. *)
Definition says_nothing (raw : option doc) : Prop :=
  raw = None ∨ raw = Some DNull ∨ ∃ lit, raw = Some (DString lit "").

Lemma unit_of_spec record fields fallback unit : unit_of record fields fallback = Ok unit →
  (Forall (λ f, says_nothing (record !! f)) fields ∧ unit = fallback) ∨
  ∃ before field after lit, fields = before ++ field :: after ∧ Forall (λ f, says_nothing (record !! f)) before ∧
    record !! field = Some (DString lit unit) ∧ unit ≠ ""%string.
Proof.
  induction fields as [|field fields IH]; simpl; [intros [= <-]; by left|].
  assert (∀ raw, record !! field = raw → says_nothing raw → unit_of record fields fallback = Ok unit →
    (Forall (λ f, says_nothing (record !! f)) (field :: fields) ∧ unit = fallback) ∨
    ∃ before field' after lit, field :: fields = before ++ field' :: after ∧
      Forall (λ f, says_nothing (record !! f)) before ∧ record !! field' = Some (DString lit unit) ∧ unit ≠ ""%string) as Hskip.
  { intros raw Hraw Hn [[Hall ->]|(before & f & after & lit & -> & Hb & Hf & Hu)]%IH.
    - left. split; [|done]. constructor; [by rewrite Hraw|done].
    - right. exists (field :: before), f, after, lit. split_and!; [done| |done|done]. constructor; [by rewrite Hraw|done]. }
  destruct (record !! field) as [raw|] eqn:Er; [|apply (Hskip None); [done|by left]].
  destruct raw as [|b|literal|lit s|t items|t fs]; simpl; try done.
  - apply (Hskip (Some DNull)); [done|by right; left].
  - destruct (String.eqb_spec s "") as [->|Hne].
    + apply (Hskip (Some (DString lit ""))); [done|]. right. right. by exists lit.
    + intros [= <-]. right. exists [], field, fields, lit. by split_and!.
Qed.

Lemma unit_of_agrees record record' fields fallback : Forall (λ f, record !! f = record' !! f) fields →
  unit_of record fields fallback = unit_of record' fields fallback.
Proof. induction 1 as [|f fields Hf _ IH]; simpl; [done|]. by rewrite Hf, IH. Qed.

(** A string field of a record. *)
Definition text_field (record : gmap string doc) (field text : string) : Prop :=
  ∃ lit, record !! field = Some (DString lit text).

(** A numeral: digits only, at least one, most significant first. *)
Definition decimal (s : string) (n : Z) : Prop :=
  s ≠ ""%string ∧ Forall (λ b, 48 ≤ b ≤ 57) (bytes_of s) ∧
  n = foldl (λ acc b, acc * 10 + (b - 48)) 0 (bytes_of s).

(** The fields journald sets itself; a client cannot write them. *)
Definition journald_unit_fields : list string :=
  ["_SYSTEMD_UNIT"; "UNIT"; "OBJECT_SYSTEMD_UNIT"; "COREDUMP_UNIT"]%string.

(** The unit of an entry: the first of journald's fields that names one, with
    nothing said before it, or the unit asked for when none says anything. *)
Definition unit_named (record : gmap string doc) (asked unit : string) : Prop :=
  (Forall (λ f, says_nothing (record !! f)) journald_unit_fields ∧ unit = asked) ∨
  ∃ before field after, journald_unit_fields = before ++ field :: after ∧
    Forall (λ f, says_nothing (record !! f)) before ∧ text_field record field unit ∧ unit ≠ ""%string.

(** A value of MESSAGE, and the text, encoding and truncation reported. *)
Inductive reported : option doc → option string → option string → bool → Prop :=
| ReportAbsent : reported None (Some "")%string (Some "utf-8")%string false
| ReportElided : reported (Some DNull) None None true
| ReportText lit s : reported (Some (DString lit s)) (Some s) (Some "utf-8")%string false
| ReportRepeated text lits values :
    values ≠ [] → length lits = length values →
    reported (Some (DArray text (zip_with DString lits values)))
      (Some (String.concat (String newline "") values)) (Some "utf-8")%string false
| ReportData text items bytes encoded :
    items ≠ [] →
    Forall2 (λ item b, ∃ literal, item = DNumber literal ∧ float_finite literal = true ∧
                                  float_byte literal = Some b) items bytes →
    base64_decode (bytes_of encoded) = Some bytes →
    reported (Some (DArray text items)) (Some encoded) (Some "base64")%string false.

(** What a record's entry is. *)
Record entry_of (record : gmap string doc) (asked : string) (e : Entry) : Prop := {
  eo_cursor : text_field record "__CURSOR" (e_cursor e) ∧ e_cursor e ≠ ""%string;
  eo_timestamp : ∃ s, text_field record "__REALTIME_TIMESTAMP" s ∧ decimal s (e_timestamp_us e) ∧
    e_timestamp_us e < 2 ^ 64;
  eo_unit : unit_named record asked (e_unit e);
  eo_identifier s : e_identifier e = Some s ↔ text_field record "SYSLOG_IDENTIFIER" s;
  eo_pid n : e_pid e = Some n ↔ (∃ s, text_field record "_PID" s ∧ decimal s n) ∧ n < 2 ^ 63;
  eo_priority n : e_priority e = Some n ↔ (∃ s, text_field record "PRIORITY" s ∧ decimal s n) ∧ n ≤ 7;
  eo_message : reported (record !! "MESSAGE"%string) (e_message e) (e_message_encoding e) (e_message_truncated e);
}.

(** *** Numerals *)

Lemma ascii_runes l : Forall (λ b, 0 ≤ b < 128) l → decode_runes (length l) l = (λ b, (b, true)) <$> l.
Proof.
  induction 1 as [|b l Hb _ IH]; [done|]. cbn [length decode_runes fmap list_fmap].
  unfold decode_rune. replace (b <? 128) with true by lia. by rewrite IH.
Qed.

Lemma digits_value_fold acc s : Forall (λ b, 48 ≤ b ≤ 57) (bytes_of s) →
  digits_value acc s = Some (foldl (λ acc b, acc * 10 + (b - 48)) acc (bytes_of s)).
Proof.
  revert acc. induction s as [|c s IH]; intros acc; [done|]. cbn [bytes_of digits_value foldl].
  intros [Hc Hs]%Forall_cons. replace ((48 <=? byte_of c) && (byte_of c <=? 57)) with true by lia. by apply IH.
Qed.

Lemma decimal_spec s n : isDecimalDigits s = true ∧ digits_value 0 s = Some n ↔ decimal s n.
Proof.
  unfold isDecimalDigits, decimal. rewrite andb_true_iff, negb_true_iff, String.eqb_neq. split.
  - intros [[Hne _] Hn]. assert (Forall (λ b, 48 ≤ b ≤ 57) (bytes_of s)) as Hd.
    { eapply Forall_impl; [by eapply digits_value_digits|]. intros b Hb. unfold is_digit in Hb. lia. }
    split_and!; [done|done|]. rewrite digits_value_fold in Hn by done. by injection Hn.
  - intros (Hne & Hd & ->). rewrite digits_value_fold by done. split; [split|done]; [done|].
    unfold runes. rewrite ascii_runes by (eapply Forall_impl; [exact Hd|]; simpl; lia).
    apply forallb_forall. intros r (b & -> & Hb)%list_elem_of_In%list_elem_of_fmap. rewrite Forall_forall in Hd.
    specialize (Hd b Hb). simpl. lia.
Qed.

Lemma decimal_nonneg s n : decimal s n → 0 ≤ n.
Proof.
  intros (_ & Hd & ->). assert (∀ acc, 0 ≤ acc → 0 ≤ foldl (λ acc b, acc * 10 + (b - 48)) acc (bytes_of s)) as Hf.
  { induction Hd as [|b l Hb _ IH]; intros acc Ha; [done|]. cbn [foldl]. apply IH. lia. }
  by apply Hf.
Qed.

Lemma scalarString_text record field s : scalarString (record !! field) = Some s ↔ text_field record field s.
Proof.
  unfold scalarString, text_field. split.
  - destruct (record !! field) as [[]|]; try done. intros [= ->]. eauto.
  - by intros [lit ->].
Qed.

Lemma optionalNumber_spec record field low high n : low = 0 → high < 2 ^ 63 →
  optionalNumber (record !! field) low high = Some n ↔ (∃ s, text_field record field s ∧ decimal s n) ∧ n ≤ high.
Proof.
  intros -> Hh. unfold optionalNumber. split.
  - intros (s & Hs%scalarString_text & Hn)%bind_Some. destruct (isDecimalDigits s) eqn:Ed; [|done].
    apply bind_Some in Hn as (m & Hm & Hn). destruct (_ || _) eqn:Er; [done|]. injection Hn as ->.
    split; [exists s; split; [done|by apply decimal_spec]|lia].
  - intros [(s & Hs & Hd) Hn]. apply scalarString_text in Hs as ->. cbn [mbind option_bind].
    pose proof (decimal_nonneg s n Hd). apply decimal_spec in Hd as [-> ->]. cbn [mbind option_bind].
    by replace ((2 ^ 63 <=? n) || (n <? 0) || (high <? n)) with false by lia.
Qed.

Lemma timestamp_spec record field ts :
  timestampMicroseconds (record !! field) = Ok ts ↔
    ∃ s, text_field record field s ∧ decimal s ts ∧ ts < 2 ^ 64.
Proof.
  unfold timestampMicroseconds. split.
  - destruct (scalarString _) as [s|] eqn:Es; [|done]. apply scalarString_text in Es.
    destruct (isDecimalDigits s) eqn:Ed; [|done]. destruct (digits_value 0 s) as [n|] eqn:En; [|done].
    destruct (Z.ltb_spec n u64_mod) as [Hn|]; [|done]. intros [= <-]. exists s. split_and!; [done|by apply decimal_spec|exact Hn].
  - intros (s & Hs & Hd & Hn). apply scalarString_text in Hs as ->. apply decimal_spec in Hd as [-> ->].
    by replace (ts <? u64_mod) with true by (unfold u64_mod; lia).
Qed.

(** *** The parts of an entry *)

Lemma unitOf_named record asked unit : unitOf record asked = Ok unit → unit_named record asked unit.
Proof.
  intros [Hall|(before & field & after & lit & Heq & Hb & Hf & Hu)]%unit_of_spec; [by left|].
  right. exists before, field, after. split_and!; [exact Heq|done|by exists lit|done].
Qed.

Lemma unit_of_skip record before fields asked : Forall (λ f, says_nothing (record !! f)) before →
  unit_of record (before ++ fields) asked = unit_of record fields asked.
Proof.
  induction 1 as [|f before Hf _ IH]; [done|]. simpl. destruct Hf as [->|[->|[lit ->]]]; exact IH.
Qed.

Lemma named_unitOf record asked unit : unit_named record asked unit → unitOf record asked = Ok unit.
Proof.
  unfold unitOf. intros [[Hall ->]|(before & field & after & Heq & Hb & [lit Hf] & Hu)].
  - rewrite <-(app_nil_r unitFields). by rewrite unit_of_skip.
  - change unitFields with journald_unit_fields. rewrite Heq, unit_of_skip by done. simpl. rewrite Hf. simpl.
    by destruct (String.eqb_spec unit "").
Qed.

Lemma joined_strings_inv items values : joined_strings items = Some values →
  ∃ lits, length lits = length values ∧ items = zip_with DString lits values.
Proof.
  revert values. induction items as [|item items IH]; intros values; simpl; [intros [= <-]; by exists []|].
  destruct item; try done. intros (ss & (lits & Hl & ->)%IH & [= <-])%bind_Some.
  eexists (_ :: lits). split; [simpl; by rewrite Hl|done].
Qed.

Lemma message_bytes_spec items bytes :
  message_bytes items = Ok bytes ↔ Forall2 (λ item b, ∃ literal, item = DNumber literal ∧ float_byte literal = Some b) items bytes.
Proof.
  split.
  - revert bytes. induction items as [|item items IH]; intros bytes; simpl; [intros [= <-]; constructor|].
    destruct item; try done. destruct (float_byte _) as [b|] eqn:Eb; [|done].
    destruct (message_bytes items) as [bs|] eqn:E; [|done]. intros [= <-]. constructor; [eauto|by apply IH].
  - induction 1 as [|item b items bytes (literal & -> & Hb) _ IH]; [done|]. simpl. by rewrite Hb, IH.
Qed.

Lemma float_byte_range literal b : float_byte literal = Some b → is_byte b.
Proof.
  unfold float_byte. intros [Hin _]%List.find_some. apply list_elem_of_In, elem_of_seqZ in Hin. unfold is_byte. lia.
Qed.

Lemma data_items items bytes : forallb floats_finite items = true → message_bytes items = Ok bytes →
  Forall is_byte bytes ∧
  Forall2 (λ item b, ∃ literal, item = DNumber literal ∧ float_finite literal = true ∧ float_byte literal = Some b) items bytes.
Proof.
  intros Hf Hm%message_bytes_spec. revert Hf. induction Hm as [|item b items bytes (literal & -> & Hb) _ IH]; [done|].
  simpl. intros [Hl [??]%IH]%andb_prop. split; constructor; eauto using float_byte_range.
Qed.

Lemma messageOf_reported record m : messageOf record = Ok m →
  reported (record !! "MESSAGE"%string) (m_text m) (m_encoding m) (m_truncated m).
Proof.
  unfold messageOf. destruct (record !! "MESSAGE"%string) as [raw|]; [|intros [= <-]; constructor].
  destruct raw as [|b|literal|lit s|text items|text fields]; try by repeat case_match.
  - intros [= <-]. constructor.
  - intros [= <-]. constructor.
  - destruct (negb (floats_finite _)) eqn:Ef; [done|]. apply negb_false_iff in Ef. simpl in Ef.
    unfold repeatedMessage. destruct items as [|[|b|literal|lit s|t its|t fs] items]; try done.
    + destruct (message_bytes _) as [bytes|] eqn:Em; [|done]. intros [= <-].
      destruct (data_items _ _ Ef Em) as [Hb Hi]. apply ReportData with (bytes := bytes); [done|done|].
      by pose proof (decoded_base64 bytes Hb).
    + destruct (joined_strings _) as [values|] eqn:Ej; [|done]. intros [= <-].
      apply joined_strings_inv in Ej as (lits & Hl & Heq). rewrite Heq.
      apply ReportRepeated; [|done]. intros ->. by destruct lits.
Qed.

Lemma reported_messageOf record text encoding truncated :
  reported (record !! "MESSAGE"%string) text encoding truncated → is_ok (messageOf record) = true.
Proof.
  unfold messageOf. intros Hr. inversion Hr as [E|E|lit s E|t lits values Hne Hl E|t items bytes encoded Hne Hi Hd E];
    try done.
  - change (floats_finite (DArray t (zip_with DString lits values))) with (forallb floats_finite (zip_with DString lits values)).
    rewrite finite_strings. simpl. destruct lits as [|lit lits], values as [|v values]; try done.
    cbn -[joined_strings]. change (DString lit v :: zip_with DString lits values) with (zip_with DString (lit :: lits) (v :: values)).
    by rewrite joined_strings_of.
  - assert (floats_finite (DArray t items) = true) as ->.
    { simpl. clear -Hi. induction Hi as [|item b items bytes (literal & -> & Hf & _) _ IH]; [done|]. simpl. by rewrite Hf. }
    assert (message_bytes items = Ok bytes) as Hm.
    { apply message_bytes_spec. eapply Forall2_impl; [exact Hi|]. intros item b (literal & ? & _ & ?). eauto. }
    simpl. destruct Hi as [|item b items bytes (literal & -> & _) _]; [done|]. cbn [repeatedMessage]. by rewrite Hm.
Qed.

(** C25: what the entry of a record is. A record has an entry exactly when
    one meets [entry_of], and the entry given meets it: the cursor is the
    non-empty string of __CURSOR; the timestamp the decimal numeral of
    __REALTIME_TIMESTAMP, below 2^64; the identifier the string of
    SYSLOG_IDENTIFIER, or none; the PID and the priority the numerals of _PID
    and PRIORITY, present exactly when those are below 2^63 and at most 7; the
    unit the first of journald's own four fields that names one, with the
    unit asked for only when none of them says anything; the message the empty
    text when there is no MESSAGE, truncated exactly when the field is null,
    and otherwise its string, its strings joined by newlines, or a base64 text
    its bytes decode from, where of the numerals those up to 255 are bytes. So
    no field a client writes changes the unit. *)
Theorem normalized_entry record asked :
  (∀ e, normalize record asked = Ok e → entry_of record asked e) ∧
  ((∃ e, entry_of record asked e) → is_ok (normalize record asked) = true) ∧
  (∀ record' e e', Forall (λ f, record !! f = record' !! f) journald_unit_fields →
    normalize record asked = Ok e → normalize record' asked = Ok e' → e_unit e' = e_unit e) ∧
  ∀ n, float_byte (itoa n) = Some n ↔ 0 ≤ n ≤ 255.
Proof.
  assert (∀ record e, normalize record asked = Ok e → unitOf record asked = Ok (e_unit e)) as Hu.
  { clear. intros record e. unfold normalize. repeat case_match; try done; by intros [= <-]. }
  split_and!.
  - intros e He. pose proof (unitOf_named _ _ _ (Hu _ _ He)) as Hunit. revert He. unfold normalize.
    destruct (scalarString (record !! "__CURSOR"%string)) as [cursor|] eqn:Ec; [|done].
    apply scalarString_text in Ec. destruct (String.eqb_spec cursor "") as [->|Hc]; [done|].
    destruct (timestampMicroseconds _) as [ts|] eqn:Ets; [|by destruct cursor]. apply timestamp_spec in Ets.
    destruct (unitOf record asked) as [unit|] eqn:Eu; [|by destruct cursor].
    destruct (messageOf record) as [m|] eqn:Em; [|by destruct cursor]. apply messageOf_reported in Em.
    destruct cursor as [|c cursor]; [done|]. intros [= <-].
    split; cbn; [done|exact Ets|exact Hunit|intros s; apply scalarString_text|..|exact Em]; intros n.
    + rewrite optionalNumber_spec by done. unfold maxInt. by rewrite <-Z.lt_succ_r.
    + by rewrite optionalNumber_spec.
  - intros [e [[Hc Hne] Ht Hunit _ _ _ Hm]]. unfold normalize.
    apply scalarString_text in Hc as ->. apply timestamp_spec in Ht as ->. apply named_unitOf in Hunit as ->.
    apply reported_messageOf in Hm. destruct (messageOf record); [|done]. by destruct (e_cursor e).
  - intros record' e e' Hf He%Hu He'%Hu. unfold unitOf in *.
    change unitFields with journald_unit_fields in *. rewrite <-(unit_of_agrees _ _ _ _ Hf), He in He'. by injection He'.
  - intros n. split; [intros Hb%float_byte_range; unfold is_byte in Hb; lia|].
    intros Hn. apply byte_literal. unfold is_byte. lia.
Qed.

(** ** The stream *)

(** [l] is a stream of records that normalise to [entries], up to [tail],
    where the decoder finds no more values. *)
Inductive stream (unit : string) : list Z → list Entry → list Z → Prop :=
| StreamEnd l : stream_more l = false → stream unit l [] l
| StreamRecord l d rest record e entries tail :
    stream_more l = true → decode_next l = DecodedValue d rest → record_of d = Some record →
    normalize record unit = Ok e → stream unit rest entries tail → stream unit l (e :: entries) tail.

Lemma overflow_none lim seen k : stdoutOverflow lim seen k = None ↔ seen k ≤ l_stdout_bytes lim.
Proof. unfold stdoutOverflow. destruct (Z.ltb_spec (l_stdout_bytes lim) (seen k)); split; (done || lia). Qed.

Lemma read_records_stream lim unit seen room k l entries :
  read_records lim unit seen room k l = Ok entries →
  (length entries ≤ room)%nat ∧ seen (k + 2 * length entries)%nat ≤ l_stdout_bytes lim ∧
  ∃ tail, stream unit l entries tail.
Proof.
  revert k l entries. induction room as [|room IH]; intros k l entries; cbn [read_records];
    destruct (stream_more l) eqn:Em; destruct (stdoutOverflow lim seen k) eqn:Eo; try done; apply overflow_none in Eo.
  - intros [= <-]. cbn [length]. split_and!; [lia|by rewrite Nat.add_0_r|]. exists l. by constructor.
  - destruct (decode_next l) as [| |d rest] eqn:Ed; try done.
    destruct (record_of d) as [record|] eqn:Er; [|done]. destruct (normalize record unit) as [e|] eqn:En; [|done].
    destruct (read_records _ _ _ _ _ rest) as [es|] eqn:Es; [|done]. intros [= <-].
    apply IH in Es as (Hl & Hs & tail & Ht). cbn [length]. split_and!; [lia| |].
    + by replace (k + 2 * S (length es))%nat with (S (S k) + 2 * length es)%nat by lia.
    + exists tail. by eapply StreamRecord.
  - intros [= <-]. cbn [length]. split_and!; [lia|by rewrite Nat.add_0_r|]. exists l. by constructor.
Qed.

Lemma stream_tail unit l entries tail : stream unit l entries tail → stream_more tail = false.
Proof. by induction 1. Qed.

(** journalctl's output: a JSON object a line. *)
Definition written (records : list (list (string * json))) : list Z :=
  concat ((λ fields, print (JObject fields) ++ [10]) <$> records).

Definition record_fields (fields : list (string * json)) : gmap string doc :=
  object_map ((λ f, (f.1, doc_of f.2)) <$> fields).

(** A line that can be written and normalises to [e]. *)
Definition line_of (unit : string) (fields : list (string * json)) (e : Entry) : Prop :=
  printable (JObject fields) = true ∧ Z.of_nat (height (JObject fields)) ≤ 10000 ∧
  normalize (record_fields fields) unit = Ok e.

Lemma skip_blank blank l : skip_space blank = [] → skip_space (blank ++ l) = skip_space l.
Proof. induction blank as [|b blank IH]; [done|]. cbn [skip_space app]. by destruct (is_space b). Qed.

Lemma next_line unit fields e blank k : line_of unit fields e → skip_space blank = [] →
  let l := blank ++ (print (JObject fields) ++ [10]) ++ k in
  stream_more l = true ∧ decode_next l = DecodedValue (doc_of (JObject fields)) (10 :: k).
Proof.
  intros (Hp & Hh & _) Hb. cbn zeta.
  assert (skip_space (blank ++ (print (JObject fields) ++ [10]) ++ k) = print (JObject fields) ++ 10 :: k) as E.
  { rewrite <-app_assoc. cbn [app]. rewrite skip_blank by done. by apply skip_print. }
  unfold stream_more, more, decode_next. cbn [dc_rest]. rewrite E.
  assert (height (JObject fields) ≤ maxNestingDepth)%nat as Hle.
  { unfold maxNestingDepth. revert Hh. generalize (height (JObject fields)). intros n Hn. lia. }
  pose proof (print_reads (JObject fields) maxNestingDepth Hp Hle (10 :: k)) as Hr.
  revert Hr. generalize maxNestingDepth. intros depth Hr.
  destruct (print_head _ Hp) as (c & r & Ec & _ & H93 & H125 & _).
  revert Hr. rewrite Ec. cbn [app]. intros Hr. split.
  - by rewrite !(proj2 (Z.eqb_neq _ _)).
  - by rewrite Hr.
Qed.

Lemma read_records_written lim unit seen room k blank records entries :
  Forall2 (line_of unit) records entries → (length entries ≤ room)%nat → (∀ k, seen k ≤ l_stdout_bytes lim) →
  skip_space blank = [] →
  read_records lim unit seen room k (blank ++ written records) = Ok entries.
Proof.
  intros Hall. revert room k blank. induction Hall as [|fields e records entries Hline Hall IH];
    intros room k blank Hroom Hseen Hb.
  - cbn [written fmap list_fmap concat]. rewrite app_nil_r.
    assert (stream_more blank = false) as Em by (unfold stream_more, more; cbn [dc_rest]; by rewrite Hb).
    pose proof (proj2 (overflow_none lim seen k) (Hseen k)) as Eo.
    destruct room; cbn [read_records]; by rewrite Em, Eo.
  - destruct room as [|room]; [cbn in Hroom; lia|].
    destruct (next_line unit fields e blank (written records) Hline Hb) as [Em Ed].
    change (written (fields :: records)) with ((print (JObject fields) ++ [10]) ++ written records).
    cbn [read_records]. rewrite Em, Ed, (proj2 (overflow_none lim seen k) (Hseen k)).
    assert (record_of (doc_of (JObject fields)) = Some (record_fields fields)) as -> by done.
    rewrite (proj2 (proj2 Hline)). change (10 :: written records) with ([10] ++ written records).
    by rewrite IH by (done || (cbn in Hroom; lia)).
Qed.

(** ** Collecting *)

Section WithRuntime.
Context {GR : GoRuntime} {HF : HostFiles}.

(** How a clean run ends. *)
Definition clean (r : Reader) (run : childRun) : Prop :=
  run_caller run = None ∧ run_deadline run = None ∧ run_exited run = true ∧
  (run_stderr_late run = true ∨ Z.of_nat (length (run_stderr run)) ≤ l_stderr_bytes (r_limits r)).

Lemma classify_none callerErr runErr collectErr exited stderr :
  classify callerErr runErr collectErr exited stderr = None ↔
  callerErr = None ∧ runErr = None ∧ collectErr = None ∧ exited = true ∧ se_oversized stderr = false.
Proof.
  unfold classify. destruct callerErr; [split; [done|intros (? & _); done]|].
  destruct (bool_decide (collectErr = None) && exited && bool_decide (runErr = None) && negb (se_oversized stderr)) eqn:E.
  - rewrite !andb_true_iff, !bool_decide_eq_true, negb_true_iff in E. tauto.
  - split; [repeat case_match; done|]. intros (_ & -> & -> & -> & Hs). by rewrite Hs in E.
Qed.

Lemma clean_classify r run collectErr :
  classify (run_caller run) (run_deadline run) collectErr (run_exited run) (awaitStderr r run) = None ↔
  collectErr = None ∧ clean r run.
Proof.
  rewrite classify_none. unfold clean, awaitStderr.
  assert (se_oversized (if run_stderr_late run then {| se_text := ""; se_oversized := false |}
    else readCapped (run_stderr run) (l_stderr_bytes (r_limits r))) = false ↔
    run_stderr_late run = true ∨ Z.of_nat (length (run_stderr run)) ≤ l_stderr_bytes (r_limits r)) as ->; [|tauto].
  destruct (run_stderr_late run); [naive_solver|]. cbn. rewrite Z.ltb_ge. naive_solver.
Qed.

(** What the reader relies on of the decoder: having found nothing more but
    blanks, it has read to the end of what there is to read, the capped
    output. *)
Definition reads_to_end (r : Reader) (unit : string) (run : childRun) : Prop :=
  let capped := take (Z.to_nat (l_stdout_bytes (r_limits r) + 1)) (run_stdout run) in
  ∀ entries tail, stream unit capped entries tail → skip_space tail = [] →
    run_seen run (2 * length entries)%nat = Z.of_nat (length capped).

(** C23: a snapshot is the journal's answer and nothing less. Entries are
    returned only from a run that took the free slot, over an executable
    still fit to run, by a caller still waiting, within the deadline, with
    exit status 0 and stderr under its cap; they are at most the limit, and
    they are the records of the output, each normalised, in order and none
    skipped. They stop at the output's end, all of it under the cap; or, the
    one way an output is cut short, at a bracket or brace that closes
    nothing. *)
Theorem snapshot_is_the_output r slot run source filter snapshot :
  (∀ unit, unitFor r source = Ok unit → reads_to_end r unit run) →
  0 ≤ l_stdout_bytes (r_limits r) →
  Collect r slot (Some run) source filter = Ok snapshot →
  slot = false ∧ ValidateExecutable (executable r) = None ∧ clean r run ∧
  unitFor r source = Ok (sn_unit snapshot) ∧
  (length (sn_entries snapshot) ≤ l_entries (r_limits r))%nat ∧
  ∃ tail, stream (sn_unit snapshot) (take (Z.to_nat (l_stdout_bytes (r_limits r) + 1)) (run_stdout run))
            (sn_entries snapshot) tail ∧
    ((skip_space tail = [] ∧ Z.of_nat (length (run_stdout run)) ≤ l_stdout_bytes (r_limits r)) ∨
     ∃ c rest, skip_space tail = c :: rest ∧ (c = 93 ∨ c = 125)).
Proof.
  intros Hend Hcap. unfold Collect, enter. destruct (unitFor r source) as [unit|] eqn:Eu; [|done].
  destruct (arguments _ _ _) as [args|]; [|done]. destruct slot; [done|].
  unfold launch. destruct (ValidateExecutable (executable r)); [done|]. unfold conclude.
  destruct (classify _ _ _ _ _) eqn:Ec; [done|]. apply clean_classify in Ec as [Ee Hclean].
  destruct (read _ _ _ _) as [entries|] eqn:Er; [|done]. intros [= <-]. cbn [sn_unit sn_entries].
  apply read_records_stream in Er as (Hl & Hs & tail & Ht). split_and!; try done. exists tail. split; [done|].
  pose proof (stream_tail _ _ _ _ Ht) as Hm. unfold stream_more, more in Hm. cbn [dc_rest] in Hm.
  destruct (skip_space tail) as [|c rest] eqn:Eb.
  - left. split; [done|]. pose proof (Hend unit eq_refl entries tail Ht Eb) as Hn. cbn [Nat.add] in Hs.
    rewrite Hn, length_take in Hs. lia.
  - right. exists c, rest. split; [done|]. apply andb_false_iff in Hm. rewrite !negb_false_iff, !Z.eqb_eq in Hm. done.
Qed.

(** A clean run is collected whole. When the slot is free and the
    executable fit, an output of at most the limit of JSON records, a line
    each and under the cap, is returned as exactly its entries in order,
    however far ahead the decoder reads. *)
Theorem clean_run_is_collected r run source filter unit records entries args :
  unitFor r source = Ok unit → arguments unit (l_entries (r_limits r)) filter = Ok args →
  ValidateExecutable (executable r) = None → clean r run →
  run_stdout run = written records → Forall2 (line_of unit) records entries →
  (length entries ≤ l_entries (r_limits r))%nat →
  Z.of_nat (length (run_stdout run)) ≤ l_stdout_bytes (r_limits r) →
  (∀ k, run_seen run k ≤ Z.of_nat (length (run_stdout run))) →
  Collect r false (Some run) source filter =
    Ok {| sn_source := source; sn_filter := filter; sn_unit := unit; sn_limit := l_entries (r_limits r);
          sn_entries := entries |}.
Proof.
  intros Hu Ha Hv Hc Ho Hr Hl Hcap Hseen. unfold Collect, enter. rewrite Hu, Ha. unfold launch. rewrite Hv.
  unfold conclude. assert (read (r_limits r) unit (run_seen run) (run_stdout run) = Ok entries) as ->.
  { unfold read. rewrite take_ge by lia. rewrite Ho. apply (read_records_written _ _ _ _ _ []); try done.
    intros k. specialize (Hseen k). lia. }
  by rewrite (proj2 (clean_classify r run None)).
Qed.

(** ** One child at a time *)

(** The command of a child: the configured executable, an environment of its
    own, and arguments in which only the unit and the filter's own pattern
    vary. *)
Definition fixed_command (r : Reader) (c : childCommand) : Prop :=
  cc_path c = executable r ∧ cc_env c = fixedEnvironment ∧
  ∃ unit grep, (unit = PanelUnit ∨ unit = xrayUnit r) ∧ (grep = [] ∨ grep = ["--grep=" +:+ accessRecordPattern]) ∧
    cc_args c = ["--system"; "--namespace=xform"; "--unit=" +:+ unit] ++ grep ++
      ["--lines=" +:+ itoa (Z.of_nat (l_entries (r_limits r))); "--reverse"; "--output=json";
       "--output-fields=" +:+ outputFields; "--no-pager"].

Definition one_child (r : Reader) (c : collections) : Prop :=
  (length (entered c) + length (running c) = if slot c then 1 else 0)%nat ∧
  Forall (fixed_command r) (entered c) ∧ Forall (fixed_command r) (running c).

Lemma enter_fixed r slot source filter unit command :
  enter r slot source filter = Ok (unit, command) → slot = false ∧ fixed_command r command.
Proof.
  unfold enter. destruct (unitFor r source) as [u|] eqn:Eu; [|done].
  assert (u = PanelUnit ∨ u = xrayUnit r) as Hu.
  { revert Eu. unfold unitFor. repeat case_match; try done; intros [= <-]; auto. }
  unfold arguments. destruct (String.eqb filter FilterAll); [|destruct (String.eqb filter FilterSystem); [|done]];
    (destruct slot; [done|]); intros [= <- <-]; (split; [done|]); (split; [done|]); (split; [done|]).
  - exists u, []. split_and!; [done|by left|reflexivity].
  - exists u, ["--grep=" +:+ accessRecordPattern]. split_and!; [done|by right|reflexivity].
Qed.

Lemma length_delete_at {A} (l : list A) i x : l !! i = Some x → S (length (delete i l)) = length l.
Proof. intros Hi. pose proof (lookup_lt_Some _ _ _ Hi). rewrite length_delete by eauto. lia. Qed.

Lemma collect_step_one_child r c c' : one_child r c → collect_step r c c' → one_child r c'.
Proof.
  intros (Hn & He & Hr) Hstep. destruct Hstep as [c source filter unit command Hen|c i command started run Hi _|
    c i command started e Hi _|c i command Hi]; unfold one_child; cbn [slot entered running].
  - apply enter_fixed in Hen as [Hs Hf]. rewrite Hs in Hn. split_and!; [cbn; lia| |done]. by constructor.
  - pose proof (length_delete_at _ _ _ Hi). split_and!; [cbn; lia|by apply Forall_delete|].
    apply Forall_cons. split; [|exact Hr]. exact (Forall_lookup_1 _ _ _ _ He Hi).
  - pose proof (length_delete_at _ _ _ Hi). split_and!; [destruct (slot c); lia|..]; by try apply Forall_delete.
  - pose proof (length_delete_at _ _ _ Hi). split_and!; [destruct (slot c); lia|..]; by try apply Forall_delete.
Qed.

Lemma validUnitName_ok name : validUnitName name = None →
  Forall (λ ch, validUnitChar ch.1 = true) (runes name) ∧ has_suffix serviceSuffix name = true ∧
  String.prefix "-" name = false.
Proof.
  unfold validUnitName. destruct (String.eqb _ _); [done|]. destruct (_ <? _)%nat; [done|].
  destruct (has_suffix serviceSuffix name); [|done]. destruct (String.prefix _ _); [done|].
  destruct (has_suffix _ _); [done|]. destruct (List.find _ _) eqn:E; [done|]. intros _. split_and!; try done.
  apply Forall_forall. intros ch Hin%list_elem_of_In. pose proof (find_none _ _ E ch Hin) as Hb.
  by apply negb_false_iff in Hb.
Qed.

(** C24: one child at a time, and only the fixed command. However
    collections overlap, at most one holds the slot or a child, and the slot
    is taken exactly then; so when none does the next collection may enter.
    Every child runs the configured executable for the Panel's unit or the
    resolved xray unit, a concrete service name of systemd's own characters
    and so no pattern, an option or a second unit. *)
Theorem one_fixed_child_at_a_time r c canonicalID configured :
  ResolveXrayUnit canonicalID configured = Ok (xrayUnit r) →
  rtc (collect_step r) idle c →
  (length (entered c) + length (running c) ≤ 1)%nat ∧
  (slot c = true ↔ entered c ≠ [] ∨ running c ≠ []) ∧
  Forall (fixed_command r) (entered c ++ running c) ∧
  (∀ unit, unit = PanelUnit ∨ unit = xrayUnit r →
     Forall (λ ch, validUnitChar ch.1 = true) (runes unit) ∧ has_suffix serviceSuffix unit = true ∧
     String.prefix "-" unit = false).
Proof.
  intros Hx Hreach. assert (one_child r c) as (Hn & He & Hr).
  { assert (one_child r idle) as Hi by (repeat constructor). revert Hi.
    induction Hreach as [|c1 c2 c3 Hstep _ IH]; [done|]. intros Hi. by eapply IH, collect_step_one_child. }
  split_and!.
  - destruct (slot c); lia.
  - destruct (slot c), (entered c), (running c); cbn in Hn; try lia; naive_solver.
  - by apply Forall_app.
  - intros unit [->| ->]; [split_and!; [|done..]|].
    { apply (Forall_impl (λ ch, bool_decide (validUnitChar ch.1 = true) = true)); [|by intros ? ?%bool_decide_eq_true].
      vm_compute. repeat constructor. }
    revert Hx. unfold ResolveXrayUnit. destruct (validUnitName configured); [done|].
    destruct (canonicalID configured) as [id|]; [|done]. destruct (validUnitName id) eqn:Ev; [done|].
    intros [= <-]. by apply validUnitName_ok.
Qed.
End WithRuntime.

(** ** A journal, concretely *)

Module Examples.
Import AsciiRuntime.
Local Open Scope string_scope.

(** journalctl belongs to root and anyone may run it. *)
#[local] Instance root_files : HostFiles := {
  eval_stat path := if String.eqb path "/usr/bin/journalctl"
    then Some {| fi_regular := true; fi_mode := 493; fi_uid := 0; fi_gid := 0 |} else None;
  geteuid := 1000; getegid := 1000; getgroups := Some [1000] }.

Definition reader : Reader := {|
  executable := "/usr/bin/journalctl"; xrayUnit := "xray@main.service";
  r_limits := {| l_entries := 2; l_stdout_bytes := 4096; l_stderr_bytes := 64 |} |}.

Definition line (cursor message : string) : list (string * json) :=
  [("__CURSOR", JString cursor); ("__REALTIME_TIMESTAMP", JString "1700000000000001");
   ("_SYSTEMD_UNIT", JString "xray@main.service"); ("UNIT", JString "forged.service"); ("PRIORITY", JString "6");
   ("_PID", JString "412"); ("MESSAGE", JString message)].

Definition entry (cursor message : string) : Entry := {|
  e_cursor := cursor; e_timestamp_us := 1700000000000001; e_unit := "xray@main.service"; e_identifier := None;
  e_pid := Some 412; e_priority := Some 6; e_message := Some message; e_message_encoding := Some "utf-8";
  e_message_truncated := false |}.

(** A run that wrote [output], read to the end at the first look. *)
Definition run_of (output : list Z) : childRun := {|
  run_stdout := output; run_seen _ := Z.of_nat (length (take (Z.to_nat 4097) output)); run_stderr := [];
  run_stderr_late := false; run_exited := true; run_caller := None; run_deadline := None |}.

Definition two_lines : list Z := written [line "c1" "started"; line "c2" "stopped"].

Definition two_entries : Snapshot := {|
  sn_source := "xray"; sn_filter := "all"; sn_unit := "xray@main.service"; sn_limit := 2;
  sn_entries := [entry "c1" "started"; entry "c2" "stopped"] |}.

Lemma lines_normalise : Forall2 (line_of "xray@main.service") [line "c1" "started"; line "c2" "stopped"]
  [entry "c1" "started"; entry "c2" "stopped"].
Proof. repeat constructor; try (vm_compute; reflexivity); vm_compute; congruence. Qed.

Lemma clean_run_is_collected_witness :
  Collect reader false (Some (run_of two_lines)) "xray" "all" = Ok two_entries.
Proof.
  apply (clean_run_is_collected reader (run_of two_lines) "xray" "all" "xray@main.service"
    [line "c1" "started"; line "c2" "stopped"] [entry "c1" "started"; entry "c2" "stopped"]
    ["--system"; "--namespace=xform"; "--unit=xray@main.service"; "--lines=2"; "--reverse"; "--output=json";
     "--output-fields=" +:+ outputFields; "--no-pager"]).
  - reflexivity.
  - vm_compute. reflexivity.
  - vm_compute. reflexivity.
  - split_and!; [done..|]. by right.
  - reflexivity.
  - exact lines_normalise.
  - simpl. lia.
  - vm_compute. congruence.
  - intros k. vm_compute. congruence.
Defined.

Lemma snapshot_is_the_output_witness :
  Collect reader false (Some (run_of two_lines)) "xray" "all" = Ok two_entries ∧
  (length (sn_entries two_entries) ≤ 2)%nat ∧ clean reader (run_of two_lines).
Proof.
  assert (Collect reader false (Some (run_of two_lines)) "xray" "all" = Ok two_entries) as Hc by (vm_compute; reflexivity).
  split; [exact Hc|].
  destruct (snapshot_is_the_output reader false (run_of two_lines) "xray" "all" two_entries) as (_ & _ & Hclean & _ & Hl & _).
  - intros unit _ entries tail _ _. reflexivity.
  - vm_compute. congruence.
  - exact Hc.
  - exact (conj Hl Hclean).
Defined.

Definition record : gmap string doc := record_fields (line "c1" "started").

(** A record whose message journalctl elided, from another unit. *)
Definition elided : gmap string doc := record_fields
  [("__CURSOR", JString "c9"); ("__REALTIME_TIMESTAMP", JString "18446744073709551615");
   ("OBJECT_SYSTEMD_UNIT", JString "other.service"); ("SYSLOG_IDENTIFIER", JString "xray@main.service");
   ("PRIORITY", JString "8"); ("MESSAGE", JNull)].

Lemma normalized_entry_witness :
  normalize record "xray@main.service" = Ok (entry "c1" "started") ∧
  unit_named record "xray@main.service" "xray@main.service" ∧
  reported (elided !! "MESSAGE") None None true ∧ unit_named elided "xray@main.service" "other.service".
Proof.
  assert (normalize record "xray@main.service" = Ok (entry "c1" "started")) as He by (vm_compute; reflexivity).
  destruct (normalize elided "xray@main.service") as [e|] eqn:E; [|vm_compute in E; discriminate E].
  pose proof (eo_unit _ _ _ (proj1 (normalized_entry record "xray@main.service") _ He)) as Hu.
  destruct (proj1 (normalized_entry elided "xray@main.service") e E) as [_ _ Hu' _ _ _ Hm].
  vm_compute in E. injection E as <-. by split_and!.
Defined.

(** One collection has its child; another is refused the slot. *)
Definition panel_command : childCommand := {|
  cc_path := "/usr/bin/journalctl";
  cc_args := ["--system"; "--namespace=xform"; "--unit=xform.service"; "--lines=2"; "--reverse"; "--output=json";
              "--output-fields=" +:+ outputFields; "--no-pager"];
  cc_env := fixedEnvironment |}.

Definition one_running : collections := {| slot := true; entered := []; running := [panel_command] |}.

Lemma one_fixed_child_at_a_time_witness :
  enter reader (slot one_running) "xray" "system" = Err (Failure ReasonSnapshotInProgress) ∧
  (length (entered one_running) + length (running one_running) ≤ 1)%nat.
Proof.
  split; [vm_compute; reflexivity|].
  apply (one_fixed_child_at_a_time reader one_running (λ _, Some "xray@main.service") "xray@main.service").
  - vm_compute. reflexivity.
  - apply rtc_l with {| slot := true; entered := [panel_command]; running := [] |}.
    + apply (StepEnter reader idle "panel" "all" "xform.service" panel_command). vm_compute. reflexivity.
    + apply rtc_once.
      apply (StepLaunch reader {| slot := true; entered := [panel_command]; running := [] |} 0 panel_command
        (Some (run_of [])) (run_of [])); [reflexivity|vm_compute; reflexivity].
Defined.

(** A closing bracket between two records: the read ends there, and the
    second record is dropped from a snapshot that says it is whole. *)
Example stray_bracket_drops_records :
  Collect reader false
    (Some (run_of (written [line "c1" "started"] ++ [93] ++ written [line "c2" "stopped"]))) "xray" "all" =
  Ok {| sn_source := "xray"; sn_filter := "all"; sn_unit := "xray@main.service"; sn_limit := 2;
        sn_entries := [entry "c1" "started"] |}.
Proof. vm_compute. reflexivity. Qed.

(** An array of a message's bytes, one of them written as a float. *)
Example bytes_message :
  messageOf {["MESSAGE" := DArray "[255,2.5e1]" [DNumber "255"; DNumber "2.5e1"]]} =
  Ok {| m_text := Some "/xk="; m_encoding := Some "base64"; m_truncated := false |}.
Proof. vm_compute. reflexivity. Qed.
End Examples.
End JournalTheorems.
