(* ===== verification/Listener.v ===== *)
(** * The Panel's listener (internal/listener/listener.go)

    A program here is a tree of system calls: each node a call, each branch
    an answer the kernel may give. What runs beside the Panel, and moves the
    pathnames between two calls, is in the answers. *)

From Stdlib Require Import Ascii String.
From S2P Require Import Prelude GoJson Advertisements.

Module Listener.
Import GoJson Advertisements.

Local Open Scope Z_scope.

(** ** System calls *)

Inductive errno :=
| ENOENT | EEXIST | EADDRINUSE | EINVAL | ENOSYS | EOPNOTSUPP | EPERM | ECONNREFUSED | OtherErrno (n : Z).

#[export] Instance errno_eq_dec : EqDecision errno.
Proof. solve_decision. Defined.

(** The fields of a Stat_t the code reads. *)
Record Stat := { st_dev : Z; st_ino : Z; st_uid : Z; st_mode : Z }.

(** net.DialTimeout: connected (and closed again), refused with an errno, or
    another error, a timeout. *)
Inductive dialed := Connected | DialErrno (e : errno) | DialFailed.

(** A pathname that is not looked up in a directory descriptor names the
    descriptor itself: AT_EMPTY_PATH, or its /proc/self/fd entry. *)
Inductive call :=
| Open (path : string)
| Openat (dir : Z) (name : string)
| Close (fd : Z)
| Fstat (fd : Z)
| Fstatat (dir : Z) (name : string)
| Socket
| BindSocket (fd : Z) (dir : Z) (name : string)
| ListenSocket (fd : Z)
| LinkatDescriptor (fd : Z) (dir : Z) (name : string)
| LinkatName (dir : Z) (old : string) (name : string)
| FchmodatDescriptor (fd : Z) (mode : Z)
| FchmodatProc (fd : Z) (mode : Z)
| Renameat2 (dir : Z) (old new : string)
| Unlinkat (dir : Z) (name : string)
| Dial (dir : Z) (name : string)
| RandomHex
| FileListener (fd : Z)
| CloseFile (fd : Z)
| CloseListener (listener : Z).

(** An error, or [None]. A random suffix is the 16 bytes in hex. *)
Definition answer (c : call) : Type :=
  match c with
  | Open _ | Openat _ _ | Socket | FileListener _ => result errno Z
  | Fstat _ | Fstatat _ _ => result errno Stat
  | Dial _ _ => dialed
  | RandomHex => option string
  | _ => option errno
  end.

Inductive prog (A : Type) : Type :=
| Ret (a : A)
| Call (c : call) (k : answer c → prog A).
Arguments Ret {A} a.
Arguments Call {A} c k.

Fixpoint bind {A B} (p : prog A) (f : A → prog B) : prog B :=
  match p with
  | Ret a => f a
  | Call c k => Call c (λ x, bind (k x) f)
  end.

#[export] Instance prog_ret : MRet prog := @Ret.
#[export] Instance prog_bind : MBind prog := λ A B f p, bind p f.

Definition sys (c : call) : prog (answer c) := Call c Ret.

(** ** Identities *)

Record fileIdentity := { dev : Z; ino : Z; uid : Z }.

#[export] Instance fileIdentity_eq_dec : EqDecision fileIdentity.
Proof. solve_decision. Defined.

Definition identityFromUnixStat (stat : Stat) : fileIdentity :=
  {| dev := st_dev stat; ino := st_ino stat; uid := st_uid stat |}.

Definition S_IFMT : Z := 61440.
Definition S_IFSOCK : Z := 49152.
Definition S_IFLNK : Z := 40960.
Definition S_IFDIR : Z := 16384.

Definition isSocket (stat : Stat) : bool := Z.land (st_mode stat) S_IFMT =? S_IFSOCK.
Definition isSymlink (stat : Stat) : bool := Z.land (st_mode stat) S_IFMT =? S_IFLNK.

Definition unixSocketMode : Z := 432.
Definition renameAttempts : nat := 8.

Inductive listenError :=
| NotAbsolute | EndsWithSlash | NotLoopback
| ParentOpen (e : errno) | ParentNotDirectory | ParentForeign | ParentWritable
| InspectPath (e : errno) | PathIsSymlink | PathNotSocket | PathForeign | ProbeFailed | PathInUse | PathChanged
| RestoreFailed (e : errno) | NoTemporary | NoRandom
| Sys (e : errno) | NotSocketPathname | SocketForeign | ChangedWhileChmod.

Record socketPath := { sp_path : string; sp_name : string; sp_parent : Z; sp_identity : fileIdentity }.

Definition with_identity (socket : socketPath) (identity : fileIdentity) : socketPath :=
  {| sp_path := sp_path socket; sp_name := sp_name socket; sp_parent := sp_parent socket; sp_identity := identity |}.

(** A published listener: the runtime's own descriptor for it, the path, and
    what its first Close answered. *)
Record ownedUnixListener := {
  ol_listener : Z; ol_socket : socketPath; ol_closed : option (list listenError);
}.

(** ** Paths *)

(** filepath.Dir of an absolute path, as the components filepath.Clean
    leaves; filepath.Base is the last one as written. *)
Definition clean_components (components : list string) : list string :=
  foldl (λ acc c,
    if String.eqb c "" || String.eqb c "." then acc
    else if String.eqb c ".." then take (length acc - 1) acc
    else acc ++ [c]) [] components.

Definition path_parts (path : string) : list string * string :=
  let parts := split_on "/"%char path in
  (clean_components (take (length parts - 1) parts), List.last parts "").

Section WithUser.
(** os.Geteuid. *)
Variable geteuid : Z.

(** ** The parent directory *)

Definition is_directory (stat : Stat) : bool := Z.land (st_mode stat) S_IFMT =? S_IFDIR.

(** From a parent that is open to the directory below it. *)
Fixpoint open_components (directory : Z) (components : list string) : prog (result listenError Z) :=
  match components with
  | [] => Ret (Ok directory)
  | component :: components =>
      next ← sys (Openat directory component);
      match next with
      | Err e => sys (Close directory) ;; Ret (Err (ParentOpen e))
      | Ok next =>
          err ← sys (Close directory);
          match err with
          | Some e => sys (Close next) ;; Ret (Err (ParentOpen e))
          | None => open_components next components
          end
      end
  end.

Definition openParentDirectory (components : list string) : prog (result listenError Z) :=
  root ← sys (Open "/");
  match root with
  | Err e => Ret (Err (ParentOpen e))
  | Ok root =>
      opened ← open_components root components;
      match opened with
      | Err e => Ret (Err e)
      | Ok directory =>
          let fail e := sys (Close directory) ;; Ret (Err e) in
          stat ← sys (Fstat directory);
          match stat with
          | Err e => fail (ParentOpen e)
          | Ok stat =>
              if negb (is_directory stat) then fail ParentNotDirectory
              else if negb (st_uid stat =? geteuid) then fail ParentForeign
              else if negb (Z.land (st_mode stat) 18 =? 0) then fail ParentWritable
              else Ret (Ok directory)
          end
      end
  end.

Definition newSocketPath (path : string) : prog (result listenError socketPath) :=
  let '(parent, name) := path_parts path in
  fd ← openParentDirectory parent;
  match fd with
  | Err e => Ret (Err e)
  | Ok fd => Ret (Ok {| sp_path := path; sp_name := name; sp_parent := fd;
                        sp_identity := {| dev := 0; ino := 0; uid := 0 |} |})
  end.

(** ** Moving a pathname aside *)

Definition temporaryName : prog (option string) :=
  suffix ← sys RandomHex;
  Ret (suffix ← suffix; Some (".xform-" +:+ suffix)%string).

(** [Ok None]: the pathname was gone. *)
Fixpoint movePathAside (attempts : nat) (socket : socketPath) : prog (result listenError (option string)) :=
  match attempts with
  | O => Ret (Err NoTemporary)
  | S attempts =>
      temporary ← temporaryName;
      match temporary with
      | None => Ret (Err NoRandom)
      | Some temporary =>
          err ← sys (Renameat2 (sp_parent socket) (sp_name socket) temporary);
          match err with
          | None => Ret (Ok (Some temporary))
          | Some EEXIST => movePathAside attempts socket
          | Some ENOENT => Ret (Ok None)
          | Some e => Ret (Err (Sys e))
          end
      end
  end.

Definition restorePath (socket : socketPath) (temporary : string) : prog (option errno) :=
  sys (Renameat2 (sp_parent socket) temporary (sp_name socket)).

Inductive detached := Gone | Changed | Detached (temporary : string).

Definition restoreChangedPath (socket : socketPath) (temporary : string) : prog (result listenError detached) :=
  err ← restorePath socket temporary;
  Ret match err with Some e => Err (RestoreFailed e) | None => Ok Changed end.

Definition detach (socket : socketPath) : prog (result listenError detached) :=
  moved ← movePathAside renameAttempts socket;
  match moved with
  | Err e => Ret (Err e)
  | Ok None => Ret (Ok Gone)
  | Ok (Some temporary) =>
      info ← sys (Fstatat (sp_parent socket) temporary);
      match info with
      | Err e => restorePath socket temporary ;; Ret (Err (InspectPath e))
      | Ok info =>
          if negb (isSocket info) then restoreChangedPath socket temporary
          else if negb (bool_decide (identityFromUnixStat info = sp_identity socket))
          then restoreChangedPath socket temporary
          else Ret (Ok (Detached temporary))
      end
  end.

Definition unlinkDetached (socket : socketPath) (detachedName : string) (expected : fileIdentity) :
    prog (option listenError) :=
  info ← sys (Fstatat (sp_parent socket) detachedName);
  match info with
  | Err ENOENT => Ret None
  | Err e => Ret (Some (InspectPath e))
  | Ok info =>
      if negb (isSocket info) then Ret None
      else if negb (bool_decide (identityFromUnixStat info = expected)) then Ret None
      else
        err ← sys (Unlinkat (sp_parent socket) detachedName);
        Ret match err with Some ENOENT | None => None | Some e => Some (Sys e) end
  end.

Definition cleanup (socket : socketPath) : prog (option listenError) :=
  d ← detach socket;
  match d with
  | Err e => Ret (Some e)
  | Ok (Detached temporary) => unlinkDetached socket temporary (sp_identity socket)
  | Ok _ => Ret None
  end.

(** ** The stale socket *)

Definition isStaleSocketError (e : errno) : bool := bool_decide (e = ECONNREFUSED) || bool_decide (e = ENOENT).

(** [None]: the probe failed. *)
Definition isAlive (socket : socketPath) (name : string) : prog (option bool) :=
  d ← sys (Dial (sp_parent socket) name);
  Ret match d with
      | Connected => Some true
      | DialErrno e => if isStaleSocketError e then Some false else None
      | DialFailed => None
      end.

Definition removeStale (socket : socketPath) : prog (option listenError) :=
  d ← detach socket;
  match d with
  | Err e => Ret (Some e)
  | Ok Gone => Ret None
  | Ok Changed => Ret (Some PathChanged)
  | Ok (Detached temporary) =>
      alive ← isAlive socket temporary;
      match alive with
      | None => restorePath socket temporary ;; Ret (Some ProbeFailed)
      | Some true => restorePath socket temporary ;; Ret (Some PathInUse)
      | Some false => unlinkDetached socket temporary (sp_identity socket)
      end
  end.

Definition prepareSocketPath (socket : socketPath) : prog (option listenError) :=
  info ← sys (Fstatat (sp_parent socket) (sp_name socket));
  match info with
  | Err ENOENT => Ret None
  | Err e => Ret (Some (InspectPath e))
  | Ok info =>
      if isSymlink info then Ret (Some PathIsSymlink)
      else if negb (isSocket info) then Ret (Some PathNotSocket)
      else
        let existing := identityFromUnixStat info in
        if negb (uid existing =? geteuid) then Ret (Some PathForeign)
        else
          alive ← isAlive socket (sp_name socket);
          match alive with
          | None => Ret (Some ProbeFailed)
          | Some true => Ret (Some PathInUse)
          | Some false => removeStale (with_identity socket existing)
          end
  end.

(** ** Binding *)

Definition openIdentity (socket : socketPath) (name : string) : prog (result listenError (Z * fileIdentity)) :=
  fd ← sys (Openat (sp_parent socket) name);
  match fd with
  | Err e => Ret (Err (Sys e))
  | Ok fd =>
      let fail e := sys (Close fd) ;; Ret (Err e) in
      stat ← sys (Fstat fd);
      match stat with
      | Err e => fail (Sys e)
      | Ok stat =>
          if negb (isSocket stat) then fail NotSocketPathname
          else
            let identity := identityFromUnixStat stat in
            if negb (uid identity =? geteuid) then fail SocketForeign
            else Ret (Ok (fd, identity))
      end
  end.

Definition isEmptyPathUnsupported (err : option errno) : bool :=
  match err with Some (EINVAL | ENOSYS | EOPNOTSUPP | EPERM) => true | _ => false end.

Definition chmodSocket (fd : Z) (expected : fileIdentity) : prog (option listenError) :=
  stat ← sys (Fstat fd);
  match stat with
  | Err e => Ret (Some (Sys e))
  | Ok stat =>
      if negb (isSocket stat) || negb (bool_decide (identityFromUnixStat stat = expected))
      then Ret (Some ChangedWhileChmod)
      else
        err ← sys (FchmodatDescriptor fd unixSocketMode);
        if isEmptyPathUnsupported err then
          err ← sys (FchmodatProc fd unixSocketMode);
          Ret (option_map Sys err)
        else Ret (option_map Sys err)
  end.

(** The published name, by the pinned inode or else by the temporary name. *)
Definition publish (socket : socketPath) (pathDescriptor : Z) (temporary : string) : prog (option errno) :=
  err ← sys (LinkatDescriptor pathDescriptor (sp_parent socket) (sp_name socket));
  if isEmptyPathUnsupported err
  then sys (LinkatName (sp_parent socket) temporary (sp_name socket)) else Ret err.

(** From the published name to the runtime's listener. *)
Definition adopt_listener (socket : socketPath) (pathDescriptor fileDescriptor : Z) (temporary : string) :
    prog (result listenError (Z * socketPath)) :=
  err ← unlinkDetached socket temporary (sp_identity socket);
  match err with
  | Some e =>
      sys (Close pathDescriptor) ;; sys (Close fileDescriptor) ;; cleanup socket ;; Ret (Err e)
  | None =>
      err ← sys (Close pathDescriptor);
      match err with
      | Some e => sys (Close fileDescriptor) ;; cleanup socket ;; Ret (Err (Sys e))
      | None =>
          listener ← sys (FileListener fileDescriptor);
          fileCloseErr ← sys (CloseFile fileDescriptor);
          match listener with
          | Err e => cleanup socket ;; Ret (Err (Sys e))
          | Ok listener =>
              match fileCloseErr with
              | Some e => sys (CloseListener listener) ;; cleanup socket ;; Ret (Err (Sys e))
              | None => Ret (Ok (listener, socket))
              end
          end
      end
  end.

(** A socket bound to the temporary pathname, up to its publication. *)
Definition bind_temporary (socket : socketPath) (fileDescriptor : Z) (temporary : string) :
    prog (result listenError (Z * socketPath)) :=
  pinned ← openIdentity socket temporary;
  match pinned with
  | Err e => sys (Close fileDescriptor) ;; Ret (Err e)
  | Ok (pathDescriptor, identity) =>
      let fail e :=
        sys (Close pathDescriptor) ;; sys (Close fileDescriptor) ;;
        unlinkDetached socket temporary identity ;; Ret (Err e) in
      err ← sys (ListenSocket fileDescriptor);
      match err with
      | Some e => fail (Sys e)
      | None =>
          err ← chmodSocket pathDescriptor identity;
          match err with
          | Some e => fail e
          | None =>
              err ← publish socket pathDescriptor temporary;
              match err with
              | Some e => fail (Sys e)
              | None => adopt_listener (with_identity socket identity) pathDescriptor fileDescriptor temporary
              end
          end
      end
  end.

Fixpoint bind_attempts (attempts : nat) (socket : socketPath) : prog (result listenError (Z * socketPath)) :=
  match attempts with
  | O => Ret (Err NoTemporary)
  | S attempts =>
      temporary ← temporaryName;
      match temporary with
      | None => Ret (Err NoRandom)
      | Some temporary =>
          fd ← sys Socket;
          match fd with
          | Err e => Ret (Err (Sys e))
          | Ok fd =>
              bindErr ← sys (BindSocket fd (sp_parent socket) temporary);
              match bindErr with
              | Some EADDRINUSE => sys (Close fd) ;; bind_attempts attempts socket
              | Some e => sys (Close fd) ;; Ret (Err (Sys e))
              | None => bind_temporary socket fd temporary
              end
          end
      end
  end.

Definition bindSocket (socket : socketPath) : prog (result listenError (Z * socketPath)) :=
  bind_attempts renameAttempts socket.

(** ** Listening and closing *)

(** socketPath.close: its descriptor is closed once. *)
Definition closeParent (socket : socketPath) : prog (socketPath * option errno) :=
  if sp_parent socket <? 0 then Ret (socket, None)
  else
    err ← sys (Close (sp_parent socket));
    Ret ({| sp_path := sp_path socket; sp_name := sp_name socket; sp_parent := -1;
            sp_identity := sp_identity socket |}, err).

Definition listenUnix (path : string) : prog (result listenError ownedUnixListener) :=
  socket ← newSocketPath path;
  match socket with
  | Err e => Ret (Err e)
  | Ok socket =>
      err ← prepareSocketPath socket;
      match err with
      | Some e => closeParent socket ;; Ret (Err e)
      | None =>
          bound ← bindSocket socket;
          match bound with
          | Err e => closeParent socket ;; Ret (Err e)
          | Ok (listener, socket) =>
              if negb (uid (sp_identity socket) =? geteuid) then
                sys (CloseListener listener) ;; cleanup socket ;; closeParent socket ;; Ret (Err SocketForeign)
              else Ret (Ok {| ol_listener := listener; ol_socket := socket; ol_closed := None |})
          end
      end
  end.

(** Close runs once; later calls answer what the first did. *)
Definition CloseOwned (l : ownedUnixListener) : prog (ownedUnixListener * list listenError) :=
  match ol_closed l with
  | Some errs => Ret (l, errs)
  | None =>
      closeErr ← sys (CloseListener (ol_listener l));
      cleanupErr ← cleanup (ol_socket l);
      closed ← closeParent (ol_socket l);
      let '(socket, parentErr) := closed in
      let errs := option_list (option_map Sys closeErr) ++ option_list cleanupErr ++ option_list (option_map Sys parentErr) in
      Ret ({| ol_listener := ol_listener l; ol_socket := socket; ol_closed := Some errs |}, errs)
  end.

(** ** Addresses

    A TCP address goes to the net package: its listener, or an error. *)

Inductive listening := OnTCP (listener : Z) | OnLoopback (listener : Z) | OnUnix (l : ownedUnixListener).

Definition unixPrefix : string := "unix:".

Definition trim_unix (address : string) : string :=
  String.substring (String.length unixPrefix) (String.length address - String.length unixPrefix) address.

Section WithNet.
Variable net_Listen : string → result listenError Z.
Variable net_SplitHost : string → option string.
Variable ip_loopback : string → bool.

Definition Listen (address : string) : prog (result listenError listening) :=
  if negb (String.prefix unixPrefix address) then Ret (result_map OnTCP (net_Listen address))
  else
    let path := trim_unix address in
    if negb (String.prefix "/" path) then Ret (Err NotAbsolute)
    else if has_suffix "/" path then Ret (Err EndsWithSlash)
    else
      l ← listenUnix path;
      Ret (result_map OnUnix l).

(** [ip_loopback]: net.ParseIP reads the host as an IP and it is loopback. *)
Definition ListenTrusted (address : string) : prog (result listenError listening) :=
  if String.prefix unixPrefix address then Listen address
  else
    match net_SplitHost address with
    | None => Ret (Err NotLoopback)
    | Some host =>
        if negb (ip_loopback host) then Ret (Err NotLoopback)
        else Ret (result_map OnLoopback (net_Listen address))
    end.

(** loopbackTCPListener.Accept over the connections that arrive, each its
    remote IP, if it has one: the connection handed on, and those closed on
    the way. It waits when none is left. *)
Inductive accepted := Accepted (remote : string) | AcceptFailed (e : errno) | Waiting.

Fixpoint AcceptLoopback (arrivals : list (result errno (option string))) : accepted * list (option string) :=
  match arrivals with
  | [] => (Waiting, [])
  | Err e :: _ => (AcceptFailed e, [])
  | Ok remote :: arrivals =>
      match remote with
      | Some ip => if ip_loopback ip then (Accepted ip, [])
                   else let '(a, closed) := AcceptLoopback arrivals in (a, remote :: closed)
      | None => let '(a, closed) := AcceptLoopback arrivals in (a, remote :: closed)
      end
  end.
End WithNet.
End WithUser.
End Listener.
