(* ===== verification/ListenerLogic.v ===== *)
(** * Reasoning about programs of system calls

    The runs of a program, and a logic for them: a monitor watches the calls
    and their answers, says before each call whether it may be made, and
    gives up on answers no kernel gives. A program proved against a monitor
    makes only allowed calls in every run, whatever is answered. *)

From Stdlib Require Import String Eqdep.
From S2P Require Import Prelude Listener.

Module ListenerLogic.
Import Listener.

(** ** Runs *)

Definition event : Type := sigT answer.
Definition ev (c : call) (x : answer c) : event := existT c x.

Inductive runs {A} : prog A → list event → A → Prop :=
| RunRet a : runs (Ret a) [] a
| RunCall c k x t a : runs (k x) t a → runs (Call c k) (ev c x :: t) a.

Lemma runs_ret {A} (a b : A) t : runs (Ret a) t b → t = [] ∧ b = a.
Proof. intros H. by inversion H. Qed.

Lemma runs_call {A} c (k : answer c → prog A) t b :
  runs (Call c k) t b → ∃ x t', t = ev c x :: t' ∧ runs (k x) t' b.
Proof.
  intros H. remember (Call c k) as p eqn:E. destruct H as [a|c' k' x t a H]; [done|].
  inversion E. subst c'. exists x, t. split; [done|]. simplify_eq. done.
Qed.

Lemma runs_cons {A} c (k : answer c → prog A) x t b : runs (Call c k) (ev c x :: t) b → runs (k x) t b.
Proof.
  intros (x' & t' & E & H)%runs_call. injection E as E ->.
  apply Eqdep.EqdepTheory.inj_pair2 in E. by subst x'.
Qed.

Lemma runs_bind {A B} (p : prog A) (f : A → prog B) t b :
  runs (p ≫= f) t b ↔ ∃ t1 t2 a, t = t1 ++ t2 ∧ runs p t1 a ∧ runs (f a) t2 b.
Proof.
  split.
  - revert t. induction p as [a|c k IH]; intros t H.
    + exists [], t, a. split_and!; [done|constructor|done].
    + apply runs_call in H as (x & t' & -> & H). apply IH in H as (t1 & t2 & a & -> & H1 & H2).
      exists (ev c x :: t1), t2, a. split_and!; [done|by constructor|done].
  - intros (t1 & t2 & a & -> & H1 & H2). induction H1 as [a|c k x t1 a H1 IH]; [done|].
    simpl. constructor. by apply IH.
Qed.

(** A kernel as a function runs every program. *)
Fixpoint exec {A St} (kernel : St → ∀ c, answer c * St) (p : prog A) (s : St) : list event * A * St :=
  match p with
  | Ret a => ([], a, s)
  | Call c k =>
      let '(x, s) := kernel s c in
      let '(t, a, s) := exec kernel (k x) s in
      (ev c x :: t, a, s)
  end.

Lemma exec_runs {A St} (kernel : St → ∀ c, answer c * St) (p : prog A) s :
  runs p (exec kernel p s).1.1 (exec kernel p s).1.2.
Proof.
  revert s. induction p as [a|c k IH]; intros s; simpl; [constructor|].
  destruct (kernel s c) as [x s']. specialize (IH x s').
  destruct (exec kernel (k x) s') as [[t a] s'']. by constructor.
Qed.

(** ** Monitors *)

Section Monitor.
Context {S : Type} (pre : S → call → Prop) (next : S → ∀ c, answer c → option S).

Fixpoint wp {A} (p : prog A) (Q : A → S → Prop) (s : S) : Prop :=
  match p with
  | Ret a => Q a s
  | Call c k => pre s c ∧ ∀ x s', next s c x = Some s' → wp (k x) Q s'
  end.

Lemma wp_mono {A} (p : prog A) (Q Q' : A → S → Prop) s :
  (∀ a s, Q a s → Q' a s) → wp p Q s → wp p Q' s.
Proof.
  intros HQ. revert s. induction p as [a|c k IH]; intros s; simpl; [apply HQ|].
  intros [Hp Hk]. split; [done|]. intros x s' Hn. by apply IH, Hk.
Qed.

Lemma wp_bind {A B} (p : prog A) (f : A → prog B) (Q : B → S → Prop) s :
  wp p (λ a, wp (f a) Q) s → wp (p ≫= f) Q s.
Proof.
  revert s. induction p as [a|c k IH]; intros s; simpl; [done|].
  intros [Hp Hk]. split; [done|]. intros x s' Hn. by apply IH, Hk.
Qed.

(** A program proved to end in [Q], then the rest. *)
Lemma wp_seq {A B} (p : prog A) (f : A → prog B) (Q : A → S → Prop) (R : B → S → Prop) s :
  wp p Q s → (∀ a s', Q a s' → wp (f a) R s') → wp (p ≫= f) R s.
Proof. intros Hp Hf. apply wp_bind. eapply wp_mono; [|exact Hp]. done. Qed.

Lemma wp_sys {B} c (f : answer c → prog B) (Q : B → S → Prop) s :
  pre s c → (∀ x s', next s c x = Some s' → wp (f x) Q s') → wp (sys c ≫= f) Q s.
Proof. intros Hp Hf. split; [done|]. simpl. done. Qed.

(** The state after the events; none once an answer is not a kernel's. *)
Fixpoint watch (s : S) (t : list event) : option S :=
  match t with
  | [] => Some s
  | existT c x :: t => s ← next s c x; watch s t
  end.

(** Every call is allowed when it is made. *)
Fixpoint allowed (s : S) (t : list event) : Prop :=
  match t with
  | [] => True
  | existT c x :: t => pre s c ∧ match next s c x with Some s => allowed s t | None => True end
  end.

Lemma wp_sound {A} (p : prog A) (Q : A → S → Prop) s t a :
  wp p Q s → runs p t a → allowed s t ∧ ∀ s', watch s t = Some s' → Q a s'.
Proof.
  intros Hw Hr. revert s Hw. induction Hr as [a|c k x t a Hr IH]; intros s Hw; simpl.
  - split; [done|]. intros s' [= <-]. exact Hw.
  - destruct Hw as [Hp Hk]. destruct (next s c x) as [s'|] eqn:E; [|split; [done|]; done].
    destruct (IH s' (Hk x s' E)) as [Ha Hq]. split; [done|exact Hq].
Qed.
End Monitor.

(** The listener's life: made, and closed as often as its owner likes. *)
Fixpoint close_times (n : nat) (l : ownedUnixListener) : prog ownedUnixListener :=
  match n with
  | O => Ret l
  | S n => closed ← CloseOwned l; close_times n closed.1
  end.

Definition life (euid : Z) (path : string) (closes : nat) : prog (result listenError ownedUnixListener) :=
  l ← listenUnix euid path;
  match l with
  | Err e => Ret (Err e)
  | Ok l => l ← close_times (S closes) l; Ret (Ok l)
  end.

(** One call: the monitor's condition, then each answer it lets pass. *)
Ltac sys_step :=
  match goal with
  | |- wp _ _ (mbind _ (sys _)) _ _ => apply wp_sys; [|let x := fresh "x" in let Hn := fresh "Hn" in intros x ? Hn]
  | |- wp _ _ (sys _) _ _ => split; [|let x := fresh "x" in let Hn := fresh "Hn" in intros x ? Hn]
  end.
End ListenerLogic.
