(* ===== verification/ListenerDescriptors.v ===== *)
(** * The Panel's listener: descriptors

    In every run of the listener, whatever the kernel answers and whatever
    runs beside it, descriptors balance. *)

From Stdlib Require Import Ascii String.
From S2P Require Import Prelude GoJson Advertisements Listener ListenerLogic.

Module ListenerDescriptors.
Import Listener ListenerLogic.

Local Open Scope Z_scope.

(** ** Descriptors *)

(** The descriptors a call needs open. *)
Definition uses (c : call) : list Z :=
  match c with
  | Openat dir _ | Fstatat dir _ | LinkatName dir _ _ | Renameat2 dir _ _ | Unlinkat dir _ | Dial dir _ => [dir]
  | Close fd | Fstat fd | ListenSocket fd | FchmodatDescriptor fd _ | FchmodatProc fd _ | FileListener fd
  | CloseFile fd | CloseListener fd => [fd]
  | BindSocket fd dir _ | LinkatDescriptor fd dir _ => [fd; dir]
  | Open _ | Socket | RandomHex => []
  end.

Definition open_first (s : gset Z) (c : call) : Prop := Forall (λ fd, fd ∈ s) (uses c).

(** A kernel answers a new descriptor that is not open. *)
Definition opened (s : gset Z) (x : result errno Z) : option (gset Z) :=
  match x with
  | Ok fd => if decide (fd ∈ s ∨ fd < 0) then None else Some ({[fd]} ∪ s)
  | Err _ => Some s
  end.

(** close releases its descriptor whatever it answers. *)
Definition descriptors (s : gset Z) (c : call) : answer c → option (gset Z) :=
  match c with
  | Open _ => opened s
  | Openat _ _ => opened s
  | Socket => opened s
  | FileListener _ => opened s
  | Close fd => λ _, Some (s ∖ {[fd]})
  | CloseFile fd => λ _, Some (s ∖ {[fd]})
  | CloseListener fd => λ _, Some (s ∖ {[fd]})
  | _ => λ _, Some s
  end.

Definition fd_wp {A} (p : prog A) (Q : A → gset Z → Prop) (s : gset Z) : Prop := wp open_first descriptors p Q s.

Lemma opened_spec s x s' : opened s x = Some s' →
  (∃ fd : Z, x = Ok fd ∧ (fd ∉ s) ∧ 0 ≤ fd ∧ s' = {[fd]} ∪ s) ∨ (∃ e : errno, x = Err e ∧ s' = s).
Proof.
  destruct x as [fd|e]; simpl; [|intros [= <-]; eauto]. case_decide as Hd; [done|]. intros [= <-].
  left. exists fd. split_and!; [done|tauto|lia|done].
Qed.

Lemma reopen (fd : Z) (s : gset Z) : fd ∉ s → ({[fd]} ∪ s) ∖ {[fd]} = s.
Proof. set_solver. Qed.

Lemma reopen_under (fd dir : Z) (s : gset Z) : fd ∉ {[dir]} ∪ s → dir ∉ s →
  ({[fd]} ∪ ({[dir]} ∪ s)) ∖ {[dir]} = {[fd]} ∪ s.
Proof. set_solver. Qed.

Section WithUser.
Context (euid : Z).

Ltac fds := unfold open_first; cbn [uses]; repeat apply Forall_cons_2; try apply Forall_nil_2; set_solver.

Ltac call_step :=
  unfold fd_wp; sys_step; [fds|];
  match goal with
  | H : descriptors ?s ?c ?x = Some ?s' |- _ =>
      change (opened s x = Some s') in H; apply opened_spec in H as [(? & -> & ? & ? & ->)|(? & -> & ->)]
  | H : descriptors _ _ _ = Some _ |- _ => injection H as <-
  end; cbn [mret prog_ret].

Lemma fd_open_components directory components s : directory ∉ s →
  fd_wp (open_components directory components)
    (λ r s', match r with Ok fd => (fd ∉ s) ∧ (0 ≤ directory → 0 ≤ fd) ∧ s' = {[fd]} ∪ s | Err _ => s' = s end) ({[directory]} ∪ s).
Proof.
  revert directory. induction components as [|component components IH]; intros directory Hd; cbn [open_components].
  - done.
  - call_step.
    + call_step. rewrite reopen_under by done. case_match.
      * call_step. simpl. by rewrite reopen by set_solver.
      * eapply wp_mono; [|apply IH; set_solver]. intros [fd|e] s'; [|done]. intros (? & Hp & ->). auto.
    + call_step. simpl. by rewrite reopen.
Qed.

(** Descriptors as they were before. *)
Definition same (s : gset Z) {A} (_ : A) (s' : gset Z) : Prop := s' = s.

Ltac known lem := eapply wp_seq; [apply lem; try done; try set_solver|]; cbn beta.

Ltac walk := repeat first [call_step | case_match | progress cbn [mret prog_ret] | progress rewrite reopen by set_solver].

Lemma fd_openParent components s :
  fd_wp (openParentDirectory euid components)
    (λ r s', match r with Ok fd => (fd ∉ s) ∧ 0 ≤ fd ∧ s' = {[fd]} ∪ s | Err _ => s' = s end) s.
Proof.
  unfold openParentDirectory. call_step; [|done].
  known fd_open_components. intros [fd|e] s'; [|by intros ->]. intros (Hfd & Hpos & ->). cbn zeta.
  call_step. walk; try done. cbn. auto.
Qed.

Lemma fd_restore socket temporary s : sp_parent socket ∈ s → fd_wp (restorePath socket temporary) (same s) s.
Proof. intros Hs. unfold restorePath. by call_step. Qed.

Lemma fd_temporaryName s : fd_wp temporaryName (same s) s.
Proof. unfold temporaryName. by call_step. Qed.

Lemma fd_moveAside attempts socket s : sp_parent socket ∈ s → fd_wp (movePathAside attempts socket) (same s) s.
Proof.
  intros Hs. induction attempts as [|attempts IH]; cbn [movePathAside]; [done|].
  known fd_temporaryName. intros [temporary|] s' ->; [|done]. call_step. repeat case_match; done.
Qed.

Lemma fd_detach socket s : sp_parent socket ∈ s → fd_wp (detach socket) (same s) s.
Proof.
  intros Hs. unfold detach. known fd_moveAside. intros [[temporary|]|e] s' ->; [|done|done].
  call_step. case_match.
  - unfold restoreChangedPath. repeat case_match; try done; known fd_restore; by intros ? ? ->.
  - known fd_restore. by intros ? ? ->.
Qed.

Lemma fd_unlink socket name expected s : sp_parent socket ∈ s → fd_wp (unlinkDetached socket name expected) (same s) s.
Proof.
  intros Hs. unfold unlinkDetached. call_step. case_match; [|by case_match].
  repeat case_match; try done. call_step. by repeat case_match.
Qed.

Lemma fd_cleanup socket s : sp_parent socket ∈ s → fd_wp (cleanup socket) (same s) s.
Proof.
  intros Hs. unfold cleanup. known fd_detach. intros [[| |t]|e] s' ->; try done. by apply fd_unlink.
Qed.

Lemma fd_isAlive socket name s : sp_parent socket ∈ s → fd_wp (isAlive socket name) (same s) s.
Proof. intros Hs. unfold isAlive. by call_step. Qed.

Lemma fd_removeStale socket s : sp_parent socket ∈ s → fd_wp (removeStale socket) (same s) s.
Proof.
  intros Hs. unfold removeStale. known fd_detach. intros [[| |t]|e] s' ->; try done.
  known fd_isAlive. intros [[]|] s' ->.
  - known fd_restore. by intros ? ? ->.
  - by apply fd_unlink.
  - known fd_restore. by intros ? ? ->.
Qed.

Lemma fd_prepare socket s : sp_parent socket ∈ s → fd_wp (prepareSocketPath euid socket) (same s) s.
Proof.
  intros Hs. unfold prepareSocketPath. call_step. case_match; [|by case_match].
  repeat case_match; try done. known fd_isAlive. intros [[]|] s' ->; try done. by apply fd_removeStale.
Qed.

Lemma fd_openIdentity socket name s : sp_parent socket ∈ s →
  fd_wp (openIdentity euid socket name)
    (λ r s', match r with Ok (fd, _) => (fd ∉ s) ∧ s' = {[fd]} ∪ s | Err _ => s' = s end) s.
Proof. intros Hs. unfold openIdentity. call_step; [|done]. cbn zeta. call_step. walk; done. Qed.

Lemma fd_chmod fd expected s : fd ∈ s → fd_wp (chmodSocket fd expected) (same s) s.
Proof. intros Hs. unfold chmodSocket. call_step. walk; done. Qed.

Lemma fd_publish socket fd temporary s : fd ∈ s → sp_parent socket ∈ s → fd_wp (publish socket fd temporary) (same s) s.
Proof. intros Hf Hs. unfold publish. call_step. walk; done. Qed.

(** A bound socket leaves the runtime's listener, or nothing. *)
Definition bound (s : gset Z) (parent : Z) (r : result listenError (Z * socketPath)) (s' : gset Z) : Prop :=
  match r with
  | Ok (listener, socket) => (listener ∉ s) ∧ sp_parent socket = parent ∧ s' = {[listener]} ∪ s
  | Err _ => s' = s
  end.

(** The two descriptors of a socket being bound are closed in turn. *)
Lemma fd_two_closed {B} (path_fd fd : Z) (s : gset Z) (p : prog B) (Q : B → gset Z → Prop) :
  fd ∉ s → path_fd ∉ {[fd]} ∪ s → fd_wp p Q s →
  fd_wp (sys (Close path_fd) ;; sys (Close fd) ;; p) Q ({[path_fd]} ∪ ({[fd]} ∪ s)).
Proof. intros Hf Hp Hq. call_step. rewrite reopen by done. call_step. by rewrite reopen. Qed.

Lemma fd_cleaned {A} socket (a : A) (Q : A → gset Z → Prop) s : sp_parent socket ∈ s → Q a s →
  fd_wp (cleanup socket ;; Ret a) Q s.
Proof. intros Hs Hq. known fd_cleanup. by intros ? ? ->. Qed.

Lemma fd_adopt socket path_fd fd temporary s :
  sp_parent socket ∈ s → fd ∉ s → path_fd ∉ {[fd]} ∪ s →
  fd_wp (adopt_listener socket path_fd fd temporary) (bound s (sp_parent socket)) ({[path_fd]} ∪ ({[fd]} ∪ s)).
Proof.
  intros Hs Hf Hp. unfold adopt_listener. known fd_unlink. intros [e|] s' ->.
  - apply fd_two_closed; [done|done|]. by apply fd_cleaned.
  - call_step. rewrite reopen by done. case_match.
    + call_step. rewrite reopen by done. by apply fd_cleaned.
    + call_step; call_step.
      * rewrite reopen_under by (done || set_solver). case_match.
        -- call_step. rewrite reopen by set_solver. by apply fd_cleaned.
        -- cbn. split_and!; [set_solver|done|done].
      * rewrite reopen by done. by apply fd_cleaned.
Qed.

Lemma fd_bind_temporary socket fd temporary s :
  sp_parent socket ∈ s → fd ∉ s →
  fd_wp (bind_temporary euid socket fd temporary) (bound s (sp_parent socket)) ({[fd]} ∪ s).
Proof.
  intros Hs Hf. unfold bind_temporary. known fd_openIdentity. intros [[path_fd identity]|e] s'.
  - intros [Hp ->]. cbn zeta.
    assert (∀ e, fd_wp (sys (Close path_fd) ;; sys (Close fd) ;; unlinkDetached socket temporary identity ;; Ret (Err e))
      (bound s (sp_parent socket)) ({[path_fd]} ∪ ({[fd]} ∪ s))) as Hfail.
    { intros e. apply fd_two_closed; [done|done|]. known fd_unlink. by intros ? ? ->. }
    call_step. case_match; [apply Hfail|]. known fd_chmod. intros [e|] s' ->; [apply Hfail|].
    known fd_publish. intros [e|] s' ->; [apply Hfail|]. by apply (fd_adopt (with_identity socket identity)).
  - intros ->. call_step. by rewrite reopen.
Qed.

Lemma fd_bind attempts socket s : sp_parent socket ∈ s →
  fd_wp (bind_attempts euid attempts socket) (bound s (sp_parent socket)) s.
Proof.
  intros Hs. induction attempts as [|attempts IH]; cbn [bind_attempts]; [done|].
  known fd_temporaryName. intros [temporary|] s' ->; [|done]. call_step; [|done]. call_step. case_match.
  - repeat case_match; call_step; rewrite reopen by done; done.
  - by apply fd_bind_temporary.
Qed.

Lemma fd_closeParent socket s : 0 ≤ sp_parent socket → sp_parent socket ∉ s →
  fd_wp (closeParent socket) (same s) ({[sp_parent socket]} ∪ s).
Proof.
  intros Hpos Hs. unfold closeParent. destruct (Z.ltb_spec (sp_parent socket) 0); [lia|].
  call_step. by rewrite reopen.
Qed.

(** What an open listener holds: its own descriptor and the parent's. *)
Definition holds (s : gset Z) (l : ownedUnixListener) (s' : gset Z) : Prop :=
  ol_closed l = None ∧ 0 ≤ sp_parent (ol_socket l) ∧ (sp_parent (ol_socket l) ∉ s) ∧
  (ol_listener l ∉ {[sp_parent (ol_socket l)]} ∪ s) ∧
  s' = {[ol_listener l]} ∪ ({[sp_parent (ol_socket l)]} ∪ s).

Lemma fd_newSocketPath path s :
  fd_wp (newSocketPath euid path)
    (λ r s', match r with
             | Ok socket => 0 ≤ sp_parent socket ∧ (sp_parent socket ∉ s) ∧ s' = {[sp_parent socket]} ∪ s
             | Err _ => s' = s end) s.
Proof.
  unfold newSocketPath. destruct (path_parts path) as [parent name]. known fd_openParent.
  intros [fd|e] s'; [|by intros ->]. intros (? & ? & ->). done.
Qed.

Lemma fd_listenUnix path s :
  fd_wp (listenUnix euid path)
    (λ r s', match r with Ok l => holds s l s' | Err _ => s' = s end) s.
Proof.
  unfold listenUnix. known fd_newSocketPath. intros [socket|e] s'; [|by intros ->]. intros (Hpos & Hs & ->).
  known fd_prepare. intros [e|] s' ->.
  { known fd_closeParent. by intros ? ? ->. }
  known fd_bind. intros [[listener socket']|e] s'.
  - intros (Hl & Hp & ->). case_match.
    + call_step. rewrite reopen by done. rewrite <-Hp. known fd_cleanup. intros ? ? ->.
      rewrite <-Hp in Hpos, Hs. known fd_closeParent. by intros ? ? ->.
    + cbn. unfold holds. cbn. rewrite Hp. done.
  - intros ->. known fd_closeParent. by intros ? ? ->.
Qed.

Lemma fd_close l s s' : holds s l s' →
  fd_wp (CloseOwned l) (λ r s'', s'' = s ∧ ol_closed r.1 = Some r.2) s'.
Proof.
  intros (Hc & Hpos & Hs & Hl & ->). unfold CloseOwned. rewrite Hc. call_step. rewrite reopen by done.
  known fd_cleanup. intros ? ? ->. known fd_closeParent. by intros [socket err] ? ->.
Qed.

Lemma fd_close_again n l s : is_Some (ol_closed l) → fd_wp (close_times n l) (same s) s.
Proof.
  intros [errs Hc]. induction n as [|n IH]; cbn [close_times]; [done|]. unfold CloseOwned. rewrite Hc. exact IH.
Qed.

Lemma fd_life path closes s : fd_wp (life euid path closes) (same s) s.
Proof.
  unfold life. known fd_listenUnix. intros [l|e] s'; [|by intros ->]. intros Hl.
  eapply wp_seq; [|intros a s'' H; exact H]. cbn [close_times].
  eapply wp_seq; [by apply fd_close|]. intros [l' errs] s'' [-> Hc]. apply fd_close_again. by exists errs.
Qed.

(** C27: descriptors balance. In every run of a listener, made at a path and
    closed at least once, whatever each call answers, no call uses a
    descriptor that is not open and none is closed twice; when it could not
    be made, or once it is closed, exactly the descriptors that were open
    before are open. *)
Theorem descriptors_balance path closes t r :
  runs (life euid path closes) t r →
  ∀ before, allowed open_first descriptors before t ∧
    ∀ after, watch descriptors before t = Some after → after = before.
Proof. intros Hr before. exact (wp_sound _ _ _ _ _ _ _ (fd_life path closes before) Hr). Qed.

End WithUser.
End ListenerDescriptors.
