(* ===== verification/ListenerPaths.v ===== *)
(** * The Panel's listener: pathnames

    In every run of the listener, whatever the kernel answers and whatever
    runs beside it: only a dead or an own socket is moved aside or removed,
    and the name is published only for a listening socket of the right mode
    that this listener made. *)

From Stdlib Require Import Ascii String.
From S2P Require Import Prelude Listener ListenerLogic.

Module ListenerPaths.
Import Listener ListenerLogic.

Local Open Scope Z_scope.

Section WithUser.
Context (euid : Z).

(** ** Pathnames *)

(** What stat says an object is: a socket by its type bits, and which one by
    its device, inode and owner. *)
Definition is_socket (st : Stat) : bool := Z.land (st_mode st) 61440 =? 49152.
Definition the_file (st : Stat) : fileIdentity := {| dev := st_dev st; ino := st_ino st; uid := st_uid st |}.

(** A monitor keeps what the calls have shown: the object last found under a
    name, the socket found under the target, the name it was last found at and
    not moved from since, how often in a row a connection to it
    there was refused and at which name the last of these was, the temporary
    pathname the new socket was bound to, the descriptor that pins it and the
    identity found through that, and what was done to it. *)
Record shown := {
  w_last : option (string * Stat);
  w_candidate : option fileIdentity;
  w_place : option string;
  w_dead : nat;
  w_refused : option string;
  w_bound : option (Z * string);
  w_pin : option Z;
  w_own : option fileIdentity;
  w_listening : bool;
  w_mode : bool;
  w_published : bool;
}.

Definition nothing_shown : shown := {|
  w_last := None; w_candidate := None; w_place := None; w_dead := 0; w_refused := None;
  w_bound := None; w_pin := None; w_own := None;
  w_listening := false; w_mode := false; w_published := false |}.

Context (target : string).

(** Only what is directly before a call counts as last. *)
Definition forget_last (w : shown) : shown := {|
  w_last := None; w_candidate := w_candidate w; w_place := w_place w; w_dead := w_dead w;
  w_refused := w_refused w; w_bound := w_bound w; w_pin := w_pin w;
  w_own := w_own w; w_listening := w_listening w; w_mode := w_mode w; w_published := w_published w |}.

Definition own_socket (st : Stat) : bool := is_socket st && (st_uid st =? euid).

Definition candidate_after (w : shown) (name : string) (st : Stat) : option fileIdentity :=
  match w_candidate w with
  | None => if String.eqb name target && own_socket st then Some (the_file st) else None
  | c => c
  end.

Definition show_found (w : shown) (name : string) (st : Stat) : shown := {|
  w_last := Some (name, st); w_candidate := candidate_after w name st;
  w_place := if bool_decide (candidate_after w name st = Some (the_file st)) then Some name else w_place w;
  w_dead := w_dead w; w_refused := w_refused w; w_bound := w_bound w; w_pin := w_pin w; w_own := w_own w;
  w_listening := w_listening w; w_mode := w_mode w; w_published := w_published w |}.

(** A name that was moved no longer holds what was found at it. *)
Definition show_moved (w : shown) (old : string) : shown := {|
  w_last := None; w_candidate := w_candidate w;
  w_place := if bool_decide (w_place w = Some old) then None else w_place w;
  w_dead := w_dead w; w_refused := w_refused w; w_bound := w_bound w; w_pin := w_pin w; w_own := w_own w;
  w_listening := w_listening w; w_mode := w_mode w; w_published := w_published w |}.

(** Nobody listens there: the connection is refused, or the name is gone. *)
Definition refused (d : dialed) : bool := match d with DialErrno (ECONNREFUSED | ENOENT) => true | _ => false end.

(** A refusal counts where the socket is; any other answer, and any other
    name, ends the count. *)
Definition show_dial (w : shown) (name : string) (d : dialed) : shown :=
  let counts := refused d && bool_decide (w_place w = Some name) in {|
  w_last := None; w_candidate := w_candidate w; w_place := w_place w;
  w_dead := if counts then S (w_dead w) else 0; w_refused := if counts then Some name else None;
  w_bound := w_bound w; w_pin := w_pin w; w_own := w_own w;
  w_listening := w_listening w; w_mode := w_mode w; w_published := w_published w |}.

(** A new socket under a temporary name: nothing is known of it yet. *)
Definition show_bound (w : shown) (fd : Z) (name : string) : shown := {|
  w_last := None; w_candidate := w_candidate w; w_place := w_place w; w_dead := w_dead w;
  w_refused := w_refused w; w_bound := Some (fd, name);
  w_pin := None; w_own := None; w_listening := false; w_mode := false; w_published := w_published w |}.

Definition show_pin (w : shown) (name : string) (fd : Z) : shown := {|
  w_last := None; w_candidate := w_candidate w; w_place := w_place w; w_dead := w_dead w;
  w_refused := w_refused w; w_bound := w_bound w;
  w_pin := match w_bound w with Some (_, bound) => if String.eqb name bound then Some fd else None | None => None end;
  w_own := w_own w; w_listening := w_listening w; w_mode := w_mode w; w_published := w_published w |}.

(** The first look through the pin says what the new socket is. *)
Definition show_own (w : shown) (fd : Z) (st : Stat) : shown := {|
  w_last := None; w_candidate := w_candidate w; w_place := w_place w; w_dead := w_dead w;
  w_refused := w_refused w; w_bound := w_bound w; w_pin := w_pin w;
  w_own := match w_own w with
           | None => if bool_decide (w_pin w = Some fd) && own_socket st then Some (the_file st) else None
           | o => o
           end;
  w_listening := w_listening w; w_mode := w_mode w; w_published := w_published w |}.

Definition show_done (w : shown) (listening mode published : bool) : shown := {|
  w_last := None; w_candidate := w_candidate w; w_place := w_place w; w_dead := w_dead w;
  w_refused := w_refused w; w_bound := w_bound w; w_pin := w_pin w;
  w_own := w_own w; w_listening := w_listening w || listening; w_mode := w_mode w || mode;
  w_published := w_published w || published |}.

Definition succeeded (x : option errno) : bool := match x with None => true | Some _ => false end.

Definition watching (w : shown) (c : call) : answer c → option shown :=
  match c with
  | Fstatat _ name => λ x, Some (match x with Ok st => show_found w name st | Err _ => forget_last w end)
  | Dial _ name => λ x, Some (show_dial w name x)
  | Renameat2 _ old _ => λ x, Some (if succeeded x then show_moved w old else forget_last w)
  | BindSocket fd _ name => λ x, Some (if succeeded x then show_bound w fd name else forget_last w)
  | Openat _ name => λ x, Some (match x with Ok fd => show_pin w name fd | Err _ => forget_last w end)
  | Fstat fd => λ x, Some (match x with Ok st => show_own w fd st | Err _ => forget_last w end)
  | ListenSocket _ => λ x, Some (show_done w (succeeded x) false false)
  | FchmodatDescriptor _ _ => λ x, Some (show_done w false (succeeded x) false)
  | FchmodatProc _ _ => λ x, Some (show_done w false (succeeded x) false)
  | LinkatDescriptor _ _ _ => λ x, Some (show_done w false false (succeeded x))
  | LinkatName _ _ _ => λ x, Some (show_done w false false (succeeded x))
  | _ => λ _, Some (forget_last w)
  end.

(** A socket whose end is known: it is the one this listener made, or the
    target's, owned by this user, and nobody answered it [probes] times. *)
Definition known_dead (w : shown) (probes : nat) (identity : fileIdentity) : Prop :=
  w_own w = Some identity ∨ (w_candidate w = Some identity ∧ probes ≤ w_dead w)%nat.

(** A name that may go: the socket this listener made, or the target's,
    refused twice where it was, the second time at this very name. *)
Definition removable (w : shown) (name : string) (identity : fileIdentity) : Prop :=
  w_own w = Some identity ∨
  (w_candidate w = Some identity ∧ 2 ≤ w_dead w ∧ w_refused w = Some name)%nat.

Definition ready (w : shown) : Prop :=
  w_listening w = true ∧ w_mode w = true ∧ is_Some (w_own w).

(** Before each call. *)
Definition guarded (w : shown) (c : call) : Prop :=
  match c with
  | Unlinkat _ name => ∃ st, w_last w = Some (name, st) ∧ is_socket st = true ∧ removable w name (the_file st)
  | Renameat2 _ old new => new = target ∨ (old = target ∧ ∃ identity, known_dead w 1 identity)
  | ListenSocket fd => ∃ name, w_bound w = Some (fd, name)
  | FchmodatDescriptor fd mode | FchmodatProc fd mode => w_pin w = Some fd ∧ is_Some (w_own w) ∧ mode = 432
  | LinkatDescriptor fd _ name => w_pin w = Some fd ∧ ready w ∧ name = target
  | LinkatName _ old name => (∃ fd, w_bound w = Some (fd, old)) ∧ ready w ∧ name = target
  | _ => True
  end.

Definition path_wp {A} (p : prog A) (Q : A → shown → Prop) (w : shown) : Prop := wp guarded watching p Q w.


(** The listener's own notions are these. *)
Lemma isSocket_spec st : isSocket st = is_socket st.
Proof. reflexivity. Qed.
Lemma identity_spec st : identityFromUnixStat st = the_file st.
Proof. reflexivity. Qed.

Ltac path_step :=
  unfold path_wp; sys_step; [|match goal with H : watching _ _ _ = Some _ |- _ => injection H as <- end];
  cbn [mret prog_ret].

Ltac known lem := eapply wp_seq; [eapply lem|]; cbn beta.

(** What later calls do not take back. *)
Definition keeps (w w' : shown) : Prop :=
  w_own w' = w_own w ∧ w_bound w' = w_bound w ∧ w_pin w' = w_pin w ∧ w_listening w' = w_listening w ∧
  w_mode w' = w_mode w ∧ w_published w' = w_published w ∧
  ∀ c, w_candidate w = Some c → w_candidate w' = Some c.

#[local] Instance keeps_refl : Reflexive keeps.
Proof. intros w. by split_and!. Qed.
#[local] Instance keeps_trans : Transitive keeps.
Proof. intros w1 w2 w3 (?&?&?&?&?&?&?) (?&?&?&?&?&?&?). split_and!; try congruence. auto. Qed.

Lemma keeps_forget w : keeps w (forget_last w).
Proof. by split_and!. Qed.
Lemma keeps_found w name st : keeps w (show_found w name st).
Proof. split_and!; try done. intros c Hc. cbn. unfold candidate_after. by rewrite Hc. Qed.
Lemma keeps_moved w old : keeps w (show_moved w old).
Proof. by split_and!. Qed.
Lemma keeps_dial w name d : keeps w (show_dial w name d).
Proof. by split_and!. Qed.

Lemma known_dead_keeps w w' n identity : keeps w w' → (w_dead w ≤ w_dead w')%nat →
  known_dead w n identity → known_dead w' n identity.
Proof.
  intros (Ho & _ & _ & _ & _ & _ & Hc) Hd [H|[H Hn]]; [left; congruence|right]. split; [by apply Hc|lia].
Qed.

(** The calls after which nothing is lost but what was last. *)
Definition settled (w w' : shown) : Prop := keeps w w' ∧ w_dead w' = w_dead w.
Definition after (w : shown) {A} (_ : A) (w' : shown) : Prop := settled w w'.

#[local] Instance settled_trans : Transitive settled.
Proof. intros w1 w2 w3 [Hk Hn] [Hk' Hn']. split; [by etransitivity|congruence]. Qed.

Lemma after_forget w : settled w (forget_last w).
Proof. split; [apply keeps_forget|done]. Qed.

Lemma after_moved w old : settled w (show_moved w old).
Proof. split; [apply keeps_moved|done]. Qed.

Lemma after_renamed (x : option errno) w old : settled w (if succeeded x then show_moved w old else forget_last w).
Proof. destruct (succeeded x); [apply after_moved|apply after_forget]. Qed.

Lemma after_found w name st : settled w (show_found w name st).
Proof. split; [apply keeps_found|done]. Qed.

Lemma path_temporaryName w : path_wp temporaryName (after w) w.
Proof. unfold temporaryName. path_step; [done|]. apply after_forget. Qed.

Lemma path_restore socket temporary w : sp_name socket = target → path_wp (restorePath socket temporary) (after w) w.
Proof. intros Ht. unfold restorePath. path_step; [by left|]. apply after_renamed. Qed.

Lemma path_moveAside attempts socket w identity : sp_name socket = target → known_dead w 1 identity →
  path_wp (movePathAside attempts socket) (after w) w.
Proof.
  intros Ht. revert w. induction attempts as [|attempts IH]; intros w Hd; cbn [movePathAside]; [done|].
  known path_temporaryName. intros [temporary|] w1 [Hk Hn]; [|done].
  assert (known_dead w1 1 identity) as Hd1 by (eapply known_dead_keeps; [done|lia|done]).
  path_step; [right; split; [done|by exists identity]|].
  match goal with |- context [if succeeded ?x then _ else _] =>
    pose proof (after_renamed x w1 (sp_name socket)) as Hren; set (wr := if succeeded x then _ else _) in * end.
  clearbody wr.
  assert (settled w wr) as Hdone by (etransitivity; [by split|done]).
  repeat case_match; try exact Hdone.
  eapply wp_mono; [|apply IH; destruct Hren; eapply known_dead_keeps; [done|lia|done]].
  intros r w2 H2. exact (settled_trans _ _ _ Hdone H2).
Qed.

(** A socket found where it was moved to is at that name. *)
Definition detached_at (identity : fileIdentity) (w : shown) (r : result listenError detached) (w' : shown) : Prop :=
  settled w w' ∧ ∀ temporary, r = Ok (Detached temporary) → w_candidate w = Some identity → w_place w' = Some temporary.

Lemma path_detach socket w identity : sp_name socket = target → known_dead w 1 identity →
  path_wp (detach socket) (detached_at (sp_identity socket) w) w.
Proof.
  intros Ht Hd. unfold detach. known path_moveAside; [done..|]. intros [[temporary|]|e] w1 H1; [|by split|by split].
  path_step; [done|]. case_match.
  - assert (settled w (show_found w1 temporary a)) as Hdone by (etransitivity; [exact H1|apply after_found]).
    assert (path_wp (restoreChangedPath socket temporary) (detached_at (sp_identity socket) w) (show_found w1 temporary a)) as Hrest.
    { unfold restoreChangedPath. known path_restore; [done|]. intros err w2 Hr.
      split; [exact (settled_trans _ _ _ Hdone Hr)|]. by destruct err. }
    destruct (isSocket a); cbn [negb]; [|exact Hrest]. case_bool_decide as Hi; cbn [negb]; [|exact Hrest].
    rewrite identity_spec in Hi. split; [exact Hdone|]. intros t [= <-] Hc. cbn. unfold candidate_after.
    destruct H1 as [(_ & _ & _ & _ & _ & _ & Hcand) _]. rewrite (Hcand _ Hc), Hi.
    by rewrite bool_decide_eq_true_2.
  - known path_restore; [done|]. intros err w2 Hr. split; [|done].
    exact (settled_trans _ _ _ H1 (settled_trans _ _ _ (after_forget _) Hr)).
Qed.

Lemma removable_found w name st other identity :
  removable w other identity → removable (show_found w name st) other identity.
Proof.
  intros [H|(Hc & Hd)]; [by left|right]. split; [|done]. cbn. unfold candidate_after. by rewrite Hc.
Qed.

Lemma path_unlink socket name expected w : removable w name expected →
  path_wp (unlinkDetached socket name expected) (after w) w.
Proof.
  intros Hd. unfold unlinkDetached. path_step; [done|]. case_match.
  - destruct (isSocket a) eqn:Es; [|apply after_found]. cbn [negb].
    case_bool_decide as Hi; [|apply after_found]. cbn [negb]. rewrite isSocket_spec in Es. rewrite identity_spec in Hi.
    path_step; [exists a; split_and!; [done|done|rewrite Hi; by apply removable_found]|].
    assert (settled w (forget_last (show_found w name a))) as Hdone.
    { etransitivity; [apply after_found|apply after_forget]. }
    repeat case_match; exact Hdone.
  - repeat case_match; apply after_forget.
Qed.

Lemma path_cleanup socket w : sp_name socket = target → w_own w = Some (sp_identity socket) →
  path_wp (cleanup socket) (after w) w.
Proof.
  intros Ht Ho. unfold cleanup. known path_detach; [done|by left|]. intros [[| |t]|e] w1 [H1 _]; try done.
  eapply wp_mono; [|apply path_unlink; left; destruct H1 as [(Hw & _) _]; congruence].
  intros r w2 H2. exact (settled_trans _ _ _ H1 H2).
Qed.

(** A probe that nobody answers adds one where the socket is. *)
Definition probed (name : string) (w : shown) (alive : option bool) (w' : shown) : Prop :=
  keeps w w' ∧
  (alive = Some false → w_place w = Some name → w_dead w' = S (w_dead w) ∧ w_refused w' = Some name).

Lemma path_isAlive socket name w : path_wp (isAlive socket name) (probed name w) w.
Proof.
  unfold isAlive. path_step; [done|]. split; [apply keeps_dial|]. intros Hdead Hp. cbn.
  rewrite Hp, bool_decide_eq_true_2 by done. unfold refused. by repeat case_match.
Qed.

Lemma path_removeStale socket w : sp_name socket = target →
  w_candidate w = Some (sp_identity socket) → (1 ≤ w_dead w)%nat →
  path_wp (removeStale socket) (λ _, keeps w) w.
Proof.
  intros Ht Hc Hn. unfold removeStale. known path_detach; [done|right; by split|].
  intros [[| |t]|e] w1 [[Hk Hn1] Hat]; try done. known path_isAlive. intros alive w2 [Hk2 Hn2].
  assert (keeps w w2) as Hk02 by by etransitivity.
  assert (path_wp (restorePath socket t;; Ret (Some ProbeFailed)) (λ _, keeps w) w2 ∧
          path_wp (restorePath socket t;; Ret (Some PathInUse)) (λ _, keeps w) w2) as [Hr1 Hr2].
  { split; (known path_restore; [done|]; intros err w3 [Hk3 _]; exact (keeps_trans _ _ _ Hk02 Hk3)). }
  destruct alive as [[]|]; [done| |done].
  eapply wp_mono; [|apply path_unlink].
  - intros r w3 [Hk3 _]. by etransitivity.
  - right. destruct Hk02 as (_ & _ & _ & _ & _ & _ & Hcand). split; [by apply Hcand|].
    destruct Hn2 as [-> ->]; [done|by apply Hat|]. split; [lia|done].
Qed.

Lemma path_prepare socket : sp_name socket = target →
  path_wp (prepareSocketPath euid socket) (λ _, keeps nothing_shown) nothing_shown.
Proof.
  intros Ht. unfold prepareSocketPath. path_step; [done|]. case_match; [|repeat case_match; apply keeps_forget].
  assert (keeps nothing_shown (show_found nothing_shown (sp_name socket) a)) as Hk by apply keeps_found.
  destruct (isSymlink a); [done|]. destruct (isSocket a) eqn:Es; [|done]. cbn [negb].
  destruct (st_uid a =? euid) eqn:Eu; cbn [negb uid identityFromUnixStat]; rewrite Eu; cbn [negb]; [|done].
  assert (w_candidate (show_found nothing_shown (sp_name socket) a) = Some (the_file a)) as Hcand.
  { cbn. unfold candidate_after. cbn. rewrite Ht, String.eqb_refl. unfold own_socket. rewrite isSocket_spec in Es. by rewrite Es, Eu. }
  known path_isAlive. intros alive w1 [Hk1 Hn1].
  assert (keeps nothing_shown w1) as Hk01 by by etransitivity.
  destruct alive as [[]|]; [done| |done].
  eapply wp_mono; [|apply path_removeStale].
  - intros r w2 Hk2. by etransitivity.
  - done.
  - apply Hk1. exact Hcand.
  - destruct Hn1 as [-> _]; [done| |lia]. cbn. cbn in Hcand. rewrite Hcand. by rewrite bool_decide_eq_true_2.
Qed.

(** ** Binding and publishing *)

(** The socket bound to [temporary] is pinned and known. *)
Definition pinned (w : shown) (path_fd : Z) (identity : fileIdentity) (fd : Z) (temporary : string) : Prop :=
  w_pin w = Some path_fd ∧ w_own w = Some identity ∧ w_bound w = Some (fd, temporary).

Lemma pinned_keeps w w' path_fd identity fd temporary : keeps w w' →
  pinned w path_fd identity fd temporary → pinned w' path_fd identity fd temporary.
Proof. intros (Ho & Hb & Hp & _) (?&?&?). split_and!; congruence. Qed.

Lemma path_openIdentity socket fd temporary w :
  w_bound w = Some (fd, temporary) → w_own w = None →
  path_wp (openIdentity euid socket temporary)
    (λ r w', match r with
             | Ok (path_fd, identity) =>
                 pinned w' path_fd identity fd temporary ∧ uid identity = euid
             | Err _ => True end) w.
Proof.
  intros Hb Ho. unfold openIdentity. path_step; [done|]. case_match; [|done]. cbn zeta.
  path_step; [done|]. case_match; [|path_step; done].
  destruct (isSocket a0) eqn:Es; cbn [negb]; [|path_step; done].
  destruct (uid (identityFromUnixStat a0) =? euid) eqn:Eu; cbn [negb]; [|path_step; done].
  cbn. unfold pinned. cbn. rewrite Hb, Ho, String.eqb_refl. unfold own_socket. cbn in Eu.
  rewrite bool_decide_eq_true_2 by done. rewrite isSocket_spec in Es. rewrite Es, Eu. cbn. split_and!; try done. by apply Z.eqb_eq.
Qed.

Lemma path_chmod path_fd identity fd temporary w :
  pinned w path_fd identity fd temporary →
  path_wp (chmodSocket path_fd identity)
    (λ r w', pinned w' path_fd identity fd temporary ∧ w_listening w' = w_listening w ∧ (r = None → w_mode w' = true)) w.
Proof.
  intros (Hp & Ho & Hb). unfold chmodSocket. path_step; [done|].
  assert (∀ st, pinned (show_own w path_fd st) path_fd identity fd temporary) as Hst.
  { intros st. unfold pinned. cbn. by rewrite Ho. }
  case_match; [|by split_and!]. case_match; [by split_and!; [apply Hst| |]|].
  path_step; [split_and!; [apply Hst|exists identity; apply Hst|done]|].
  assert (∀ listening mode published, pinned (show_done (show_own w path_fd a) listening mode published) path_fd identity fd temporary) as Hdone.
  { intros. exact (Hst a). }
  case_match.
  - path_step; [split_and!; [apply Hst|exists identity; apply Hst|done]|].
    split_and!; [exact (Hst a)|cbn; by rewrite !orb_false_r|].
    match goal with |- option_map _ ?x = None → _ => destruct x; [done|] end. intros _. cbn. apply orb_true_r.
  - split_and!; [exact (Hst a)|cbn; by rewrite !orb_false_r|].
    match goal with |- option_map _ ?x = None → _ => destruct x; [done|] end. intros _. cbn. apply orb_true_r.
Qed.

Lemma path_publish socket path_fd identity fd temporary w :
  sp_name socket = target → pinned w path_fd identity fd temporary →
  w_listening w = true → w_mode w = true →
  path_wp (publish socket path_fd temporary)
    (λ r w', pinned w' path_fd identity fd temporary ∧ (r = None → w_published w' = true)) w.
Proof.
  intros Ht (Hp & Ho & Hb) Hl Hm. unfold publish.
  path_step; [split_and!; [done|split_and!; [done|done|by exists identity]|done]|].
  case_match.
  - path_step.
    + split_and!; [by exists fd|split_and!; [cbn; by rewrite Hl|cbn; by rewrite Hm|by exists identity]|done].
    + split; [done|]. intros ->. cbn. apply orb_true_r.
  - split; [done|]. intros ->. cbn. apply orb_true_r.
Qed.

(** What holds of a listener that was made. *)
Definition made (r : result listenError (Z * socketPath)) (w : shown) : Prop :=
  match r with
  | Ok (_, socket) =>
      sp_name socket = target ∧ w_published w = true ∧ w_own w = Some (sp_identity socket) ∧
      uid (sp_identity socket) = euid
  | Err _ => True
  end.

Lemma path_adopt socket path_fd fd temporary w :
  sp_name socket = target → w_published w = true → w_own w = Some (sp_identity socket) →
  uid (sp_identity socket) = euid →
  path_wp (adopt_listener socket path_fd fd temporary) made w.
Proof.
  intros Ht Hp Ho Hu. unfold adopt_listener. known path_unlink; [by left|]. intros err w1 [Hk _].
  assert (w_own w1 = Some (sp_identity socket) ∧ w_published w1 = true) as [Ho1 Hp1].
  { destruct Hk as (? & _ & _ & _ & _ & ? & _). split; congruence. }
  assert (∀ w2 (e : listenError), w_own w2 = Some (sp_identity socket) →
    path_wp (cleanup socket ;; Ret (Err e)) made w2) as Hclean.
  { intros w2 e Ho2. known path_cleanup; [done..|]. by intros. }
  destruct err as [e|].
  - path_step; [done|]. path_step; [done|]. by apply Hclean.
  - path_step; [done|]. case_match.
    + path_step; [done|]. by apply Hclean.
    + path_step; [done|]. path_step; [done|]. case_match.
      * case_match; [|done]. path_step; [done|]. by apply Hclean.
      * by apply Hclean.
Qed.

Lemma path_bind_temporary socket fd temporary w :
  sp_name socket = target → w_bound w = Some (fd, temporary) → w_own w = None →
  path_wp (bind_temporary euid socket fd temporary) made w.
Proof.
  intros Ht Hb Ho. unfold bind_temporary. known path_openIdentity; [done..|].
  intros [[path_fd identity]|e] w1; [|intros _; path_step; done]. intros [Hpin Hu]. cbn zeta.
  assert (∀ w2 e, w_own w2 = Some identity →
    path_wp (sys (Close path_fd) ;; sys (Close fd) ;; unlinkDetached socket temporary identity ;; Ret (Err e)) made w2) as Hfail.
  { intros w2 e Ho2. path_step; [done|]. path_step; [done|]. known path_unlink; [by left|]. by intros. }
  destruct Hpin as (Hp1 & Ho1 & Hb1).
  path_step; [by exists temporary|]. case_match; [by apply Hfail|].
  known path_chmod; [by split_and!|]. intros err w2 ((Hp2 & Ho2 & Hb2) & Hl2 & Hm2).
  destruct err as [e|]; [by apply Hfail|].
  known path_publish; [done|by split_and!| |by apply Hm2|].
  { rewrite Hl2. cbn. apply orb_true_r. }
  intros err w3 ((Hp3 & Ho3 & Hb3) & Hpub). destruct err as [e|]; [by apply Hfail|].
  apply path_adopt; [done|by apply Hpub|done|done].
Qed.

Lemma path_bind attempts socket w : sp_name socket = target → path_wp (bind_attempts euid attempts socket) made w.
Proof.
  intros Ht. revert w. induction attempts as [|attempts IH]; intros w; cbn [bind_attempts]; [done|].
  known path_temporaryName. intros [temporary|] w1 _; [|done]. path_step; [done|]. case_match; [|done].
  path_step; [done|]. case_match.
  - repeat case_match; path_step; try done; apply IH.
  - by apply path_bind_temporary.
Qed.

Lemma path_open_components directory components :
  path_wp (open_components directory components) (λ _ w, w = nothing_shown) nothing_shown.
Proof.
  revert directory. induction components as [|component components IH]; intros directory; cbn [open_components]; [done|].
  path_step; [done|]. case_match.
  - path_step; [done|]. case_match; [path_step; done|]. apply IH.
  - by path_step.
Qed.

Lemma path_newSocketPath path :
  path_wp (newSocketPath euid path)
    (λ r w, w = nothing_shown ∧ match r with Ok socket => sp_name socket = (path_parts path).2 | Err _ => True end)
    nothing_shown.
Proof.
  unfold newSocketPath. destruct (path_parts path) as [parent name]. cbn [snd].
  assert (path_wp (openParentDirectory euid parent) (λ _ w, w = nothing_shown) nothing_shown) as Hp.
  { unfold openParentDirectory. path_step; [done|]. case_match; [|done].
    known path_open_components. intros [directory|e] w ->; [|done]. cbn zeta.
    path_step; [done|]. case_match; [|by path_step]. repeat (case_match; [by path_step|]). done. }
  known Hp. intros [fd|e] w ->; done.
Qed.

Lemma path_closeParent socket w :
  path_wp (closeParent socket) (λ r w', settled w w' ∧ sp_identity r.1 = sp_identity socket) w.
Proof. unfold closeParent. case_match; [done|]. path_step; [done|]. split; [apply after_forget|done]. Qed.

(** The end of a listener that was published. *)
Definition was_made (r : result listenError ownedUnixListener) (w : shown) : Prop :=
  match r with
  | Ok l => w_published w = true ∧ w_own w = Some (sp_identity (ol_socket l)) ∧ uid (sp_identity (ol_socket l)) = euid
  | Err _ => True
  end.

Lemma path_listenUnix path : (path_parts path).2 = target →
  path_wp (listenUnix euid path)
    (λ r w, was_made r w ∧ match r with Ok l => sp_name (ol_socket l) = target ∧ ol_closed l = None | Err _ => True end)
    nothing_shown.
Proof.
  intros Htarget. unfold listenUnix. known path_newSocketPath. intros [socket|e] w [-> Hname]; [|done].
  rewrite Htarget in Hname. known path_prepare; [done|]. intros [e|] w1 _.
  { known path_closeParent. by intros. }
  known path_bind; [done|]. intros [[listener socket']|e] w2.
  - intros (Ht & Hp & Ho & Hu). case_match.
    + path_step; [done|]. known path_cleanup; [done|done|]. intros err w3 _. known path_closeParent. by intros.
    + by split_and!.
  - intros _. known path_closeParent. by intros.
Qed.

Lemma path_close_times n l w : sp_name (ol_socket l) = target → was_made (Ok l) w → ol_closed l = None ∨ n = O →
  path_wp (close_times n l) (λ l', was_made (Ok l')) w.
Proof.
  intros Ht Hm Hc. destruct n as [|n]; cbn [close_times]; [done|]. destruct Hc as [Hc|]; [|done].
  assert (∀ n errs l w, ol_closed l = Some errs → was_made (Ok l) w → path_wp (close_times n l) (λ l', was_made (Ok l')) w) as Hagain.
  { clear. intros n errs. induction n as [|n IH]; intros l w Hc Hm; cbn [close_times]; [done|].
    unfold CloseOwned. rewrite Hc. by apply IH. }
  unfold CloseOwned. rewrite Hc. apply wp_bind. path_step; [done|]. known path_cleanup; [done| |].
  { apply Hm. }
  intros err w1 H1. known path_closeParent. intros [socket perr] w2 [H2 Hid]. cbn [fst] in Hid.
  eapply Hagain; [done|]. cbn. rewrite Hid.
  destruct H1 as [(Ho1 & _ & _ & _ & _ & Hp1 & _) _], H2 as [(Ho2 & _ & _ & _ & _ & Hp2 & _) _], Hm as (Hp & Ho & Hu).
  cbn in Ho1, Hp1. split_and!; congruence.
Qed.

Lemma path_life path closes : (path_parts path).2 = target →
  path_wp (life euid path closes) was_made nothing_shown.
Proof.
  intros Ht. unfold life. known path_listenUnix; [done|]. intros [l|e] w; [|done]. intros (Hm & Hn & Hc).
  eapply wp_seq; [apply path_close_times; [done|done|by left]|]. by intros.
Qed.
End WithUser.

(** C26: the listener touches only what is its own or dead. In every run, of
    listening at a path and closing, with anything running beside it: the
    pathname is moved aside only when it was a socket of this user that a
    connection was refused by, or the one this listener made; a name is
    unlinked only directly after it was found to be that very socket, by
    device, inode and owner, and a stale one only after it refused twice where
    it was last found, with no other answer in between, and the second time at
    the very name that is unlinked, where it had been moved to; the mode is set only through the descriptor that pins the new
    socket; and the target's name is linked only to a socket bound by this
    listener, listening, and of mode 0660. A listener that is returned was
    published, and has the identity found through the pin. *)
Theorem only_dead_or_own_sockets euid path closes t r :
  runs (life euid path closes) t r →
  allowed (guarded (path_parts path).2) (watching euid (path_parts path).2) nothing_shown t ∧
  ∀ w, watch (watching euid (path_parts path).2) nothing_shown t = Some w → was_made euid r w.
Proof. intros Hr. exact (wp_sound _ _ _ _ _ _ _ (path_life euid _ path closes eq_refl) Hr). Qed.

(** C28: a replaced pathname is put back. When the object moved aside, at the
    first temporary name that is tried, turns
    out not to be the socket this listener published, cleaning up renames it
    back and does nothing more: it is not unlinked, and a failure to restore
    it is reported. *)
Theorem replaced_path_is_put_back socket hex found t r :
  runs (cleanup socket)
    (ev RandomHex (Some hex) ::
     ev (Renameat2 (sp_parent socket) (sp_name socket) (".xform-" +:+ hex)) None ::
     ev (Fstatat (sp_parent socket) (".xform-" +:+ hex)) (Ok found) :: t) r →
  isSocket found = false ∨ identityFromUnixStat found ≠ sp_identity socket →
  ∃ x, t = [ev (Renameat2 (sp_parent socket) (".xform-" +:+ hex) (sp_name socket)) x] ∧
    r = match x with Some e => Some (RestoreFailed e) | None => None end.
Proof.
  intros Hr Hf.
  assert (runs (restoreChangedPath socket (".xform-" +:+ hex) ≫= λ d, match d with
    | Err e => Ret (Some e)
    | Ok (Detached temporary) => unlinkDetached socket temporary (sp_identity socket)
    | Ok _ => Ret None end) t r) as Hrest.
  { do 3 apply runs_cons in Hr. revert Hr. cbn beta iota.
    destruct (isSocket found); [|exact id]. cbn [negb].
    rewrite bool_decide_eq_false_2 by (destruct Hf; done). exact id. }
  apply runs_call in Hrest as (x & t' & -> & Hrest). exists x.
  destruct x as [e|]; cbn in Hrest; apply runs_ret in Hrest as [-> ->]; done.
Qed.
End ListenerPaths.
