(* ===== verification/ListenerExamples.v ===== *)
(** * The Panel's listener, concretely

    A directory as a kernel would keep it, enough to run the listener:
    witnesses of the theorems, and runs that show what goes wrong. *)

From Stdlib Require Import Ascii String.
From S2P Require Import Prelude Listener ListenerLogic ListenerDescriptors ListenerPaths.

Module ListenerExamples.
Import Listener ListenerLogic ListenerDescriptors ListenerPaths.

Local Open Scope string_scope.
Local Open Scope Z_scope.

(** The names of the directory, what each descriptor is open on, the next
    descriptor, whether the next descriptor table entry is refused, and how
    many sockets answer. *)
Record sim := { files : gmap string Stat; fds : gmap Z Stat; fresh : Z; full : bool; alive : bool }.

Definition directory_stat : Stat := {| st_dev := 1; st_ino := 2; st_uid := 1000; st_mode := 16384 + 448 |}.

Definition new_fd (s : sim) (st : Stat) : result errno Z * sim :=
  if full s then (Err (OtherErrno 24), s)
  else (Ok (fresh s), {| files := files s; fds := <[fresh s := st]> (fds s); fresh := fresh s + 1; full := false;
                         alive := alive s |}).

Definition with_files (s : sim) (f : gmap string Stat) : sim :=
  {| files := f; fds := fds s; fresh := fresh s; full := full s; alive := alive s |}.

Definition kernel (s : sim) (c : call) : answer c * sim :=
  match c with
  | Open _ => new_fd s directory_stat
  | Openat _ name => new_fd s (default directory_stat (files s !! name))
  | Socket => new_fd s directory_stat
  | FileListener _ => new_fd s directory_stat
  | Fstat fd => (match fds s !! fd with Some st => Ok st | None => Err (OtherErrno 9) end, s)
  | Fstatat _ name => (match files s !! name with Some st => Ok st | None => Err ENOENT end, s)
  | BindSocket _ _ name =>
      match files s !! name with
      | Some _ => (Some EADDRINUSE, s)
      | None => (None, with_files s (<[name := {| st_dev := 1; st_ino := fresh s; st_uid := 1000; st_mode := S_IFSOCK + 493 |}]> (files s)))
      end
  | LinkatDescriptor fd _ name =>
      match files s !! name, fds s !! fd with
      | None, Some st => (None, with_files s (<[name := st]> (files s)))
      | _, _ => (Some EEXIST, s)
      end
  | LinkatName _ old name => (Some EEXIST, s)
  | Renameat2 _ old new =>
      match files s !! old, files s !! new with
      | Some st, None => (None, with_files s (<[new := st]> (delete old (files s))))
      | None, _ => (Some ENOENT, s)
      | _, Some _ => (Some EEXIST, s)
      end
  | Unlinkat _ name => (None, with_files s (delete name (files s)))
  | Dial _ name => (match files s !! name with
                    | Some _ => if alive s then Connected else DialErrno ECONNREFUSED
                    | None => DialErrno ENOENT end, s)
  | RandomHex => (Some "ff", s)
  | ListenSocket _ => (None, s)
  | FchmodatDescriptor _ _ => (None, s)
  | FchmodatProc _ _ => (None, s)
  | Close _ => (None, s)
  | CloseFile _ => (None, s)
  | CloseListener _ => (None, s)
  end.

Definition stale : Stat := {| st_dev := 1; st_ino := 77; st_uid := 1000; st_mode := S_IFSOCK + 432 |}.

(** A stale socket is in the way. *)
Definition before : sim := {| files := {["panel.sock" := stale]}; fds := ∅; fresh := 3; full := false; alive := false |}.

Definition path : string := "/run/xform/panel.sock".

Definition the_run := exec kernel (life 1000 path 1) before.

Example stale_socket_replaced : ∃ l, (exec kernel (listenUnix 1000 path) before).1.2 = Ok l ∧
  st_ino <$> files (exec kernel (listenUnix 1000 path) before).2 !! "panel.sock" = Some (ino (sp_identity (ol_socket l))) ∧
  size (files (exec kernel (listenUnix 1000 path) before).2) = 1%nat.
Proof. eexists. vm_compute. done. Qed.

Lemma descriptors_balance_witness :
  runs (life 1000 path 1) the_run.1.1 the_run.1.2 ∧ allowed open_first descriptors ∅ the_run.1.1 ∧
  watch descriptors ∅ the_run.1.1 = Some ∅.
Proof.
  assert (runs (life 1000 path 1) the_run.1.1 the_run.1.2) as Hr by apply exec_runs.
  destruct (descriptors_balance 1000 path 1 the_run.1.1 the_run.1.2 Hr ∅) as [Ha _].
  split_and!; [exact Hr|exact Ha|vm_compute; reflexivity].
Defined.

Lemma only_dead_or_own_sockets_witness :
  runs (life 1000 path 1) the_run.1.1 the_run.1.2 ∧
  allowed (guarded "panel.sock") (watching 1000 "panel.sock") nothing_shown the_run.1.1 ∧
  files the_run.2 = ∅.
Proof.
  assert (runs (life 1000 path 1) the_run.1.1 the_run.1.2) as Hr by apply exec_runs.
  destruct (only_dead_or_own_sockets 1000 path 1 the_run.1.1 the_run.1.2 Hr) as [Ha _].
  split_and!; [exact Hr|exact Ha|vm_compute; reflexivity].
Defined.

(** Another program put its socket at the path; the listener's own had inode 77. *)
Definition published : socketPath := {|
  sp_path := path; sp_name := "panel.sock"; sp_parent := 3; sp_identity := identityFromUnixStat stale |}.

Definition foreign : Stat := {| st_dev := 1; st_ino := 99; st_uid := 1000; st_mode := S_IFSOCK + 432 |}.

Definition replaced : sim := with_files before {["panel.sock" := foreign]}.

Lemma replaced_path_is_put_back_witness :
  (∃ x, [ev (Renameat2 3 ".xform-ff" "panel.sock") None] = [ev (Renameat2 3 ".xform-ff" "panel.sock") x] ∧
    (None : option listenError) = match x with Some e => Some (RestoreFailed e) | None => None end) ∧
  files (exec kernel (cleanup published) replaced).2 = {["panel.sock" := foreign]}.
Proof.
  split; [|vm_compute; reflexivity].
  apply (replaced_path_is_put_back published "ff" foreign [ev (Renameat2 3 ".xform-ff" "panel.sock") None] None).
  - exact (exec_runs kernel (cleanup published) replaced).
  - right. vm_compute. congruence.
Defined.

(** The descriptor table is full when the new socket's pathname is opened. *)
Definition full_kernel (s : sim) (c : call) : answer c * sim :=
  match c with
  | Openat _ name =>
      match files s !! name with Some _ => (Err (OtherErrno 24), s) | None => new_fd s directory_stat end
  | c => kernel s c
  end.

Definition absent : sim := with_files before ∅.

(** The listener fails, and its temporary socket stays in the directory. *)
Example temporary_left_behind :
  (exec full_kernel (listenUnix 1000 path) absent).1.2 = Err (Sys (OtherErrno 24)) ∧
  dom (files (exec full_kernel (listenUnix 1000 path) absent).2) = {[".xform-ff"]}.
Proof. vm_compute. done. Qed.
End ListenerExamples.
