(* ===== verification/FileSource.v ===== *)
(** * Watched files (internal/filesource)

    One file on the Host, parsed again after every change, with the last
    valid parse kept: the state, the reload, and the loop that hears of
    changes. *)

From Stdlib Require Import Ascii String.
From S2P Require Import Prelude Advertisements.

Module FileSource.
Import Advertisements.

Local Open Scope Z_scope.

Definition Reason := string.
Definition ReadFailed : Reason := "read_failed".

Record SourceError := { fe_reason : Reason; fe_message : string }.

Record Message := { m_fresh : string; m_stale : string }.

(** A table: a reason it does not list renders an empty message. *)
Definition Messages := list (Reason * Message).

Definition message (m : Messages) (reason : Reason) (stale : bool) : string :=
  match List.find (λ e, String.eqb e.1 reason) m with
  | Some (_, text) => if stale then m_stale text else m_fresh text
  | None => ""
  end.

(** What os.ReadFile answers: the document, or an error's text. *)
Definition file := result string string.

(** A log line of the watcher. *)
Inductive logged := CannotLoad (reason : Reason) (diagnostic : string) | LoadRecovered.

(** ** Paths *)

Definition clean_step (rooted : bool) (acc : list string) (c : string) : list string :=
  if String.eqb c "" || String.eqb c "." then acc
  else if String.eqb c ".." then
    match reverse acc with
    | [] => if rooted then [] else [".."%string]
    | last :: rest => if String.eqb last ".." then acc ++ [".."%string] else reverse rest
    end
  else acc ++ [c].

(** filepath.Clean. *)
Definition path_clean (path : string) : string :=
  let rooted := String.prefix "/" path in
  let joined := String.concat "/" (foldl (clean_step rooted) [] (split_on "/"%char path)) in
  if rooted then ("/" +:+ joined)%string else if String.eqb joined "" then "."%string else joined.

Section Watcher.
Context {T : Type}.

(** The parse behind the seam: a value, or a reason and a diagnostic. *)
Definition Parse := T → string → result (Reason * string) T.

(** A subscriber's channel holds at most one notification. *)
Record Watcher := {
  w_path : string;
  w_value : T;
  w_loaded_at : Z;
  w_loaded : bool;
  w_stale : bool;
  w_source_err : option SourceError;
  w_last_err : string;
  w_subscribers : list bool;
}.

Record Snapshot := {
  sn_value : T; sn_loaded_at : Z; sn_stale : bool; sn_error : option SourceError;
  sn_configured : bool; sn_available : bool;
}.

(** time.Time's zero value, in milliseconds of Unix time. *)
Definition zero_time : Z := -62135596800000.

Definition New (zero : T) (path : string) : Watcher := {|
  w_path := path; w_value := zero; w_loaded_at := zero_time; w_loaded := false; w_stale := false;
  w_source_err := None; w_last_err := ""; w_subscribers := [] |}.

Definition snapshot_of (w : Watcher) : Snapshot := {|
  sn_value := w_value w; sn_loaded_at := w_loaded_at w; sn_stale := w_stale w; sn_error := w_source_err w;
  sn_configured := negb (String.eqb (w_path w) ""); sn_available := w_loaded w |}.

(** Changes: the new subscriber and its place. *)
Definition Changes (w : Watcher) : Watcher * nat :=
  ({| w_path := w_path w; w_value := w_value w; w_loaded_at := w_loaded_at w; w_loaded := w_loaded w;
      w_stale := w_stale w; w_source_err := w_source_err w; w_last_err := w_last_err w;
      w_subscribers := w_subscribers w ++ [false] |}, length (w_subscribers w)).

(** A subscriber takes its notification, if there is one. *)
Definition receive (w : Watcher) (i : nat) : Watcher * bool :=
  ({| w_path := w_path w; w_value := w_value w; w_loaded_at := w_loaded_at w; w_loaded := w_loaded w;
      w_stale := w_stale w; w_source_err := w_source_err w; w_last_err := w_last_err w;
      w_subscribers := <[i := false]> (w_subscribers w) |}, default false (w_subscribers w !! i)).

Section Reload.
Context (parse : Parse) (messages : Messages).

Definition recordFailure (w : Watcher) (reason : Reason) (diagnostic : string) : Watcher * list logged :=
  let failure := (reason +:+ ": " +:+ diagnostic)%string in
  ({| w_path := w_path w; w_value := w_value w; w_loaded_at := w_loaded_at w; w_loaded := w_loaded w;
      w_stale := w_loaded w;
      w_source_err := Some {| fe_reason := reason; fe_message := message messages reason (w_loaded w) |};
      w_last_err := failure; w_subscribers := w_subscribers w |},
   if String.eqb (w_last_err w) failure then [] else [CannotLoad reason diagnostic]).

(** The value swapped in, with everyone told. *)
Definition publish (w : Watcher) (value : T) (now : Z) : Watcher * list logged :=
  ({| w_path := w_path w; w_value := value; w_loaded_at := now; w_loaded := true; w_stale := false;
      w_source_err := None; w_last_err := ""; w_subscribers := (λ _, true) <$> w_subscribers w |},
   if String.eqb (w_last_err w) "" then [] else [LoadRecovered]).

Definition reload (w : Watcher) (read : file) (now : Z) : Watcher * list logged :=
  match read with
  | Err diagnostic => recordFailure w ReadFailed diagnostic
  | Ok document =>
      match parse (w_value w) document with
      | Err (reason, diagnostic) => recordFailure w reason diagnostic
      | Ok value => publish w value now
      end
  end.

(** ** The loop *)

Definition defaultDebounce : Z := 250.

(** The watcher, its debounce timer, the file as it is, the directory's
    events not yet received, and the clock. [watching]: fsnotify watches the
    directory and the loop runs. *)
Record host := {
  h_watcher : Watcher;
  h_timer : option Z;
  h_file : file;
  h_events : list string;
  h_clock : Z;
  h_watching : bool;
}.

Definition schedule (clock : Z) : option Z := Some (clock + defaultDebounce).

Definition own_event (w : Watcher) (name : string) : bool := String.eqb (path_clean name) (path_clean (w_path w)).

(** One event received. *)
Definition on_event (h : host) (name : string) (events : list string) : host := {|
  h_watcher := h_watcher h;
  h_timer := if own_event (h_watcher h) name then schedule (h_clock h) else h_timer h;
  h_file := h_file h; h_events := events; h_clock := h_clock h; h_watching := h_watching h |}.

(** The timer fired. *)
Definition on_fired (h : host) : host := {|
  h_watcher := (reload (h_watcher h) (h_file h) (h_clock h)).1; h_timer := None;
  h_file := h_file h; h_events := h_events h; h_clock := h_clock h; h_watching := h_watching h |}.

(** Start's first part: nothing without a path, and else the first load. *)
Definition start_load (h : host) : host :=
  if String.eqb (w_path (h_watcher h)) "" then h
  else {| h_watcher := (reload (h_watcher h) (h_file h) (h_clock h)).1; h_timer := None;
          h_file := h_file h; h_events := h_events h; h_clock := h_clock h; h_watching := false |}.

(** Its second: the directory is watched from here on, if that succeeds. *)
Definition start_watch (h : host) (added : bool) : host := {|
  h_watcher := h_watcher h; h_timer := None; h_file := h_file h; h_events := [];
  h_clock := h_clock h; h_watching := added && negb (String.eqb (w_path (h_watcher h)) "") |}.

(** The file becomes what it becomes; events go to who watches. *)
Definition write_file (h : host) (content : file) (events : list string) : host := {|
  h_watcher := h_watcher h; h_timer := h_timer h; h_file := content;
  h_events := h_events h ++ (if h_watching h then events else []);
  h_clock := h_clock h; h_watching := h_watching h |}.

Definition with_watcher (h : host) (w : Watcher) : host := {|
  h_watcher := w; h_timer := h_timer h; h_file := h_file h; h_events := h_events h;
  h_clock := h_clock h; h_watching := h_watching h |}.

Definition pass_time (h : host) (d : Z) : host := {|
  h_watcher := h_watcher h; h_timer := h_timer h; h_file := h_file h; h_events := h_events h;
  h_clock := h_clock h + d; h_watching := h_watching h |}.

(** What the loop itself does. *)
Inductive loop_step : host → host → Prop :=
| StepEvent h name events :
    h_watching h = true → h_events h = name :: events → loop_step h (on_event h name events)
| StepFired h deadline :
    h_watching h = true → h_timer h = Some deadline → deadline ≤ h_clock h → loop_step h (on_fired h)
| StepTime h d : 0 ≤ d → loop_step h (pass_time h d).

(** Two spellings of one pathname. *)
Definition names_file (path name : string) : Prop := path_clean name = path_clean path.

(** What else happens: a change of the file raises an event under a spelling
    of its name, among others; so may a sibling's; and subscribers come. *)
Inductive host_step : host → host → Prop :=
| StepLoop h h' : loop_step h h' → host_step h h'
| StepWrite h content events :
    Exists (names_file (w_path (h_watcher h))) events → host_step h (write_file h content events)
| StepSibling h events : host_step h (write_file h (h_file h) events)
| StepSubscribe h : host_step h (with_watcher h (Changes (h_watcher h)).1).

(** A subscriber's loop: told of a load, it takes the notification and then
    reads what the source shows. *)
Record subscriber := { sb_host : host; sb_place : nat; sb_woken : bool; sb_read : T }.

Inductive subscriber_step : subscriber → subscriber → Prop :=
| StepHost s h :
    host_step (sb_host s) h →
    subscriber_step s {| sb_host := h; sb_place := sb_place s; sb_woken := sb_woken s; sb_read := sb_read s |}
| StepOther s i :
    i ≠ sb_place s →
    subscriber_step s {| sb_host := with_watcher (sb_host s) (receive (h_watcher (sb_host s)) i).1;
                         sb_place := sb_place s; sb_woken := sb_woken s; sb_read := sb_read s |}
| StepTold s :
    sb_woken s = false → (receive (h_watcher (sb_host s)) (sb_place s)).2 = true →
    subscriber_step s {| sb_host := with_watcher (sb_host s) (receive (h_watcher (sb_host s)) (sb_place s)).1;
                         sb_place := sb_place s; sb_woken := true; sb_read := sb_read s |}
| StepRead s :
    sb_woken s = true →
    subscriber_step s {| sb_host := sb_host s; sb_place := sb_place s; sb_woken := false;
                         sb_read := sn_value (snapshot_of (h_watcher (sb_host s))) |}.
End Reload.
End Watcher.
Arguments Watcher : clear implicits.
Arguments Snapshot : clear implicits.
Arguments host : clear implicits.
Arguments subscriber : clear implicits.
Arguments Parse : clear implicits.
End FileSource.
