(* ===== verification/FileSourceTheorems.v ===== *)
(** * Watched files: theorems

    What a watched source shows is the history of its loads; a change of a
    watched file is never missed; and a subscriber that is told nothing has
    read what there is. *)

From Stdlib Require Import Ascii String.
From S2P Require Import Prelude FileSource.

Module FileSourceTheorems.
Import FileSource.

Local Open Scope Z_scope.

Section Watcher.
Context {T : Type} (parse : Parse T) (messages : Messages).

(** ** The history of the loads *)

(** What is worth keeping of a history: the last value that parsed and when,
    and how the last load failed, if it did. *)
Record history := { good : option (T * Z); failed : option (Reason * string) }.

Definition no_history : history := {| good := None; failed := None |}.

Definition outcome (zero : T) (h : history) (read : file) : result (Reason * string) T :=
  match read with
  | Err diagnostic => Err (ReadFailed, diagnostic)
  | Ok document => parse (default zero (fst <$> good h)) document
  end.

Definition loads (zero : T) (h : history) (l : file * Z) : history :=
  match outcome zero h l.1 with
  | Ok value => {| good := Some (value, l.2); failed := None |}
  | Err e => {| good := good h; failed := Some e |}
  end.

Definition shown (zero : T) (path : string) (h : history) : Snapshot T := {|
  sn_value := default zero (fst <$> good h); sn_loaded_at := default zero_time (snd <$> good h);
  sn_stale := bool_decide (is_Some (good h)) && bool_decide (is_Some (failed h));
  sn_error := (λ e, {| fe_reason := e.1; fe_message := message messages e.1 (bool_decide (is_Some (good h))) |}) <$> failed h;
  sn_configured := negb (String.eqb path ""); sn_available := bool_decide (is_Some (good h)) |}.

Definition reload_all (w : Watcher T) (l : list (file * Z)) : Watcher T :=
  foldl (λ w r, (reload parse messages w r.1 r.2).1) w l.

Lemma reload_all_shown zero path l :
  w_path (reload_all (New zero path) l) = path ∧
  snapshot_of (reload_all (New zero path) l) = shown zero path (foldl (loads zero) no_history l) ∧
  (w_last_err (reload_all (New zero path) l) =
    match failed (foldl (loads zero) no_history l) with Some (r, d) => r +:+ ": " +:+ d | None => "" end)%string.
Proof.
  induction l as [|[read now] l (Hp & Hs & He)] using rev_ind; [by split_and!|].
  unfold reload_all in *. rewrite !foldl_app. cbn [foldl].
  set (w := foldl _ _ l) in *. set (h := foldl (loads zero) _ l) in *.
  assert (w_value w = default zero (fst <$> good h)) as Hv by (apply (f_equal sn_value) in Hs; exact Hs).
  assert (w_loaded_at w = default zero_time (snd <$> good h)) as Hat by (apply (f_equal sn_loaded_at) in Hs; exact Hs).
  assert (w_loaded w = bool_decide (is_Some (good h))) as Hl by (apply (f_equal sn_available) in Hs; exact Hs).
  unfold loads, outcome. cbn [fst snd].
  assert (∀ reason diagnostic, snapshot_of (recordFailure messages w reason diagnostic).1 =
    shown zero path {| good := good h; failed := Some (reason, diagnostic) |}) as Hfail.
  { intros reason diagnostic. unfold snapshot_of, recordFailure, shown. cbn. rewrite Hv, Hat, Hl, Hp, andb_true_r. done. }
  unfold reload. destruct read as [document|diagnostic]; [|by split_and!].
  rewrite Hv. destruct (parse _ document) as [value|[reason diagnostic]]; [|by split_and!].
  split_and!; [done| |done]. unfold snapshot_of, publish, shown. cbn. by rewrite Hp.
Qed.

(** What is logged of a failure. *)
Definition said (e : Reason * string) : string := e.1 +:+ ": " +:+ e.2.

(** The log lines of a load, by the history before it. *)
Definition log_of (zero : T) (h : history) (read : file) : list logged :=
  match outcome zero h read, failed h with
  | Ok _, None => []
  | Ok _, Some _ => [LoadRecovered]
  | Err e, Some e' => if bool_decide (said e = said e') then [] else [CannotLoad e.1 e.2]
  | Err e, None => [CannotLoad e.1 e.2]
  end.

Lemma said_something e : said e ≠ ""%string.
Proof. unfold said. destruct e as [reason diagnostic]. by destruct reason. Qed.

Lemma recordFailure_log (w : Watcher T) e previous reason diagnostic :
  w_last_err w = match previous with Some e => said e | None => "" end%string → e = (reason, diagnostic) →
  (recordFailure messages w reason diagnostic).2 =
    match previous with
    | Some e' => if bool_decide (said e = said e') then [] else [CannotLoad e.1 e.2]
    | None => [CannotLoad e.1 e.2]
    end.
Proof.
  intros Hl ->. unfold recordFailure. cbn [snd]. rewrite Hl. change (reason +:+ ": " +:+ diagnostic)%string with (said (reason, diagnostic)).
  destruct previous as [e'|].
  - destruct (String.eqb_spec (said e') (said (reason, diagnostic))) as [->|Hne]; [by rewrite bool_decide_eq_true_2|].
    by rewrite bool_decide_eq_false_2 by congruence.
  - pose proof (said_something (reason, diagnostic)) as Hs. by destruct (said (reason, diagnostic)).
Qed.

(** C29: a source shows its last valid value, and whether that is current.
    After any sequence of loads the snapshot is the history's: the value and
    the time of the last load that parsed, each parsed from the value before
    it; stale exactly when there is one and the last load failed; the error
    of the last load, in the words for a value that is kept or for none. And
    of every further load it is known what is logged: a failure, unless the
    load before it failed with the same text; the recovery, when a load that
    parses follows one that failed; and nothing else. *)
Theorem source_shows_last_valid zero path l :
  snapshot_of (reload_all (New zero path) l) = shown zero path (foldl (loads zero) no_history l) ∧
  ∀ read now, (reload parse messages (reload_all (New zero path) l) read now).2 =
    log_of zero (foldl (loads zero) no_history l) read.
Proof.
  destruct (reload_all_shown zero path l) as (_ & Hs & He). split; [exact Hs|].
  assert (w_value (reload_all (New zero path) l) = default zero (fst <$> good (foldl (loads zero) no_history l))) as Hv
    by (apply (f_equal sn_value) in Hs; exact Hs).
  assert (w_last_err (reload_all (New zero path) l) =
    match failed (foldl (loads zero) no_history l) with Some e => said e | None => "" end)%string as Hl.
  { rewrite He. by destruct (failed _) as [[r d]|]. }
  clear Hs He. revert Hv Hl. generalize (reload_all (New zero path) l), (foldl (loads zero) no_history l).
  intros w h Hv Hl read now. unfold log_of, outcome, reload.
  destruct read as [document|d]; [|by erewrite recordFailure_log].
  rewrite <-Hv. destruct (parse _ document) as [value|[r d]]; [|by erewrite recordFailure_log].
  unfold publish. cbn [snd]. rewrite Hl. destruct (failed h) as [e|]; [|done].
  pose proof (said_something e) as Hne. by destruct (said e).
Qed.

(** ** Changes are not missed *)

(** The watcher shows what a load of [read] would. *)
Definition shows (w : Watcher T) (read : file) : Prop :=
  ∃ w0 now, w_path w0 = w_path w ∧ snapshot_of w = snapshot_of (reload parse messages w0 read now).1.

Definition pending (h : host T) : Prop :=
  h_timer h ≠ None ∨ Exists (names_file (w_path (h_watcher h))) (h_events h).

Definition up_to_date (h : host T) : Prop := shows (h_watcher h) (h_file h).

Definition watched (h : host T) : Prop := h_watching h = true ∧ (pending h ∨ up_to_date h).

Lemma reload_path w read now : w_path (reload parse messages w read now).1 = w_path w.
Proof. unfold reload, recordFailure, publish. by repeat case_match. Qed.

Lemma reload_shows w read now : shows (reload parse messages w read now).1 read.
Proof. exists w, now. by rewrite reload_path. Qed.

(** The loop takes an event for its own exactly when it names its file. *)
Lemma own_event_spec (w : Watcher T) name : own_event w name = true ↔ names_file (w_path w) name.
Proof. apply String.eqb_eq. Qed.

Lemma loop_step_watched h h' : watched h → loop_step parse messages h h' → watched h'.
Proof.
  intros [Hw Hp] Hstep. destruct Hstep as [h name events _ He|h deadline _ Ht _|h d _].
  - split; [done|]. unfold pending, up_to_date, on_event in *. cbn. rewrite He in Hp. cbn in Hp.
    destruct (own_event (h_watcher h) name) eqn:Eo; [by left; left|].
    destruct Hp as [[Ht|[Hn|Hrest]%Exists_cons]|Hs]; [by left; left| |by left; right|by right].
    apply own_event_spec in Hn. congruence.
  - split; [done|]. right. apply reload_shows.
  - split; [done|exact Hp].
Qed.

Lemma host_step_watched h h' : watched h → host_step parse messages h h' → watched h'.
Proof.
  intros Hh Hstep. destruct Hstep as [h h' Hstep|h content events He|h events|h].
  - by eapply loop_step_watched.
  - destruct Hh as [Hw Hp]. split; [done|]. left. right. cbn. rewrite Hw. apply Exists_app. by right.
  - destruct Hh as [Hw Hp]. split; [done|]. unfold pending, up_to_date in *. cbn in *. rewrite Hw, Exists_app.
    destruct Hp as [[Ht|He]|Hs]; [by left; left|left; right; by left|by right].
  - destruct Hh as [Hw Hp]. split; [done|]. exact Hp.
Qed.

(** The loop alone takes the events there are and then fires. *)
Lemma loop_drains h : h_watching h = true → ∃ h', rtc (loop_step parse messages) h h' ∧
  h_file h' = h_file h ∧ h_events h' = [] ∧ h_watching h' = true.
Proof.
  remember (h_events h) as events eqn:E. revert h E. induction events as [|name events IH]; intros h E Hw.
  - exists h. split_and!; [reflexivity|done|done|done].
  - destruct (IH (on_event h name events) eq_refl Hw) as (h' & Hr & Hf & He & Hw').
    exists h'. split_and!; [|done|done|done]. eapply rtc_l; [|exact Hr]. by apply StepEvent.
Qed.

Lemma loop_catches_up h : watched h → ∃ h', rtc (loop_step parse messages) h h' ∧
  h_file h' = h_file h ∧ h_events h' = [] ∧ h_timer h' = None ∧ up_to_date h'.
Proof.
  intros Hh. destruct (loop_drains h (proj1 Hh)) as (h1 & Hr & Hf & He & Hw1).
  assert (watched h1) as [_ Hp] by (clear Hf He Hw1; induction Hr; eauto using loop_step_watched).
  destruct (h_timer h1) as [deadline|] eqn:Et.
  - set (h2 := pass_time h1 (Z.max 0 (deadline - h_clock h1))).
    exists (on_fired parse messages h2). split_and!; [|done|done|done|apply reload_shows].
    etransitivity; [exact Hr|]. eapply rtc_l; [apply (StepTime _ _ h1 (Z.max 0 (deadline - h_clock h1))); lia|].
    eapply rtc_once, (StepFired _ _ h2 deadline); [done|done|]. cbn. lia.
  - exists h1. split_and!; [done|done|done|done|]. destruct Hp as [[?|Hp]|Hp]; [done| |done].
    rewrite He in Hp. by apply Exists_nil in Hp.
Qed.

(** C30: a watched file's change is not missed. Once the directory is watched
    and the file has not changed since its first load, then whatever changes
    follow, each with an event under some spelling of the file's pathname
    (what filepath.Clean makes equal), and however the events of its
    neighbours mix with its own, the
    source shows what a load of the file would, or an event or the timer is
    still to come; and from any such state the loop by itself reaches one
    where it is up to date, so the last change of a burst is what is shown. *)
Theorem changes_are_not_missed w content clock h :
  w_path w ≠ ""%string →
  let started := start_load parse messages {| h_watcher := w; h_timer := None; h_file := content; h_events := [];
                                              h_clock := clock; h_watching := false |} in
  rtc (host_step parse messages) (start_watch started true) h →
  (pending h ∨ up_to_date h) ∧
  ∃ h', rtc (loop_step parse messages) h h' ∧ h_file h' = h_file h ∧ ¬ pending h' ∧ up_to_date h'.
Proof.
  intros Hpath started Hr.
  assert (watched (start_watch started true)) as Hs.
  { subst started. unfold start_load. cbn. destruct (String.eqb_spec (w_path w) ""); [done|].
    unfold watched, start_watch, up_to_date. cbn. rewrite reload_path. destruct (String.eqb_spec (w_path w) ""); [done|].
    split; [done|]. right. apply reload_shows. }
  assert (watched h) as Hh by (clear -Hs Hr; induction Hr; eauto using host_step_watched).
  split; [apply Hh|]. destruct (loop_catches_up h Hh) as (h' & Hl & Hf & He & Ht & Hu).
  exists h'. split_and!; [done|done| |done]. unfold pending. rewrite He, Ht. intros [?|Hn]; [done|]. by apply Exists_nil in Hn.
Qed.

(** ** Subscribers *)

(** Nothing to be told and nothing to read: what was read is what there is. *)
Definition informed (s : subscriber T) : Prop :=
  (sb_place s < length (w_subscribers (h_watcher (sb_host s))))%nat ∧
  (sb_woken s = false → w_subscribers (h_watcher (sb_host s)) !! sb_place s = Some false →
   sb_read s = w_value (h_watcher (sb_host s))).

(** A watcher that goes on: everybody is told, or nothing they read moved. *)
Definition goes_on (w w' : Watcher T) : Prop :=
  (length (w_subscribers w) ≤ length (w_subscribers w'))%nat ∧
  ∀ i, (i < length (w_subscribers w))%nat →
    w_subscribers w' !! i = Some true ∨
    (w_subscribers w' !! i = w_subscribers w !! i ∧ w_value w' = w_value w).

Lemma goes_on_refl w : goes_on w w.
Proof. split; [done|]. by right. Qed.

Lemma reload_goes_on w read now : goes_on w (reload parse messages w read now).1.
Proof.
  assert (∀ reason diagnostic, goes_on w (recordFailure messages w reason diagnostic).1) as Hf.
  { intros. split; [done|]. intros i Hi. by right. }
  unfold reload. repeat case_match; try apply Hf. split; [cbn; by rewrite length_fmap|].
  intros i Hi. left. cbn. destruct (lookup_lt_is_Some_2 _ _ Hi) as [b Hb]. by rewrite list_lookup_fmap, Hb.
Qed.

Lemma host_step_goes_on h h' : host_step parse messages h h' → goes_on (h_watcher h) (h_watcher h').
Proof.
  intros [h1 h1' Hstep|h1 content events _|h1 events|h1]; try apply goes_on_refl.
  - destruct Hstep; try apply goes_on_refl. apply reload_goes_on.
  - split; [cbn; rewrite length_app; lia|]. intros i Hi. right. split; [|done]. cbn. by apply lookup_app_l.
Qed.

Lemma subscriber_step_informed s s' : informed s → subscriber_step parse messages s s' → informed s'.
Proof.
  intros [Hlt Hs] Hstep. destruct Hstep as [s h Hstep|s i Hne|s Hw Ht|s Hw]; unfold informed; cbn.
  - apply host_step_goes_on in Hstep as [Hl Hi]. split; [lia|]. intros Hw Hf.
    destruct (Hi _ Hlt) as [Ht|[He Hv]]; [congruence|]. rewrite Hv. apply Hs; [done|congruence].
  - rewrite length_insert. split; [done|]. rewrite list_lookup_insert_ne by done. exact Hs.
  - rewrite length_insert. by split.
  - by split.
Qed.

(** C31: notifications coalesce, and none is lost. A subscriber that came
    before the first load, and after each notification reads what the source
    shows, has read the current value whenever it waits with nothing to be
    told; however many loads one notification stood for, and whatever other
    subscribers do. *)
Theorem notified_subscriber_is_current zero path content clock s :
  let h := {| h_watcher := (Changes (New zero path)).1; h_timer := None; h_file := content; h_events := [];
              h_clock := clock; h_watching := false |} in
  rtc (subscriber_step parse messages)
    {| sb_host := start_watch (start_load parse messages h) true; sb_place := (Changes (New zero path)).2;
       sb_woken := false; sb_read := zero |} s →
  sb_woken s = false → w_subscribers (h_watcher (sb_host s)) !! sb_place s = Some false →
  sb_read s = sn_value (snapshot_of (h_watcher (sb_host s))).
Proof.
  intros h Hr. assert (informed s) as [_ Hs]; [|exact Hs].
  assert (informed {| sb_host := start_watch (start_load parse messages h) true; sb_place := (Changes (New zero path)).2;
                      sb_woken := false; sb_read := zero |}) as Hi.
  { assert (goes_on (h_watcher h) (h_watcher (start_watch (start_load parse messages h) true))) as [Hl Hi].
    { unfold start_load. cbn. destruct (String.eqb path ""); [apply goes_on_refl|]. apply reload_goes_on. }
    split; [cbn in *; lia|]. intros _ Hf. cbn [sb_host sb_read sb_place] in *.
    destruct (Hi 0%nat) as [Ht|[_ Hv]]; [cbn; lia|assert (Some true = Some false) as [=]; rewrite <-Hf; symmetry; exact Ht|]. by rewrite Hv. }
  clear -Hi Hr. induction Hr; eauto using subscriber_step_informed.
Qed.
End Watcher.

(** ** A source, concretely *)

Module Examples.
Local Open Scope string_scope.

(** A document is its own value; one that says bad does not parse. *)
Definition text (_ : string) (document : string) : result (Reason * string) string :=
  if String.eqb document "bad" then Err ("parse_failed", "bad document") else Ok document.

Definition texts : Messages :=
  [(ReadFailed, {| m_fresh := "unreadable"; m_stale := "unreadable; last valid kept" |});
   ("parse_failed", {| m_fresh := "unparsable"; m_stale := "unparsable; last valid kept" |})].

Definition host_of (content : string) : host string := {|
  h_watcher := New "" "/etc/source.txt"; h_timer := None; h_file := Ok content; h_events := [];
  h_clock := 0; h_watching := false |}.

(** A half-saved file: the last valid value stays, stale. *)
Example half_saved : snapshot_of (reload_all text texts (New "" "/etc/source.txt") [(Ok "first", 1); (Ok "bad", 2)]) =
  {| sn_value := "first"; sn_loaded_at := 1; sn_stale := true;
     sn_error := Some {| fe_reason := "parse_failed"; fe_message := "unparsable; last valid kept" |};
     sn_configured := true; sn_available := true |}.
Proof. vm_compute. reflexivity. Qed.

Definition loaded : host string := start_watch (start_load text texts (host_of "first")) true.
Definition saved : host string := write_file loaded (Ok "second") ["/etc/./source.txt"].

Lemma changes_are_not_missed_witness :
  snapshot_of (h_watcher saved) = snapshot_of (h_watcher loaded) ∧
  (pending saved ∨ up_to_date text texts saved).
Proof.
  split; [vm_compute; reflexivity|].
  refine (proj1 (changes_are_not_missed text texts (New "" "/etc/source.txt") (Ok "first") 0 saved _ _)).
  - vm_compute. congruence.
  - apply rtc_once. apply (StepWrite text texts loaded (Ok "second") ["/etc/./source.txt"]).
    apply Exists_cons_hd. vm_compute. reflexivity.
Defined.

Definition subscribed : host string := {|
  h_watcher := (Changes (New "" "/etc/source.txt")).1; h_timer := None; h_file := Ok "first"; h_events := [];
  h_clock := 0; h_watching := false |}.

(** Told of the first load, it reads it. *)
Definition reader : subscriber string := {|
  sb_host := with_watcher (start_watch (start_load text texts subscribed) true)
    (receive (h_watcher (start_watch (start_load text texts subscribed) true)) 0).1;
  sb_place := 0; sb_woken := false; sb_read := "first" |}.

Lemma notified_subscriber_is_current_witness : sb_read reader = sn_value (snapshot_of (h_watcher (sb_host reader))).
Proof.
  refine (notified_subscriber_is_current text texts "" "/etc/source.txt" (Ok "first") 0 reader _ _ _).
  - eapply rtc_l; [apply StepTold; vm_compute; reflexivity|].
    apply rtc_once.
    exact (StepRead text texts {| sb_host := sb_host reader; sb_place := 0; sb_woken := true; sb_read := "" |} eq_refl).
  - reflexivity.
  - vm_compute. reflexivity.
Defined.

(** The file changes between the first load and the watch of its directory:
    no event is received, and nothing is to come. The source keeps showing
    what it loaded first, and not as stale. *)
Example change_before_watch_is_missed :
  let changed := write_file (start_load text texts (host_of "first")) (Ok "second") ["/etc/source.txt"] in
  h_timer (start_watch changed true) = None ∧ h_events (start_watch changed true) = [] ∧
  h_file (start_watch changed true) = Ok "second" ∧
  sn_value (snapshot_of (h_watcher (start_watch changed true))) = "first" ∧
  sn_stale (snapshot_of (h_watcher (start_watch changed true))) = false.
Proof. vm_compute. done. Qed.
End Examples.
End FileSourceTheorems.
