(* ===== verification/Watchers.v ===== *)
(** * The two watched sources (internal/xrayconfig/source.go, watcher.go and
      internal/advertisements/source.go, watcher.go)

    Each is a watched file over its own parse, with its own words for a
    failure and its own report of a load. *)

From Stdlib Require Import Ascii String.
From S2P Require Import Prelude XrayConfig Advertisements AdvertisementsParse FileSource FileSourceTheorems.

Module Watchers.
Import FileSource FileSourceTheorems.

Local Open Scope Z_scope.

Definition ParseFailed : Reason := "parse_failed".
Definition UnsupportedVersion : Reason := "unsupported_version".

(** ** The xray config *)

Definition xray_messages : Messages := [
  (ReadFailed, {| m_fresh := "The configured xray file could not be read.";
                  m_stale := "The configured xray file could not be read; profiles use the last valid parse." |});
  (ParseFailed, {| m_fresh := "The configured xray file could not be parsed.";
                   m_stale := "The configured xray file could not be parsed; profiles use the last valid parse." |})].

Section WithRuntime.
Context `{GoRuntime} `{HostRuntime}.

(** A parse failure's text, for the log. *)
Variable diagnostic : string → string.
(** json.Unmarshal of a document into the config's types. *)
Variable decode : string → option XrayConfig.config.

Definition xray_parse : Parse XrayConfig.Parsed := λ previous document,
  match XrayConfig.parseSource decode previous document with
  | Ok parsed => Ok parsed
  | Err _ => Err (ParseFailed, diagnostic document)
  end.

Definition NewXrayWatcher (path : string) : Watcher XrayConfig.Parsed := New XrayConfig.zeroParsed path.

Definition Roster (w : Watcher XrayConfig.Parsed) : XrayConfig.RosterParse * Z :=
  let parsed := sn_value (snapshot_of w) in (XrayConfig.p_roster parsed, XrayConfig.p_version parsed).

(** logRosterChanges on a load: the version reported next, and the number of
    users logged when the roster moved. *)
Definition logRosterChanges (reported : Z) (w : Watcher XrayConfig.Parsed) : Z * option nat :=
  let parsed := sn_value (snapshot_of w) in
  if XrayConfig.p_version parsed =? reported then (reported, None)
  else (XrayConfig.p_version parsed, Some (size (default ∅ (XrayConfig.rp_labels (XrayConfig.p_roster parsed))))).

(** ** The Advertised connection settings *)

Definition advertisement_messages : Messages := [
  (ReadFailed, {| m_fresh := "The Advertised connection settings file could not be read.";
                  m_stale := "The Advertised connection settings file could not be read. Profiles use the last valid Advertised connection settings." |});
  (ParseFailed, {| m_fresh := "The Advertised connection settings file could not be parsed.";
                   m_stale := "The Advertised connection settings file could not be parsed. Profiles use the last valid Advertised connection settings." |});
  (UnsupportedVersion, {| m_fresh := "The Advertised connection settings version is not supported.";
                          m_stale := "The Advertised connection settings version is not supported. Profiles use the last valid Advertised connection settings." |})].

Definition advertisement_parse : Parse Advertisements.View := λ _ document,
  match AdvertisementsParse.Parse document with
  | Ok view => Ok view
  | Err AdvertisementsParse.ErrUnsupportedVersion => Err (UnsupportedVersion, diagnostic document)
  | Err _ => Err (ParseFailed, diagnostic document)
  end.

Definition NewAdvertisementWatcher (path : string) : Watcher Advertisements.View :=
  New {| Advertisements.advertisements := [] |} path.

(** warnUnknownInbounds: how many tags name no current inbound, when there
    is something to warn of and the xray view is current. *)
Definition warnUnknownInbounds (inbounds : option (Snapshot XrayConfig.Parsed)) (view : Advertisements.View) : option nat :=
  match inbounds with
  | None => None
  | Some snapshot =>
      if negb (sn_available snapshot) || sn_stale snapshot then None
      else
        let known : gset string :=
          list_to_set (XrayConfig.ib_tag <$> XrayConfig.v_inbounds (XrayConfig.p_view (sn_value snapshot))) in
        let tags : gset string :=
          list_to_set (filter (λ t, t ≠ ""%string) (Advertisements.ad_inbound_tag <$> Advertisements.advertisements view)) in
        let unknown := tags ∖ known in
        if bool_decide (unknown = ∅) then None else Some (size unknown)
  end.

(** reportLoads on a load of its own, and on one of the xray config: the
    advertisements logged, if any, and the warning. *)
Definition report_load (inbounds : option (Snapshot XrayConfig.Parsed)) (w : Watcher Advertisements.View) :
    option nat * option nat :=
  let view := sn_value (snapshot_of w) in
  (Some (length (Advertisements.advertisements view)), warnUnknownInbounds inbounds view).

Definition report_inbounds (inbounds : option (Snapshot XrayConfig.Parsed)) (w : Watcher Advertisements.View) :
    option nat * option nat :=
  let snapshot := snapshot_of w in
  (None, if sn_available snapshot then warnUnknownInbounds inbounds (sn_value snapshot) else None).

(** ** Theorems *)

(** The documents of a history of reads that could be read. *)
Definition documents (l : list (file * Z)) : list string :=
  omap (λ r, match r.1 with Ok document => Some document | Err _ => None end) l.

Lemma xray_value path l :
  sn_value (snapshot_of (reload_all xray_parse xray_messages (NewXrayWatcher path) l)) =
    foldl (XrayConfig.load decode) XrayConfig.zeroParsed (documents l).
Proof.
  destruct (reload_all_shown xray_parse xray_messages XrayConfig.zeroParsed path l) as (_ & Hs & _).
  apply (f_equal sn_value) in Hs. unfold NewXrayWatcher. rewrite Hs. unfold shown. cbn [sn_value]. clear Hs.
  induction l as [|[read now] l IH] using rev_ind; [done|].
  unfold documents. rewrite omap_app, !foldl_app. fold (documents l). cbn [foldl omap list_omap fst].
  rewrite <-IH. clear IH. set (h := foldl _ _ l). unfold loads, outcome. cbn [fst snd].
  destruct read as [document|e]; [|done]. cbn [foldl]. unfold xray_parse, XrayConfig.load.
  destruct (XrayConfig.parseSource decode _ document); done.
Qed.

(** The roster version moves exactly with the roster. Over any history
    of reads of the xray config, readable or not and parsed or not, the
    version handed to the collector is the number of times the roster it
    hands off changed, and the roster is the last one that parsed. *)
Theorem roster_version_follows_source path l :
  let w := reload_all xray_parse xray_messages (NewXrayWatcher path) l in
  (Roster w).2 = u64 (XrayConfig.roster_changes None (XrayConfig.rosters decode (documents l))) ∧
  (∀ roster, last (XrayConfig.rosters decode (documents l)) = Some roster → (Roster w).1 = roster).
Proof.
  cbv zeta. unfold Roster. cbv zeta. cbn [fst snd]. rewrite xray_value. split; [apply XrayConfig.roster_version_counts|].
  intros roster. induction (documents l) as [|document ds IH] using rev_ind; [done|].
  unfold XrayConfig.rosters. rewrite omap_app, foldl_app. cbn [foldl omap list_omap].
  unfold XrayConfig.load at 1, XrayConfig.parseSource.
  destruct (XrayConfig.parse decode document) as [[r v]|]; cbn [fst fmap option_fmap option_map].
  - rewrite last_snoc. by intros [= <-].
  - rewrite app_nil_r. exact IH.
Qed.
End WithRuntime.
End Watchers.
