(* ===== verification/Snapshots.v ===== *)
(** * Snapshots (internal/snapshot, internal/configsnapshot)

    The cache that keeps the last good snapshot of a collector, and the one
    bounded read of the configured xray file. *)

From Stdlib Require Import Ascii String.
From S2P Require Import Prelude GoJson GoText.

(** ** The refreshing cache (snapshot.go) *)

Module Snapshots.

Section Cache.
Context {T E : Type}.

Record Cache := { latest : T; ok : bool }.

Definition NewCache (zero : T) : Cache := {| latest := zero; ok := false |}.

(** [collected] is what the source answers. *)
Definition collect (c : Cache) (collected : result E T) : Cache * result E T :=
  match collected with
  | Err e => (c, if ok c then Ok (latest c) else Err e)
  | Ok snap => ({| latest := snap; ok := true |}, Ok snap)
  end.

(** A caller that finds the cache empty waits for the refresh lock and looks
    again; [primed] is what it finds then. *)
Definition Latest (c primed : Cache) (collected : result E T) : Cache * result E T :=
  if ok c then (c, Ok (latest c))
  else if ok primed then (primed, Ok (latest primed))
  else collect primed collected.

(** Every tick of Start. *)
Definition tick (c : Cache) (collected : result E T) : Cache := (collect c collected).1.

(** The last answer of the source that was one. *)
Fixpoint last_good (answers : list (result E T)) : option T :=
  match answers with
  | [] => None
  | a :: answers =>
      match last_good answers with
      | Some t => Some t
      | None => match a with Ok t => Some t | Err _ => None end
      end
  end.

Lemma last_good_snoc answers a :
  last_good (answers ++ [a]) = match a with Ok t => Some t | Err _ => last_good answers end.
Proof.
  induction answers as [|b answers IH]; cbn; [by destruct a|]. rewrite IH. destruct a; [done|]. done.
Qed.

(** Ticks keep the last good answer, and once there is one Latest never
    fails and never waits for the source. *)
Lemma ticks_keep_last_good zero answers :
  let c := foldl tick (NewCache zero) answers in
  match last_good answers with
  | Some t => ok c = true ∧ latest c = t ∧ ∀ primed collected, Latest c primed collected = (c, Ok t)
  | None => c = NewCache zero
  end.
Proof.
  cbv zeta. induction answers as [|a answers IH] using rev_ind; [done|].
  rewrite foldl_app, last_good_snoc. cbn [foldl]. set (c := foldl _ _ answers) in *. unfold tick, collect.
  destruct a as [t|e]; cbn; [done|]. exact IH.
Qed.
End Cache.
End Snapshots.

(** ** The config snapshot (configsnapshot.go, file.go) *)

Module ConfigSnapshot.
Import GoJson GoText.

Local Open Scope Z_scope.

Inductive Reason := ReasonUnreadable | ReasonTooLarge | ReasonNotUTF8.

(** A stable reason, or the caller's own cancellation. *)
Inductive readError := Failure (reason : Reason) | CallerGone.

(** The capture time is the clock's. *)
Record Snapshot := { sn_path : string; sn_size_bytes : Z; sn_text : string }.

Definition maxBytes : Z := Z.shiftl 4 20.

Record Reader := { r_path : string; r_limit : Z }.

Definition NewReader (path : string) : Reader := {| r_path := path; r_limit := maxBytes |}.

(** One Read of the content: bytes, or an error; [gone] when the caller had
    gone by the time it was looked at. *)
Inductive chunk := Data (bytes : list Z) | ReadFails (gone : bool).

(** What the path landed on. *)
Record target := { t_regular : bool; t_content : list chunk }.

(** io.ReadAll of the content limited to [n] bytes: past the limit nothing
    more is asked for. *)
Fixpoint read_limited (n : nat) (content : list chunk) : result bool (list Z) :=
  match content with
  | [] => Ok []
  | c :: content =>
      match n with
      | O => Ok []
      | S _ =>
          match c with
          | ReadFails gone => Err gone
          | Data bytes =>
              let bytes := take n bytes in
              match read_limited (n - length bytes) content with
              | Ok rest => Ok (bytes ++ rest)
              | Err gone => Err gone
              end
          end
      end
  end.

(** [opened]: what openPath answers, when the path opens and can be looked
    at. *)
Definition Read (r : Reader) (gone : bool) (opened : option target) : result readError Snapshot :=
  if gone then Err CallerGone
  else
    match opened with
    | None => Err (Failure ReasonUnreadable)
    | Some file =>
        if negb (t_regular file) then Err (Failure ReasonUnreadable)
        else
          match read_limited (Z.to_nat (r_limit r + 1)) (t_content file) with
          | Err true => Err CallerGone
          | Err false => Err (Failure ReasonUnreadable)
          | Ok content =>
              if r_limit r <? Z.of_nat (length content) then Err (Failure ReasonTooLarge)
              else if negb (utf8_valid (of_bytes content)) then Err (Failure ReasonNotUTF8)
              else Ok {| sn_path := r_path r; sn_size_bytes := Z.of_nat (length content); sn_text := of_bytes content |}
          end
    end.

(** The bytes of a content no read of which fails. *)
Fixpoint whole (content : list chunk) : option (list Z) :=
  match content with
  | [] => Some []
  | Data bytes :: content => rest ← whole content; Some (bytes ++ rest)
  | ReadFails _ :: _ => None
  end.

Lemma read_limited_length n content bytes : read_limited n content = Ok bytes → (length bytes ≤ n)%nat.
Proof.
  revert n bytes. induction content as [|c content IH]; intros n bytes; cbn [read_limited]; [intros [= <-]; simpl; lia|].
  destruct n as [|n]; [intros [= <-]; simpl; lia|]. destruct c as [l|]; [|done].
  destruct (read_limited _ content) as [rest|] eqn:E; [|done]. intros [= <-]. apply IH in E.
  rewrite length_app. pose proof (length_take l (S n)). lia.
Qed.

(** Short of the limit, everything was read. *)
Lemma read_limited_whole n content bytes :
  (length bytes < n)%nat → read_limited n content = Ok bytes → whole content = Some bytes.
Proof.
  revert n bytes. induction content as [|c content IH]; intros n bytes Hlt; cbn [read_limited whole]; [by intros [= <-]|].
  destruct n as [|n]; [lia|]. destruct c as [l|]; [|done].
  destruct (read_limited _ content) as [rest|] eqn:E; [|done]. intros [= <-]. rewrite length_app in Hlt.
  pose proof (length_take l (S n)) as Hl. rewrite take_ge by lia. rewrite take_ge in E, Hlt by lia.
  rewrite (IH (S n - length l)%nat rest); [done|lia|exact E].
Qed.

Lemma whole_read_limited n content bytes :
  whole content = Some bytes → read_limited n content = Ok (take n bytes).
Proof.
  revert n bytes. induction content as [|c content IH]; intros n bytes; cbn [read_limited whole].
  { intros [= <-]. by rewrite take_nil. }
  destruct c as [l|]; [|done]. intros (rest & Hr & [= <-])%bind_Some.
  destruct n as [|n]; [done|]. rewrite (IH _ rest Hr), take_app, length_take.
  do 2 f_equal. f_equal. lia.
Qed.

(** C34: a config snapshot is the file, byte for byte, or nothing. It is
    returned exactly when the caller is there, the target is a regular file
    that reads to its end, and what it holds is UTF-8 within the limit; its
    text is those bytes and its size their number. A file that reads to more
    than the limit is refused as too large, whatever it holds. *)
Theorem config_snapshot_is_the_file r gone opened :
  0 ≤ r_limit r →
  (∀ snap, Read r gone opened = Ok snap ↔
    gone = false ∧ ∃ file content, opened = Some file ∧ t_regular file = true ∧
      whole (t_content file) = Some content ∧ Z.of_nat (length content) ≤ r_limit r ∧
      utf8_valid (of_bytes content) = true ∧
      snap = {| sn_path := r_path r; sn_size_bytes := Z.of_nat (length content); sn_text := of_bytes content |}) ∧
  (∀ file content, gone = false → opened = Some file → t_regular file = true →
    whole (t_content file) = Some content → r_limit r < Z.of_nat (length content) →
    Read r gone opened = Err (Failure ReasonTooLarge)).
Proof.
  intros Hlimit. unfold Read. split.
  - intros snap. destruct gone; [split; [done|by intros [? _]]|].
    destruct opened as [file|]; [|split; [done|by intros (_ & ? & ? & ? & _)]].
    destruct (t_regular file) eqn:Er; cbn [negb]; [|split; [done|intros (_ & ? & ? & [= <-] & ? & _); congruence]]. split.
    + destruct (read_limited _ _) as [content|[]] eqn:E; [|done..].
      destruct (Z.ltb_spec (r_limit r) (Z.of_nat (length content))); [done|].
      destruct (utf8_valid (of_bytes content)) eqn:Eu; [|done]. intros [= <-]. split; [done|].
      exists file, content. split_and!; try done. refine (read_limited_whole _ _ _ _ E). lia.
    + intros (_ & file' & content & [= <-] & _ & Hw & Hl & Hu & ->).
      rewrite (whole_read_limited _ _ _ Hw), take_ge by lia.
      destruct (Z.ltb_spec (r_limit r) (Z.of_nat (length content))); [lia|]. by rewrite Hu.
  - intros file content -> -> Hr Hw Hl. rewrite Hr. cbn [negb]. rewrite (whole_read_limited _ _ _ Hw), length_take.
    destruct (Z.ltb_spec (r_limit r) (Z.of_nat (Z.to_nat (r_limit r + 1) `min` length content))); [done|lia].
Qed.

Module Examples.
Local Open Scope string_scope.

Definition reader : Reader := {| r_path := "/etc/xray/config.json"; r_limit := 8 |}.
Definition config : target := {| t_regular := true; t_content := [Data [123]; Data [125; 10]] |}.

Lemma config_snapshot_is_the_file_witness :
  (0 ≤ r_limit reader)%Z ∧
  Read reader false (Some {| t_regular := true; t_content := [Data [97; 97; 97; 97; 97]; Data [97; 97; 97; 97; 97]] |}) =
    Err (Failure ReasonTooLarge).
Proof.
  split; [vm_compute; congruence|].
  destruct (config_snapshot_is_the_file reader false
    (Some {| t_regular := true; t_content := [Data [97; 97; 97; 97; 97]; Data [97; 97; 97; 97; 97]] |})) as [_ Hlarge].
  - vm_compute. congruence.
  - by apply (Hlarge _ [97; 97; 97; 97; 97; 97; 97; 97; 97; 97] eq_refl eq_refl).
Defined.

Example config_read : sn_size_bytes <$> (match Read reader false (Some config) with Ok s => Some s | Err _ => None end) = Some 3%Z.
Proof. vm_compute. reflexivity. Qed.
End Examples.
End ConfigSnapshot.
