(* ===== verification/XrayStats.v ===== *)
(** * The stats client (internal/xraygrpc/xraygrpc.go)

    What the Panel reads of xray's StatsService: the counters by name, their
    sums, and who is online from where. The service is a parameter: what it
    answers to each request. *)

From Stdlib Require Import Ascii String.
From S2P Require Import Prelude Store Collector.

(** xray's StatsService as one poll meets it: an error is a gRPC status. *)
Inductive rpcCode := Unimplemented | NotFound | OtherCode (text : string).

Class StatsService := {
  stats_dial : option string;
  GetSysStats : result rpcCode (Z * Z);                       (* Alloc, NumGoroutine *)
  QueryStats : result rpcCode (list (string * Z));            (* counters, int64 values *)
  GetAllOnlineUsers : result rpcCode (list string);
  GetStatsOnlineIpList : string → result rpcCode (gmap string Z);  (* last seen by IP *)
}.

Module XrayStats.
Import Store.

Local Open Scope Z_scope.

(** ** Counter names *)

(** strings.CutPrefix and strings.CutSuffix. *)
Fixpoint cut_prefix (pre s : string) : option string :=
  match pre, s with
  | EmptyString, _ => Some s
  | String a pre, String b s => if Ascii.eqb a b then cut_prefix pre s else None
  | String _ _, EmptyString => None
  end.

Fixpoint cut_suffix (suffix s : string) : option string :=
  if String.eqb s suffix then Some ""%string
  else match s with EmptyString => None | String c s => String c <$> cut_suffix suffix s end.

(** strings.Cut: what is before the separator's first occurrence and after
    it. *)
Fixpoint cut (sep s : string) : option (string * string) :=
  match cut_prefix sep s with
  | Some after => Some (""%string, after)
  | None =>
      match s with
      | EmptyString => None
      | String c s => '(before, after) ← cut sep s; Some (String c before, after)
      end
  end.

(** strings.Split; every part but the last ends at a separator, so the
    string's length is fuel enough. *)
Fixpoint split_fuel (fuel : nat) (sep s : string) : list string :=
  match fuel with
  | O => [s]
  | S fuel => match cut sep s with Some (part, rest) => part :: split_fuel fuel sep rest | None => [s] end
  end.

Definition split_name (s : string) : list string := split_fuel (String.length s) ">>>" s.

Definition direction (part : string) : option bool :=
  if String.eqb part "uplink" then Some true
  else if String.eqb part "downlink" then Some false else None.

(** The direction of an inbound's counter. *)
Definition inboundTraffic (name : string) : option bool :=
  match split_name name with
  | [kind; tag; what; part] =>
      if String.eqb kind "inbound" && negb (String.eqb tag "api") && String.eqb what "traffic"
      then direction part else None
  | _ => None
  end.

(** The email and the direction of a user's counter. *)
Definition userTraffic (name : string) : option (string * bool) :=
  match split_name name with
  | [kind; email; what; part] =>
      if String.eqb kind "user" && String.eqb what "traffic"
      then (λ uplink, (email, uplink)) <$> direction part else None
  | _ => None
  end.

(** The email of an online entry and the stat to ask for. *)
Definition onlineStatName (entry : string) : string * string :=
  match rest ← cut_prefix "user>>>" entry; cut_suffix ">>>online" rest with
  | Some email => (email, entry)
  | None => (entry, "user>>>" +:+ entry +:+ ">>>online")%string
  end.

(** ** The queries *)

Record RuntimeStats := {
  rs_mem : Z; rs_goroutines : Z; rs_up : Z; rs_down : Z;
  rs_online_users : option nat; rs_online_ips : option nat;
}.

(** An error's stage and, for one user's list, the user. *)
Inductive queryError :=
| Connect (e : string) | SysStats (c : rpcCode) | Stats (c : rpcCode) | OnlineUsers (c : rpcCode)
| OnlineIPs (email : string) (c : rpcCode).

(** uint64(max(v, 0)) of an int64. *)
Definition counted (v : Z) : Z := Z.max v 0.

Definition add_inbound (stats : Z * Z) (counter : string * Z) : Z * Z :=
  match inboundTraffic counter.1 with
  | None => stats
  | Some true => (u64_add stats.1 (counted counter.2), stats.2)
  | Some false => (stats.1, u64_add stats.2 (counted counter.2))
  end.

(** A user not counted yet is at the end of the order. *)
Definition seen_user (email : string) (users : list Collector.RawTraffic) : list Collector.RawTraffic :=
  if existsb (λ u, String.eqb (Collector.rt_email u) email) users then users
  else users ++ [{| Collector.rt_email := email; Collector.rt_up := 0; Collector.rt_down := 0 |}].

Definition count_user (email : string) (uplink : bool) (v : Z) (u : Collector.RawTraffic) : Collector.RawTraffic :=
  if String.eqb (Collector.rt_email u) email then
    if uplink
    then {| Collector.rt_email := email; Collector.rt_up := u64_add (Collector.rt_up u) v; Collector.rt_down := Collector.rt_down u |}
    else {| Collector.rt_email := email; Collector.rt_up := Collector.rt_up u; Collector.rt_down := u64_add (Collector.rt_down u) v |}
  else u.

(** byEmail and order: the users in the order their first counter came. *)
Definition add_user (users : list Collector.RawTraffic) (counter : string * Z) : list Collector.RawTraffic :=
  match userTraffic counter.1 with
  | None => users
  | Some (email, uplink) => count_user email uplink (counted counter.2) <$> seen_user email users
  end.

Section Client.
Context `{StatsService}.

Definition connect : option queryError := Connect <$> stats_dial.

Definition QueryUserTraffic : result queryError (list Collector.RawTraffic) :=
  match connect with
  | Some e => Err e
  | None =>
      match QueryStats with
      | Err c => Err (Stats c)
      | Ok counters => Ok (foldl add_user [] counters)
      end
  end.

(** One pass over the online entries: an entry that is skipped adds nothing. *)
Fixpoint presence_of (entries : list string) : result queryError (list Presence) :=
  match entries with
  | [] => Ok []
  | entry :: entries =>
      let '(email, name) := onlineStatName entry in
      let next user := match presence_of entries with Ok users => Ok (user :: users) | Err e => Err e end in
      match GetStatsOnlineIpList name with
      | Err Unimplemented => next {| pr_email := email; pr_ips := []; pr_last_seen := 0 |}
      | Err NotFound => presence_of entries
      | Err c => Err (OnlineIPs email c)
      | Ok ips =>
          next {| pr_email := email;
                  pr_ips := merge_sort (by_email (λ ip, ip)) (map_to_list ips).*1;
                  pr_last_seen := foldr Z.max 0 (map_to_list ips).*2 |}
      end
  end.

(** The presence rows and whether the server knows of presence at all. *)
Definition QueryPresence : result queryError (list Presence * bool) :=
  match connect with
  | Some e => Err e
  | None =>
      match GetAllOnlineUsers with
      | Err Unimplemented => Ok ([], false)
      | Err c => Err (OnlineUsers c)
      | Ok entries => match presence_of entries with Ok users => Ok (users, true) | Err e => Err e end
      end
  end.

(** The distinct IPs of the entries that answer; [None] when the server
    does not list them. *)
Fixpoint online_ips (entries : list string) (ips : gset string) : option (gset string) :=
  match entries with
  | [] => Some ips
  | entry :: entries =>
      match GetStatsOnlineIpList (onlineStatName entry).2 with
      | Err Unimplemented => None
      | Err _ => online_ips entries ips
      | Ok list => online_ips entries (ips ∪ dom list)
      end
  end.

Definition onlineCounts : result queryError (option nat * option nat) :=
  match GetAllOnlineUsers with
  | Err Unimplemented => Ok (None, None)
  | Err c => Err (OnlineUsers c)
  | Ok entries => Ok (Some (length entries), size <$> online_ips entries ∅)
  end.

Definition QueryRuntime : result queryError RuntimeStats :=
  match connect with
  | Some e => Err e
  | None =>
      match GetSysStats with
      | Err c => Err (SysStats c)
      | Ok (alloc, goroutines) =>
          match QueryStats with
          | Err c => Err (Stats c)
          | Ok counters =>
              let '(up, down) := foldl add_inbound (0, 0) counters in
              match onlineCounts with
              | Err e => Err e
              | Ok (users, ips) =>
                  Ok {| rs_mem := alloc; rs_goroutines := goroutines; rs_up := up; rs_down := down;
                        rs_online_users := users; rs_online_ips := ips |}
              end
          end
      end
  end.
End Client.

(** ** Theorems *)

(** The bytes the counters of one name's kind and direction hold. *)
Definition user_bytes (email : string) (uplink : bool) (counters : list (string * Z)) : Z :=
  foldr (λ c acc, (if bool_decide (userTraffic c.1 = Some (email, uplink)) then counted c.2 else 0) + acc) 0 counters.

Definition inbound_bytes (uplink : bool) (counters : list (string * Z)) : Z :=
  foldr (λ c acc, (if bool_decide (inboundTraffic c.1 = Some uplink) then counted c.2 else 0) + acc) 0 counters.

Definition emails_of (counters : list (string * Z)) : list string := omap (λ c, fst <$> userTraffic c.1) counters.

Lemma foldr_sum_snoc {A} (f : A → Z) l a : foldr (λ c acc, f c + acc) 0 (l ++ [a]) = foldr (λ c acc, f c + acc) 0 l + f a.
Proof. induction l as [|b l IH]; cbn; [lia|]. rewrite IH. lia. Qed.

Lemma count_user_email email uplink v u : Collector.rt_email (count_user email uplink v u) = Collector.rt_email u.
Proof. unfold count_user. destruct (String.eqb_spec (Collector.rt_email u) email) as [<-|]; [|done]. by destruct uplink. Qed.

Lemma seen_user_emails email users : NoDup (Collector.rt_email <$> users) →
  NoDup (Collector.rt_email <$> seen_user email users) ∧
  ∀ e, e ∈ (Collector.rt_email <$> seen_user email users) ↔ e = email ∨ e ∈ (Collector.rt_email <$> users).
Proof.
  intros Hnd. unfold seen_user.
  assert (existsb (λ u, String.eqb (Collector.rt_email u) email) users = true ↔ email ∈ (Collector.rt_email <$> users)) as He.
  { rewrite existsb_exists, list_elem_of_fmap. split.
    - intros (u & Hu & Heq%String.eqb_eq). exists u. split; [done|]. by apply list_elem_of_In.
    - intros (u & -> & Hu). exists u. split; [by apply list_elem_of_In|apply String.eqb_refl]. }
  destruct (existsb _ users) eqn:E.
  - split; [done|]. intros e. split; [auto|]. intros [->|?]; [by apply He|done].
  - rewrite fmap_app. cbn. split.
    + apply NoDup_app. split_and!; [done| |apply NoDup_singleton].
      intros e Hin ->%list_elem_of_singleton. apply He in Hin. congruence.
    + intros e. rewrite elem_of_app, list_elem_of_singleton. tauto.
Qed.

(** What the counters so far say of a user. *)
Definition counts (counters : list (string * Z)) (u : Collector.RawTraffic) : Prop :=
  Collector.rt_up u = u64 (user_bytes (Collector.rt_email u) true counters) ∧
  Collector.rt_down u = u64 (user_bytes (Collector.rt_email u) false counters).

Lemma user_bytes_absent email uplink counters : email ∉ emails_of counters → user_bytes email uplink counters = 0.
Proof.
  intros Hn. induction counters as [|[name v] counters IH]; [done|].
  change (user_bytes email uplink ((name, v) :: counters)) with
    ((if bool_decide (userTraffic name = Some (email, uplink)) then counted v else 0) + user_bytes email uplink counters).
  unfold emails_of in *. cbn [omap list_omap fst] in Hn. destruct (userTraffic name) as [[e up]|]; cbn [fmap option_fmap option_map fst] in Hn.
  - rewrite not_elem_of_cons in Hn. destruct Hn as [Hne Hn].
    rewrite bool_decide_eq_false_2 by congruence. by rewrite IH.
  - by rewrite IH.
Qed.

Lemma user_bytes_snoc email uplink counters c :
  user_bytes email uplink (counters ++ [c]) =
    user_bytes email uplink counters + (if bool_decide (userTraffic c.1 = Some (email, uplink)) then counted c.2 else 0).
Proof. apply (foldr_sum_snoc (λ c, if bool_decide (userTraffic c.1 = Some (email, uplink)) then counted c.2 else 0)). Qed.

Lemma add_user_spec counters :
  let users := foldl add_user [] counters in
  NoDup (Collector.rt_email <$> users) ∧
  (∀ email, email ∈ (Collector.rt_email <$> users) ↔ email ∈ emails_of counters) ∧
  Forall (counts counters) users.
Proof.
  cbv zeta. induction counters as [|[name v] counters (Hnd & Hem & Hsum)] using rev_ind.
  { split_and!; [constructor|done|constructor]. }
  rewrite foldl_app. cbn [foldl]. set (users := foldl add_user [] counters) in *.
  assert (emails_of (counters ++ [(name, v)]) = emails_of counters ++ emails_of [(name, v)]) as -> by (unfold emails_of; by rewrite omap_app).
  unfold add_user. cbn [fst snd]. destruct (userTraffic name) as [[email uplink]|] eqn:Eu.
  - destruct (seen_user_emails email users Hnd) as [Hnd' Hem'].
    assert ((Collector.rt_email <$> (count_user email uplink (counted v) <$> seen_user email users)) =
      Collector.rt_email <$> seen_user email users) as ->.
    { rewrite <-list_fmap_compose. apply list_fmap_ext. intros i u _. apply count_user_email. }
    assert (emails_of [(name, v)] = [email]) as -> by (unfold emails_of; cbn; by rewrite Eu).
    split_and!; [done| |].
    + intros e. rewrite Hem', elem_of_app, list_elem_of_singleton, Hem. tauto.
    + apply Forall_fmap. assert (Forall (counts counters) (seen_user email users)) as Hseen.
      { unfold seen_user. destruct (existsb _ users) eqn:E; [done|]. apply Forall_app. split; [done|]. apply Forall_singleton.
        assert (email ∉ emails_of counters) as Hn.
        { rewrite <-Hem. intros (u & -> & Hu)%list_elem_of_fmap. apply not_true_iff_false in E. apply E.
          apply existsb_exists. exists u. split; [by apply list_elem_of_In|apply String.eqb_refl]. }
        unfold counts. cbn. by rewrite !user_bytes_absent. }
      eapply Forall_impl; [exact Hseen|]. intros u [Hu Hd]. unfold counts, compose. rewrite count_user_email.
      rewrite !user_bytes_snoc. cbn [fst snd]. rewrite Eu. unfold count_user.
      destruct (String.eqb_spec (Collector.rt_email u) email) as [<-|Hne].
      * destruct uplink; cbn.
        -- rewrite (bool_decide_eq_true_2 (Some (Collector.rt_email u, true) = _)) by done.
           rewrite (bool_decide_eq_false_2 (Some (Collector.rt_email u, true) = _)) by congruence.
           unfold u64_add. rewrite Hu, u64_add_l, Z.add_0_r. done.
        -- rewrite (bool_decide_eq_false_2 (Some (Collector.rt_email u, false) = _)) by congruence.
           rewrite (bool_decide_eq_true_2 (Some (Collector.rt_email u, false) = _)) by done.
           unfold u64_add. rewrite Hd, u64_add_l, Z.add_0_r. done.
      * rewrite !(bool_decide_eq_false_2 (Some (email, uplink) = _)) by congruence. by rewrite !Z.add_0_r.
  - assert (emails_of [(name, v)] = []) as -> by (unfold emails_of; cbn; by rewrite Eu).
    rewrite app_nil_r. split_and!; [done|done|]. eapply Forall_impl; [exact Hsum|]. intros u [Hu Hd].
    unfold counts. rewrite !user_bytes_snoc. cbn [fst]. rewrite Eu, !bool_decide_eq_false_2 by done. by rewrite !Z.add_0_r.
Qed.

Lemma add_inbound_spec counters :
  foldl add_inbound (0, 0) counters = (u64 (inbound_bytes true counters), u64 (inbound_bytes false counters)).
Proof.
  assert (∀ uplink c, inbound_bytes uplink (counters ++ [c]) =
    inbound_bytes uplink counters + (if bool_decide (inboundTraffic c.1 = Some uplink) then counted c.2 else 0)) as _.
  { intros. apply (foldr_sum_snoc (λ c, if bool_decide (inboundTraffic c.1 = Some uplink) then counted c.2 else 0)). }
  induction counters as [|[name v] counters IH] using rev_ind; [done|].
  rewrite foldl_app, IH. cbn [foldl]. unfold inbound_bytes.
  rewrite !(foldr_sum_snoc (λ c, if bool_decide (inboundTraffic c.1 = Some _) then counted c.2 else 0)). cbn [fst snd].
  unfold add_inbound, u64_add. cbn [fst snd].
  destruct (inboundTraffic name) as [[]|] eqn:E; cbn; by rewrite ?u64_add_l, ?Z.add_0_r.
Qed.

(** *** Names *)

Lemma sapp_cons c (s t : string) : String c s +:+ t = String c (s +:+ t).
Proof. done. Qed.

Lemma sapp_nil (t : string) : "" +:+ t = t.
Proof. done. Qed.

Lemma cut_prefix_app pre s : cut_prefix pre (pre +:+ s) = Some s.
Proof. induction pre as [|c pre IH]; rewrite ?sapp_cons; cbn [cut_prefix]; [done|]. by rewrite Ascii.eqb_refl. Qed.

Lemma cut_prefix_spec pre s r : cut_prefix pre s = Some r → s = pre +:+ r.
Proof.
  revert s. induction pre as [|c pre IH]; intros [|d s]; cbn [cut_prefix]; try (intros; simplify_eq; done).
  destruct (Ascii.eqb_spec c d) as [->|]; [|done]. intros ->%IH. by rewrite sapp_cons.
Qed.

Lemma cut_prefix_long pre x y : (String.length pre <= String.length x)%nat →
  cut_prefix pre (x +:+ y) = (λ r, r +:+ y) <$> cut_prefix pre x.
Proof.
  revert x. induction pre as [|c pre IH]; intros x; [done|].
  destruct x as [|d x]; rewrite ?sapp_cons; cbn [cut_prefix String.length]; [lia|]. intros. destruct (Ascii.eqb c d); [|done]. apply IH. lia.
Qed.

Lemma cut_eq sep s :
  cut sep s = match cut_prefix sep s with
              | Some after => Some (""%string, after)
              | None => match s with
                        | EmptyString => None
                        | String c s => '(before, after) ← cut sep s; Some (String c before, after)
                        end
              end.
Proof. by destruct s. Qed.

Lemma cut_spec sep s a b : cut sep s = Some (a, b) → s = a +:+ sep +:+ b.
Proof.
  revert a. induction s as [|c s IH]; intros a; rewrite cut_eq.
  - destruct (cut_prefix sep "") as [r|] eqn:E; [|done]. intros [= <- <-]. by apply cut_prefix_spec in E.
  - destruct (cut_prefix sep (String c s)) as [r|] eqn:E.
    + intros [= <- <-]. by apply cut_prefix_spec in E.
    + destruct (cut sep s) as [[a' b']|]; [|done]. intros [= <- <-]. cbn. by rewrite (IH a').
Qed.

Lemma length_sapp (s t : string) : String.length (s +:+ t) = (String.length s + String.length t)%nat.
Proof. induction s as [|c s IH]; rewrite ?sapp_nil, ?sapp_cons; cbn; [done|]. by rewrite IH. Qed.

Lemma sapp_assoc (s t u : string) : ((s +:+ t) +:+ u = s +:+ (t +:+ u))%string.
Proof. induction s as [|c s IH]; rewrite ?sapp_nil, ?sapp_cons; cbn; [done|]. by rewrite IH. Qed.

(** An email that no reading of a counter's name can cut: the separator
    after it is the first one. *)
Definition plain (email : string) : bool :=
  bool_decide (cut ">>>" (email +:+ ">>>") = Some (email, ""%string)).

Lemma cut_first sep e rest : cut sep (e +:+ sep) = Some (e, ""%string) → cut sep (e +:+ sep +:+ rest) = Some (e, rest).
Proof.
  induction e as [|c e IH]; rewrite !(cut_eq sep), ?sapp_nil, ?sapp_cons.
  - by rewrite cut_prefix_app.
  - destruct (cut_prefix sep (String c (e +:+ sep))) as [r|] eqn:E; [done|].
    destruct (cut sep (e +:+ sep)) as [[a b]|]; [|done]. cbn [mbind option_bind]. intros [= -> ->].
    assert (String c (e +:+ sep +:+ rest) = String c (e +:+ sep) +:+ rest) as -> by by rewrite sapp_cons, sapp_assoc.
    rewrite cut_prefix_long by (cbn; rewrite length_sapp; lia). rewrite E. cbn [fmap option_fmap option_map].
    by rewrite IH.
Qed.

Lemma split_join fuel sep s : String.concat sep (split_fuel fuel sep s) = s.
Proof.
  revert s. induction fuel as [|fuel IH]; intros s; [done|]. cbn.
  destruct (cut sep s) as [[part rest]|] eqn:E; [|done]. apply cut_spec in E. subst s.
  specialize (IH rest). cbn. destruct (split_fuel fuel sep rest) eqn:El; [|by rewrite IH].
  by destruct fuel; cbn in El; [|destruct (cut sep rest) as [[]|]].
Qed.

Definition direction_name (uplink : bool) : string := if uplink then "uplink" else "downlink".

(** The name xray gives a user's counter. *)
Definition user_counter (email : string) (uplink : bool) : string :=
  "user" +:+ ">>>" +:+ email +:+ ">>>" +:+ "traffic>>>" +:+ direction_name uplink.

Lemma direction_spec part uplink : direction part = Some uplink → part = direction_name uplink.
Proof.
  unfold direction. destruct (String.eqb_spec part "uplink") as [->|]; [by intros [= <-]|].
  destruct (String.eqb_spec part "downlink") as [->|]; [by intros [= <-]|done].
Qed.

Lemma user_traffic_is_named name email uplink : userTraffic name = Some (email, uplink) → name = user_counter email uplink.
Proof.
  unfold userTraffic. intros H. rewrite <-(split_join (String.length name) ">>>" name). fold (split_name name).
  destruct (split_name name) as [|kind [|e [|what [|part []]]]]; try done.
  destruct (String.eqb_spec kind "user") as [->|]; [|done]. destruct (String.eqb_spec what "traffic") as [->|]; [|done].
  cbn in H. destruct (direction part) as [up|] eqn:Ed; [|done]. cbn in H. simplify_eq. apply direction_spec in Ed as ->. done.
Qed.

Lemma user_counter_parses email uplink : plain email = true → userTraffic (user_counter email uplink) = Some (email, uplink).
Proof.
  intros Hp%bool_decide_eq_true.
  assert (split_name (user_counter email uplink) = ["user"; email; "traffic"; direction_name uplink]%string) as Hs.
  { unfold split_name. assert (∃ n, String.length (user_counter email uplink) = S (S (S (S n)))) as [n ->].
    { unfold user_counter. cbn. eauto. }
    unfold user_counter. cbn [split_fuel].
    rewrite (cut_first ">>>" "user" (email +:+ ">>>" +:+ "traffic>>>" +:+ direction_name uplink) eq_refl).
    rewrite (cut_first ">>>" email _ Hp). by destruct uplink. }
  unfold userTraffic. rewrite Hs. by destruct uplink.
Qed.
(** *** What a poll reports *)

(** The sum of the counters of one name. *)
Definition named_bytes (name : string) (counters : list (string * Z)) : Z :=
  foldr (λ c acc, (if String.eqb c.1 name then counted c.2 else 0) + acc) 0 counters.

Lemma user_bytes_named email uplink counters : plain email = true →
  user_bytes email uplink counters = named_bytes (user_counter email uplink) counters.
Proof.
  intros Hp. unfold user_bytes, named_bytes. induction counters as [|[name v] counters IH]; [done|].
  cbn [foldr fst snd]. f_equal; [|apply IH]. destruct (String.eqb_spec name (user_counter email uplink)) as [->|Hne].
  - by rewrite user_counter_parses, bool_decide_eq_true_2.
  - rewrite bool_decide_eq_false_2; [done|]. intros ?%user_traffic_is_named. done.
Qed.

Lemma counted_email email counters : plain email = true →
  email ∈ emails_of counters ↔ ∃ uplink v, (user_counter email uplink, v) ∈ counters.
Proof.
  intros Hp. unfold emails_of. rewrite list_elem_of_omap. split.
  - intros ([name v] & Hin & He). cbn in He. destruct (userTraffic name) as [[e uplink]|] eqn:Eu; [|done].
    apply user_traffic_is_named in Eu. cbn in He. simplify_eq. eauto.
  - intros (uplink & v & Hin). exists (user_counter email uplink, v). split; [done|]. cbn. by rewrite user_counter_parses.
Qed.

(** An inbound's counter by its tag. *)
Definition inbound_counter (tag : string) (uplink : bool) : string :=
  "inbound" +:+ ">>>" +:+ tag +:+ ">>>" +:+ "traffic>>>" +:+ direction_name uplink.

Lemma inbound_counter_parses tag uplink : plain tag = true →
  inboundTraffic (inbound_counter tag uplink) = if String.eqb tag "api" then None else Some uplink.
Proof.
  intros Hp%bool_decide_eq_true.
  assert (split_name (inbound_counter tag uplink) = ["inbound"; tag; "traffic"; direction_name uplink]%string) as Hs.
  { unfold split_name. assert (∃ n, String.length (inbound_counter tag uplink) = S (S (S (S n)))) as [n ->].
    { unfold inbound_counter. cbn. eauto. }
    unfold inbound_counter. cbn [split_fuel].
    rewrite (cut_first ">>>" "inbound" (tag +:+ ">>>" +:+ "traffic>>>" +:+ direction_name uplink) eq_refl).
    rewrite (cut_first ">>>" tag _ Hp). by destruct uplink. }
  unfold inboundTraffic. rewrite Hs. cbn [String.eqb]. destruct (String.eqb tag "api"), uplink; done.
Qed.

Lemma inbound_traffic_is_named name uplink : inboundTraffic name = Some uplink →
  ∃ tag, tag ≠ "api"%string ∧ name = inbound_counter tag uplink.
Proof.
  unfold inboundTraffic. intros H. rewrite <-(split_join (String.length name) ">>>" name). fold (split_name name).
  destruct (split_name name) as [|kind [|e [|what [|part []]]]]; try done.
  destruct (String.eqb_spec kind "inbound") as [->|]; [|done]. destruct (String.eqb_spec e "api") as [->|Hne]; [done|].
  destruct (String.eqb_spec what "traffic") as [->|]; [|done]. cbn in H. apply direction_spec in H as ->. by exists e.
Qed.

(** A poll of the users' traffic has one row for each user that some
    counter names, and its up and down bytes are the sums of the counters xray
    keeps under that user's name, negative values counting as none, modulo
    2^64. It covers each user whose email neither contains the names'
    separator nor ends so that it would start earlier. *)
Theorem traffic_counts_every_user `{StatsService} counters users :
  QueryStats = Ok counters → QueryUserTraffic = Ok users →
  NoDup (Collector.rt_email <$> users) ∧
  ∀ email, plain email = true →
    (email ∈ (Collector.rt_email <$> users) ↔ ∃ uplink v, (user_counter email uplink, v) ∈ counters) ∧
    ∀ u, u ∈ users → Collector.rt_email u = email →
      Collector.rt_up u = u64 (named_bytes (user_counter email true) counters) ∧
      Collector.rt_down u = u64 (named_bytes (user_counter email false) counters).
Proof.
  unfold QueryUserTraffic. intros Hq. rewrite Hq. destruct connect; [done|]. intros [= <-].
  destruct (add_user_spec counters) as (Hnd & Hem & Hsum). split; [done|]. intros email Hp. split.
  - rewrite Hem. by apply counted_email.
  - intros u Hin He. rewrite Forall_forall in Hsum. destruct (Hsum u Hin) as [-> ->].
    by rewrite He, !user_bytes_named.
Qed.

(** *** Presence *)

Lemma foldr_max l : (∀ n, n ∈ l → n <= foldr Z.max 0 l) ∧ (foldr Z.max 0 l = 0 ∨ foldr Z.max 0 l ∈ l).
Proof.
  induction l as [|m l [IHle IHin]]; cbn [foldr].
  - split; [intros n Hn; inversion Hn|auto].
  - split.
    + intros n [->|Hn]%elem_of_cons; [lia|]. specialize (IHle n Hn). lia.
    + destruct (Z.max_spec m (foldr Z.max 0 l)) as [[? ->]|[? ->]]; rewrite elem_of_cons; tauto.
Qed.

(** What the answer for one entry says: a row, nothing, or an error. *)
Definition row_says `{StatsService} (entry : string) (u : Presence) : Prop :=
  pr_email u = (onlineStatName entry).1 ∧
  match GetStatsOnlineIpList (onlineStatName entry).2 with
  | Err Unimplemented => pr_ips u = [] ∧ pr_last_seen u = 0
  | Ok ips =>
      Permutation (pr_ips u) (elements (dom ips)) ∧ Sorted (by_email (λ ip, ip)) (pr_ips u) ∧
      (∀ ip seen, ips !! ip = Some seen → seen <= pr_last_seen u) ∧
      (pr_last_seen u = 0 ∨ ∃ ip, ips !! ip = Some (pr_last_seen u))
  | Err _ => False
  end.

Definition is_offline `{StatsService} (entry : string) : bool :=
  match GetStatsOnlineIpList (onlineStatName entry).2 with Err NotFound => true | _ => false end.

Definition is_outage `{StatsService} (entry : string) : bool :=
  match GetStatsOnlineIpList (onlineStatName entry).2 with Err (OtherCode _) => true | _ => false end.
Definition still_online `{StatsService} (entries : list string) : list string :=
  List.filter (λ entry, negb (is_offline entry)) entries.

#[local] Instance by_email_total : Total (by_email (λ ip : string, ip)).
Proof. intros a b. apply String.leb_total. Qed.

Lemma ip_row_says `{StatsService} entry ips :
  GetStatsOnlineIpList (onlineStatName entry).2 = Ok ips →
  row_says entry {| pr_email := (onlineStatName entry).1;
                    pr_ips := merge_sort (by_email (λ ip, ip)) (map_to_list ips).*1;
                    pr_last_seen := foldr Z.max 0 (map_to_list ips).*2 |}.
Proof.
  intros Ha. split; [done|]. rewrite Ha. cbn. destruct (foldr_max (map_to_list ips).*2) as [Hle Hin].
  assert (∀ n, n ∈ (map_to_list ips).*2 ↔ ∃ ip, ips !! ip = Some n) as Hel.
  { intros n. rewrite list_elem_of_fmap. split.
    - intros ([ip m] & -> & Hm%elem_of_map_to_list). by exists ip.
    - intros [ip Hip%elem_of_map_to_list]. by exists (ip, n). }
  split_and!.
  - rewrite merge_sort_Permutation. apply NoDup_Permutation; [apply NoDup_fst_map_to_list|apply NoDup_elements|].
    intros ip. rewrite elem_of_elements, elem_of_dom, list_elem_of_fmap. split.
    + intros ([ip' m] & -> & Hm%elem_of_map_to_list). by exists m.
    + intros [m Hm%elem_of_map_to_list]. by exists (ip, m).
  - apply Sorted_merge_sort. apply _.
  - intros ip n Hip. apply Hle, Hel. by exists ip.
  - destruct Hin as [|Hin]; [by left|right; by apply Hel].
Qed.

Lemma presence_of_spec `{StatsService} entries :
  (existsb is_outage entries = true →
     ∃ entry text, entry ∈ entries ∧ presence_of entries = Err (OnlineIPs (onlineStatName entry).1 (OtherCode text))) ∧
  (existsb is_outage entries = false →
     ∃ rows, presence_of entries = Ok rows ∧ Forall2 row_says (still_online entries) rows).
Proof.
  induction entries as [|entry entries [IHbad IHgood]]; cbn [existsb].
  { split; [done|]. intros _. exists []. by split; [|constructor]. }
  assert (∀ u, row_says entry u → is_offline entry = false →
    presence_of (entry :: entries) = match presence_of entries with Ok users => Ok (u :: users) | Err e => Err e end →
    is_outage entry = false →
    (existsb is_outage entries = true → ∃ e text, (e ∈ entry :: entries) ∧
       presence_of (entry :: entries) = Err (OnlineIPs (onlineStatName e).1 (OtherCode text))) ∧
    (existsb is_outage entries = false → ∃ rows, presence_of (entry :: entries) = Ok rows ∧
       Forall2 row_says (still_online (entry :: entries)) rows)) as Hnext.
  { intros u Hu Hoff Heq _. rewrite Heq. split.
    - intros (e & text & Hin & ->)%IHbad. exists e, text. split; [by right|done].
    - intros (rows & -> & Hall)%IHgood. exists (u :: rows). split; [done|].
      unfold still_online. cbn. rewrite Hoff. by constructor. }
  destruct (GetStatsOnlineIpList (onlineStatName entry).2) as [ips|[| |text]] eqn:Ea;
    unfold is_outage at 1; unfold is_outage at 2; rewrite Ea; cbn [orb].
  - eapply Hnext; [by apply ip_row_says|unfold is_offline; by rewrite Ea|cbn|unfold is_outage; by rewrite Ea].
    destruct (onlineStatName entry) as [email name]. cbn in Ea. by rewrite Ea.
  - apply (Hnext {| pr_email := (onlineStatName entry).1; pr_ips := []; pr_last_seen := 0 |});
      [unfold row_says; by rewrite Ea|unfold is_offline; by rewrite Ea| |unfold is_outage; by rewrite Ea].
    cbn. destruct (onlineStatName entry) as [email name]. cbn in Ea. by rewrite Ea.
  - assert (presence_of (entry :: entries) = presence_of entries) as ->.
    { cbn. destruct (onlineStatName entry) as [email name]. cbn in Ea. by rewrite Ea. }
    split.
    + intros (e & text & Hin & ->)%IHbad. exists e, text. split; [by right|done].
    + intros (rows & -> & Hall)%IHgood. exists rows. split; [done|]. unfold still_online. cbn.
      unfold is_offline at 1. by rewrite Ea.
  - split; [intros _|done]. exists entry, text. split; [by left|]. cbn.
    destruct (onlineStatName entry) as [email name]. cbn in Ea |- *. by rewrite Ea.
Qed.

(** Once xray lists its online users, the presence poll reports each
    of them whose connections xray still knows, in its order: the email, the
    distinct addresses in order, and the latest activity of them (no address
    at all where xray cannot say). A user gone between the two calls is left
    out; any other error fails the poll rather than report somebody offline. *)
Theorem presence_reports_the_online `{StatsService} entries :
  stats_dial = None → GetAllOnlineUsers = Ok entries →
  (existsb is_outage entries = true →
     ∃ entry text, entry ∈ entries ∧ QueryPresence = Err (OnlineIPs (onlineStatName entry).1 (OtherCode text))) ∧
  (existsb is_outage entries = false →
     ∃ rows, QueryPresence = Ok (rows, true) ∧ Forall2 row_says (still_online entries) rows).
Proof.
  intros Hd Ho. unfold QueryPresence, connect. rewrite Hd, Ho. cbn [fmap option_fmap option_map].
  destruct (presence_of_spec entries) as [Hbad Hgood]. split.
  - intros (e & text & Hin & ->)%Hbad. eauto.
  - intros (rows & -> & Hall)%Hgood. eauto.
Qed.

(** ** Examples *)

Module Examples.

Local Open Scope string_scope.

Definition service : StatsService := {|
  stats_dial := None;
  GetSysStats := Ok (1024, 12);
  QueryStats := Ok [("user>>>bob>>>traffic>>>downlink", 5); ("inbound>>>api>>>traffic>>>uplink", 99);
                    ("user>>>ann>>>traffic>>>uplink", 7); ("inbound>>>web>>>traffic>>>uplink", 40);
                    ("user>>>bob>>>traffic>>>uplink", -3); ("user>>>a>>>>traffic>>>uplink", 8)];
  GetAllOnlineUsers := Ok ["user>>>ann>>>online"; "user>>>bob>>>online"; "user>>>eve>>>online"];
  GetStatsOnlineIpList := λ name,
    if String.eqb name "user>>>ann>>>online" then Ok {[ "10.0.0.2" := 30; "10.0.0.1" := 50 ]}
    else if String.eqb name "user>>>bob>>>online" then Err NotFound
    else Err Unimplemented;
|}.

Definition row (email : string) (up down : Z) : Collector.RawTraffic :=
  {| Collector.rt_email := email; Collector.rt_up := up; Collector.rt_down := down |}.

Lemma traffic_counts_every_user_witness :
  NoDup (Collector.rt_email <$> [row "bob" 0 5; row "ann" 7 0]) ∧
  ∀ email, plain email = true →
    (email ∈ (Collector.rt_email <$> [row "bob" 0 5; row "ann" 7 0]) ↔
       ∃ uplink v, (user_counter email uplink, v) ∈
         [("user>>>bob>>>traffic>>>downlink", 5); ("inbound>>>api>>>traffic>>>uplink", 99);
          ("user>>>ann>>>traffic>>>uplink", 7); ("inbound>>>web>>>traffic>>>uplink", 40);
          ("user>>>bob>>>traffic>>>uplink", -3); ("user>>>a>>>>traffic>>>uplink", 8)]) ∧
    ∀ u, u ∈ [row "bob" 0 5; row "ann" 7 0] → Collector.rt_email u = email →
      Collector.rt_up u = u64 (named_bytes (user_counter email true)
        [("user>>>bob>>>traffic>>>downlink", 5); ("inbound>>>api>>>traffic>>>uplink", 99);
         ("user>>>ann>>>traffic>>>uplink", 7); ("inbound>>>web>>>traffic>>>uplink", 40);
         ("user>>>bob>>>traffic>>>uplink", -3); ("user>>>a>>>>traffic>>>uplink", 8)]) ∧
      Collector.rt_down u = u64 (named_bytes (user_counter email false)
        [("user>>>bob>>>traffic>>>downlink", 5); ("inbound>>>api>>>traffic>>>uplink", 99);
         ("user>>>ann>>>traffic>>>uplink", 7); ("inbound>>>web>>>traffic>>>uplink", 40);
         ("user>>>bob>>>traffic>>>uplink", -3); ("user>>>a>>>>traffic>>>uplink", 8)]).
Proof. apply (@traffic_counts_every_user service); reflexivity. Defined.

(** The email a>, which the panel accepts, loses its traffic: the counter's
    name is cut one character early. Its presence is read correctly. *)
Example trailing_separator_is_not_counted :
  user_counter "a>" true = "user>>>a>>>>traffic>>>uplink" ∧ userTraffic (user_counter "a>" true) = None ∧
  onlineStatName "user>>>a>>>>online" = ("a>", "user>>>a>>>>online").
Proof. done. Qed.

(** The panel's own polling is not user traffic. *)
Example api_inbound_is_excluded :
  (rs_up <$> match QueryRuntime (H := service) with Ok s => Some s | Err _ => None end) = Some 40.
Proof. vm_compute. done. Qed.

Lemma presence_reports_the_online_witness :
  (existsb (is_outage (H := service)) ["user>>>ann>>>online"; "user>>>bob>>>online"; "user>>>eve>>>online"] = true →
     ∃ entry text, entry ∈ ["user>>>ann>>>online"; "user>>>bob>>>online"; "user>>>eve>>>online"] ∧
       QueryPresence (H := service) = Err (OnlineIPs (onlineStatName entry).1 (OtherCode text))) ∧
  (existsb (is_outage (H := service)) ["user>>>ann>>>online"; "user>>>bob>>>online"; "user>>>eve>>>online"] = false →
     ∃ rows, QueryPresence (H := service) = Ok (rows, true) ∧
       Forall2 (row_says (H := service)) (still_online (H := service)
         ["user>>>ann>>>online"; "user>>>bob>>>online"; "user>>>eve>>>online"]) rows).
Proof. apply (@presence_reports_the_online service); reflexivity. Defined.

End Examples.
End XrayStats.
