(* ===== verification/XrayStatus.v ===== *)
(** * The service status (internal/xraystatus)

    What the panel says of the xray service: the systemd unit, the version
    its binary prints, the stats client's poll and the durable totals. *)

From Stdlib Require Import Ascii String.
From S2P Require Import Prelude GoJson GoText Reconcile Store Collector XrayStats.

(** ** The systemd unit (systemd.go) *)

(** What godbus decodes a property into, as far as the code looks. *)
Inductive dbusValue :=
| VString (s : string)
| VUint64 (n : Z)
| VStructs (l : list (list dbusValue))  (* [][]any *)
| VArray (l : list dbusValue)           (* []any *)
| VOther.

(** The system bus and systemd's private socket: the error of dialling each,
    and what the unit's properties are over it. *)
Class SystemdBus := {
  DialSystem : option string;
  DialPrivate : option string;
  GetUnitProperties : bool → string → result string (gmap string dbusValue);
  GetServiceProperties : bool → string → result string (gmap string dbusValue);
}.

Module Systemd.

Local Open Scope Z_scope.

(** Times are nanoseconds since the Unix epoch. *)
Record UnitInfo := { ActiveState : string; SubState : string; ActiveSince : Z; ExecPath : string }.

(** [x, _ = v.(string)] *)
Definition as_string (v : option dbusValue) : string := match v with Some (VString s) => s | _ => "" end.

Definition execStartPath (v : option dbusValue) : string :=
  match v with
  | Some (VStructs ((path :: _) :: _)) => as_string (Some path)
  | Some (VArray (VArray (path :: _) :: _)) => as_string (Some path)
  | _ => ""
  end.

(** time.Unix of the microseconds, whose seconds are taken as an int64. *)
Definition active_since (v : option dbusValue) : Z :=
  match v with
  | Some (VUint64 usec) =>
      if 0 <? usec then Z.quot (i64 usec) 1000000 * 1000000000 + usec mod 1000000 * 1000 else Collector.zeroTime
  | _ => Collector.zeroTime
  end.

Definition UnitInfoFromProperties (unitProps svcProps : gmap string dbusValue) : UnitInfo := {|
  ActiveState := as_string (unitProps !! "ActiveState");
  SubState := as_string (unitProps !! "SubState");
  ActiveSince := active_since (unitProps !! "ActiveEnterTimestamp");
  ExecPath := execStartPath (svcProps !! "ExecStart");
|}%string.

Section WithBus.
Context `{SystemdBus}.

(** The connection: whether it is the private socket's. *)
Definition dial : result string bool :=
  match DialSystem with
  | None => Ok false
  | Some err =>
      match DialPrivate with
      | None => Ok true
      | Some privateErr => Err ("connect to systemd: system bus: " +:+ err +:+ "; private socket: " +:+ privateErr)%string
      end
  end.

Definition QueryUnit (name : string) : result string UnitInfo :=
  match dial with
  | Err e => Err e
  | Ok conn =>
      match GetUnitProperties conn name with
      | Err e => Err ("query unit " +:+ name +:+ ": " +:+ e)%string
      | Ok props =>
          Ok (UnitInfoFromProperties props (match GetServiceProperties conn name with Ok svc => svc | Err _ => ∅ end))
      end
  end.

Definition CanonicalID (name : string) : result string string :=
  match dial with
  | Err e => Err e
  | Ok conn =>
      match GetUnitProperties conn name with
      | Err e => Err ("query unit " +:+ name +:+ ": " +:+ e)%string
      | Ok props =>
          let id := as_string (props !! "Id"%string) in
          if String.eqb id "" then Err ("systemd reported no Id for " +:+ name)%string else Ok id
      end
  end.
End WithBus.
End Systemd.

(** ** The binary's version (version.go) *)

Module Version.
Import GoJson GoText.

(** strings.Fields: the runs of runes that are not space. *)
Fixpoint fields_fuel (fuel : nat) (word l : list Z) : list (list Z) :=
  let flush := match word with [] => [] | _ => [word] end in
  match fuel with
  | O => flush
  | S fuel =>
      match decode_rune l with
      | None => flush
      | Some (r, _, rest) =>
          if rune_space r then flush ++ fields_fuel fuel [] rest
          else fields_fuel fuel (word ++ take (length l - length rest) l) rest
      end
  end.

Definition Fields (s : string) : list string :=
  of_bytes <$> fields_fuel (S (String.length s)) [] (bytes_of s).

Definition parseVersion (output : string) : option string :=
  match Fields output with
  | first :: version :: _ => if String.eqb first "Xray" then Some version else None
  | _ => None
  end.

(** An error: the binary did not run, or printed something else. *)
Inductive versionError := CannotRun (execPath err : string) | CannotParse (execPath output : string).

Definition BinaryVersion (run : string → result string string) (execPath : string) : result versionError string :=
  match run execPath with
  | Err e => Err (CannotRun execPath e)
  | Ok output =>
      match parseVersion output with Some version => Ok version | None => Err (CannotParse execPath output) end
  end.

Example version_is_the_second_word :
  parseVersion "Xray 26.4.13 (Xray, Penetrates Everything.) 8ab9a61 (go1.26.1 linux/amd64)" = Some "26.4.13"%string ∧
  parseVersion "V2Ray 5.1" = None ∧ parseVersion "  Xray" = None.
Proof. by vm_compute. Qed.
End Version.

(** ** The collector (xraystatus.go) *)

Module XrayStatus.
Import Reconcile Store.

Local Open Scope Z_scope.

Inductive ServiceStatus := Running | Stopped | Unreachable.

Record Status := {
  st_collected_at : Z;
  st_status : ServiceStatus;
  st_version : option string;
  st_uptime : Z;
  st_mem : option Z;
  st_goroutines : option Z;
  st_speed_up : Z; st_speed_down : Z;
  st_total_up : Z; st_total_down : Z;
  st_users_online : option nat; st_ips_online : option nat;
}.

(** The log slots, and a line of the log: a failure or its end. *)
Inductive slot := QueryErr | BinaryErr | StatsErr | TotalsErr.
Inductive logged := Failed (k : slot) (err : string) | Recovered (k : slot).

Record Collector := {
  c_slots : slot → string;   (* queryErr, binaryErr, statsErr, totalsErr *)
  c_up : Tracker; c_down : Tracker;
  c_lastPoll : Z;
  c_store : bool;            (* totalsStore is set *)
  c_totalsLoaded : bool;
  c_durableUp : Z; c_durableDown : Z;
}.

Definition NewCollector : Collector := {|
  c_slots := λ _, ""%string; c_up := NewTracker true; c_down := NewTracker true;
  c_lastPoll := Collector.zeroTime; c_store := false; c_totalsLoaded := false; c_durableUp := 0; c_durableDown := 0;
|}.

Definition WithTotalsStore (c : Collector) : Collector := {|
  c_slots := c_slots c; c_up := NewTracker false; c_down := NewTracker false;
  c_lastPoll := c_lastPoll c; c_store := true; c_totalsLoaded := c_totalsLoaded c;
  c_durableUp := c_durableUp c; c_durableDown := c_durableDown c;
|}.

(** Assigning some of the fields. *)
Definition set_slots (slots : slot → string) (c : Collector) : Collector := {|
  c_slots := slots; c_up := c_up c; c_down := c_down c; c_lastPoll := c_lastPoll c; c_store := c_store c;
  c_totalsLoaded := c_totalsLoaded c; c_durableUp := c_durableUp c; c_durableDown := c_durableDown c;
|}.

Definition set_trackers (up down : Tracker) (lastPoll : Z) (c : Collector) : Collector := {|
  c_slots := c_slots c; c_up := up; c_down := down; c_lastPoll := lastPoll; c_store := c_store c;
  c_totalsLoaded := c_totalsLoaded c; c_durableUp := c_durableUp c; c_durableDown := c_durableDown c;
|}.

Definition set_durable (loaded : bool) (up down : Z) (c : Collector) : Collector := {|
  c_slots := c_slots c; c_up := c_up c; c_down := c_down c; c_lastPoll := c_lastPoll c; c_store := c_store c;
  c_totalsLoaded := loaded; c_durableUp := up; c_durableDown := down;
|}.

#[export] Instance slot_eq : EqDecision slot.
Proof. solve_decision. Defined.

Definition set_slot (k : slot) (msg : string) (c : Collector) : Collector :=
  set_slots (λ k', if decide (k' = k) then msg else c_slots c k') c.

Definition logFailure (k : slot) (err : string) (c : Collector) : Collector * list logged :=
  if String.eqb (c_slots c k) err then (c, []) else (set_slot k err c, [Failed k err]).

Definition logRecovery (k : slot) (c : Collector) : Collector * list logged :=
  if String.eqb (c_slots c k) "" then (c, []) else (set_slot k "" c, [Recovered k]).

(** What one call of Collect meets: the clock where it is read, the seams'
    answers and, of the totals' store, the errors. *)
Record Input := {
  in_started : Z;
  in_unit : result string Systemd.UnitInfo;
  in_uptime_clock : Z;
  in_version : string → result string string;
  in_runtime : result string XrayStats.RuntimeStats;
  in_polled : Z;
  in_load_err : option string;
  in_save_err : option string;
}.

Section WithRuntime.
Context `{GoRuntime}.

Definition uptime (i : Input) (info : Systemd.UnitInfo) : Z :=
  if Systemd.ActiveSince info =? Collector.zeroTime then 0
  else uint64_of_float (Seconds (Collector.time_sub (in_uptime_clock i) (Systemd.ActiveSince info))).

(** The totals a status shows: the durable ones once they are loaded. *)
Definition shown_totals (c : Collector) : Z * Z :=
  if c_totalsLoaded c then (c_durableUp c, c_durableDown c) else (Total (c_up c), Total (c_down c)).

Definition degraded (i : Input) (status : ServiceStatus) : Status := {|
  st_collected_at := Collector.unix (in_started i); st_status := status; st_version := None; st_uptime := 0;
  st_mem := None; st_goroutines := None; st_speed_up := 0; st_speed_down := 0; st_total_up := 0; st_total_down := 0;
  st_users_online := None; st_ips_online := None;
|}.

Definition readVersion (i : Input) (info : Systemd.UnitInfo) (c : Collector) : Collector * option string * list logged :=
  match in_version i (Systemd.ExecPath info) with
  | Ok version => let (c, l) := logRecovery BinaryErr c in (c, Some version, l)
  | Err err => let (c, l) := logFailure BinaryErr err c in (c, None, l)
  end.

(** The trackers and the time of the poll. *)
Definition advance (i : Input) (runtime : XrayStats.RuntimeStats) (c : Collector) : Collector :=
  let elapsed := Collector.time_sub (in_polled i) (c_lastPoll c) in
  set_trackers (Add (XrayStats.rs_up runtime) elapsed (c_up c)) (Add (XrayStats.rs_down runtime) elapsed (c_down c))
    (in_polled i) c.

Definition loadTotals (i : Input) (runtime : XrayStats.RuntimeStats) (c : Collector) (d : db) : Collector * list logged :=
  match in_load_err i with
  | Some err => logFailure TotalsErr err c
  | None =>
      let '(up, down) := default (XrayStats.rs_up runtime, XrayStats.rs_down runtime) (LoadTrafficTotals d) in
      (set_durable true up down c, [])
  end.

Definition credit (upDelta downDelta : Z) (c : Collector) : Collector :=
  if c_totalsLoaded c
  then set_durable true (u64_add (c_durableUp c) upDelta) (u64_add (c_durableDown c) downDelta) c
  else c.

Definition saveTotals (i : Input) (c : Collector) (d : db) : Collector * db * list logged :=
  if c_totalsLoaded c then
    match in_save_err i with
    | Some err => let (c, l) := logFailure TotalsErr err c in (c, d, l)
    | None => let (c, l) := logRecovery TotalsErr c in (c, SaveTrafficTotals (c_durableUp c) (c_durableDown c) d, l)
    end
  else (c, d, []).

Definition Collect (i : Input) (c : Collector) (d : db) : Collector * db * Status * list logged :=
  match in_unit i with
  | Err err => let (c, l) := logFailure QueryErr err c in (c, d, degraded i Unreachable, l)
  | Ok info =>
      let (c, l) := logRecovery QueryErr c in
      if negb (String.eqb (Systemd.ActiveState info) "active") then (c, d, degraded i Stopped, l)
      else
        let '(c, version, l1) := readVersion i info c in
        match in_runtime i with
        | Err err =>
            let (c, l2) := logFailure StatsErr err c in
            let '(up, down) := shown_totals c in
            (c, d, {| st_collected_at := Collector.unix (in_started i); st_status := Unreachable; st_version := version;
                      st_uptime := uptime i info; st_mem := None; st_goroutines := None;
                      st_speed_up := 0; st_speed_down := 0; st_total_up := up; st_total_down := down;
                      st_users_online := None; st_ips_online := None |}, l ++ l1 ++ l2)
        | Ok runtime =>
            let (c, l2) := logRecovery StatsErr c in
            let c := advance i runtime c in
            let '(speedUp, speedDown) := (Speed (c_up c), Speed (c_down c)) in
            let '(upDelta, downDelta) := (LastDelta (c_up c), LastDelta (c_down c)) in
            let (c, l3) := if c_store c && negb (c_totalsLoaded c) then loadTotals i runtime c d else (c, []) in
            let c := credit upDelta downDelta c in
            let '(up, down) := shown_totals c in
            let '(c, d, l4) := saveTotals i c d in
            (c, d, {| st_collected_at := Collector.unix (in_started i); st_status := Running; st_version := version;
                      st_uptime := uptime i info; st_mem := Some (XrayStats.rs_mem runtime);
                      st_goroutines := Some (XrayStats.rs_goroutines runtime);
                      st_speed_up := speedUp; st_speed_down := speedDown; st_total_up := up; st_total_down := down;
                      st_users_online := XrayStats.rs_online_users runtime;
                      st_ips_online := XrayStats.rs_online_ips runtime |}, l ++ l1 ++ l2 ++ l3 ++ l4)
        end
  end.

(** The polls of one run of the panel, and what they log. *)
Fixpoint run (inputs : list Input) (c : Collector) (d : db) : Collector * db * list logged :=
  match inputs with
  | [] => (c, d, [])
  | i :: inputs =>
      let '(c, d, _, l) := Collect i c d in
      let '(c, d, l') := run inputs c d in (c, d, l ++ l')
  end.

End WithRuntime.
End XrayStatus.
