(* ===== verification/XrayStatusTheorems.v ===== *)
(** * What the service status promises

    The durable totals of a whole run against the counters xray reported, the
    table of a status' fields and the log. *)

From Stdlib Require Import Ascii String.
From S2P Require Import Prelude Reconcile Store Collector XrayStats XrayStatus.

Module XrayStatusTheorems.
Import Reconcile Store XrayStatus.

Local Open Scope Z_scope.

(** ** The log's slots leave the rest alone *)

Record kept (c c' : XrayStatus.Collector) : Prop := {
  kept_up : c_up c' = c_up c; kept_down : c_down c' = c_down c; kept_poll : c_lastPoll c' = c_lastPoll c;
  kept_store : c_store c' = c_store c; kept_loaded : c_totalsLoaded c' = c_totalsLoaded c;
  kept_durable_up : c_durableUp c' = c_durableUp c; kept_durable_down : c_durableDown c' = c_durableDown c;
}.

#[export] Instance kept_refl : Reflexive kept.
Proof. by split. Qed.

#[export] Instance kept_trans : Transitive kept.
Proof. intros a b c [] []. split; congruence. Qed.

Lemma logFailure_kept k err c : kept c (logFailure k err c).1.
Proof. unfold logFailure. by destruct (String.eqb _ _). Qed.

Lemma logRecovery_kept k c : kept c (logRecovery k c).1.
Proof. unfold logRecovery. by destruct (String.eqb _ _). Qed.

(** Names the outcome of a log call with what it kept. *)
Ltac step_log :=
  match goal with
  | |- context [logFailure ?k ?e ?c] =>
      let c' := fresh "c" in let l := fresh "l" in let K := fresh "K" in
      pose proof (logFailure_kept k e c) as K; destruct (logFailure k e c) as [c' l]; cbn [fst] in K
  | |- context [logRecovery ?k ?c] =>
      let c' := fresh "c" in let l := fresh "l" in let K := fresh "K" in
      pose proof (logRecovery_kept k c) as K; destruct (logRecovery k c) as [c' l]; cbn [fst] in K
  end.

(** ** Polls that reach the stats API *)

Definition active (i : Input) : bool :=
  match in_unit i with Ok info => String.eqb (Systemd.ActiveState info) "active" | Err _ => false end.

Definition contact (i : Input) : bool := active i && is_ok (in_runtime i).

Definition raws (i : Input) : Z * Z :=
  match in_runtime i with Ok r => (XrayStats.rs_up r, XrayStats.rs_down r) | Err _ => (0, 0) end.

Section WithRuntime.
Context `{GoRuntime}.

Lemma readVersion_kept i info c : let '(c', _, _) := readVersion i info c in kept c c'.
Proof. unfold readVersion. destruct (in_version i _); step_log; done. Qed.

Ltac step_version :=
  match goal with
  | |- context [readVersion ?i ?info ?c] =>
      let K := fresh "K" in pose proof (readVersion_kept i info c) as K;
      destruct (readVersion i info c) as [[? ?] ?]
  end.

Lemma collect_quiet i c d : contact i = false →
  let '(c', d', _, _) := Collect i c d in kept c c' ∧ d' = d.
Proof.
  unfold contact, active, Collect. destruct (in_unit i) as [info|err]; [|by step_log].
  intros Hq. step_log. destruct (String.eqb _ "active"); cbn [negb]; [|done].
  destruct (in_runtime i); [done|]. step_version. step_log. destruct (shown_totals _). split; [|done].
  etrans; [done|]. by etrans.
Qed.

Lemma collect_unreachable i c d err : active i = true → in_runtime i = Err err →
  let '(c', d', status, _) := Collect i c d in (st_total_up status, st_total_down status) = shown_totals c' ∧ d' = d.
Proof.
  unfold active, Collect. destruct (in_unit i) as [info|e]; [|done]. intros -> ->. cbn [negb].
  step_log. step_version. step_log. destruct (shown_totals _) eqn:E. done.
Qed.

(** The totals a first contact starts from. *)
Definition starts_from (i : Input) (d : db) : Z * Z := default (raws i) (LoadTrafficTotals d).

Definition elapsed (i : Input) (c : XrayStatus.Collector) : Z := Collector.time_sub (in_polled i) (c_lastPoll c).

Lemma saveTotals_spec i c d : c_totalsLoaded c = true →
  let '(c', d', _) := saveTotals i c d in
  kept c c' ∧ d' = match in_save_err i with None => SaveTrafficTotals (c_durableUp c) (c_durableDown c) d | Some _ => d end.
Proof. unfold saveTotals. intros ->. destruct (in_save_err i); step_log; (split; [done|]); destruct K; congruence. Qed.

Lemma loading i r c d : c_store c = true → (c_totalsLoaded c = true ∨ in_load_err i = None) →
  ∃ c' l, (if c_store c && negb (c_totalsLoaded c) then loadTotals i r c d else (c, [])) = (c', l) ∧
    c_up c' = c_up c ∧ c_down c' = c_down c ∧ c_store c' = true ∧ c_totalsLoaded c' = true ∧
    (c_durableUp c', c_durableDown c') =
      if c_totalsLoaded c then (c_durableUp c, c_durableDown c)
      else default (XrayStats.rs_up r, XrayStats.rs_down r) (LoadTrafficTotals d).
Proof.
  intros Hst Hload. rewrite Hst. destruct (c_totalsLoaded c) eqn:El; cbn [andb negb].
  - exists c, []. done.
  - destruct Hload as [|Hload]; [done|]. unfold loadTotals. rewrite Hload.
    destruct (default _ _) as [up down]. eexists _, _. split; [done|]. done.
Qed.

Lemma collect_contact i c d : contact i = true → c_store c = true →
  (c_totalsLoaded c = true ∨ in_load_err i = None) →
  let '(c', d', status, _) := Collect i c d in
  let base := if c_totalsLoaded c then (c_durableUp c, c_durableDown c) else starts_from i d in
  c_up c' = Add (raws i).1 (elapsed i c) (c_up c) ∧ c_down c' = Add (raws i).2 (elapsed i c) (c_down c) ∧
  c_store c' = true ∧ c_totalsLoaded c' = true ∧
  c_durableUp c' = u64_add base.1 (LastDelta (c_up c')) ∧ c_durableDown c' = u64_add base.2 (LastDelta (c_down c')) ∧
  st_total_up status = c_durableUp c' ∧ st_total_down status = c_durableDown c' ∧
  d' = match in_save_err i with None => SaveTrafficTotals (c_durableUp c') (c_durableDown c') d | Some _ => d end.
Proof.
  unfold contact, active, Collect. destruct (in_unit i) as [info|err]; [|done].
  destruct (String.eqb _ "active"); [|by rewrite andb_false_l]. destruct (in_runtime i) as [r|] eqn:Er; [|done].
  intros _ Hst Hload. cbn [negb]. step_log. step_version. step_log.
  assert (kept c c2) as [Ku Kd Kp Ks Kl Kdu Kdd] by (etrans; [done|by etrans]).
  destruct (loading i r (advance i r c2) d) as (cl & l3 & -> & Hu & Hd & Hs & Hl & Hb);
    [by cbn; rewrite Ks|by cbn; rewrite Kl|].
  assert ((c_durableUp cl, c_durableDown cl) =
    if c_totalsLoaded c then (c_durableUp c, c_durableDown c) else starts_from i d) as <-.
  { rewrite Hb. cbn. rewrite Kl, Kdu, Kdd. unfold starts_from, raws. by rewrite Er. }
  unfold credit. rewrite Hl. unfold shown_totals. cbn [c_totalsLoaded set_durable c_durableUp c_durableDown].
  set (c4 := set_durable _ _ _ cl).
  pose proof (saveTotals_spec i c4 d eq_refl) as Hsave. destruct (saveTotals i c4 d) as [[c5 d5] l5].
  destruct Hsave as [[Pu Pd _ Ps Pl Pdu Pdd] ->]. unfold elapsed, raws. rewrite Er.
  rewrite Pu, Pd, Ps, Pl, Pdu, Pdd. subst c4. cbn. rewrite Hu, Hd, Hs. cbn. rewrite Ku, Kd, Kp. done.
Qed.
(** ** A whole run *)

(** The bytes that the readings after [last] add: the counter's growth, or
    all of it when xray restarted and it fell. *)
Fixpoint growth (last : Z) (readings : list Z) : Z :=
  match readings with [] => 0 | r :: readings => reconcile_delta last r + growth r readings end.

Lemma growth_snoc first l r : growth first (l ++ [r]) = growth first l + reconcile_delta (List.last l first) r.
Proof.
  revert first. induction l as [|a l IH]; intros first; cbn [app growth]; [cbn; lia|].
  rewrite IH. destruct l as [|b l]; [cbn; lia|]. cbn [List.last]. rewrite <-Z.add_assoc. do 3 f_equal.
  clear. revert b. induction l as [|c l IH]; intros b; [done|apply IH].
Qed.

Lemma last_app_one (l : list Z) first r : List.last (l ++ [r]) first = r.
Proof. apply List.last_last. Qed.

(** A direction after the readings [first :: l], for a baseline total. *)
Record follows (base first : Z) (l : list Z) (t : Tracker) (durable : Z) : Prop := {
  follows_seen : seen t = true;
  follows_last : lastRaw t = List.last l first;
  follows_durable : durable = u64 (base + growth first l);
}.

Lemma follows_first base first e :
  follows base first [] (Add first e (NewTracker false)) (u64_add base (LastDelta (Add first e (NewTracker false)))).
Proof. split; done. Qed.

Lemma follows_next base first l t durable r e :
  follows base first l t durable → follows base first (l ++ [r]) (Add r e t) (u64_add durable (LastDelta (Add r e t))).
Proof.
  intros [Hs Hl ->]. unfold Add. rewrite Hs. cbn. split; cbn; [done|by rewrite last_app_one|].
  unfold u64_add. rewrite u64_add_l, Hl, growth_snoc. f_equal. lia.
Qed.

(** The polls that reached the API, oldest first. *)
Definition contacts (inputs : list Input) : list Input := List.filter contact inputs.

Definition first_contact_loads (inputs : list Input) : Prop :=
  match contacts inputs with i :: _ => in_load_err i = None | [] => True end.

Definition ups (l : list Input) : list Z := (λ i, (raws i).1) <$> l.
Definition downs (l : list Input) : list Z := (λ i, (raws i).2) <$> l.

(** The state after a run of the panel over the database [d0]. *)
Definition in_step (d0 : db) (inputs : list Input) (c : XrayStatus.Collector) (d : db) : Prop :=
  c_store c = true ∧
  match contacts inputs with
  | [] => c_up c = NewTracker false ∧ c_down c = NewTracker false ∧ c_totalsLoaded c = false ∧ d = d0
  | i :: l =>
      c_totalsLoaded c = true ∧
      follows (starts_from i d0).1 (raws i).1 (ups l) (c_up c) (c_durableUp c) ∧
      follows (starts_from i d0).2 (raws i).2 (downs l) (c_down c) (c_durableDown c)
  end.

Lemma contacts_snoc inputs i : contacts (inputs ++ [i]) = contacts inputs ++ (if contact i then [i] else []).
Proof. unfold contacts. rewrite List.filter_app. cbn. by destruct (contact i). Qed.

Lemma in_step_next d0 inputs i c d : first_contact_loads (inputs ++ [i]) → in_step d0 inputs c d →
  let '(c', d', _, _) := Collect i c d in in_step d0 (inputs ++ [i]) c' d'.
Proof.
  unfold first_contact_loads, in_step. rewrite contacts_snoc. intros Hload [Hst Hin].
  destruct (contact i) eqn:Ec.
  - assert (c_totalsLoaded c = true ∨ in_load_err i = None) as Hl.
    { destruct (contacts inputs); [by right|left; apply Hin]. }
    pose proof (collect_contact i c d Ec Hst Hl) as Hc. destruct (Collect i c d) as [[[c' d'] status] lg].
    destruct Hc as (Hu & Hd & Hs & Hlo & Hdu & Hdd & _). split; [done|].
    destruct (contacts inputs) as [|i0 l]; cbn [app].
    + destruct Hin as (Hcu & Hcd & Hcl & ->). split; [done|]. rewrite Hcl in Hdu, Hdd.
      rewrite Hdu, Hdd, Hu, Hd, Hcu, Hcd. split; apply follows_first.
    + destruct Hin as (Hcl & Hfu & Hfd). split; [done|]. rewrite Hcl in Hdu, Hdd. cbn [fst snd] in Hdu, Hdd.
      rewrite Hdu, Hdd, Hu, Hd. unfold ups, downs. rewrite !fmap_app. split; by apply follows_next.
  - pose proof (collect_quiet i c d Ec) as Hc. destruct (Collect i c d) as [[[c' d'] status] lg].
    destruct Hc as [[Ku Kd _ Ks Kl Kdu Kdd] ->]. rewrite app_nil_r, Ku, Kd, Ks, Kl, Kdu, Kdd. done.
Qed.

Lemma polls_snoc inputs i c d :
  run (inputs ++ [i]) c d =
    let '(c, d, l) := run inputs c d in let '(c, d, _, l') := Collect i c d in (c, d, l ++ l').
Proof.
  revert c d. induction inputs as [|j inputs IH]; intros c d; cbn [app run].
  - destruct (Collect i c d) as [[[c' d'] s] l]. by rewrite app_nil_r.
  - destruct (Collect j c d) as [[[c1 d1] s1] l1]. rewrite IH. destruct (run inputs c1 d1) as [[c2 d2] l2].
    destruct (Collect i c2 d2) as [[[c3 d3] s3] l3]. by rewrite app_assoc.
Qed.

Lemma first_contact_loads_app inputs i : first_contact_loads (inputs ++ [i]) → first_contact_loads inputs.
Proof. unfold first_contact_loads. rewrite contacts_snoc. by destruct (contacts inputs). Qed.

Lemma run_in_step d0 inputs : first_contact_loads inputs →
  let '(c, d, _) := run inputs (WithTotalsStore NewCollector) d0 in in_step d0 inputs c d.
Proof.
  induction inputs as [|i inputs IH] using rev_ind; intros Hl; [done|].
  rewrite polls_snoc. specialize (IH (first_contact_loads_app _ _ Hl)).
  destruct (run inputs _ d0) as [[c d] l]. pose proof (in_step_next d0 inputs i c d Hl IH) as Hn.
  by destruct (Collect i c d) as [[[c' d'] s] l'].
Qed.

(** C32: the totals an active xray is shown with are durable. Over any
    sequence of polls, with a unit that stops and restarts and an API that
    fails in between, once the stored totals could be read at the first
    contact, the status shows the totals stored by the run of the panel before
    (or xray's counters at the first contact, on a first boot), plus all that
    the counters grew by from reading to reading, restarts of xray included;
    they are kept while the API does not answer. A poll whose save succeeds
    stores exactly those totals, whatever the saves before it did. *)
Theorem durable_totals_follow_the_counters d0 inputs i i0 l :
  first_contact_loads (inputs ++ [i]) → active i = true → contacts (inputs ++ [i]) = i0 :: l →
  let '(c, d, _) := run inputs (WithTotalsStore NewCollector) d0 in
  let '(_, d', status, _) := Collect i c d in
  st_total_up status = u64 ((starts_from i0 d0).1 + growth (raws i0).1 (ups l)) ∧
  st_total_down status = u64 ((starts_from i0 d0).2 + growth (raws i0).2 (downs l)) ∧
  LoadTrafficTotals d' =
    match in_runtime i, in_save_err i with
    | Ok _, None => Some (st_total_up status, st_total_down status)
    | _, _ => LoadTrafficTotals d
    end.
Proof.
  intros Hl Ha Hc. pose proof (run_in_step d0 inputs (first_contact_loads_app _ _ Hl)) as Hin.
  destruct (run inputs _ d0) as [[c d] lg]. pose proof (in_step_next d0 inputs i c d Hl Hin) as Hn.
  unfold in_step in Hn. rewrite Hc in Hn. destruct (contact i) eqn:Ec.
  - assert (c_totalsLoaded c = true ∨ in_load_err i = None) as Hlo.
    { unfold first_contact_loads in Hl. rewrite contacts_snoc, Ec in Hl. destruct Hin as [_ Hin].
      destruct (contacts inputs); [by right|left; apply Hin]. }
    pose proof (collect_contact i c d Ec (proj1 Hin) Hlo) as Hk. destruct (Collect i c d) as [[[c' d'] s] lg'].
    destruct Hk as (_ & _ & _ & _ & _ & _ & -> & -> & ->). destruct Hn as (_ & _ & [_ _ ->] & [_ _ ->]).
    split_and!; [done|done|]. unfold contact in Ec. rewrite Ha in Ec. destruct (in_runtime i); [|done]. by destruct (in_save_err i).
  - destruct (in_runtime i) as [r|err] eqn:Er; [unfold contact in Ec; by rewrite Ha, Er in Ec|].
    pose proof (collect_unreachable i c d err Ha Er) as Hk. destruct (Collect i c d) as [[[c' d'] s] lg'].
    destruct Hk as [Hk ->]. destruct Hn as (_ & Hlo & [_ _ Hu] & [_ _ Hd]).
    unfold shown_totals in Hk. rewrite Hlo, Hu, Hd in Hk. by simplify_eq.
Qed.

(** ** The table of fields *)

(** What a status knows. The service runs exactly when its unit is
    active and the API answered, and only then are there process figures;
    everything else has speed zero and no online counts. The version and the
    uptime are known as soon as the unit is active. A unit that cannot be asked
    is unreachable, one that is not active is stopped, and both show nothing;
    an active unit whose API fails is unreachable. *)
Theorem status_is_what_is_known i c d :
  let '(_, _, status, _) := Collect i c d in
  (st_status status = Running ↔ contact i = true) ∧
  (st_status status = Stopped ↔ is_ok (in_unit i) = true ∧ active i = false) ∧
  (active i = false → status = degraded i (st_status status)) ∧
  (st_status status ≠ Running →
     st_mem status = None ∧ st_goroutines status = None ∧ st_users_online status = None ∧ st_ips_online status = None ∧
     st_speed_up status = 0 ∧ st_speed_down status = 0) ∧
  (∀ info r, in_unit i = Ok info → active i = true →
     st_uptime status = uptime i info ∧ (is_Some (st_version status) ↔ is_ok (in_version i (Systemd.ExecPath info)) = true) ∧
     (in_runtime i = Ok r → st_mem status = Some (XrayStats.rs_mem r) ∧ st_users_online status = XrayStats.rs_online_users r)).
Proof.
  unfold contact, active, Collect. destruct (in_unit i) as [info|err]; [|step_log; cbn; naive_solver].
  destruct (String.eqb _ "active"); cbn [negb]; [|step_log; cbn; naive_solver].
  step_log. assert (∀ c, let '(_, v, _) := readVersion i info c in is_Some v ↔ is_ok (in_version i (Systemd.ExecPath info)) = true) as Hv.
  { intros c1. unfold readVersion. destruct (in_version i _); step_log; cbn; split; by eauto. }
  specialize (Hv c0). destruct (readVersion i info c0) as [[c1 v] l1]. destruct (in_runtime i) as [r|e]; cbn [is_ok andb].
  - step_log. destruct (if _ : bool then _ else _) as [c3 l3]. destruct (shown_totals _). destruct (saveTotals _ _ _) as [[]].
    cbn. naive_solver.
  - step_log. destruct (shown_totals _). cbn. naive_solver.
Qed.

(** ** The log *)

Definition slot_of (l : logged) : slot := match l with Failed k _ | Recovered k => k end.
Definition text_of (l : logged) : string := match l with Failed _ err => err | Recovered _ => "" end.
Definition lines_of (k : slot) (log : list logged) : list logged := List.filter (λ l, bool_decide (slot_of l = k)) log.

(** What the slots know of a log: per kind the last line's text, and no line
    that repeats the one before it. *)
Definition logs (log : list logged) (c : XrayStatus.Collector) : Prop :=
  ∀ k, Sorted (≠) (lines_of k log) ∧ c_slots c k = default ""%string (text_of <$> last (lines_of k log)).

Lemma sorted_snoc {A} (R : relation A) l x : Sorted R l → (∀ y, last l = Some y → R y x) → Sorted R (l ++ [x]).
Proof.
  induction l as [|a l IH]; intros Hs Hl; [by repeat constructor|]. inversion Hs as [|? ? Hs' Hd]; subst. cbn. constructor.
  - apply IH; [done|]. intros y Hy. apply Hl. destruct l; [done|]. by rewrite last_cons_cons.
  - destruct l as [|b l]; cbn; constructor; [by apply Hl|by inversion Hd].
Qed.

Lemma logs_snoc log c k line : logs log c → slot_of line = k → text_of line ≠ c_slots c k →
  logs (log ++ [line]) (set_slot k (text_of line) c).
Proof.
  intros Hl Hk Hne k'. destruct (Hl k') as [Hs Ht]. unfold lines_of. rewrite List.filter_app. cbn [List.filter]. rewrite Hk.
  cbn [c_slots set_slot set_slots]. destruct (decide (k' = k)) as [->|Hkk].
  - rewrite bool_decide_eq_true_2 by done. rewrite last_snoc. split; [|done].
    apply sorted_snoc; [done|]. intros y Hy ->. apply Hne. rewrite Ht. unfold lines_of. by rewrite Hy.
  - rewrite bool_decide_eq_false_2 by done. by rewrite app_nil_r.
Qed.

Lemma logFailure_logs log k err c : logs log c → let (c', l) := logFailure k err c in logs (log ++ l) c'.
Proof.
  intros Hl. unfold logFailure. destruct (String.eqb_spec (c_slots c k) err) as [|Hne]; [by rewrite app_nil_r|].
  apply (logs_snoc log c k (Failed k err)); [done|done|]. cbn. congruence.
Qed.

Lemma logRecovery_logs log k c : logs log c → let (c', l) := logRecovery k c in logs (log ++ l) c'.
Proof.
  intros Hl. unfold logRecovery. destruct (String.eqb_spec (c_slots c k) "") as [|Hne]; [by rewrite app_nil_r|].
  apply (logs_snoc log c k (Recovered k)); [done|done|]. cbn. congruence.
Qed.

(** Follows a log call, keeping the account of the log. *)
Ltac step_logs Hl :=
  match goal with
  | |- context [logFailure ?k ?e ?c] =>
      apply (logFailure_logs _ k e) in Hl; destruct (logFailure k e c) as [? ?]
  | |- context [logRecovery ?k ?c] =>
      apply (logRecovery_logs _ k) in Hl; destruct (logRecovery k c) as [? ?]
  end.

Lemma readVersion_logs log i info c : logs log c → let '(c', _, l) := readVersion i info c in logs (log ++ l) c'.
Proof. intros Hl. unfold readVersion. destruct (in_version i _); by step_logs Hl. Qed.

Lemma loadTotals_logs log (b : bool) i r c d : logs log c →
  let (c', l) := if b then loadTotals i r c d else (c, []) in logs (log ++ l) c'.
Proof.
  intros Hl. destruct b; [|by rewrite app_nil_r]. unfold loadTotals. destruct (in_load_err i).
  - by step_logs Hl.
  - destruct (default _ _). by rewrite app_nil_r.
Qed.

Lemma credit_logs log up down c : logs log c → logs log (credit up down c).
Proof. unfold credit. by destruct (c_totalsLoaded c). Qed.

Lemma saveTotals_logs log i c d : logs log c → let '(c', _, l) := saveTotals i c d in logs (log ++ l) c'.
Proof.
  intros Hl. unfold saveTotals. destruct (c_totalsLoaded c); [|by rewrite app_nil_r].
  destruct (in_save_err i); by step_logs Hl.
Qed.

Lemma collect_logs log i c d : logs log c → let '(c', _, _, l) := Collect i c d in logs (log ++ l) c'.
Proof.
  intros Hl. unfold Collect. destruct (in_unit i) as [info|err]; [|by step_logs Hl]. step_logs Hl.
  destruct (negb _); [done|]. pose proof (readVersion_logs _ i info _ Hl) as Hv. destruct (readVersion i info _) as [[c1 v] l1].
  destruct (in_runtime i) as [r|e]; step_logs Hv.
  - change (logs ((((log ++ l) ++ l1) ++ l0)) (advance i r c2)) in Hv.
    apply (loadTotals_logs _ (c_store (advance i r c2) && negb (c_totalsLoaded (advance i r c2))) i r _ d) in Hv.
    destruct (if _ : bool then _ else _) as [c3 l3].
    apply (credit_logs _ (LastDelta (c_up (advance i r c2))) (LastDelta (c_down (advance i r c2)))) in Hv.
    destruct (shown_totals _). pose proof (saveTotals_logs _ i _ d Hv) as Hs. destruct (saveTotals i _ d) as [[c5 d5] l5].
    by rewrite !app_assoc.
  - destruct (shown_totals _). by rewrite !app_assoc.
Qed.

(** The log tells each change once. In the lines of one kind that a run
    of any polls writes no line repeats the one before it: a failure that
    persists is logged when it starts or when its reason changes, and a
    recovery only after a failure. *)
Theorem log_tells_each_change_once inputs store d k :
  let '(_, _, log) := run inputs (if store : bool then WithTotalsStore NewCollector else NewCollector) d in
  Sorted (≠) (lines_of k log).
Proof.
  assert (logs [] (if store then WithTotalsStore NewCollector else NewCollector)) as Hl.
  { intros k'. split; [constructor|]. by destruct store. }
  revert d Hl. generalize (if store then WithTotalsStore NewCollector else NewCollector). intros c d Hl.
  enough (∀ inputs log c d, logs log c → let '(c', _, l) := run inputs c d in logs (log ++ l) c') as Hrun.
  { specialize (Hrun inputs [] c d Hl). destruct (run inputs c d) as [[c' d'] l]. apply Hrun. }
  clear. intros inputs. induction inputs as [|i inputs IH]; intros log c d Hl; cbn [run].
  - by rewrite app_nil_r.
  - pose proof (collect_logs log i c d Hl) as Hc. destruct (Collect i c d) as [[[c1 d1] s1] l1].
    specialize (IH _ c1 d1 Hc). destruct (run inputs c1 d1) as [[c2 d2] l2]. by rewrite app_assoc.
Qed.

End WithRuntime.

(** ** Examples *)

Module Examples.
Import AsciiRuntime.

Local Open Scope string_scope.

Definition unit_info : Systemd.UnitInfo :=
  {| Systemd.ActiveState := "active"; Systemd.SubState := "running"; Systemd.ActiveSince := 1000000000000;
     Systemd.ExecPath := "/usr/bin/xray" |}.

(** A poll five seconds after the one before it. *)
Definition poll (n : Z) (runtime : result string (Z * Z)) (load save : option string) : Input := {|
  in_started := 2000000000000 + n * 5000000000; in_unit := Ok unit_info;
  in_uptime_clock := 2000000000000 + n * 5000000000; in_version := λ _, Ok "26.4.13";
  in_runtime := result_map (λ r, {| XrayStats.rs_mem := 7; XrayStats.rs_goroutines := 3;
    XrayStats.rs_up := r.1; XrayStats.rs_down := r.2;
    XrayStats.rs_online_users := Some 2%nat; XrayStats.rs_online_ips := None |}) runtime;
  in_polled := 2000000000000 + n * 5000000000; in_load_err := load; in_save_err := save;
|}.

Definition stored (totals : option (Z * Z)) : db := Db [] [] totals.

(** The unit stops, the API fails, xray restarts and a save fails: the totals
    add up. *)
Definition history : list Input :=
  [poll 0 (Ok (100, 10)) None None; poll 1 (Ok (150, 40)) None (Some "disk full"); poll 2 (Err "down") None None].

Lemma durable_totals_follow_the_counters_witness :
  let '(c, d, _) := run history (WithTotalsStore NewCollector) (stored (Some (1000, 2000))) in
  let '(_, d', status, _) := Collect (poll 3 (Ok (30, 5)) None None) c d in
  st_total_up status = u64 ((starts_from (poll 0 (Ok (100, 10)) None None) (stored (Some (1000, 2000)))).1 +
    growth (raws (poll 0 (Ok (100, 10)) None None)).1 (ups [poll 1 (Ok (150, 40)) None (Some "disk full"); poll 3 (Ok (30, 5)) None None])) ∧
  st_total_down status = u64 ((starts_from (poll 0 (Ok (100, 10)) None None) (stored (Some (1000, 2000)))).2 +
    growth (raws (poll 0 (Ok (100, 10)) None None)).2 (downs [poll 1 (Ok (150, 40)) None (Some "disk full"); poll 3 (Ok (30, 5)) None None])) ∧
  LoadTrafficTotals d' =
    match in_runtime (poll 3 (Ok (30, 5)) None None), in_save_err (poll 3 (Ok (30, 5)) None None) with
    | Ok _, None => Some (st_total_up status, st_total_down status)
    | _, _ => LoadTrafficTotals d
    end.
Proof.
  apply (durable_totals_follow_the_counters (stored (Some (1000, 2000))) history (poll 3 (Ok (30, 5)) None None)
    (poll 0 (Ok (100, 10)) None None)); reflexivity.
Defined.

Definition totals_after (inputs : list Input) (d : db) : option (Z * Z) :=
  let '(_, d, _) := run inputs (WithTotalsStore NewCollector) d in LoadTrafficTotals d.

Example restart_and_failed_save_lose_nothing :
  totals_after (history ++ [poll 3 (Ok (30, 5)) None None]) (stored (Some (1000, 2000))) = Some (1080, 2035).
Proof. vm_compute. done. Qed.

(** While the stored totals cannot be read, the growth of the counters is
    shown from memory and never reaches the durable totals: of the 50 and
    the 30 bytes here only the last 30 are stored. *)
Example growth_before_the_load_is_lost :
  totals_after [poll 0 (Ok (100, 0)) (Some "locked") None; poll 1 (Ok (150, 0)) (Some "locked") None;
                poll 2 (Ok (180, 0)) None None] (stored (Some (1000, 0))) = Some (1030, 0).
Proof. vm_compute. done. Qed.

(** On a first boot the seed is the counter of the poll that loads, which
    already has that poll's growth: a load that fails once counts it twice. *)
Example late_seed_counts_twice :
  totals_after [poll 0 (Ok (100, 0)) (Some "locked") None; poll 1 (Ok (150, 0)) None None] (stored None) = Some (200, 0).
Proof. vm_compute. done. Qed.
End Examples.
End XrayStatusTheorems.
