(* ===== verification/GeoIP.v ===== *)
(** * Country lookup (internal/geoip/geoip.go)

    The loaded ranges sorted by their base address and the binary search
    over them, against a look at every range. The file's bytes, decoded, are
    the input. *)

From Stdlib Require Import Ascii String.
From S2P Require Import Prelude GoJson.

Module GeoIP.
Import GoJson.

Local Open Scope Z_scope.

(** ** Addresses (net/netip)

    The zero Addr has no bits; an IPv6 address may name a zone. *)
Record Addr := { a_bits : Z; a_value : Z; a_zone : string }.

#[export] Instance Addr_eq : EqDecision Addr.
Proof. solve_decision. Defined.

Definition zeroAddr : Addr := {| a_bits := 0; a_value := 0; a_zone := "" |}.

(** Big-endian bytes. *)
Definition from_bytes (bytes : list Z) : Z := foldl (λ n b, n * 256 + b) 0 bytes.

Definition AddrFromSlice (bytes : list Z) : option Addr :=
  match length bytes with
  | 4%nat => Some {| a_bits := 32; a_value := from_bytes bytes; a_zone := "" |}
  | 16%nat => Some {| a_bits := 128; a_value := from_bytes bytes; a_zone := "" |}
  | _ => None
  end.

(** An IPv4-mapped IPv6 address is ::ffff:a.b.c.d. *)
Definition Unmap (a : Addr) : Addr :=
  if (a_bits a =? 128) && (Z.shiftr (a_value a) 32 =? 65535)
  then {| a_bits := 32; a_value := Z.land (a_value a) (Z.ones 32); a_zone := "" |} else a.

(** By length, then value, then zone. *)
Definition compare (a b : Addr) : comparison :=
  match a_bits a ?= a_bits b with
  | Eq => match a_value a ?= a_value b with Eq => String.compare (a_zone a) (a_zone b) | c => c end
  | c => c
  end.

(** A prefix is valid when its length fits its address. *)
Record Prefix := { p_addr : Addr; p_len : option Z }.

Definition zeroPrefix : Prefix := {| p_addr := zeroAddr; p_len := None |}.

Definition PrefixFrom (a : Addr) (bits : Z) : Prefix :=
  {| p_addr := a; p_len := if (0 <? a_bits a) && (0 <=? bits) && (bits <=? a_bits a) then Some bits else None |}.

Definition Masked (p : Prefix) : Prefix :=
  match p_len p with
  | None => zeroPrefix
  | Some len =>
      let s := a_bits (p_addr p) - len in
      {| p_addr := {| a_bits := a_bits (p_addr p); a_value := Z.shiftl (Z.shiftr (a_value (p_addr p)) s) s; a_zone := "" |};
         p_len := Some len |}
  end.

Definition Contains (p : Prefix) (a : Addr) : bool :=
  match p_len p with
  | None => false
  | Some len =>
      String.eqb (a_zone a) "" && (a_bits (p_addr p) =? a_bits a) &&
      (Z.shiftr (Z.lxor (a_value a) (a_value (p_addr p))) (a_bits a - len) =? 0)
  end.

(** ** The resolver *)

Record prefixEntry := { prefix : Prefix; country : string }.

(** One category of the file: its code and its CIDRs, bytes and length. *)
Record GeoIPEntry := { ge_code : string; ge_cidr : list (list Z * Z) }.

Definition upper (b : Z) : bool := (65 <=? b) && (b <=? 90).

Definition isAlpha2 (code : string) : bool :=
  match bytes_of code with [a; b] => upper a && upper b | _ => false end.

Definition base_le (a b : prefixEntry) : Prop := compare (p_addr (prefix a)) (p_addr (prefix b)) ≠ Gt.

#[export] Instance base_le_dec a b : Decision (base_le a b).
Proof. unfold base_le. apply _. Defined.

Section WithRuntime.
Context `{GoRuntime}.

Definition entries_of (entry : GeoIPEntry) : list prefixEntry :=
  let code := to_upper (ge_code entry) in
  if isAlpha2 code then
    omap (λ cidr : list Z * Z,
      addr ← AddrFromSlice cidr.1;
      Some {| prefix := Masked (PrefixFrom addr cidr.2); country := code |}) (ge_cidr entry)
  else [].

Definition loaded (categories : list GeoIPEntry) : list prefixEntry := concat (entries_of <$> categories).

(** [file]: what reading and decoding the file answers. *)
Definition Load (file : result string (list GeoIPEntry)) : result string (list prefixEntry) :=
  match file with
  | Err e => Err e
  | Ok categories => Ok (merge_sort base_le (loaded categories))
  end.

End WithRuntime.

(** slices.BinarySearchFunc between [i] and [j]; the distance is fuel
    enough. *)
Fixpoint search (fuel : nat) (entries : list prefixEntry) (a : Addr) (i j : nat) : nat :=
  match fuel with
  | O => i
  | S fuel =>
      if (i <? j)%nat then
        let h := ((i + j) / 2)%nat in
        match entries !! h with
        | Some e =>
            match compare (p_addr (prefix e)) a with
            | Lt => search fuel entries a (S h) j
            | _ => search fuel entries a i h
            end
        | None => i
        end
      else i
  end.

Definition BinarySearch (entries : list prefixEntry) (a : Addr) : nat * bool :=
  let i := search (length entries) entries a 0 (length entries) in
  (i, match entries !! i with
      | Some e => match compare (p_addr (prefix e)) a with Eq => true | _ => false end
      | None => false
      end).

(** [parse] is netip.ParseAddr. *)
Definition Country (parse : string → option Addr) (entries : list prefixEntry) (ip : string) : string :=
  match parse ip with
  | None => ""
  | Some addr =>
      let addr := Unmap addr in
      let '(i, found) := BinarySearch entries addr in
      let candidate := if found then Some i else match i with O => None | S i => Some i end in
      match i ← candidate; entries !! i with
      | Some e => if Contains (prefix e) addr then country e else ""
      | None => ""
      end
  end.

(** ** Lemmas *)

#[export] Instance base_le_total : Total base_le.
Proof.
  intros x y. unfold base_le. generalize (p_addr (prefix x)), (p_addr (prefix y)). intros a b.
  assert (compare b a = CompOpp (compare a b)) as ->.
  { unfold compare. rewrite (Z.compare_antisym (a_bits a)). destruct (a_bits a ?= a_bits b); [|done|done]. cbn.
    rewrite (Z.compare_antisym (a_value a)). destruct (a_value a ?= a_value b); [|done|done]. cbn. apply String.compare_antisym. }
  destruct (compare a b); [by left|by left|by right].
Qed.

(** What every loaded range is: no zone, and a length that fits or nothing
    at all. *)
Definition well_formed (e : prefixEntry) : Prop :=
  a_zone (p_addr (prefix e)) = ""%string ∧
  match p_len (prefix e) with
  | None => p_addr (prefix e) = zeroAddr
  | Some len => 0 < a_bits (p_addr (prefix e)) ∧ 0 <= len <= a_bits (p_addr (prefix e))
  end.

Lemma loaded_well_formed `{GoRuntime} categories : Forall well_formed (loaded categories).
Proof.
  apply Forall_concat, Forall_fmap, Forall_true. intros entry. unfold compose, entries_of.
  destruct (isAlpha2 _); [|constructor]. apply Forall_forall. intros e (cidr & _ & He)%list_elem_of_omap.
  destruct (AddrFromSlice cidr.1) as [addr|]; cbn in He; [|done]. simplify_eq. unfold well_formed, PrefixFrom, Masked. cbn.
  destruct (0 <? a_bits addr) eqn:E1, (0 <=? cidr.2) eqn:E2, (cidr.2 <=? a_bits addr) eqn:E3; cbn; try done. apply Z.ltb_lt in E1. apply Z.leb_le in E2, E3. done.
Qed.

(** The order of the bases, without zones. *)
Definition key_le (a b : Addr) : Prop := a_bits a < a_bits b ∨ a_bits a = a_bits b ∧ a_value a <= a_value b.
Definition base (e : prefixEntry) : Addr := p_addr (prefix e).

Lemma compare_base e a : well_formed e →
  match compare (base e) a with
  | Lt => key_le (base e) a ∧ base e ≠ a
  | Eq => base e = a
  | Gt => key_le a (base e) ∧ ¬ key_le (base e) a
  end.
Proof.
  intros [Hz _]. fold (base e) in Hz. destruct (base e) as [bits value zone], a as [b v z]. unfold compare, key_le. cbn in *. subst zone.
  destruct (Z.compare_spec bits b); [subst b| |].
  - destruct (Z.compare_spec value v); [subst v| |].
    + destruct z as [|c z]; cbn; [done|]. split; [lia|done].
    + split; [lia|]. intros [=]. lia.
    + lia.
  - split; [lia|]. intros [=]. lia.
  - lia.
Qed.

Lemma key_le_trans a b c : key_le a b → key_le b c → key_le a c.
Proof. unfold key_le. lia. Qed.

(** The bases in order, by place. *)
Definition in_order (entries : list prefixEntry) : Prop :=
  ∀ i j e f, (i ≤ j)%nat → entries !! i = Some e → entries !! j = Some f → key_le (base e) (base f).

Lemma sorted_in_order entries : Forall well_formed entries → Sorted base_le entries → in_order entries.
Proof.
  intros Hwf Hs. assert (Sorted (λ e f, key_le (base e) (base f)) entries) as Hs'.
  { induction Hs as [|e l Hs IH Hd]; [constructor|]. apply Forall_cons in Hwf as [He Hl]. constructor; [by apply IH|].
    destruct Hd as [|f l Hd]; constructor. unfold base_le in Hd. apply Forall_cons in Hl as [Hf _].
    pose proof (compare_base e (base f) He) as Hc. unfold base in *. destruct (compare _ _); [by rewrite Hc; right|by destruct Hc|done]. }
  apply Sorted_StronglySorted in Hs'; [|intros ??? H1 H2; by eapply key_le_trans].
  clear Hwf Hs. induction Hs' as [|e l Hs IH Hall]; intros i j x y Hij Hx Hy; [done|].
  destruct i as [|i]; [|destruct j as [|j]; [lia|]; cbn in *; eapply IH; [|done|done]; lia].
  cbn in Hx. simplify_eq. destruct j as [|j]; cbn in Hy; [simplify_eq; right; lia|].
  rewrite Forall_lookup in Hall. by eapply Hall.
Qed.

(** An entry before the address. *)
Definition before (a : Addr) (e : prefixEntry) : Prop := compare (base e) a = Lt.

Lemma before_down entries a i j e f : Forall well_formed entries → in_order entries → (i ≤ j)%nat →
  entries !! i = Some e → entries !! j = Some f → before a f → before a e.
Proof.
  intros Hwf Ho Hij He Hf Hb. rewrite Forall_lookup in Hwf. pose proof (Ho _ _ _ _ Hij He Hf) as Hef.
  unfold before in *. pose proof (compare_base f a (Hwf _ _ Hf)) as Hcf. rewrite Hb in Hcf. destruct Hcf as [Hfa Hne].
  pose proof (compare_base e a (Hwf _ _ He)) as Hce. destruct (Hwf _ _ Hf) as [Hz _]. fold (base f) in Hz.
  destruct (compare (base e) a); [|done|].
  - exfalso. apply Hne. rewrite <-Hce in Hfa |- *. destruct (Hwf _ _ He) as [Hz' _]. fold (base e) in Hz'.
    destruct (base e), (base f). unfold key_le in *. cbn in *. subst. f_equal; lia.
  - destruct Hce as [_ Hn]. destruct Hn. by eapply key_le_trans.
Qed.

Lemma search_spec entries a fuel i j : Forall well_formed entries → in_order entries →
  (j - i ≤ fuel)%nat → (i ≤ j ≤ length entries)%nat →
  (∀ k e, (k < i)%nat → entries !! k = Some e → before a e) →
  (∀ k e, (j ≤ k)%nat → entries !! k = Some e → ¬ before a e) →
  let r := search fuel entries a i j in
  (r ≤ length entries)%nat ∧ (∀ k e, (k < r)%nat → entries !! k = Some e → before a e) ∧
  (∀ k e, (r ≤ k)%nat → entries !! k = Some e → ¬ before a e).
Proof.
  intros Hwf Ho. revert i j. induction fuel as [|fuel IH]; intros i j Hfuel Hij Hlo Hhi; cbn [search]; cbv zeta.
  { assert (i = j) as -> by lia. split_and!; [lia|done|done]. }
  destruct (i <? j)%nat eqn:Elt; [apply Nat.ltb_lt in Elt|apply Nat.ltb_ge in Elt; assert (i = j) as -> by lia; split_and!; [lia|done|done]].
  set (h := ((i + j) / 2)%nat).
  assert (i ≤ h < j)%nat as Hh.
  { subst h. split; [apply Nat.div_le_lower_bound; lia|apply Nat.Div0.div_lt_upper_bound; lia]. }
  destruct (entries !! h) as [e|] eqn:Ee; [|apply lookup_ge_None in Ee; lia].
  destruct (compare (p_addr (prefix e)) a) eqn:Ec.
  1, 3: apply IH; [lia|lia|done|]; intros k f Hk Hf Hb;
    assert (before a e) as Hbe by (by eapply (before_down entries a h k)); unfold before, base in Hbe; congruence.
  apply IH; [lia|lia| |done]. intros k f Hk Hf. by eapply (before_down entries a k h); [done|done|lia|done|done|].
Qed.

Lemma contains_between e f a : well_formed e → well_formed f → Contains (prefix e) a = true →
  key_le (base e) (base f) → key_le (base f) a →
  Contains (prefix e) (base f) = true ∧ Contains (prefix f) (base f) = true.
Proof.
  unfold Contains, well_formed, key_le, base. intros [_ Hwe] [Hz Hwf].
  destruct (p_len (prefix e)) as [len|]; [|done]. intros [[_ Hb%Z.eqb_eq]%andb_prop Hs%Z.eqb_eq]%andb_prop Hef Hfa.
  assert (a_bits (p_addr (prefix f)) = a_bits a) as Hbf by lia.
  rewrite Z.shiftr_lxor, Z.lxor_eq_0_iff in Hs. split.
  - rewrite Hz, Hbf, Hb, Z.eqb_refl, Z.shiftr_lxor. cbn. apply Z.eqb_eq, Z.lxor_eq_0_iff.
    assert (∀ x y, x <= y → Z.shiftr x (a_bits a - len) <= Z.shiftr y (a_bits a - len)) as Hmono.
    { intros x y Hxy. rewrite !Z.shiftr_div_pow2 by lia. apply Z.div_le_mono; [apply Z.pow_pos_nonneg; lia|done]. }
    pose proof (Hmono (a_value (p_addr (prefix e))) (a_value (p_addr (prefix f)))).
    pose proof (Hmono (a_value (p_addr (prefix f))) (a_value a)). lia.
  - destruct (p_len (prefix f)); [|rewrite Hwf in Hbf; cbn in Hbf; lia].
    by rewrite Hz, Z.eqb_refl, Z.lxor_nilpotent, Z.shiftr_0_l.
Qed.

(** The candidate a search ends with. *)
Definition candidate (entries : list prefixEntry) (a : Addr) : option prefixEntry :=
  let '(i, found) := BinarySearch entries a in
  k ← (if found then Some i else match i with O => None | S i => Some i end); entries !! k.

Lemma candidate_first entries a m e : Forall well_formed entries → in_order entries →
  entries !! m = Some e → Contains (prefix e) a = true → key_le (base e) a →
  ∃ f, candidate entries a = Some f ∧ key_le (base e) (base f) ∧ key_le (base f) a.
Proof.
  intros Hwf Ho He Hc Hea. unfold candidate, BinarySearch.
  destruct (search_spec entries a (length entries) 0 (length entries)) as (Hr & Hlo & Hhi);
    [done|done|lia|lia|lia|intros k f Hk ?%lookup_lt_Some; lia|].
  set (i := search _ _ _ _ _) in *. clearbody i. pose proof (proj1 (Forall_lookup _ _) Hwf) as Hw.
  destruct (decide (m < i)%nat) as [Hm|Hm].
  - assert (∀ f, entries !! i = Some f → compare (base f) a = Eq → key_le (base e) (base f)) as Hle.
    { intros f Hf _. apply (Ho m i e f); [lia|done|done]. }
    destruct (entries !! i) as [f|] eqn:Ef; [destruct (compare (p_addr (prefix f)) a) eqn:Ecf|].
    + exists f. split; [by cbn|]. split; [by apply Hle|]. pose proof (compare_base f a (Hw _ _ Ef)) as Hb.
      unfold base in Hb. rewrite Ecf in Hb. unfold base. rewrite Hb. right. lia.
    + exfalso. by apply (Hhi i f).
    + destruct i as [|i]; [lia|]. destruct (entries !! i) as [g|] eqn:Eg; [|apply lookup_ge_None in Eg; apply lookup_lt_Some in Ef; lia].
      exists g. split; [done|]. split; [apply (Ho m i e g); [lia|done|done]|].
      pose proof (compare_base g a (Hw _ _ Eg)) as Hb. rewrite (Hlo i g) in Hb by (done || lia). by destruct Hb.
    + destruct i as [|i]; [lia|]. destruct (entries !! i) as [g|] eqn:Eg; [|apply lookup_ge_None in Eg; lia].
      exists g. split; [done|]. split; [apply (Ho m i e g); [lia|done|done]|].
      pose proof (compare_base g a (Hw _ _ Eg)) as Hb. rewrite (Hlo i g) in Hb by (done || lia). by destruct Hb.
  - assert (¬ before a e) as Hnb by (apply (Hhi m e); [lia|done]). unfold before in Hnb.
    pose proof (compare_base e a (Hw _ _ He)) as Hce. destruct (compare (base e) a) eqn:Ece; [|done|by destruct Hce].
    destruct (entries !! i) as [f|] eqn:Ef; [|apply lookup_ge_None in Ef; apply lookup_lt_Some in He; lia].
    assert (key_le (base f) (base e)) as Hfe by (apply (Ho i m f e); [lia|done|done]). rewrite Hce in Hfe.
    assert (¬ before a f) as Hnf by (apply (Hhi i f); [lia|done]). unfold before in Hnf.
    pose proof (compare_base f a (Hw _ _ Ef)) as Hcf. unfold base in Hcf, Hnf. destruct (compare (p_addr (prefix f)) a) eqn:Ecf;
      [|done|by destruct Hcf].
    exists f. split; [done|]. unfold base. rewrite Hcf. unfold base in Hce. rewrite Hce. split; right; lia.
Qed.

Lemma contains_after_base e a : well_formed e → Contains (prefix e) a = true → p_addr (prefix e) = p_addr (Masked (prefix e)) →
  key_le (base e) a.
Proof.
  unfold Contains, well_formed, Masked, base. intros [Hz Hwf]. destruct (p_len (prefix e)) as [len|]; [|done].
  intros [[_ Hb%Z.eqb_eq]%andb_prop Hs%Z.eqb_eq]%andb_prop Hm. right. split; [done|].
  rewrite Z.shiftr_lxor, Z.lxor_eq_0_iff in Hs. rewrite Hm. cbn. rewrite Hb, <-Hs, Z.shiftl_mul_pow2, Z.shiftr_div_pow2 by lia.
  rewrite Z.mul_comm. apply Z.mul_div_le. apply Z.pow_pos_nonneg; lia.
Qed.

(** Loaded ranges are masked. *)
Lemma loaded_masked `{GoRuntime} categories : Forall (λ e, p_addr (prefix e) = p_addr (Masked (prefix e))) (loaded categories).
Proof.
  apply Forall_concat, Forall_fmap, Forall_true. intros entry. unfold compose, entries_of.
  destruct (isAlpha2 _); [|constructor]. apply Forall_forall. intros e (cidr & _ & He)%list_elem_of_omap.
  destruct (AddrFromSlice cidr.1) as [addr|]; cbn in He; [|done]. simplify_eq. unfold PrefixFrom, Masked. cbn.
  destruct (0 <? a_bits addr) eqn:E1, (0 <=? cidr.2) eqn:E2, (cidr.2 <=? a_bits addr) eqn:E3; cbn; try done.
  apply Z.leb_le in E3. f_equal. rewrite Z.shiftr_shiftl_l, Z.sub_diag, Z.shiftl_0_r by lia. done.
Qed.

(** No address is in two of the file's ranges. *)
Definition partitioned (entries : list prefixEntry) : Prop :=
  ∀ e f a, e ∈ entries → f ∈ entries → Contains (prefix e) a = true → Contains (prefix f) a = true → e = f.

(** The reference: a look at every range. *)
Definition scan (entries : list prefixEntry) (a : Addr) : string :=
  match List.find (λ e, Contains (prefix e) a) entries with Some e => country e | None => "" end.

(** C38: the binary search over the ranges' first addresses finds what a look
    at every range would, whatever the file lists and in whatever order, as
    long as none of its ranges nests in another: an address gets the country of
    the range that holds it, IPv4-mapped ones that of their IPv4 form, and the
    empty string when no range does, when it names a zone, or when it is no
    address. *)
Theorem country_is_the_range_that_holds_it `{GoRuntime} parse categories entries ip :
  Load (Ok categories) = Ok entries → partitioned (loaded categories) →
  Country parse entries ip =
    match parse ip with Some a => scan (loaded categories) (Unmap a) | None => "" end.
Proof.
  intros [= <-] Hpart. unfold Country. destruct (parse ip) as [a0|]; [|done]. set (a := Unmap a0). clearbody a.
  pose proof (merge_sort_Permutation base_le (loaded categories)) as Hperm.
  set (entries := merge_sort base_le (loaded categories)) in *.
  assert (∀ e, e ∈ entries ↔ e ∈ loaded categories) as Hin by (intros e; by rewrite Hperm).
  assert (Forall well_formed entries) as Hwf by (rewrite Hperm; apply loaded_well_formed).
  assert (in_order entries) as Ho by (apply sorted_in_order; [done|apply Sorted_merge_sort; apply _]).
  assert ((let '(i, found) := BinarySearch entries a in
    match i ← (if found then Some i else match i with O => None | S i => Some i end); entries !! i with
    | Some e => if Contains (prefix e) a then country e else "" | None => "" end) =
    match candidate entries a with Some e => if Contains (prefix e) a then country e else "" | None => "" end)%string as ->.
  { unfold candidate. by destruct (BinarySearch entries a). }
  unfold scan. destruct (List.find _ _) as [e|] eqn:Ef.
  - apply List.find_some in Ef as [He Hc]. apply list_elem_of_In, Hin in He. pose proof He as [m Hm]%list_elem_of_lookup.
    pose proof (proj1 (Forall_forall _ _) (loaded_masked categories) e (proj1 (Hin e) He)) as Hmask.
    pose proof (proj1 (Forall_forall _ _) Hwf) as Hw.
    pose proof (contains_after_base e a (Hw e He) Hc Hmask) as Hea.
    destruct (candidate_first entries a m e Hwf Ho Hm Hc Hea) as (f & Hf & Hef & Hfa).
    assert (f ∈ entries) as Hfin.
    { unfold candidate in Hf. destruct (BinarySearch entries a) as [i found].
      apply bind_Some in Hf as (k & _ & Hk). by eapply list_elem_of_lookup_2. }
    destruct (contains_between e f a (Hw e He) (Hw f Hfin) Hc Hef Hfa) as [Hc1 Hc2].
    assert (e = f) as <- by (apply (Hpart e f (base f)); [by apply Hin|by apply Hin|done|done]).
    by rewrite Hf, Hc.
  - destruct (candidate entries a) as [f|] eqn:Hf; [|done].
    assert (f ∈ loaded categories) as Hfin.
    { apply Hin. unfold candidate in Hf. destruct (BinarySearch entries a) as [i found].
      apply bind_Some in Hf as (k & _ & Hk). by eapply list_elem_of_lookup_2. }
    apply list_elem_of_In in Hfin. by rewrite (List.find_none _ _ Ef f Hfin).
Qed.

(** ** Examples *)

Module Examples.
Import AsciiRuntime.

Local Open Scope string_scope.

Definition categories : list GeoIPEntry := [
  {| ge_code := "private"; ge_cidr := [([10; 0; 0; 0], 8)] |};
  {| ge_code := "se"; ge_cidr := [([81; 2; 0; 0], 16); ([32; 1; 6; 124; 0; 0; 0; 0; 0; 0; 0; 0; 0; 0; 0; 0], 32)] |};
  {| ge_code := "de"; ge_cidr := [([5; 1; 99; 0], 16); ([1; 2; 3], 8)] |}].

Definition v4 (a b c d : Z) : Addr := {| a_bits := 32; a_value := from_bytes [a; b; c; d]; a_zone := "" |}.

(** The two texts the example parses: one is IPv4 mapped into IPv6. *)
Definition parse (ip : string) : option Addr :=
  if String.eqb ip "81.2.69.160" then Some (v4 81 2 69 160)
  else if String.eqb ip "::ffff:5.1.2.3" then Some {| a_bits := 128; a_value := 65535 * 2 ^ 32 + from_bytes [5; 1; 2; 3]; a_zone := "" |}
  else if String.eqb ip "10.0.0.1" then Some (v4 10 0 0 1)
  else None.

Lemma contains_key e a : Contains (prefix e) a = true →
  match p_len (prefix e) with
  | Some len => a_bits (p_addr (prefix e)) = a_bits a ∧
      Z.shiftr (a_value a) (a_bits a - len) = Z.shiftr (a_value (p_addr (prefix e))) (a_bits a - len)
  | None => False
  end.
Proof.
  unfold Contains. destruct (p_len _); [|done]. intros [[_ Hb%Z.eqb_eq]%andb_prop Hs%Z.eqb_eq]%andb_prop.
  split; [done|]. by rewrite Z.shiftr_lxor, Z.lxor_eq_0_iff in Hs.
Qed.

Lemma categories_partitioned : partitioned (loaded categories).
Proof.
  intros e f a He Hf. set (l := loaded categories) in *. vm_compute in l. subst l.
  set_unfold in He. set_unfold in Hf. intros Hc1%contains_key Hc2%contains_key.
  destruct He as [->|[->|[->|[]]]], Hf as [->|[->|[->|[]]]]; cbn in Hc1, Hc2; try done;
    destruct Hc1 as [Hb1 Hs1], Hc2 as [Hb2 Hs2]; try (exfalso; congruence);
    exfalso; rewrite <-Hb1 in Hs1, Hs2; rewrite Hs1 in Hs2; vm_compute in Hs2; discriminate.
Qed.

Definition sorted_entries : list prefixEntry := match Load (Ok categories) with Ok entries => entries | Err _ => [] end.

Lemma country_is_the_range_that_holds_it_witness :
  Country parse sorted_entries "::ffff:5.1.2.3" =
    match parse "::ffff:5.1.2.3" with Some a => scan (loaded categories) (Unmap a) | None => "" end.
Proof. apply (country_is_the_range_that_holds_it parse categories sorted_entries); [reflexivity|exact categories_partitioned]. Defined.

Example countries :
  Country parse sorted_entries "::ffff:5.1.2.3" = "DE" ∧ Country parse sorted_entries "81.2.69.160" = "SE" ∧
  Country parse sorted_entries "10.0.0.1" = "" ∧ Country parse sorted_entries "nonsense" = "".
Proof. by vm_compute. Qed.

(** The condition is needed: a range nested in another hides it. *)
Example nested_range_hides :
  Country (λ _, Some (v4 5 2 0 1))
    (match Load (Ok [{| ge_code := "de"; ge_cidr := [([5; 0; 0; 0], 8)] |}; {| ge_code := "se"; ge_cidr := [([5; 1; 0; 0], 16)] |}])
     with Ok entries => entries | Err _ => [] end) "5.2.0.1" = "".
Proof. by vm_compute. Qed.
End Examples.
End GeoIP.
