(* ===== verification/GoUrl.v ===== *)
(** * URLs (net/url, net)

    What the code uses of Go's URL handling: percent decoding, query strings
    and the splitting of a host and its port. *)

From Stdlib Require Import Ascii String.
From S2P Require Import Prelude GoJson GoText.

Module GoUrl.
Import GoJson GoText.

Local Open Scope Z_scope.

(** url.PathUnescape; with [plus], url.QueryUnescape. *)
Fixpoint unescape (plus : bool) (l : list Z) : option (list Z) :=
  match l with
  | [] => Some []
  | c :: l =>
      if c =? 37 then
        match l with
        | a :: b :: r => x ← hex_value a; y ← hex_value b; cons (x * 16 + y) <$> unescape plus r
        | _ => None
        end
      else cons (if plus && (c =? 43) then 32 else c) <$> unescape plus l
  end.

Definition PathUnescape (s : string) : option string := of_bytes <$> unescape false (bytes_of s).

(** strings.Cut at a byte. *)
Fixpoint cut_byte (c : Z) (l : list Z) : list Z * option (list Z) :=
  match l with
  | [] => ([], None)
  | b :: l => if b =? c then ([], Some l) else let '(before, after) := cut_byte c l in (b :: before, after)
  end.

Fixpoint split_byte (c : Z) (l : list Z) : list (list Z) :=
  match l with
  | [] => [[]]
  | b :: l => if b =? c then [] :: split_byte c l
              else match split_byte c l with w :: ws => (b :: w) :: ws | [] => [[b]] end
  end.

(** One key=value pair of a query; a malformed one is skipped. *)
Definition query_pair (pair : list Z) : option (string * string) :=
  if existsb (Z.eqb 59) pair then None
  else if bool_decide (pair = []) then None
  else
    let '(key, value) := cut_byte 61 pair in
    key ← unescape true key;
    value ← unescape true (default [] value);
    Some (of_bytes key, of_bytes value).

(** URL.Query: the pairs that parse, in order. *)
Definition Query (raw : string) : list (string * string) := omap query_pair (split_byte 38 (bytes_of raw)).

(** The values of a key, and the keys. *)
Definition values_of (key : string) (query : list (string * string)) : list string :=
  omap (λ kv : string * string, if String.eqb kv.1 key then Some kv.2 else None) query.

Definition keys_of (query : list (string * string)) : gset string := list_to_set query.*1.

(** The bytes before and after the last [c]. *)
Definition cut_last (c : Z) (l : list Z) : option (list Z * list Z) :=
  match cut_byte c (reverse l) with
  | (after, Some before) => Some (reverse before, reverse after)
  | (_, None) => None
  end.

(** net.SplitHostPort; a host in brackets may hold colons. *)
Definition SplitHostPort (s : string) : option (string * string) :=
  let l := bytes_of s in
  '(before, port) ← cut_last 58 l;
  let free c := forallb (λ b, negb (b =? c)) in
  match l with
  | 91 :: inner =>
      match cut_byte 93 inner with
      | (host, Some rest) =>
          if bool_decide (rest = 58 :: port) && free 91 inner && free 93 rest then Some (of_bytes host, of_bytes port) else None
      | (_, None) => None
      end
  | _ =>
      if free 58 before && free 91 l && free 93 l then Some (of_bytes before, of_bytes port) else None
  end.

Example split_host_port :
  SplitHostPort "[::1]:80" = Some ("::1", "80")%string ∧ SplitHostPort "a.b:443" = Some ("a.b", "443")%string ∧
  SplitHostPort "::1" = None ∧ SplitHostPort "a.b" = None ∧ SplitHostPort "[::1]" = None.
Proof. by vm_compute. Qed.

Example query_skips_malformed :
  Query "filter=system&x=%zz&a;b" = [("filter", "system")]%string ∧ Query "%zz" = [] ∧ Query "a+b=c%20d" = [("a b", "c d")]%string.
Proof. by vm_compute. Qed.
End GoUrl.
