(* ===== verification/Api.v ===== *)
(** * The HTTP API (internal/api, cmd/xform/dashboard.go)

    The routes over the roster service and the cached sources, the guard of
    the mutations, the snapshots collected per request, and the whole handler
    behind the authentication gateway. A response's body is the value the code
    encodes. *)

From Stdlib Require Import Ascii String.
From S2P Require Import Prelude GoJson GoText GoUrl GoDecode Reconcile XrayConfig Store Collector Handler Render Roster Auth Advertisements FileSource Profiles Journal XrayStatus Snapshots.

Module Api.
Import GoJson GoText GoUrl GoDecode Store Roster Auth.

Local Open Scope Z_scope.

(** ** Requests *)

(** A request as the application meets it: the escaped path's segments, the
    raw query, the request target, the Host, and the body's bytes. *)
Record Request := {
  q_method : string;
  q_segments : list string;
  q_raw_query : string;
  q_target : string;
  q_host : string;
  q_headers : Headers;
  q_body : string;
  q_login : option json;   (* the body's first value, as the login reads it *)
  q_gone : bool;   (* the caller went away *)
}.

(** Header.Get under a canonical key. *)
Definition Get (headers : Headers) (key : string) : string := default "" (headers !! key ≫= head).

(** ** Responses *)

Record userRow := { ur_user : userView; ur_apply_state : option ApplyState }.

Record usersResponse := {
  ut_collected_at : Z; ut_stale : bool; ut_users : list userRow; ut_roster_sync : SyncState;
  ut_inbounds : list InboundOption;
}.

Record mutationResponse := { mu_user : RosterRecord; mu_roster_sync : syncAnswer }.

Record panelResponse := { pa_version : string; pa_uptime : Z; pa_mode : Mode; pa_sign_out_url : string }.

Record logEntry := {
  le_cursor : string; le_timestamp_us : Z; le_unit : string; le_identifier : option string; le_pid : option Z;
  le_priority : option Z; le_message : option string; le_message_encoding : option string; le_message_truncated : bool;
}.

(** The capture time is the clock's and is left out. *)
Record logSnapshotResponse := {
  lo_source : Journal.Source; lo_filter : Journal.Filter; lo_unit : string; lo_limit : nat;
  lo_entry_count : nat; lo_entries : list logEntry;
}.

Record configSnapshotResponse := { cf_path : string; cf_size_bytes : Z; cf_text : string }.

Record profileSecurity := {
  ps_type : string; ps_fingerprint : string; ps_server_name : string; ps_alpn : list string; ps_ech : string;
  ps_certificate_pins : list string; ps_verify_name : string; ps_public_key : string; ps_short_id : option string;
  ps_post_quantum_verify : string; ps_spider_x : string;
}.

Record availableConnectionProfile := {
  ac_inbound_tag : string; ac_name : string; ac_topology : string; ac_client_id : string; ac_flow : option string;
  ac_endpoint : Profiles.Endpoint; ac_transport : Advertisements.Transport; ac_security : profileSecurity; ac_uri : string;
}.

Inductive profileItem := AvailableItem (p : availableConnectionProfile) | UnavailableItem (u : Profiles.Unavailable).

Record connectionProfilesResponse := {
  cp_state : Profiles.State; cp_loaded_at : option Z; cp_stale : bool; cp_errors : list Profiles.SourceError;
  cp_items : list profileItem;
}.

Record userDetailResponse := {
  ud_collected_at : Z; ud_stale : bool; ud_user : userView; ud_profiles : connectionProfilesResponse;
}.

Inductive Payload :=
| ErrorBody (error : string) (reason : string)   (* no reason is the empty one *)
| HealthBody
| PanelBody (p : panelResponse)
| ServerBody
| XrayBody (s : XrayStatus.Status) (api_endpoint : string)
| UsersBody (u : usersResponse)
| MutationBody (m : mutationResponse)
| SyncBody (s : syncAnswer)
| DetailBody (d : userDetailResponse)
| LogBody (l : logSnapshotResponse)
| ConfigBody (c : configSnapshotResponse)
| Nothing
| MovedTo
| Dashboard.

Record Response := { p_status : Z; p_no_store : bool; p_retry_after : option string; p_body : Payload }.

Definition writeJSON (status : Z) (body : Payload) : Response :=
  {| p_status := status; p_no_store := false; p_retry_after := None; p_body := body |}.

Definition error (status : Z) (text : string) : Response := writeJSON status (ErrorBody text "").

Definition noStore (r : Response) : Response :=
  {| p_status := p_status r; p_no_store := true; p_retry_after := p_retry_after r; p_body := p_body r |}.

(** ** The mutations' guard *)

(** url.Parse's host, when the text parses. *)
Class UrlRuntime := { url_host : string → option string }.

Definition splitHostPort (hostPort : string) : string * string := default (hostPort, ""%string) (SplitHostPort hostPort).

Section WithRuntime.
Context `{GoRuntime} `{UrlRuntime}.

Definition originMatchesHost (origin host : string) : bool :=
  match url_host origin with
  | None => false
  | Some parsed =>
      let '(originHost, originPort) := splitHostPort parsed in
      let '(requestHost, requestPort) := splitHostPort host in
      if negb (equal_fold originHost requestHost) then false
      else String.eqb originPort "" || String.eqb requestPort "" || String.eqb originPort requestPort
  end.

(** Whether sameSiteOnly hands the request on. *)
Definition sameSite (rq : Request) : bool :=
  let origin := Get (q_headers rq) "Origin" in
  (String.eqb origin "" || originMatchesHost origin (q_host rq)) &&
  existsb (String.eqb (Get (q_headers rq) "Sec-Fetch-Site")) [""; "same-origin"; "same-site"; "none"]%string.

End WithRuntime.

Definition sameSiteOnly `{GoRuntime} `{UrlRuntime} {W} (next : Request → M W Response) (rq : Request) : M W Response :=
  if sameSite rq then next rq else mret (error 403 "forbidden").

(** ** Snapshots collected per request (operational.go) *)

Definition logSnapshotUnavailable : string := "log snapshot unavailable".
Definition configSnapshotUnavailable : string := "config snapshot unavailable".

Definition log_reason (r : Journal.Reason) : string :=
  match r with
  | Journal.ReasonSnapshotInProgress => "snapshot_in_progress"
  | Journal.ReasonJournalctlUnavailable => "journalctl_unavailable"
  | Journal.ReasonAccessDenied => "access_denied"
  | Journal.ReasonTimeout => "timeout"
  | Journal.ReasonOutputTooLarge => "output_too_large"
  | Journal.ReasonMalformedOutput => "malformed_output"
  | Journal.ReasonCommandFailed => "command_failed"
  end.

Definition config_reason (r : ConfigSnapshot.Reason) : string :=
  match r with
  | ConfigSnapshot.ReasonUnreadable => "config_unreadable"
  | ConfigSnapshot.ReasonTooLarge => "config_too_large"
  | ConfigSnapshot.ReasonNotUTF8 => "config_not_utf8"
  end.

Definition logSnapshotJSON (s : Journal.Snapshot) : logSnapshotResponse :=
  let entries := (λ e : Journal.Entry, {|
    le_cursor := Journal.e_cursor e; le_timestamp_us := Journal.e_timestamp_us e; le_unit := Journal.e_unit e;
    le_identifier := Journal.e_identifier e; le_pid := Journal.e_pid e; le_priority := Journal.e_priority e;
    le_message := Journal.e_message e; le_message_encoding := Journal.e_message_encoding e;
    le_message_truncated := Journal.e_message_truncated e |}) <$> Journal.sn_entries s in
  {| lo_source := Journal.sn_source s; lo_filter := Journal.sn_filter s; lo_unit := Journal.sn_unit s;
     lo_limit := Journal.sn_limit s; lo_entry_count := length entries; lo_entries := entries |}.

Definition configSnapshotJSON (s : ConfigSnapshot.Snapshot) : configSnapshotResponse :=
  {| cf_path := ConfigSnapshot.sn_path s; cf_size_bytes := ConfigSnapshot.sn_size_bytes s; cf_text := ConfigSnapshot.sn_text s |}.

Definition writeSnapshotFailure (status : Z) (message reason : string) : Response := writeJSON status (ErrorBody message reason).

(** An abandoned request is answered with nothing. *)
Definition abandoned : Response := writeJSON 200 Nothing.

Definition writeLogFailure (rq : Request) (err : Journal.collectError) : Response :=
  if q_gone rq then abandoned
  else
    match err with
    | Journal.Failure Journal.ReasonSnapshotInProgress =>
        {| p_status := 429; p_no_store := false; p_retry_after := Some "1"%string;
           p_body := ErrorBody logSnapshotUnavailable (log_reason Journal.ReasonSnapshotInProgress) |}
    | Journal.Failure reason => writeSnapshotFailure 503 logSnapshotUnavailable (log_reason reason)
    | _ => writeSnapshotFailure 500 logSnapshotUnavailable ""
    end.

Definition writeConfigFailure (rq : Request) (err : ConfigSnapshot.readError) : Response :=
  if q_gone rq then abandoned
  else
    match err with
    | ConfigSnapshot.Failure reason => writeSnapshotFailure 503 configSnapshotUnavailable (config_reason reason)
    | _ => writeSnapshotFailure 500 configSnapshotUnavailable ""
    end.

Definition rejectedQuery (rq : Request) : bool := negb (String.eqb (q_raw_query rq) "").

(** The filter asked for; [None] is answered with invalid_request. *)
Definition requestedFilter (rq : Request) : option Journal.Filter :=
  let query := Query (q_raw_query rq) in
  if bool_decide (query = []) then Some Journal.FilterAll
  else
    match values_of "filter" query with
    | [value] =>
        if bool_decide (size (keys_of query) = 1%nat) then
          if String.eqb value Journal.FilterAll || String.eqb value Journal.FilterSystem then Some value else None
        else None
    | _ => None
    end.

(** ** The user's detail (user_detail.go) *)

Definition isHex (b : Z) : bool :=
  (48 <=? b) && (b <=? 57) || (97 <=? b) && (b <=? 102) || (65 <=? b) && (b <=? 70).

(** strings.Index of the prefix, and what follows it. *)
Fixpoint after_first (sep s : string) : option string :=
  if String.prefix sep s then Some (String.substring (String.length sep) (String.length s - String.length sep) s)
  else match s with EmptyString => None | String _ s => after_first sep s end.

(** The loop over the segment from [index]; the length left is fuel enough. *)
Fixpoint bad_escape (fuel : nat) (segment : list Z) (index : nat) : bool :=
  match fuel with
  | O => false
  | S fuel =>
      match segment !! index with
      | None => false
      | Some c =>
          if negb (c =? 37) then bad_escape fuel segment (S index)
          else
            match segment !! (index + 1)%nat, segment !! (index + 2)%nat with
            | Some a, Some b => if negb (isHex a) || negb (isHex b) then true else bad_escape fuel segment (index + 3)
            | _, _ => true
            end
      end
  end.

Definition malformedUserEmailEscape (requestTarget : string) : bool :=
  let path := of_bytes (cut_byte 63 (bytes_of requestTarget)).1 in
  match after_first "/api/v1/users/" path with
  | None => false
  | Some segment => bad_escape (S (String.length segment)) (bytes_of segment) 0
  end.

Definition availableConnectionProfileJSON (p : Profiles.Available) : availableConnectionProfile :=
  let se := Profiles.av_security p in {|
  ac_inbound_tag := Profiles.av_inbound_tag p; ac_name := Profiles.av_name p; ac_topology := Profiles.av_topology p;
  ac_client_id := Profiles.av_client_id p; ac_flow := Profiles.av_flow p; ac_endpoint := Profiles.av_endpoint p;
  ac_transport := Profiles.av_transport p;
  ac_security := {|
    ps_type := Advertisements.se_type se; ps_fingerprint := Advertisements.se_fingerprint se;
    ps_server_name := Advertisements.se_server_name se; ps_alpn := Advertisements.se_alpn se;
    ps_ech := Advertisements.se_ech se; ps_certificate_pins := Advertisements.se_certificate_pins se;
    ps_verify_name := Advertisements.se_verify_name se; ps_public_key := Advertisements.se_public_key se;
    ps_short_id := if Advertisements.se_short_id_present se then Some (Advertisements.se_short_id se) else None;
    ps_post_quantum_verify := Advertisements.se_post_quantum_verify se; ps_spider_x := Advertisements.se_spider_x se |};
  ac_uri := Profiles.av_uri p |}.

Definition connectionProfilesJSON (c : Profiles.Collection) : connectionProfilesResponse := {|
  cp_state := Profiles.co_state c; cp_loaded_at := Profiles.co_loaded_at c; cp_stale := Profiles.co_stale c;
  cp_errors := Profiles.co_errors c;
  cp_items := (λ item, match item with
    | Profiles.ItemAvailable p => AvailableItem (availableConnectionProfileJSON p)
    | Profiles.ItemUnavailable u => UnavailableItem u
    end) <$> Profiles.co_items c |}.

(** ** The mutations' bodies *)

Record addBody := { ab_email : string; ab_client_id : string; ab_inbounds : option (list string) }.

Definition zeroBody : addBody := {| ab_email := ""; ab_client_id := ""; ab_inbounds := None |}.

(** A slice that is null is nil; an array replaces what it held. *)
Definition decode_inbounds (d : doc) (old : option (list string)) : option (option (list string)) :=
  match d with
  | DNull => Some None
  | DArray _ items => Some <$> decode_items items (default [] old)
  | _ => None
  end.

Definition set_body (name : string) (d : doc) (b : addBody) : option addBody :=
  if String.eqb name "email" then
    email ← decode_string d (ab_email b);
    Some {| ab_email := email; ab_client_id := ab_client_id b; ab_inbounds := ab_inbounds b |}
  else if String.eqb name "client_id" then
    id ← decode_string d (ab_client_id b);
    Some {| ab_email := ab_email b; ab_client_id := id; ab_inbounds := ab_inbounds b |}
  else
    inbounds ← decode_inbounds d (ab_inbounds b);
    Some {| ab_email := ab_email b; ab_client_id := ab_client_id b; ab_inbounds := inbounds |}.

(** json.Decoder.Decode: the first value of the body; what follows it is not
    read. *)
Definition decode_body `{GoRuntime} (names : list string) (body : string) : option addBody :=
  '(d, _) ← value maxNestingDepth (skip_space (bytes_of body));
  decode_struct false names set_body d zeroBody.

(** ** Routes (http.ServeMux)

    A segment decodes before it is matched; one that does not is taken as it
    is. The empty last segment is a trailing slash. *)
Inductive Route :=
| Healthz | Panel | Server | Xray | Users | AddUserRoute | EditUser (email : string) | DisableUser (email : string)
| EnableUser (email : string) | DeleteUser (email : string) | UserDetail (email : string)
| PanelLogs | XrayLogs | XrayConfigRoute | ApiNotFound | Redirect | DashboardRoute.

Definition decoded (segment : string) : string := default segment (PathUnescape segment).

(** path.Clean would change the path. *)
Fixpoint unclean (segments : list string) : bool :=
  match segments with
  | [] => false
  | [last] => String.eqb last "." || String.eqb last ".."
  | s :: segments => String.eqb s "" || String.eqb s "." || String.eqb s ".." || unclean segments
  end.

(** A wildcard matches one segment that is no slash. *)
Definition wildcard (segment : string) : bool := negb (String.eqb segment "") && negb (String.eqb segment "/").

(** A pattern's segment: a literal, or {email}. *)
Inductive segment := Lit (s : string) | Email.

(** The email a pattern captures, the empty one without a wildcard. *)
Fixpoint capture (pattern : list segment) (path : list string) : option string :=
  match pattern, path with
  | [], [] => Some ""%string
  | Lit s :: pattern, p :: path => if String.eqb s p then capture pattern path else None
  | Email :: pattern, p :: path => if wildcard p then _ ← capture pattern path; Some p else None
  | _, _ => None
  end.

Definition at_v1 (pattern : list segment) : list segment := Lit "api" :: Lit "v1" :: pattern.

(** The patterns registered: a method, a path and the route. *)
Definition patterns : list (string * list segment * (string → Route)) := [
  ("GET", at_v1 [Lit "healthz"], λ _, Healthz);
  ("GET", at_v1 [Lit "panel"], λ _, Panel);
  ("GET", at_v1 [Lit "server"], λ _, Server);
  ("GET", at_v1 [Lit "xray"], λ _, Xray);
  ("GET", at_v1 [Lit "users"], λ _, Users);
  ("POST", at_v1 [Lit "users"], λ _, AddUserRoute);
  ("PATCH", at_v1 [Lit "users"; Email], EditUser);
  ("POST", at_v1 [Lit "users"; Email; Lit "disable"], DisableUser);
  ("POST", at_v1 [Lit "users"; Email; Lit "enable"], EnableUser);
  ("DELETE", at_v1 [Lit "users"; Email], DeleteUser);
  ("GET", at_v1 [Lit "users"; Email], UserDetail);
  ("GET", at_v1 [Lit "logs"; Lit "panel"], λ _, PanelLogs);
  ("GET", at_v1 [Lit "logs"; Lit "xray"], λ _, XrayLogs);
  ("GET", at_v1 [Lit "xray"; Lit "config"], λ _, XrayConfigRoute)]%string.

(** A GET pattern takes HEAD too. *)
Definition method_matches (registered method : string) : bool :=
  String.eqb registered method || String.eqb registered "GET" && String.eqb method "HEAD".

(** No two patterns match one request, so the first that does is the most
    specific one. *)
Fixpoint first_match (l : list (string * list segment * (string → Route))) (method : string) (path : list string) : option Route :=
  match l with
  | [] => None
  | (registered, pattern, r) :: l =>
      match (if method_matches registered method then capture pattern path else None) with
      | Some email => Some (r email)
      | None => first_match l method path
      end
  end.

Definition route (rq : Request) : Route :=
  if unclean (q_segments rq) && negb (String.eqb (q_method rq) "CONNECT") then Redirect
  else
    let path := decoded <$> q_segments rq in
    match first_match patterns (q_method rq) path with
    | Some r => r
    | None =>
        match path with
        | first :: rest => if String.eqb first "api" then (if bool_decide (rest = []) then Redirect else ApiNotFound) else DashboardRoute
        | [] => DashboardRoute
        end
    end.

(** ** The application *)

(** What the sources behind the reads answer to this request. [so_logs] and
    [so_config] are the collections it would start. *)
Record Sources := {
  so_host : bool;                                  (* the host statistics are there *)
  so_xray : result string XrayStatus.Status;
  so_users : result string Collector.Snapshot;
  so_profiles : Profiles.Sources;
  so_logs : Journal.Source → Journal.Filter → result Journal.collectError Journal.Snapshot;
  so_config : result ConfigSnapshot.readError ConfigSnapshot.Snapshot;
}.

(** The panel's own identity; the uptime is read per request. *)
Record PanelInfo := { pi_version : string; pi_api_endpoint : string; pi_sign_out_url : string; pi_uptime : Z }.

(** writeMutationError's answer. *)
Definition conflict_text (r : conflictReason) : string :=
  match r with
  | ReasonEmailInvalid => "email_invalid" | ReasonEmailTaken => "email_taken" | ReasonClientIDInvalid => "client_id_invalid"
  | ReasonClientIDTaken => "client_id_taken" | ReasonUnknownInbound => "unknown_inbound"
  end.

Definition writeMutationError (e : mutationError) : Response :=
  match e with
  | ConflictError reason => error 409 (conflict_text reason)
  | NotFoundError _ => error 404 "not_found"
  | StoreFailure _ => error 500 "roster unavailable"
  end.

Section WithWorld.
Context `{GoRuntime} `{HostRuntime} `{ProfileRuntime} `{UrlRuntime} `{AuthRuntime}.
Context `{Uuid} {S R X C : Type} `{RosterStore S} `{Renderer R} `{Pusher X} `{PurgeNotifier C}.

Abbreviation World := (@Roster.World S R X C).

Definition mutated (status : Z) (r : result mutationError MutationResult) : Response :=
  match r with
  | Err e => writeMutationError e
  | Ok m => writeJSON status (MutationBody {| mu_user := mr_user m; mu_roster_sync := mr_sync m |})
  end.

(** A disable or a delete that had nothing to do says nothing. *)
Definition synced (r : result mutationError (syncAnswer * bool)) : Response :=
  match r with
  | Err e => writeMutationError e
  | Ok (_, false) => writeJSON 204 Nothing
  | Ok (sync, true) => writeJSON 200 (SyncBody sync)
  end.

Definition addUser (rq : Request) : M World Response :=
  match decode_body ["email"; "client_id"; "inbounds"]%string (q_body rq) with
  | None => mret (error 400 "invalid_request")
  | Some b => r ← Add (ab_email b) (ab_client_id b) (default [] (ab_inbounds b)); mret (mutated 201 r)
  end.

Definition editUser (email : string) (rq : Request) : M World Response :=
  match decode_body ["client_id"; "inbounds"]%string (q_body rq) with
  | None => mret (error 400 "invalid_request")
  | Some b => r ← Edit email {| er_client_id := ab_client_id b; er_inbounds := ab_inbounds b |}; mret (mutated 200 r)
  end.

Definition disableUser (email : string) (_ : Request) : M World Response := r ← Disable email; mret (synced r).
Definition enableUser (email : string) (_ : Request) : M World Response := r ← Enable email; mret (mutated 200 r).
Definition deleteUser (email : string) (_ : Request) : M World Response := r ← Delete email; mret (synced r).

Definition usersResponseOf (snapshot : Collector.Snapshot) (w : World) : usersResponse :=
  let states := UserStates (w_svc w) in {|
  ut_collected_at := Collector.sn_collected_at snapshot; ut_stale := Collector.sn_stale snapshot;
  ut_users := (λ u, {| ur_user := u; ur_apply_state := states !! us_email u |}) <$> Collector.sn_users snapshot;
  ut_roster_sync := syncLocked (w_svc w); ut_inbounds := InboundOptions (w_view w) |}.

Definition listUsers (so : Sources) : M World Response :=
  match so_users so with
  | Err _ => mret (error 500 "users unavailable")
  | Ok snapshot => u ← gets (usersResponseOf snapshot); mret (writeJSON 200 (UsersBody u))
  end.

Definition userDetail (so : Sources) (email : string) (rq : Request) : Response :=
  if malformedUserEmailEscape (q_target rq) then error 400 "invalid_request"
  else
    match so_users so with
    | Err _ => error 500 "user detail unavailable"
    | Ok snapshot =>
        match List.find (λ u, String.eqb (us_email u) email) (Collector.sn_users snapshot) with
        | Some user =>
            writeJSON 200 (DetailBody {|
              ud_collected_at := Collector.sn_collected_at snapshot; ud_stale := Collector.sn_stale snapshot; ud_user := user;
              ud_profiles := connectionProfilesJSON (Profiles.Evaluate email (us_disabled user) (so_profiles so)) |})
        | None => error 404 "not_found"
        end
    end.

Definition panelInfo (panel : PanelInfo) (mode : Mode) : panelResponse := {|
  pa_version := pi_version panel; pa_uptime := pi_uptime panel; pa_mode := mode;
  pa_sign_out_url := match mode with ModeTrustedProxy => pi_sign_out_url panel | ModePassword => "" end |}.

Definition logSnapshot (so : Sources) (rq : Request) (source : Journal.Source) (filter : Journal.Filter) : Response :=
  match so_logs so source filter with
  | Err e => writeLogFailure rq e
  | Ok s => writeJSON 200 (LogBody (logSnapshotJSON s))
  end.

Definition logSnapshotHandler (so : Sources) (source : Journal.Source) (rq : Request) : Response :=
  if rejectedQuery rq then error 400 "invalid_request" else logSnapshot so rq source Journal.FilterAll.

Definition xrayLogSnapshotHandler (so : Sources) (rq : Request) : Response :=
  match requestedFilter rq with
  | None => error 400 "invalid_request"
  | Some filter => logSnapshot so rq Journal.SourceXray filter
  end.

Definition configSnapshotHandler (so : Sources) (rq : Request) : Response :=
  if rejectedQuery rq then error 400 "invalid_request"
  else
    match so_config so with
    | Err e => writeConfigFailure rq e
    | Ok s => writeJSON 200 (ConfigBody (configSnapshotJSON s))
    end.

Definition no_store (m : M World Response) : M World Response := r ← m; mret (noStore r).

(** The routes of New. *)
Definition app (so : Sources) (panel : PanelInfo) (mode : Mode) (rq : Request) : M World Response :=
  match route rq with
  | Healthz => mret (writeJSON 200 HealthBody)
  | Panel => mret (noStore (writeJSON 200 (PanelBody (panelInfo panel mode))))
  | Server => mret (noStore (if so_host so then writeJSON 200 ServerBody else error 500 "host stats unavailable"))
  | Xray => mret (noStore (match so_xray so with
                           | Ok status => writeJSON 200 (XrayBody status (pi_api_endpoint panel))
                           | Err _ => error 500 "xray status unavailable"
                           end))
  | Users => no_store (listUsers so)
  | AddUserRoute => no_store (sameSiteOnly addUser rq)
  | EditUser email => no_store (sameSiteOnly (editUser email) rq)
  | DisableUser email => no_store (sameSiteOnly (disableUser email) rq)
  | EnableUser email => no_store (sameSiteOnly (enableUser email) rq)
  | DeleteUser email => no_store (sameSiteOnly (deleteUser email) rq)
  | UserDetail email => mret (noStore (userDetail so email rq))
  | PanelLogs => mret (noStore (logSnapshotHandler so Journal.SourcePanel rq))
  | XrayLogs => mret (noStore (xrayLogSnapshotHandler so rq))
  | XrayConfigRoute => mret (noStore (configSnapshotHandler so rq))
  | ApiNotFound => mret (error 404 "not found")
  | Redirect => mret (writeJSON 301 MovedTo)
  | DashboardRoute => mret (writeJSON 200 Dashboard)
  end%string.

(** ** Behind the gateway *)

(** The path the gateway sees is the decoded one. *)
Definition url_path (rq : Request) : string := "/" +:+ String.concat "/" (decoded <$> q_segments rq).

Definition auth_request (rq : Request) : Auth.Request := {|
  Auth.rq_method := q_method rq; Auth.rq_path := url_path rq; Auth.rq_headers := q_headers rq;
  Auth.rq_body := q_login rq |}.

Definition with_headers (headers : Headers) (rq : Request) : Request := {|
  q_method := q_method rq; q_segments := q_segments rq; q_raw_query := q_raw_query rq; q_target := q_target rq;
  q_host := q_host rq; q_headers := headers; q_body := q_body rq; q_login := q_login rq; q_gone := q_gone rq |}.

(** Either the gateway's own answer or the application's. *)
Definition serve (so : Sources) (panel : PanelInfo) (at_ : Moment) (g : Gateway) (rq : Request) (w : World) :
    Gateway * World * (Auth.Body + Response) :=
  let (g', r) := Auth.Handler at_ g (auth_request rq) in
  match rs_body r with
  | Forwarded seen =>
      let (w', response) := app so panel (g_mode g) (with_headers (Auth.rq_headers seen) rq) w in (g', w', inr response)
  | body => (g', w, inl body)
  end.
End WithWorld.
End Api.
