(* ===== verification/ApiTheorems.v ===== *)
(** * What the HTTP API promises

    Only admitted, same-site mutations reach the roster; the log endpoints
    start three fixed collections; the escape check of the user's email is
    percent decoding's. *)

From Stdlib Require Import Ascii String.
From S2P Require Import Prelude GoJson GoText GoUrl GoDecode Reconcile XrayConfig Store Collector Handler Render Roster Auth AuthTheorems Advertisements Profiles Journal Snapshots RosterInstances RosterExamples ProfileTheorems Api.

Module ApiTheorems.
Import GoJson GoText GoUrl Store Roster Auth AuthTheorems Api.

Local Open Scope Z_scope.

(** ** Mutations *)

Definition mutation (r : Route) : bool :=
  match r with
  | AddUserRoute | EditUser _ | DisableUser _ | EnableUser _ | DeleteUser _ => true
  | _ => false
  end.

(** A pattern under the users collection matches only paths under it. *)
Lemma capture_lit s pattern path email : capture (Lit s :: pattern) path = Some email →
  ∃ rest, path = s :: rest ∧ capture pattern rest = Some email.
Proof. destruct path as [|p path]; [done|]. cbn [capture]. destruct (String.eqb_spec s p) as [->|]; [|done]. eauto. Qed.

Lemma capture_users pattern path email : capture (at_v1 (Lit "users" :: pattern)) path = Some email →
  ∃ rest, path = ["api"; "v1"; "users"]%string ++ rest.
Proof.
  intros (path1 & -> & (path2 & -> & (path3 & -> & _)%capture_lit)%capture_lit)%capture_lit. by exists path3.
Qed.

Lemma mutation_match l method path r :
  Forall (λ e : string * list segment * (string → Route), (∀ email, mutation (e.2 email) = false) ∨ ∃ pattern, e.1.2 = at_v1 (Lit "users" :: pattern)) l →
  first_match l method path = Some r → mutation r = true → ∃ rest, path = ["api"; "v1"; "users"]%string ++ rest.
Proof.
  induction 1 as [|[[registered pattern] f] l He Hl IH]; [done|]. cbn [first_match].
  destruct (if method_matches registered method then _ else None) as [email|] eqn:Em; [|exact IH].
  intros [= <-] Hm. destruct He as [He|[rest He]]; cbn in He; [by rewrite He in Hm|]. subst pattern.
  destruct (method_matches registered method); [|done]. by eapply capture_users.
Qed.

(** The path of a mutation begins with the users collection. *)
Lemma mutation_path rq : mutation (route rq) = true → ∃ rest, decoded <$> q_segments rq = ["api"; "v1"; "users"]%string ++ rest.
Proof.
  unfold route. destruct (unclean _ && _); [done|].
  destruct (first_match _ _ _) as [r|] eqn:E.
  - intros Hm. eapply mutation_match; [|exact E|exact Hm].
    repeat (apply Forall_cons; split; [first [left; done|right; eexists; reflexivity]|]). constructor.
  - destruct (decoded <$> q_segments rq); [done|]. destruct (String.eqb _ _); [|done]. by destruct (bool_decide _).
Qed.

Lemma users_path rq : mutation (route rq) = true → ∃ rest, url_path rq = ("/api/v1/users" +:+ rest)%string.
Proof.
  intros (rest & Hp)%mutation_path. unfold url_path. rewrite Hp. destruct rest as [|s rest]; [by exists ""%string|].
  eexists ("/" +:+ String.concat "/" (s :: rest))%string. reflexivity.
Qed.

Section WithWorld.
Context `{GoRuntime} `{HostRuntime} `{ProfileRuntime} `{UrlRuntime} `{AuthRuntime}.
Context `{Uuid} {S R X C : Type} `{RosterStore S} `{Renderer R} `{Pusher X} `{PurgeNotifier C}.

Abbreviation World := (@Roster.World S R X C).

(** Reads leave the roster alone, and so does a mutation its guard stops. *)
Lemma app_reads so panel mode rq (w : World) : mutation (route rq) && sameSite rq = false →
  (app so panel mode rq w).1 = w.
Proof.
  unfold app. intros Hm. destruct (route rq); try done.
  { unfold no_store, listUsers. by destruct (so_users so). }
  all: cbn [mutation andb] in Hm; unfold sameSiteOnly; by rewrite Hm.
Qed.

(** Who is admitted: the holder of a live session, or a request the trusted
    proxy asserts. *)
Definition admitted (at_ : Moment) (g : Gateway) (headers : Headers) : Prop :=
  match g_mode g with
  | ModePassword => ∃ s token expiry, g_sessions g = Some s ∧ request_cookie headers sessionCookieName = Some token ∧
      s_sessions s !! token = Some expiry ∧ m_now at_ < expiry
  | ModeTrustedProxy => ∃ value, headerValues headers "X-Xform-Authenticated" = [value] ∧ sha256 value = g_trustedHash g
  end.

Lemma forwarded_is_admitted at_ g rq seen : mutation (route rq) = true →
  rs_body (Auth.Handler at_ g (auth_request rq)).2 = Forwarded seen →
  admitted at_ g (q_headers rq) ∧
  Auth.rq_headers seen = match g_mode g with ModePassword => q_headers rq | ModeTrustedProxy => stripTrustedHeaders (q_headers rq) end.
Proof.
  intros [rest Hp]%users_path. unfold Auth.Handler, isHealthRequest. cbn [auth_request Auth.rq_path Auth.rq_method]. rewrite Hp.
  assert (String.eqb ("/api/v1/users" +:+ rest)%string "/api/v1/healthz" = false) as -> by reflexivity.
  assert (String.eqb ("/api/v1/users" +:+ rest)%string "/api/v1/login" = false) as -> by reflexivity.
  assert (String.eqb ("/api/v1/users" +:+ rest)%string "/api/v1/logout" = false) as -> by reflexivity.
  assert (String.prefix "/api/" ("/api/v1/users" +:+ rest)%string = true) as -> by (by destruct rest).
  rewrite !andb_false_r. unfold admitted. destruct (g_mode g).
  - unfold requireSession. cbn [auth_request Auth.rq_headers].
    destruct (request_cookie _ _) as [token|] eqn:Ec; [|done]. destruct (g_sessions g) as [s|] eqn:Es; [|done].
    destruct (Validate at_ token s) as [s' ok] eqn:Ev. cbn. destruct ok; [|done]. intros [= <-]. split; [|done].
    unfold Validate in Ev. destruct (s_sessions s !! token) as [expiry|] eqn:Ee; [|done].
    destruct (Z.ltb_spec (m_now at_) expiry); [|done]. by exists s, token, expiry.
  - unfold requireTrustedAssertion. cbn [auth_request Auth.rq_headers].
    destruct (headerValues _ _) as [|value []]; [done| |done]. destruct (String.eqb_spec (sha256 value) (g_trustedHash g)); [|done].
    intros [= <-]. split; [|done]. by exists value.
Qed.

(** What the guard lets through: no Origin, or one that names the host the
    request went to, the ports equal where both carry one; and a fetch the
    browser does not call cross-site. *)
Definition same_site (rq : Request) : Prop :=
  (Get (q_headers rq) "Origin" = ""%string ∨
   ∃ origin, url_host (Get (q_headers rq) "Origin") = Some origin ∧
     equal_fold (splitHostPort origin).1 (splitHostPort (q_host rq)).1 = true ∧
     ((splitHostPort origin).2 = "" ∨ (splitHostPort (q_host rq)).2 = "" ∨ (splitHostPort origin).2 = (splitHostPort (q_host rq)).2)%string) ∧
  Get (q_headers rq) "Sec-Fetch-Site" ∈ [""; "same-origin"; "same-site"; "none"]%string.

Lemma sameSite_spec rq : sameSite rq = true → same_site rq.
Proof.
  unfold sameSite. intros [Ho Hs]%andb_prop. split.
  - apply orb_prop in Ho as [Ho%String.eqb_eq|Ho]; [by left|right]. unfold originMatchesHost in Ho.
    destruct (url_host _) as [origin|]; [|done]. exists origin. split; [done|].
    destruct (splitHostPort origin) as [oh op], (splitHostPort (q_host rq)) as [rh rp]. cbn.
    destruct (equal_fold oh rh); [|done]. split; [done|]. cbn in Ho.
    apply orb_prop in Ho as [[Ho%String.eqb_eq|Ho%String.eqb_eq]%orb_prop|Ho%String.eqb_eq]; auto.
  - apply existsb_exists in Hs as (s & Hin & ->%String.eqb_eq). by apply list_elem_of_In.
Qed.

Lemma untrusted_header `{!GoRuntimeLaws} key : all_ascii key = true →
  forallb (λ h, all_ascii h && negb (String.eqb (ascii_lower key) (ascii_lower h))) trustedHeaders = true →
  trusted_header key = false.
Proof.
  intros Hk Hall. apply not_true_iff_false. unfold trusted_header. intros (h & Hin & He)%existsb_exists.
  rewrite forallb_forall in Hall. apply Hall in Hin as [Ha Hne]%andb_prop.
  apply equal_fold_ascii_inv in He; [|done|done]. rewrite He, String.eqb_refl in Hne. done.
Qed.

Lemma same_site_stripped `{!GoRuntimeLaws} rq :
  sameSite (with_headers (stripTrustedHeaders (q_headers rq)) rq) = sameSite rq.
Proof.
  unfold sameSite, Get. cbn [q_headers q_host with_headers].
  by rewrite !strip_lookup, !untrusted_header by (vm_compute; done).
Qed.

(** C35: nobody changes the roster who is not admitted, nor from another site.
    A request that goes through the gateway and the application leaves the
    store, the config file, xray, the collector and the queue as they were,
    unless it is one of the five mutations, its sender holds a live session or
    is asserted by the trusted proxy, and it comes from the Panel's own site. *)
Theorem mutations_need_admission `{!GoRuntimeLaws} so panel at_ g rq (w : World) :
  let '(_, w', _) := serve so panel at_ g rq w in
  w' = w ∨ (mutation (route rq) = true ∧ admitted at_ g (q_headers rq) ∧ same_site rq).
Proof.
  unfold serve. pose proof (forwarded_is_admitted at_ g rq) as Hadm.
  destruct (Auth.Handler at_ g (auth_request rq)) as [g' r]. cbn [snd] in Hadm.
  destruct (rs_body r) as [| |seen|]; [by left|by left| |by left].
  destruct (app so panel _ _ w) as [w' response] eqn:Ea.
  pose proof (app_reads so panel (g_mode g) (with_headers (Auth.rq_headers seen) rq) w) as Hr. rewrite Ea in Hr. cbn [fst] in Hr.
  change (route (with_headers (Auth.rq_headers seen) rq)) with (route rq) in Hr.
  destruct (mutation (route rq)) eqn:Em; [|left; by apply Hr].
  destruct (Hadm seen eq_refl eq_refl) as [Ha Hh].
  assert (sameSite (with_headers (Auth.rq_headers seen) rq) = sameSite rq) as Hss.
  { rewrite Hh. destruct (g_mode g); [done|apply same_site_stripped]. }
  rewrite Hss in Hr. destruct (sameSite rq) eqn:Es; [|left; by apply Hr].
  right. split_and!; [done|done|by apply sameSite_spec].
Qed.

(** ** The log endpoints *)

(** The collections the API can start. *)
Definition offered (source : Journal.Source) (filter : Journal.Filter) : bool :=
  String.eqb source Journal.SourcePanel && String.eqb filter Journal.FilterAll ||
  String.eqb source Journal.SourceXray && (String.eqb filter Journal.FilterAll || String.eqb filter Journal.FilterSystem).

(** Sources that refuse every other collection. *)
Definition only_offered (so : Sources) : Sources := {|
  so_host := so_host so; so_xray := so_xray so; so_users := so_users so; so_profiles := so_profiles so;
  so_logs := λ source filter, if offered source filter then so_logs so source filter else Err (Journal.UnknownFilter filter);
  so_config := so_config so |}.

Lemma requested_offered rq filter : requestedFilter rq = Some filter → offered Journal.SourceXray filter = true.
Proof.
  unfold requestedFilter. destruct (bool_decide _); [by intros [= <-]|]. destruct (values_of _ _) as [|value []]; try done.
  destruct (bool_decide _); [|done]. destruct (_ || _) eqn:E; [|done]. intros [= <-]. unfold offered. by rewrite E, orb_true_r.
Qed.

(** Whatever a request asks for, the journal is only ever read for the
    Panel's unit unfiltered, or for xray's under one of the two filters, and
    each of the three has its fixed arguments: no query reaches journalctl. *)
Theorem log_requests_are_fixed so panel mode rq (w : World) unit entries :
  app (only_offered so) panel mode rq w = app so panel mode rq w ∧
  ∀ source filter, offered source filter = true → is_ok (Journal.arguments unit entries filter) = true.
Proof.
  split.
  - unfold app. destruct (route rq); try done.
    + unfold xrayLogSnapshotHandler. destruct (requestedFilter rq) as [filter|] eqn:E; [|done].
      apply requested_offered in E. unfold logSnapshot, only_offered. cbn [so_logs]. by rewrite E.
  - intros source filter. unfold offered, Journal.arguments.
    destruct (String.eqb filter Journal.FilterAll); [done|]. rewrite andb_false_r. cbn.
    destruct (String.eqb filter Journal.FilterSystem); [done|]. by rewrite andb_false_r.
Qed.
End WithWorld.

(** ** The escape check *)

Lemma is_hex_value b : isHex b = match hex_value b with Some _ => true | None => false end.
Proof.
  unfold isHex, hex_value.
  destruct (48 <=? b) eqn:E1, (b <=? 57) eqn:E2, (97 <=? b) eqn:E3, (b <=? 102) eqn:E4, (65 <=? b) eqn:E5, (b <=? 70) eqn:E6; done.
Qed.

Lemma length_bytes_of s : length (bytes_of s) = String.length s.
Proof. induction s as [|c s IH]; cbn; [done|]. by rewrite IH. Qed.

Lemma bad_escape_spec fuel segment index : (length segment - index < fuel)%nat →
  bad_escape fuel segment index = match unescape false (drop index segment) with Some _ => false | None => true end.
Proof.
  revert index. induction fuel as [|fuel IH]; intros index Hf; [lia|]. cbn [bad_escape].
  destruct (segment !! index) as [c|] eqn:Ec.
  2:{ apply lookup_ge_None in Ec. by rewrite drop_ge by lia. }
  pose proof (lookup_lt_Some _ _ _ Ec) as Hlt. rewrite (drop_S _ _ _ Ec). cbn [unescape andb].
  destruct (c =? 37) eqn:E37; cbn [negb].
  - rewrite Nat.add_comm. change (1 + index)%nat with (S index). destruct (segment !! S index) as [a|] eqn:Ea.
    2:{ apply lookup_ge_None in Ea. by rewrite drop_ge by lia. }
    rewrite (drop_S _ _ _ Ea). replace (index + 2)%nat with (S (S index)) by lia.
    destruct (segment !! S (S index)) as [b|] eqn:Eb.
    2:{ apply lookup_ge_None in Eb. by rewrite drop_ge by lia. }
    rewrite (drop_S _ _ _ Eb), !is_hex_value. destruct (hex_value a) as [x|]; [|done].
    destruct (hex_value b) as [y|]; [|done]. cbn [negb orb mbind option_bind].
    rewrite IH by (apply lookup_lt_Some in Eb; lia). replace (index + 3)%nat with (S (S (S index))) by lia. by destruct (unescape _ _).
  - rewrite IH by lia. by destruct (unescape _ _).
Qed.

(** The check of a user's address is percent decoding's own: it refuses
    a request target exactly when what follows the users collection in its
    path does not decode. *)
Theorem malformed_escape_is_undecodable target :
  malformedUserEmailEscape target = true ↔
  ∃ segment, after_first "/api/v1/users/" (of_bytes (cut_byte 63 (bytes_of target)).1) = Some segment ∧ PathUnescape segment = None.
Proof.
  unfold malformedUserEmailEscape, PathUnescape. destruct (after_first _ _) as [segment|]; [|split; [done|by intros (? & ? & _)]].
  rewrite bad_escape_spec by (rewrite Nat.sub_0_r, length_bytes_of; lia). rewrite drop_0.
  destruct (unescape false (bytes_of segment)) as [l|] eqn:E; split; intros Hm; try done.
  - by destruct Hm as (? & [= <-] & Hm); rewrite E in Hm.
  - exists segment. split; [done|]. by rewrite E.
Qed.

(** ** Examples *)

Module Examples.
Import AsciiRuntime RosterInstances.
#[local] Existing Instance RosterExamples.uuids.
#[local] Existing Instance RosterExamples.file_renderer.
#[local] Existing Instance AuthTheorems.Examples.plain_runtime.
#[local] Existing Instance ProfileTheorems.Examples.plain_hosts.
#[local] Existing Instance ProfileTheorems.Examples.plain_ids.

Local Open Scope string_scope.

(** An origin is https:// and its host here. *)
#[local] Instance plain_urls : UrlRuntime := {
  url_host s := if String.prefix "https://" s then Some (String.substring 8 (String.length s - 8) s) else None;
}.

Definition sources : Sources := {|
  so_host := true; so_xray := Err "down"; so_users := Err "none";
  so_profiles := ProfileTheorems.Examples.sources; so_logs := λ _ _, Err (Journal.Failure Journal.ReasonSnapshotInProgress);
  so_config := Err (ConfigSnapshot.Failure ConfigSnapshot.ReasonTooLarge) |}.

Definition panel : PanelInfo := {| pi_version := "dev"; pi_api_endpoint := "127.0.0.1:8080"; pi_sign_out_url := "/bye"; pi_uptime := 5%Z |}.

Definition request (method : string) (segments : list string) (query body : string) (headers : list (string * list string)) : Request := {|
  q_method := method; q_segments := segments; q_raw_query := query; q_target := "/" +:+ String.concat "/" segments;
  q_host := "panel.example:9443"; q_headers := list_to_map headers; q_body := body; q_login := None; q_gone := false |}.

Definition world := RosterExamples.start false [].

(** A disable of a user the session's holder asks for from the Panel. *)
Definition disable (origin cookie : string) : Request :=
  request "POST" ["api"; "v1"; "users"; "alice%40x"; "disable"] "" ""
    [("Cookie", [cookie]); ("Origin", [origin]); ("Sec-Fetch-Site", ["same-origin"])].

Definition answer (rq : Request) : option Z * bool :=
  let '(_, w', r) := serve sources panel (AuthTheorems.Examples.at_time 50) AuthTheorems.Examples.panel rq world in
  (match r with inr response => Some (p_status response) | inl (JSONError status _ _) => Some status | inl _ => None end,
   bool_decide (sv_pending (w_svc w') = sv_pending (w_svc world))).

(** Behind a proxy that drops the port the origin still matches; another
    site, or an expired session, is turned away. *)
Example disables :
  answer (disable "https://Panel.example" "abcd") = (Some 200%Z, false) ∧
  answer (disable "https://evil.example" "abcd") = (Some 403%Z, true) ∧
  answer (disable "https://panel.example" "stolen") = (Some 401%Z, true).
Proof. vm_compute. repeat split. Qed.

Lemma mutations_need_admission_witness :
  let '(_, w', _) := serve sources panel (AuthTheorems.Examples.at_time 50) AuthTheorems.Examples.panel
    (disable "https://panel.example" "abcd") world in
  w' = world ∨ (mutation (route (disable "https://panel.example" "abcd")) = true ∧
    admitted (AuthTheorems.Examples.at_time 50) AuthTheorems.Examples.panel (q_headers (disable "https://panel.example" "abcd")) ∧
    same_site (disable "https://panel.example" "abcd")).
Proof. exact (mutations_need_admission sources panel (AuthTheorems.Examples.at_time 50) AuthTheorems.Examples.panel (disable "https://panel.example" "abcd") world). Defined.

Definition status_of (rq : Request) : Z := p_status (app sources panel ModePassword rq world).2.

(** The body is read as the code reads it, and an unknown email is a 404. *)
Example answers :
  status_of (request "POST" ["api"; "v1"; "users"] "" "{"  []) = 400%Z ∧
  status_of (request "PATCH" ["api"; "v1"; "users"; "bob"] "" "{}" []) = 404%Z ∧
  status_of (request "DELETE" ["api"; "v1"; "users"; "bob"] "" "" []) = 204%Z ∧
  status_of (request "PUT" ["api"; "v1"; "users"] "" "" []) = 404%Z ∧
  status_of (request "GET" ["api"; ""; "users"] "" "" []) = 301%Z ∧
  status_of (request "GET" ["api"; "v1"; "logs"; "xray"] "filter=system" "" []) = 429%Z ∧
  status_of (request "GET" ["api"; "v1"; "logs"; "xray"] "filter=other" "" []) = 400%Z.
Proof. vm_compute. repeat split. Qed.

(** A parameter that does not parse is not there for the query's reader: the
    snapshot is collected unfiltered where the comment promises that anything
    but the two filters is refused. *)
Example malformed_query_reads_as_all :
  requestedFilter (request "GET" ["api"; "v1"; "logs"; "xray"] "filter=system;" "" []) = Some Journal.FilterAll ∧
  requestedFilter (request "GET" ["api"; "v1"; "logs"; "xray"] "filter=%zz" "" []) = Some Journal.FilterAll ∧
  requestedFilter (request "GET" ["api"; "v1"; "logs"; "xray"] "unit=sshd;x&filter=system" "" []) = Some Journal.FilterSystem.
Proof. vm_compute. repeat split. Qed.
End Examples.
End ApiTheorems.
