(* ===== verification/Startup.v ===== *)
(** * Starting the Panel (internal/config, cmd/xform, internal/hoststats,
      internal/logging)

    The configuration read from the environment, the gates main passes before
    it opens anything, the geoip file it looks for, the embedded dashboard, the
    host's statistics and the log lines for the journal. *)

From Stdlib Require Import Ascii String.
From Stdlib.Floats Require Import SpecFloat.
From S2P Require Import Prelude GoJson GoText GoUrl Reconcile Auth AuthTheorems Advertisements FileSource Journal Listener XrayStatus.

(** url.Parse of a text that parses. *)
Record URL := {
  u_scheme : string; u_host : string; u_path : string; u_raw_query : string; u_fragment : string; u_opaque : string;
  u_user : bool;
}.

(** What the startup takes from Go's net and net/url: net.ParseIP followed
    by IsLoopback, and url.Parse. *)
Class NetRuntime := { ip_loopback : string → bool; url_Parse : string → option URL }.

(** ** The configuration (config.go) *)

Module Config.
Import GoJson GoText GoUrl.

Local Open Scope string_scope.

Record Config := {
  ListenAddress : string; AuthMode : string; Password : string; TrustedProxySecret : string; TrustedProxySignOutURL : string;
  XrayAPIAddress : string; XrayConfigPath : string; ConnectionsConfigPath : string; DBPath : string; XrayUnitName : string;
  JournalctlPath : string; GeoIPPath : string;
}.

Inductive signOutProblem := NotSameOriginPath | ControlCharacter | InvalidQueryEscape.

Inductive configError :=
| PasswordRequired | TrustedSettingsNotAllowed | PasswordNotAllowed | SecretInvalid (e : Auth.authError) | ListenNotTrusted
| SignOutInvalid (p : signOutProblem) | InvalidAuthMode (mode : string).

(** env, over os.Getenv. *)
Definition env (getenv : string → string) (name fallback : string) : string :=
  if String.eqb (getenv name) "" then fallback else getenv name.

(** unicode.IsControl. *)
Definition rune_control (r : Z) : bool := ((0 <=? r) && (r <? 32) || (127 <=? r) && (r <? 160))%Z.

Section WithNet.
Context `{NetRuntime}.

Definition ValidateTrustedProxySignOutURL (url : string) : option signOutProblem :=
  if String.eqb url "" then None
  else if negb (utf8_valid url) || negb (String.prefix "/" url) || String.prefix "//" url || contains_any "\#" url then Some NotSameOriginPath
  else if existsb (λ r, rune_control r.1) (runes url) then Some ControlCharacter
  else
    match url_Parse url with
    | None => Some NotSameOriginPath
    | Some u =>
        if negb (String.eqb (u_scheme u) "") || negb (String.eqb (u_host u) "") || negb (String.eqb (u_fragment u) "") ||
           negb (String.eqb (u_opaque u) "") || u_user u || negb (String.prefix "/" (u_path u)) then Some NotSameOriginPath
        else match PathUnescape (u_raw_query u) with None => Some InvalidQueryEscape | Some _ => None end
    end.

Definition validateTrustedListen (address : string) : bool :=
  if String.prefix "unix:" address then
    let path := Listener.trim_unix address in
    negb (String.eqb path "" || negb (String.prefix "/" path) || has_suffix "/" path)
  else
    match SplitHostPort address with
    | None => false
    | Some (host, _) => ip_loopback host
    end.

Definition Load (getenv : string → string) : result configError Config :=
  let env := env getenv in
  let cfg := {|
    ListenAddress := env "XFORM_LISTEN" "127.0.0.1:9090";
    AuthMode := env "XFORM_AUTH_MODE" "password";
    Password := env "XFORM_PASSWORD" "";
    TrustedProxySecret := env "XFORM_TRUSTED_PROXY_SECRET" "";
    TrustedProxySignOutURL := env "XFORM_TRUSTED_PROXY_SIGN_OUT_URL" "";
    XrayAPIAddress := env "XFORM_XRAY_API" "127.0.0.1:8080";
    XrayConfigPath := env "XFORM_XRAY_CONFIG" "/usr/local/etc/xray/config.json";
    ConnectionsConfigPath := env "XFORM_CONNECTIONS_CONFIG" "";
    DBPath := env "XFORM_DB" "/var/lib/xform/xform.db";
    XrayUnitName := env "XFORM_XRAY_UNIT" "xray.service";
    JournalctlPath := env "XFORM_JOURNALCTL" "/usr/bin/journalctl";
    GeoIPPath := env "XFORM_GEOIP" "" |} in
  if String.eqb (AuthMode cfg) "password" then
    if String.eqb (Password cfg) "" then Err PasswordRequired
    else if negb (String.eqb (TrustedProxySecret cfg) "") || negb (String.eqb (TrustedProxySignOutURL cfg) "") then Err TrustedSettingsNotAllowed
    else Ok cfg
  else if String.eqb (AuthMode cfg) "trusted_proxy" then
    if negb (String.eqb (Password cfg) "") then Err PasswordNotAllowed
    else
      match Auth.ValidateTrustedProxySecret (TrustedProxySecret cfg) with
      | Err e => Err (SecretInvalid e)
      | Ok _ =>
          if negb (validateTrustedListen (ListenAddress cfg)) then Err ListenNotTrusted
          else match ValidateTrustedProxySignOutURL (TrustedProxySignOutURL cfg) with
               | Some p => Err (SignOutInvalid p)
               | None => Ok cfg
               end
      end
  else Err (InvalidAuthMode (AuthMode cfg)).

End WithNet.
End Config.

(** ** main (cmd/xform/main.go) *)

Module Main.
Import Config GoUrl.

Local Open Scope string_scope.

(** What main does that can be seen from outside, in order. *)
Inductive event :=
| OpenDatabase (path : string) | CloseDatabase
| StartHostStats | StartXrayStatus | StartConfigWatcher | StartAdvertisements | StartUsers (geo : bool) | StartRoster
| ListenOn (address : string) | CloseListener | Serve.

(** The stage that fails ends the process with status 1. *)
Inductive outcome :=
| FailedConfig (e : configError) | FailedAuth (e : Auth.authError) | FailedJournal | FailedDatabase | FailedListen | FailedServe
| Done.

Section WithHost.
Context `{GoRuntime} `{NetRuntime} `{Auth.AuthRuntime} `{HostFiles} `{SystemdBus}.

(** journalXrayUnit: the executable, then the unit's canonical name. *)
Definition journalXrayUnit (cfg : Config) : option string :=
  match Journal.ValidateExecutable (JournalctlPath cfg) with
  | Some _ => None
  | None =>
      match Journal.ResolveXrayUnit (λ name, match Systemd.CanonicalID name with Ok id => Some id | Err _ => None end) (XrayUnitName cfg) with
      | Ok unit => Some unit
      | Err _ => None
      end
  end.

(** filepath.Dir. *)
Definition dir (path : string) : string :=
  let parts := reverse (Advertisements.split_on "/"%char path) in
  FileSource.path_clean (String.concat "/" (reverse (match parts with _ :: rest => "" :: rest | [] => [] end))).

(** The geoip file: the configured one, or the first candidate that is
    there. [exists_] is os.Stat's success. *)
Definition geoip_path (exists_ : string → bool) (cfg : Config) : option string :=
  if negb (String.eqb (GeoIPPath cfg) "") then Some (GeoIPPath cfg)
  else List.find exists_ ["/usr/local/share/xray/geoip.dat"; FileSource.path_clean (dir (XrayConfigPath cfg) +:+ "/geoip.dat")].

(** [load]: whether geoip.Load of the path succeeds. *)
Definition loadGeoIP (exists_ load : string → bool) (cfg : Config) : bool :=
  match geoip_path exists_ cfg with Some path => load path | None => false end.

(** What the host answers to the rest. *)
Record host := {
  h_getenv : string → string;
  h_opens : bool;                    (* users.Open *)
  h_exists : string → bool; h_loads : string → bool;
  h_listens : string → bool → bool;  (* the address, and whether only trusted peers may connect *)
  h_serves : bool;                   (* Serve ended by the shutdown *)
}.

Definition credential (cfg : Config) : string :=
  if String.eqb (AuthMode cfg) "trusted_proxy" then TrustedProxySecret cfg else Password cfg.

Definition services (geo : bool) : list event :=
  [StartHostStats; StartXrayStatus; StartConfigWatcher; StartAdvertisements; StartUsers geo; StartRoster].

(** A process that exits by os.Exit runs no deferred call. *)
Definition main (h : host) : list event * outcome :=
  match Load (h_getenv h) with
  | Err e => ([], FailedConfig e)
  | Ok cfg =>
      match Auth.New (AuthMode cfg) (credential cfg) with
      | Err e => ([], FailedAuth e)
      | Ok _ =>
          match journalXrayUnit cfg with
          | None => ([], FailedJournal)
          | Some _ =>
              if negb (h_opens h) then ([OpenDatabase (DBPath cfg)], FailedDatabase)
              else
                let started := (OpenDatabase (DBPath cfg) :: services (loadGeoIP (h_exists h) (h_loads h) cfg) ++ [ListenOn (ListenAddress cfg)])%list in
                if negb (h_listens h (ListenAddress cfg) (String.eqb (AuthMode cfg) "trusted_proxy")) then (started, FailedListen)
                else if h_serves h then ((started ++ [Serve; CloseListener; CloseDatabase])%list, Done)
                else ((started ++ [Serve; CloseListener])%list, FailedServe)
          end
      end
  end.
End WithHost.
End Main.

(** ** The embedded dashboard (dashboard.go) *)

Module Dashboard.

Local Open Scope string_scope.

Inductive page := MethodNotAllowed | Asset (path : string) (immutable : bool) | NotFound | Index.

(** path.Ext of a path: whether the last element has a dot. *)
Definition has_ext (path : string) : bool :=
  match reverse (Advertisements.split_on "/"%char path) with last :: _ => contains "." last | [] => false end.

(** [stat]: what the embedded files hold at a path, and whether it is a
    directory. *)
Definition ServeHTTP (stat : string → option bool) (meth urlPath : string) : page :=
  if negb (String.eqb meth "GET" || String.eqb meth "HEAD") then MethodNotAllowed
  else
    let cleaned := FileSource.path_clean urlPath in
    let assetPath := if String.prefix "/" cleaned then String.substring 1 (String.length cleaned - 1) cleaned else cleaned in
    let assetPath := if String.eqb assetPath "." then "" else assetPath in
    if String.eqb assetPath "" then Index
    else
      match stat assetPath with
      | Some false => Asset assetPath (String.prefix "assets/" assetPath)
      | Some true => NotFound
      | None => if has_ext assetPath then NotFound else Index
      end.

(** A client route falls back to the page; a missing file does not. *)
Example serves :
  let stat p := if String.eqb p "assets/app.js" then Some false else if String.eqb p "assets" then Some true else None in
  ServeHTTP stat "GET" "/assets/../assets/app.js" = Asset "assets/app.js" true ∧ ServeHTTP stat "GET" "/users/bob" = Index ∧
  ServeHTTP stat "GET" "/assets" = NotFound ∧ ServeHTTP stat "GET" "/missing.css" = NotFound ∧
  ServeHTTP stat "GET" "/" = Index ∧ ServeHTTP stat "POST" "/" = MethodNotAllowed.
Proof. by vm_compute. Qed.
End Dashboard.

(** ** The host's statistics (hoststats) *)

Module HostStats.
Import Reconcile.

Record Stats := {
  hs_collected_at : Z; hs_cpu_percent : spec_float; hs_cpu_cores : Z; hs_mem_used : Z; hs_mem_total : Z; hs_disk_path : string;
  hs_disk_used : Z; hs_disk_total : Z; hs_uptime : Z; hs_load : spec_float * spec_float * spec_float;
}.

Inductive statsError := CPUUsage | CPUAggregates (n : nat) | CPUCount | Memory | Storage | Uptime | LoadAverage.

Definition rootDiskPath : string := "/".

Definition hundred : spec_float := float64_of_Z 100.

Definition clampPercent (value : spec_float) : spec_float :=
  match value with
  | S754_nan | S754_infinity _ => S754_zero false
  | _ => if SFltb value (S754_zero false) then S754_zero false
         else if SFltb hundred value then hundred else value
  end.

(** The readings of the host, in the code's order; [None] is an error. *)
Definition Collect (now : Z) (cpu : option (list spec_float)) (cores : option Z) (memory storage : option (Z * Z)) (uptime : option Z)
    (load : option (spec_float * spec_float * spec_float)) : result statsError Stats :=
  match cpu with
  | None => Err CPUUsage
  | Some percents =>
      match percents with
      | [percent] =>
          match cores with None => Err CPUCount | Some cores =>
          match memory with None => Err Memory | Some (memUsed, memTotal) =>
          match storage with None => Err Storage | Some (diskUsed, diskTotal) =>
          match uptime with None => Err Uptime | Some uptime =>
          match load with None => Err LoadAverage | Some load =>
          Ok {| hs_collected_at := now; hs_cpu_percent := clampPercent percent; hs_cpu_cores := cores;
                hs_mem_used := memUsed; hs_mem_total := memTotal; hs_disk_path := rootDiskPath;
                hs_disk_used := diskUsed; hs_disk_total := diskTotal; hs_uptime := uptime; hs_load := load |}
          end end end end end
      | _ => Err (CPUAggregates (length percents))
      end
  end.
End HostStats.

(** ** Log lines for the journal (logging/journal.go) *)

Module Logging.
Import GoJson GoText.

Local Open Scope Z_scope.

(** slog's levels. *)
Definition journalPriority (level : Z) : Z :=
  if 8 <=? level then 3 else if 4 <=? level then 4 else if 0 <=? level then 6 else 7.

Definition trim_prefix (pre s : string) : string :=
  if String.prefix pre s then String.substring (String.length pre) (String.length s - String.length pre) s else s.

Definition trim_newline (s : string) : string :=
  match reverse (bytes_of s) with 10 :: rest => of_bytes (reverse rest) | _ => s end.

(** One line: the priority, the message as it is, and what slog's text
    handler writes of the attributes, [encoded], under an empty message. *)
Definition journalLine (level : Z) (message encoded : string) : string :=
  ("<" +:+ of_bytes [48 + journalPriority level] +:+ ">" +:+ message +:+
   trim_newline (trim_prefix (of_bytes [109; 115; 103; 61; 34; 34]) encoded) +:+ of_bytes [10])%string.

(** slog's text handler, without the time and the level: a handler, what its
    WithGroup and WithAttrs make of it, and what it writes of a record's
    attributes under an empty message. *)
Class TextHandler (Attr : Type) := {
  Formatter : Type;
  NewTextHandler : Formatter;
  text_WithGroup : string → Formatter → Formatter;
  text_WithAttrs : list Attr → Formatter → Formatter;
  text_Handle : Formatter → Z → list Attr → result string string;
}.

Section WithText.
Context {Attr : Type} `{TextHandler Attr}.

Record handlerOp := { op_group : string; op_attrs : list Attr }.

(** The output and its mutex are shared: what is kept apart is the operations. *)
Record JournalHandler := { jh_ops : list handlerOp }.

Definition NewJournalHandler : JournalHandler := {| jh_ops := [] |}.

Definition WithAttrs (attrs : list Attr) (h : JournalHandler) : JournalHandler :=
  {| jh_ops := jh_ops h ++ [{| op_group := ""; op_attrs := attrs |}] |}.

Definition WithGroup (name : string) (h : JournalHandler) : JournalHandler :=
  if String.eqb name "" then h else {| jh_ops := jh_ops h ++ [{| op_group := name; op_attrs := [] |}] |}.

(** An operation, made of a text handler. *)
Definition apply_op (formatter : Formatter) (op : handlerOp) : Formatter :=
  if negb (String.eqb (op_group op) "") then text_WithGroup (op_group op) formatter else text_WithAttrs (op_attrs op) formatter.

(** The one write of a record, or the text handler's error. *)
Definition Handle (h : JournalHandler) (level : Z) (message : string) (attrs : list Attr) : result string string :=
  result_map (journalLine level message) (text_Handle (foldl apply_op NewTextHandler (jh_ops h)) level attrs).
End WithText.
Arguments handlerOp : clear implicits.
Arguments JournalHandler : clear implicits.
End Logging.

(** ** Theorems *)

Module StartupTheorems.
Import GoJson GoText GoUrl Listener Config Main.

Local Open Scope string_scope.

Section WithHost.
Context `{GoRuntime} `{NetRuntime} `{Auth.AuthRuntime} `{HostFiles} `{SystemdBus}.

(** A sign-out address the browser can only read as a path of the Panel's
    own origin. *)
Definition own_path (url : string) : Prop :=
  String.prefix "/" url = true ∧ String.prefix "//" url = false ∧ contains_any "\#" url = false ∧ utf8_valid url = true ∧
  Forall (λ r, rune_control r.1 = false) (runes url).

Lemma sign_out_is_own_path url : url ≠ "" → ValidateTrustedProxySignOutURL url = None → own_path url.
Proof.
  unfold ValidateTrustedProxySignOutURL, own_path. intros Hne. destruct (String.eqb_spec url ""); [done|].
  destruct (utf8_valid url), (String.prefix "/" url), (String.prefix "//" url), (contains_any "\#" url); try done.
  cbn [negb orb]. destruct (existsb _ (runes url)) eqn:Ec; [done|]. intros _. split_and!; try done.
  apply Forall_forall. intros r Hr. destruct (rune_control r.1) eqn:E; [|done].
  assert (existsb (λ r, rune_control r.1) (runes url) = true) as Ht; [|congruence].
  apply existsb_exists. exists r. split; [by apply list_elem_of_In|done].
Qed.

(** A trusted address: what the listener makes of it. *)
Lemma trusted_listen_accepted geteuid address net_Listen : validateTrustedListen address = true →
  Listener.ListenTrusted geteuid net_Listen (λ a, fst <$> SplitHostPort a) ip_loopback address =
    if String.prefix "unix:" address
    then (l ← Listener.listenUnix geteuid (Listener.trim_unix address); Listener.Ret (result_map Listener.OnUnix l))
    else Listener.Ret (result_map Listener.OnLoopback (net_Listen address)).
Proof.
  unfold validateTrustedListen, Listener.ListenTrusted, Listener.Listen, Listener.unixPrefix.
  destruct (String.prefix "unix:" address) eqn:Eu; cbn [negb].
  - destruct (String.prefix "/" _) eqn:Ep, (has_suffix "/" _) eqn:Es; rewrite ?orb_true_r; cbn; try done.
  - destruct (SplitHostPort address) as [[host port]|]; [|done]. cbn. by intros ->.
Qed.

(** The gateway accepts what the configuration accepted. *)
Lemma loaded_gateway getenv cfg : Load getenv = Ok cfg →
  ∃ g, Auth.New (AuthMode cfg) (credential cfg) = Ok g ∧
    Auth.g_mode g = if String.eqb (AuthMode cfg) "password" then Auth.ModePassword else Auth.ModeTrustedProxy.
Proof.
  unfold Load. set (c := Build_Config _ _ _ _ _ _ _ _ _ _ _ _). clearbody c. unfold credential, Auth.New.
  destruct (String.eqb_spec (AuthMode c) "password") as [Em|].
  - intros Hc. assert (c = cfg) as <- by (repeat case_match; by simplify_eq). rewrite Em. by eexists.
  - destruct (String.eqb_spec (AuthMode c) "trusted_proxy") as [Em|]; [|done].
    destruct (String.eqb _ _); [|done]. cbn [negb].
    destruct (Auth.ValidateTrustedProxySecret (TrustedProxySecret c)) as [u|e] eqn:Ev; [|done].
    intros Hc. assert (c = cfg) as <- by (repeat case_match; by simplify_eq).
    rewrite Em. cbn. unfold Auth.NewTrustedProxy. rewrite Ev. by eexists.
Qed.

(** C36: a configuration that loads starts. The gateway accepts its mode and
    credential: a password, with no trusted setting beside it, or a secret of
    64 hexadecimal digits and no password. In trusted mode the listener accepts
    the address, which is an absolute socket path or a loopback TCP address,
    and the sign-out address, if any, is a path of the Panel's own origin. *)
Theorem loaded_configuration_starts getenv cfg :
  Load getenv = Ok cfg →
  (∃ g, Auth.New (AuthMode cfg) (credential cfg) = Ok g ∧
     Auth.g_mode g = if String.eqb (AuthMode cfg) "password" then Auth.ModePassword else Auth.ModeTrustedProxy) ∧
  (AuthMode cfg = "password" ∧ Password cfg ≠ "" ∧ TrustedProxySecret cfg = "" ∧ TrustedProxySignOutURL cfg = "" ∨
   AuthMode cfg = "trusted_proxy" ∧ Password cfg = "" ∧
     String.length (TrustedProxySecret cfg) = 64%nat ∧ forallb Auth.secret_char (bytes_of (TrustedProxySecret cfg)) = true ∧
     (∀ net_Listen, Listener.ListenTrusted geteuid net_Listen (λ a, fst <$> SplitHostPort a) ip_loopback (ListenAddress cfg) =
        if String.prefix "unix:" (ListenAddress cfg)
        then (l ← Listener.listenUnix geteuid (Listener.trim_unix (ListenAddress cfg)); Listener.Ret (result_map Listener.OnUnix l))
        else Listener.Ret (result_map Listener.OnLoopback (net_Listen (ListenAddress cfg)))) ∧
     (TrustedProxySignOutURL cfg ≠ "" → own_path (TrustedProxySignOutURL cfg))).
Proof.
  intros Hload. split; [by apply (loaded_gateway getenv)|]. revert Hload.
  unfold Load. set (c := Build_Config _ _ _ _ _ _ _ _ _ _ _ _). clearbody c.
  destruct (String.eqb_spec (AuthMode c) "password") as [Em|].
  - destruct (String.eqb_spec (Password c) "") as [|Hp]; [done|].
    destruct (String.eqb_spec (TrustedProxySecret c) "") as [Hs|], (String.eqb_spec (TrustedProxySignOutURL c) "") as [Hu|]; try done.
    intros [= <-]. by left.
  - destruct (String.eqb_spec (AuthMode c) "trusted_proxy") as [Em|]; [|done].
    destruct (String.eqb_spec (Password c) "") as [Hp|]; [|done]. cbn [negb].
    destruct (Auth.ValidateTrustedProxySecret (TrustedProxySecret c)) as [u|e] eqn:Ev; [|done].
    destruct (validateTrustedListen (ListenAddress c)) eqn:El; [|done]. cbn [negb].
    destruct (ValidateTrustedProxySignOutURL _) eqn:Es; [done|]. intros [= <-]. right. unfold Auth.ValidateTrustedProxySecret in Ev.
    destruct (Nat.eqb_spec (String.length (TrustedProxySecret c)) 64) as [Hl|]; [|done]. cbn [negb] in Ev.
    destruct (forallb _ _) eqn:Ef; [|done]. split_and!; [done..| |].
    + intros net_Listen. by apply trusted_listen_accepted.
    + intros Hne. by apply sign_out_is_own_path.
Qed.

(** Nothing is opened before the gates: the first thing that happens is the
    opening of the database, of a configuration that loads and whose journal
    access is valid; the services start on an open database, the Panel serves
    on a listener, and a clean end closes both. The gateway never refuses what
    the configuration accepted. *)
Lemma main_effects_follow_gates h :
  let (trace, out) := main h in
  (∀ e, out ≠ FailedAuth e) ∧
  (trace = [] ∨ ∃ cfg unit rest, Load (h_getenv h) = Ok cfg ∧ journalXrayUnit cfg = Some unit ∧ trace = OpenDatabase (DBPath cfg) :: rest ∧
     (rest = [] ∨ h_opens h = true) ∧
     (Serve ∈ rest → h_listens h (ListenAddress cfg) (String.eqb (AuthMode cfg) "trusted_proxy") = true)) ∧
  (out = Done → ∃ before, trace = (before ++ [Serve; CloseListener; CloseDatabase])%list).
Proof.
  unfold main. destruct (Load (h_getenv h)) as [cfg|e] eqn:El; [|split_and!; [done|by left|done]].
  destruct (loaded_gateway _ _ El) as (g & Hg & _). rewrite Hg.
  destruct (journalXrayUnit cfg) as [unit|] eqn:Ej; [|split_and!; [done|by left|done]].
  destruct (h_opens h) eqn:Eo; cbn [negb].
  2:{ split_and!; [done| |done]. right. exists cfg, unit, []. split_and!; [done..|by left|]. intros Hin. inversion Hin. }
  destruct (h_listens _ _ _) eqn:Ell; cbn [negb].
  - destruct (h_serves h).
    + split_and!; [done| |intros _; by eexists]. right. eexists cfg, unit, _. split_and!; [done..|by right|done].
    + split_and!; [done| |done]. right. eexists cfg, unit, _. split_and!; [done..|by right|done].
  - split_and!; [done| |done]. right. eexists cfg, unit, _. split_and!; [done..|by right|].
    intros Hin. exfalso. apply elem_of_app in Hin as [Hin|Hin].
    + unfold services in Hin. set_solver.
    + set_solver.
Qed.
End WithHost.

(** *** Log lines *)

(** A derived handler writes as slog's own, derived the same way, would: the
    operations kept and made at each record are those of the text handler. *)
Lemma derived_handler {Attr} `{Logging.TextHandler Attr} (h : Logging.JournalHandler Attr) name attrs :
  let formatter h := foldl Logging.apply_op Logging.NewTextHandler (Logging.jh_ops h) in
  formatter (Logging.WithAttrs attrs h) = Logging.text_WithAttrs attrs (formatter h) ∧
  formatter (Logging.WithGroup name h) = (if String.eqb name "" then formatter h else Logging.text_WithGroup name (formatter h)).
Proof.
  cbv zeta. unfold Logging.WithGroup, Logging.WithAttrs. split; [cbn [Logging.jh_ops]; by rewrite foldl_snoc|].
  destruct (String.eqb name "") eqn:E; [done|]. cbn [Logging.jh_ops]. rewrite foldl_snoc.
  unfold Logging.apply_op at 1. cbn [Logging.op_group]. by rewrite E.
Qed.

(** *** The host's percentage *)

(** Whatever the library reads, the dashboard shows between 0 and 100. *)
Lemma clamped_percent value :
  let shown := HostStats.clampPercent value in
  SFleb (S754_zero false) shown = true ∧ SFleb shown HostStats.hundred = true.
Proof.
  assert (SFleb (S754_zero false) (S754_zero false) = true ∧ SFleb (S754_zero false) HostStats.hundred = true) as Hzero by (by vm_compute).
  assert (SFleb (S754_zero false) HostStats.hundred = true ∧ SFleb HostStats.hundred HostStats.hundred = true) as Hhundred by (by vm_compute).
  cbv zeta. unfold HostStats.clampPercent. destruct value as [b|b| |b m e]; [by destruct b|exact Hzero|exact Hzero|].
  destruct (SFltb (S754_finite b m e) (S754_zero false)) eqn:E1; [exact Hzero|].
  destruct (SFltb HostStats.hundred (S754_finite b m e)) eqn:E2; [exact Hhundred|]. clear Hzero Hhundred.
  destruct b; [done|]. split; [done|].
  assert (∃ m2 e2, HostStats.hundred = S754_finite false m2 e2) as (m2 & e2 & Hh) by (vm_compute; eauto).
  rewrite Hh in E2 |- *. clear Hh. revert E2. clear. unfold SFltb, SFleb, SFcompare. rewrite (Z.compare_antisym e2 e).
  destruct (Z.compare e2 e); cbn [CompOpp]; try done.
  rewrite <-(Pos.compare_cont_antisym m2 m Eq : CompOpp _ = Pos.compare_cont Eq m m2).
  by destruct (Pos.compare_cont Eq m2 m).
Qed.

(** *** Examples *)

Module Examples.
Import AsciiRuntime.
#[local] Existing Instance AuthTheorems.Examples.plain_runtime.
#[local] Instance net : NetRuntime := {
  ip_loopback host := String.eqb host "127.0.0.1";
  url_Parse s := Some {| u_scheme := ""; u_host := ""; u_path := s; u_raw_query := ""; u_fragment := ""; u_opaque := ""; u_user := false |};
}.
#[local] Instance files : HostFiles := { eval_stat _ := None; geteuid := 1000; getegid := 1000; getgroups := None }.

Definition environment (name : string) : string :=
  if String.eqb name "XFORM_AUTH_MODE" then "trusted_proxy"
  else if String.eqb name "XFORM_TRUSTED_PROXY_SECRET" then AuthTheorems.Examples.secret
  else if String.eqb name "XFORM_LISTEN" then "unix:/run/xform/panel.sock"
  else if String.eqb name "XFORM_TRUSTED_PROXY_SIGN_OUT_URL" then "/oauth2/sign_out"
  else "".

Definition configured : Config := match Load environment with Ok cfg => cfg | Err _ => Build_Config "" "" "" "" "" "" "" "" "" "" "" "" end.

Lemma loaded_configuration_starts_witness :
  (∃ g, Auth.New (AuthMode configured) (credential configured) = Ok g ∧
     Auth.g_mode g = if String.eqb (AuthMode configured) "password" then Auth.ModePassword else Auth.ModeTrustedProxy) ∧
  (AuthMode configured = "password" ∧ Password configured ≠ "" ∧ TrustedProxySecret configured = "" ∧ TrustedProxySignOutURL configured = "" ∨
   AuthMode configured = "trusted_proxy" ∧ Password configured = "" ∧
     String.length (TrustedProxySecret configured) = 64%nat ∧
     forallb Auth.secret_char (bytes_of (TrustedProxySecret configured)) = true ∧
     (∀ net_Listen, Listener.ListenTrusted geteuid net_Listen (λ a, fst <$> SplitHostPort a) ip_loopback (ListenAddress configured) =
        if String.prefix "unix:" (ListenAddress configured)
        then (l ← Listener.listenUnix geteuid (Listener.trim_unix (ListenAddress configured)); Listener.Ret (result_map Listener.OnUnix l))
        else Listener.Ret (result_map Listener.OnLoopback (net_Listen (ListenAddress configured)))) ∧
     (TrustedProxySignOutURL configured ≠ "" → own_path (TrustedProxySignOutURL configured))).
Proof. apply (loaded_configuration_starts environment configured). vm_compute. reflexivity. Defined.

(** A text handler of plain words: the open groups and what is written. *)
#[local] Instance plain_text : Logging.TextHandler (string * string) := {
  Logging.Formatter := string * string;
  Logging.NewTextHandler := ("", "");
  Logging.text_WithGroup name f := (f.1 +:+ name +:+ ".", f.2);
  Logging.text_WithAttrs attrs f := (f.1, f.2 +:+ String.concat "" ((λ a, " " +:+ f.1 +:+ a.1 +:+ "=" +:+ a.2) <$> attrs));
  Logging.text_Handle f level attrs :=
    Ok ("msg=" +:+ of_bytes [34%Z; 34%Z] +:+ f.2 +:+ String.concat "" ((λ a, " " +:+ f.1 +:+ a.1 +:+ "=" +:+ a.2) <$> attrs) +:+ of_bytes [10%Z]);
}.

(** A derived handler's line, and its parent's after it. *)
Example journal_lines :
  let h := Logging.WithAttrs [("unit", "xray")] Logging.NewJournalHandler in
  Logging.Handle (Logging.WithGroup "db" h) 8 "open database" [("error", "locked")] =
    Ok ("<3>open database unit=xray db.error=locked" +:+ of_bytes [10%Z]) ∧
  Logging.Handle h 0 "xform listening" [] = Ok ("<6>xform listening unit=xray" +:+ of_bytes [10%Z]).
Proof. split; vm_compute; reflexivity. Qed.

(** What is refused. *)
Example refuses_mixed_settings :
  Load (λ name, if String.eqb name "XFORM_PASSWORD" then "pw" else if String.eqb name "XFORM_TRUSTED_PROXY_SECRET" then "s" else "") =
    Err TrustedSettingsNotAllowed ∧
  Load (λ name, if String.eqb name "XFORM_AUTH_MODE" then "both" else "") = Err (InvalidAuthMode "both") ∧
  ValidateTrustedProxySignOutURL "//evil.example" = Some NotSameOriginPath ∧
  ValidateTrustedProxySignOutURL "/out\evil" = Some NotSameOriginPath.
Proof. vm_compute. repeat split. Qed.
End Examples.
End StartupTheorems.
