(* ===== verification/Migrations.v ===== *)
(** * Opening the database (internal/users/store.go)

    The schema as Open finds it, whatever version of the Panel wrote it, the
    statements that create and migrate it, one by one, and where the process
    may die between them. *)

From Stdlib Require Import Ascii String.
From S2P Require Import Prelude GoJson.

Module Migrations.
Import GoJson.

(** ** SQLite's tables *)

(** A column's value; [Json] is the text json_array makes. *)
Inductive sql := Null | Int (n : Z) | Text (s : string) | Json (j : json).

Record table := { t_columns : list string; t_rows : list (gmap string sql) }.

(** The database file: its tables by name. *)
Abbreviation schema := (gmap string table).

Inductive openError :=
| CreateDirectory | OpenDatabase | CreateSchema | CreateRosterSchema | CreateTotalsSchema
| MigrateUsers | MigrateRoster | MigrateLabels
| Died.  (* the process ended before this statement *)

(** Open's surroundings: the file, and how many more statements the process
    lives to execute, when it does not live on. *)
Record world := { m_db : schema; m_left : option nat }.

Definition M (A : Type) : Type := world → world * result openError A.

#[export] Instance M_ret : MRet M := λ A a w, (w, Ok a).
#[export] Instance M_bind : MBind M := λ A B k m w,
  match m w with (w, Ok a) => k a w | (w, Err e) => (w, Err e) end.

(** One statement: each is its own transaction. [err] is the error Open
    reports when SQLite refuses it. *)
Definition exec (err : openError) (statement : schema → option schema) : M () := λ w,
  match m_left w with
  | Some O => (w, Err Died)
  | budget =>
      match statement (m_db w) with
      | Some db => ({| m_db := db; m_left := pred <$> budget |}, Ok ())
      | None => (w, Err err)
      end
  end.

(** PRAGMA table_info: the columns; a table that is not there has none. *)
Definition tableColumns (name : string) : M (list string) := λ w,
  (w, Ok (default [] (t_columns <$> m_db w !! name))).

(** ** Statements *)

(** CREATE TABLE IF NOT EXISTS. *)
Definition create (name : string) (columns : list string) (db : schema) : option schema :=
  match db !! name with
  | Some _ => Some db
  | None => Some (<[name := {| t_columns := columns; t_rows := [] |}]> db)
  end.

Definition alter (name : string) (f : table → option table) (db : schema) : option schema :=
  t ← db !! name; t ← f t; Some (<[name := t]> db).

(** ALTER TABLE ADD COLUMN: a duplicate is refused; the rows get the
    default. *)
Definition add_column (column : string) (dflt : sql) (t : table) : option table :=
  if bool_decide (column ∈ t_columns t) then None
  else Some {| t_columns := t_columns t ++ [column]; t_rows := (λ r, <[column := dflt]> r) <$> t_rows t |}.

Definition rename_row (from to : string) (r : gmap string sql) : gmap string sql :=
  match r !! from with Some v => <[to := v]> (delete from r) | None => r end.

Definition rename_column (from to : string) (t : table) : option table :=
  if bool_decide (from ∈ t_columns t ∧ to ∉ t_columns t) then
    Some {| t_columns := (λ c, if String.eqb c from then to else c) <$> t_columns t; t_rows := rename_row from to <$> t_rows t |}
  else None.

Definition drop_column (column : string) (t : table) : option table :=
  if bool_decide (column ∈ t_columns t) then
    Some {| t_columns := filter (λ c, c ≠ column) (t_columns t); t_rows := delete column <$> t_rows t |}
  else None.

Definition json_of (v : option sql) : json :=
  match v with Some (Text s) => JString s | _ => JNull end.

Definition is_null (v : option sql) : bool := match v with None | Some Null => true | _ => false end.

(** json_array(json_object('protocol', protocol, ...)), or NULL. *)
Definition fold_labels (protocol security : option sql) : sql :=
  if is_null protocol && is_null security then Null
  else Json (JArray [JObject [("protocol", json_of protocol); ("security", json_of security); ("transport", JString "")]])%string.

(** UPDATE users SET labels = CASE ... *)
Definition update_labels (t : table) : option table :=
  if bool_decide (Forall (λ c, c ∈ t_columns t) ["labels"; "protocol"; "security"]%string) then
    Some {| t_columns := t_columns t;
            t_rows := (λ r, <["labels"%string := fold_labels (r !! "protocol"%string) (r !! "security"%string)]> r) <$> t_rows t |}
  else None.

(** ** Migrations *)

Local Open Scope string_scope.

Definition usersColumns : list string :=
  ["email"; "labels"; "up_bytes_total"; "down_bytes_total"; "last_seen"; "last_ips"; "disabled"; "first_seen"].
Definition rosterColumns : list string :=
  ["email"; "client_id"; "inbounds"; "disabled"; "deleting"; "created_at"; "updated_at"].
Definition totalsColumns : list string := ["id"; "up_bytes_total"; "down_bytes_total"].

Definition has (columns : list string) (c : string) : bool := existsb (String.eqb c) columns.

Definition migrateGoneToDisabled (err : openError) (name : string) : M () :=
  columns ← tableColumns name;
  if has columns "gone" then exec err (alter name (rename_column "gone" "disabled"))
  else if negb (has columns "disabled") then exec err (alter name (add_column "disabled" (Int 0)))
  else mret ().

Definition migrateAddDeleting : M () :=
  columns ← tableColumns "roster";
  if negb (has columns "deleting") then exec MigrateRoster (alter "roster" (add_column "deleting" (Int 0))) else mret ().

Definition migrateLabels : M () :=
  columns ← tableColumns "users";
  if negb (has columns "protocol") then mret ()
  else
    exec MigrateUsers (alter "users" (add_column "labels" Null)) ;;
    exec MigrateLabels (alter "users" update_labels) ;;
    exec MigrateUsers (alter "users" (drop_column "protocol")) ;;
    exec MigrateUsers (alter "users" (drop_column "security")).

(** [mkdir] and [openable]: the file's directory can be made, and the file
    opened. *)
Definition Open (path : string) (mkdir openable : bool) : M () :=
  if negb (String.eqb path ":memory:") && negb mkdir then λ w, (w, Err CreateDirectory)
  else if negb openable then λ w, (w, Err OpenDatabase)
  else
    exec CreateSchema (create "users" usersColumns) ;;
    exec CreateRosterSchema (create "roster" rosterColumns) ;;
    migrateGoneToDisabled MigrateUsers "users" ;;
    migrateGoneToDisabled MigrateRoster "roster" ;;
    migrateAddDeleting ;;
    migrateLabels ;;
    exec CreateTotalsSchema (create "xray_totals" totalsColumns).

(** A process that lives through it. *)
Definition opened (db : schema) : schema * result openError () :=
  let (w, r) := Open "xform.db" true true {| m_db := db; m_left := None |} in (m_db w, r).

(** ** Lemmas *)

Lemma has_elem columns c : has columns c = bool_decide (c ∈ columns).
Proof.
  unfold has. apply eq_true_iff_eq. rewrite existsb_exists, bool_decide_eq_true. split.
  - intros (c' & Hin & ->%String.eqb_eq). by apply list_elem_of_In.
  - intros Hin. exists c. split; [by apply list_elem_of_In|apply String.eqb_refl].
Qed.

Lemma exec_ok err statement db db' : statement db = Some db' →
  exec err statement {| m_db := db; m_left := None |} = ({| m_db := db'; m_left := None |}, Ok ()).
Proof. unfold exec. cbn. by intros ->. Qed.

Lemma bind_ok {A B} (m : M A) (k : A → M B) w w' a : m w = (w', Ok a) → (m ≫= k) w = k a w'.
Proof. unfold mbind, M_bind. by intros ->. Qed.

Lemma alter_ok name f db t t' : db !! name = Some t → f t = Some t' → alter name f db = Some (<[name := t']> db).
Proof. unfold alter. intros -> Hf. cbn. by rewrite Hf. Qed.

(** What the migrations make of one table. *)
Definition add_to (column : string) (dflt : sql) (t : table) : table :=
  {| t_columns := t_columns t ++ [column]; t_rows := (λ r, <[column := dflt]> r) <$> t_rows t |}%list.

Definition gone_step (t : table) : table :=
  if has (t_columns t) "gone" then
    {| t_columns := (λ c, if String.eqb c "gone" then "disabled" else c) <$> t_columns t; t_rows := rename_row "gone" "disabled" <$> t_rows t |}
  else if negb (has (t_columns t) "disabled") then add_to "disabled" (Int 0) t else t.

Definition deleting_step (t : table) : table := if has (t_columns t) "deleting" then t else add_to "deleting" (Int 0) t.

Definition labels_row (r : gmap string sql) : gmap string sql :=
  delete "security" (delete "protocol" (<["labels" := fold_labels (r !! "protocol") (r !! "security")]> r)).

Definition labels_step (t : table) : table :=
  if has (t_columns t) "protocol" then
    {| t_columns := filter (λ c, c ≠ "security") (filter (λ c, c ≠ "protocol") (t_columns t ++ ["labels"]%list)%list);
       t_rows := labels_row <$> t_rows t |}
  else t.

(** The rows have their columns' values. *)
Definition well_formed (t : table) : Prop := Forall (λ r : gmap string sql, dom r =@{gset string} list_to_set (t_columns t)) (t_rows t).

(** A schema some version of the Panel left, at rest. *)
Definition at_rest (db : schema) : Prop :=
  (∀ t, db !! "users" = Some t → well_formed t ∧ ¬ ("gone" ∈ t_columns t ∧ "disabled" ∈ t_columns t) ∧
     ("protocol" ∈ t_columns t → ("labels" ∉ t_columns t) ∧ "security" ∈ t_columns t)) ∧
  (∀ t, db !! "roster" = Some t → well_formed t ∧ ¬ ("gone" ∈ t_columns t ∧ "disabled" ∈ t_columns t)).

Lemma create_ok name columns db : ∃ db', create name columns db = Some db' ∧
  db' !! name = Some (default {| t_columns := columns; t_rows := [] |} (db !! name)) ∧ ∀ n, n ≠ name → db' !! n = db !! n.
Proof.
  unfold create. destruct (db !! name) as [t|] eqn:E.
  - exists db. done.
  - eexists. split; [done|]. split; [by rewrite lookup_insert_eq|]. intros n Hn. by rewrite lookup_insert_ne.
Qed.

Lemma gone_ok err name db t : db !! name = Some t → ¬ ("gone" ∈ t_columns t ∧ "disabled" ∈ t_columns t) →
  ∃ db', migrateGoneToDisabled err name {| m_db := db; m_left := None |} = ({| m_db := db'; m_left := None |}, Ok ()) ∧
    db' !! name = Some (gone_step t) ∧ ∀ n, n ≠ name → db' !! n = db !! n.
Proof.
  intros Ht Hno. unfold migrateGoneToDisabled, gone_step.
  erewrite bind_ok by reflexivity. cbn [m_db]. rewrite Ht. cbn [fmap option_fmap option_map default]. unfold id.
  rewrite !has_elem. destruct (bool_decide ("gone" ∈ t_columns t)) eqn:Eg; [apply bool_decide_eq_true in Eg|].
  - eexists. split; [apply exec_ok; eapply alter_ok; [done|]; unfold rename_column; rewrite bool_decide_eq_true_2 by tauto; done|].
    split; [by rewrite lookup_insert_eq|]. intros n Hn. by rewrite lookup_insert_ne.
  - destruct (bool_decide ("disabled" ∈ t_columns t)) eqn:Ed; cbn [negb].
    + exists db. done.
    + eexists. split; [apply exec_ok; eapply alter_ok; [done|]; unfold add_column; rewrite Ed; done|].
      split; [by rewrite lookup_insert_eq|]. intros n Hn. by rewrite lookup_insert_ne.
Qed.

Lemma deleting_ok db t : db !! "roster" = Some t →
  ∃ db', migrateAddDeleting {| m_db := db; m_left := None |} = ({| m_db := db'; m_left := None |}, Ok ()) ∧
    db' !! "roster" = Some (deleting_step t) ∧ ∀ n, n ≠ "roster" → db' !! n = db !! n.
Proof.
  intros Ht. unfold migrateAddDeleting, deleting_step.
  erewrite bind_ok by reflexivity. cbn [m_db]. rewrite Ht. cbn [fmap option_fmap option_map default]. unfold id.
  destruct (has (t_columns t) "deleting") eqn:Eh; cbn [negb]; [by exists db|]. rewrite has_elem in Eh.
  eexists. split; [apply exec_ok; eapply alter_ok; [done|]; unfold add_column; rewrite Eh; done|].
  split; [by rewrite lookup_insert_eq|]. intros n Hn. by rewrite lookup_insert_ne.
Qed.

Lemma labels_ok db t : db !! "users" = Some t →
  ("protocol" ∈ t_columns t → ("labels" ∉ t_columns t) ∧ "security" ∈ t_columns t) →
  ∃ db', migrateLabels {| m_db := db; m_left := None |} = ({| m_db := db'; m_left := None |}, Ok ()) ∧
    db' !! "users" = Some (labels_step t) ∧ ∀ n, n ≠ "users" → db' !! n = db !! n.
Proof.
  intros Ht Hold. unfold migrateLabels, labels_step.
  erewrite bind_ok by reflexivity. cbn [m_db]. rewrite Ht. cbn [fmap option_fmap option_map default]. unfold id.
  destruct (has (t_columns t) "protocol") eqn:Eh; cbn [negb]; [|by exists db].
  rewrite has_elem, bool_decide_eq_true in Eh. destruct (Hold Eh) as [Hl Hs]. eexists. split.
  - erewrite bind_ok by (apply exec_ok; eapply alter_ok; [done|]; unfold add_column; rewrite bool_decide_eq_false_2 by done; done).
    erewrite bind_ok.
    2:{ apply exec_ok. eapply alter_ok; [by rewrite lookup_insert_eq|]. unfold update_labels. rewrite bool_decide_eq_true_2; [done|].
        cbn [t_columns]. rewrite !Forall_cons, Forall_nil, !elem_of_app, list_elem_of_singleton. naive_solver. }
    erewrite bind_ok.
    2:{ apply exec_ok. eapply alter_ok; [by rewrite lookup_insert_eq|]. unfold drop_column. rewrite bool_decide_eq_true_2; [done|].
        cbn [t_columns]. rewrite elem_of_app. by left. }
    apply exec_ok. eapply alter_ok; [by rewrite lookup_insert_eq|]. unfold drop_column. rewrite bool_decide_eq_true_2; [done|].
    cbn [t_columns]. rewrite list_elem_of_filter, elem_of_app. split; [done|by left].
  - split; [|intros n Hn; by rewrite !lookup_insert_ne].
    rewrite lookup_insert_eq. f_equal. cbn [t_columns t_rows]. f_equal. rewrite <-!list_fmap_compose.
    apply list_fmap_ext. intros j r _. unfold compose, labels_row.
    rewrite !lookup_insert_ne by done. by rewrite insert_insert_eq.
Qed.

(** An uninterrupted Open, table by table. *)
Lemma open_tables db : at_rest db →
  ∃ db', opened db = (db', Ok ()) ∧
    db' !! "users" = Some (labels_step (gone_step (default {| t_columns := usersColumns; t_rows := [] |} (db !! "users")))) ∧
    db' !! "roster" = Some (deleting_step (gone_step (default {| t_columns := rosterColumns; t_rows := [] |} (db !! "roster")))) ∧
    db' !! "xray_totals" = Some (default {| t_columns := totalsColumns; t_rows := [] |} (db !! "xray_totals")) ∧
    ∀ n, n ∉ ["users"; "roster"; "xray_totals"] → db' !! n = db !! n.
Proof.
  intros [Hu Hr].
  destruct (create_ok "users" usersColumns db) as (db1 & E1 & Hu1 & Ho1).
  destruct (create_ok "roster" rosterColumns db1) as (db2 & E2 & Hr2 & Ho2). rewrite Ho1 in Hr2 by done.
  set (u := default _ (db !! "users")) in *. set (r := default _ (db !! "roster")) in *.
  assert (¬ ("gone" ∈ t_columns u ∧ "disabled" ∈ t_columns u) ∧ ("protocol" ∈ t_columns u → ("labels" ∉ t_columns u) ∧ "security" ∈ t_columns u)) as [Hgu Hlu].
  { subst u. destruct (db !! "users") as [t|]; cbn; [by apply (Hu t)|]. clear. set_unfold. naive_solver. }
  assert (¬ ("gone" ∈ t_columns r ∧ "disabled" ∈ t_columns r)) as Hgr.
  { subst r. destruct (db !! "roster") as [t|]; cbn; [by apply (Hr t)|]. clear. set_unfold. naive_solver. }
  assert (db2 !! "users" = Some u) as Hu2 by (by rewrite Ho2).
  destruct (gone_ok MigrateUsers "users" db2 u Hu2 Hgu) as (db3 & E3 & Hu3 & Ho3).
  assert (db3 !! "roster" = Some r) as Hr3 by (by rewrite Ho3).
  destruct (gone_ok MigrateRoster "roster" db3 r Hr3 Hgr) as (db4 & E4 & Hr4 & Ho4).
  destruct (deleting_ok db4 (gone_step r) Hr4) as (db5 & E5 & Hr5 & Ho5).
  assert (db5 !! "users" = Some (gone_step u)) as Hu5 by (by rewrite Ho5, Ho4).
  destruct (labels_ok db5 (gone_step u) Hu5) as (db6 & E6 & Hu6 & Ho6).
  { unfold gone_step, add_to. rewrite !has_elem. intros Hin. repeat case_bool_decide; cbn [negb t_columns] in *; [|by auto|].
    - apply list_elem_of_fmap in Hin as (c & Hc & Hin). destruct (String.eqb_spec c "gone"); [done|]. subst c.
      destruct (Hlu Hin) as [Hl Hs]. split.
      + intros (c & Hc & Hin')%list_elem_of_fmap. destruct (String.eqb_spec c "gone"); [done|]. by subst c.
      + apply list_elem_of_fmap. by exists "security".
    - rewrite elem_of_app, list_elem_of_singleton in Hin. destruct Hin as [Hin|]; [|done]. destruct (Hlu Hin) as [Hl Hs].
      rewrite !elem_of_app, !list_elem_of_singleton. naive_solver. }
  destruct (create_ok "xray_totals" totalsColumns db6) as (db7 & E7 & Ht7 & Ho7).
  exists db7. split_and!.
  - unfold opened, Open. cbn [negb andb]. rewrite andb_false_r.
    erewrite bind_ok by (apply exec_ok; exact E1). erewrite bind_ok by (apply exec_ok; exact E2).
    erewrite bind_ok by exact E3. erewrite bind_ok by exact E4. erewrite bind_ok by exact E5. erewrite bind_ok by exact E6.
    by rewrite (exec_ok _ _ _ _ E7).
  - by rewrite Ho7.
  - by rewrite Ho7, Ho6.
  - rewrite Ht7. by rewrite Ho6, Ho5, Ho4, Ho3, Ho2, Ho1.
  - intros n Hn. rewrite Ho7, Ho6, Ho5, Ho4, Ho3, Ho2, Ho1; [done|set_solver..].
Qed.

(** ** Theorems *)

(** A TEXT column's value, in a JSON object. *)
Inductive shown_as : option sql → json → Prop :=
| ShownText s : shown_as (Some (Text s)) (JString s)
| ShownNull : shown_as (Some Null) JNull
| ShownMissing : shown_as None JNull.

(** The labels a user's old protocol and security come to: none when neither
    is set, and else one, of the two as they were and no transport. *)
Definition folded (protocol security : option sql) (labels : sql) : Prop :=
  (shown_as protocol JNull → shown_as security JNull → labels = Null) ∧
  ∀ p s, shown_as protocol p → shown_as security s → p ≠ JNull ∨ s ≠ JNull →
    labels = Json (JArray [JObject [("protocol", p); ("security", s); ("transport", JString "")]]).

(** The disabled flag: the gone flag where there was one, as it was where it
    already had its name, and clear in a table older than both. *)
Definition upgraded_flag (t : table) (r r' : gmap string sql) : Prop :=
  ("gone" ∈ t_columns t → r' !! "disabled" = r !! "gone") ∧
  ("disabled" ∈ t_columns t → r' !! "disabled" = r !! "disabled") ∧
  ("gone" ∉ t_columns t → "disabled" ∉ t_columns t → r' !! "disabled" = Some (Int 0)).

(** A users row after the migration: its disabled flag is the gone one, its
    labels the old pair's, the rest is as it was. *)
Definition upgraded_user (t : table) (r r' : gmap string sql) : Prop :=
  upgraded_flag t r r' ∧
  ("protocol" ∈ t_columns t → ∃ labels, r' !! "labels" = Some labels ∧ folded (r !! "protocol") (r !! "security") labels) ∧
  ("protocol" ∉ t_columns t → r' !! "labels" = r !! "labels") ∧
  (∀ c, c ∉ ["gone"; "disabled"; "labels"; "protocol"; "security"] → r' !! c = r !! c).

Definition upgraded_roster (t : table) (r r' : gmap string sql) : Prop :=
  upgraded_flag t r r' ∧
  ("deleting" ∈ t_columns t → r' !! "deleting" = r !! "deleting") ∧
  ("deleting" ∉ t_columns t → r' !! "deleting" = Some (Int 0)) ∧
  (∀ c, c ∉ ["gone"; "disabled"; "deleting"] → r' !! c = r !! c).

Lemma fold_labels_folded protocol security : folded protocol security (fold_labels protocol security).
Proof. unfold folded, fold_labels. split.
  - intros Hp Hs. inversion Hp; inversion Hs; done.
  - intros p s Hp Hs Hne. destruct Hp, Hs; naive_solver.
Qed.

(** The schema the store's statements are written for. *)
Definition current (db : schema) : Prop :=
  (∃ u, db !! "users" = Some u ∧ "disabled" ∈ t_columns u ∧ ("gone" ∉ t_columns u) ∧ ("protocol" ∉ t_columns u)) ∧
  (∃ r, db !! "roster" = Some r ∧ "disabled" ∈ t_columns r ∧ ("gone" ∉ t_columns r) ∧ "deleting" ∈ t_columns r) ∧
  is_Some (db !! "xray_totals").

Lemma gone_step_columns t c : ¬ ("gone" ∈ t_columns t ∧ "disabled" ∈ t_columns t) →
  c ∈ t_columns (gone_step t) ↔ c = "disabled" ∨ c ≠ "gone" ∧ c ∈ t_columns t.
Proof.
  intros Hno. unfold gone_step, add_to. rewrite !has_elem.
  destruct (bool_decide_reflect ("gone" ∈ t_columns t)) as [Hg|Hg]; [|destruct (bool_decide_reflect ("disabled" ∈ t_columns t)) as [Hd|Hd]]; cbn.
  - rewrite list_elem_of_fmap. split.
    + intros (c' & -> & Hin). destruct (String.eqb_spec c' "gone"); [by left|by right].
    + intros [->|[Hne Hin]]; [by exists "gone"|]. exists c. by rewrite (proj2 (String.eqb_neq _ _) Hne).
  - split; [|naive_solver]. intros Hin. right. split; [by intros ->|done].
  - rewrite elem_of_app, list_elem_of_singleton. split; [|naive_solver]. intros [Hin| ->]; [|by left]. right. split; [by intros ->|done].
Qed.

Lemma gone_step_rows t : well_formed t → ¬ ("gone" ∈ t_columns t ∧ "disabled" ∈ t_columns t) →
  Forall2 (λ r r' : gmap string sql, upgraded_flag t r r' ∧ ∀ c, c ∉ ["gone"; "disabled"] → r' !! c = r !! c)
    (t_rows t) (t_rows (gone_step t)).
Proof.
  intros Hwf Hno. unfold gone_step, add_to, upgraded_flag. rewrite !has_elem.
  destruct (bool_decide_reflect ("gone" ∈ t_columns t)) as [Hg|Hg]; [|destruct (bool_decide_reflect ("disabled" ∈ t_columns t)) as [Hd|Hd]]; cbn [negb t_rows].
  - apply Forall2_fmap_r, Forall_Forall2_diag. eapply Forall_impl; [exact Hwf|]. intros r Hr. cbn in Hr. unfold compose, rename_row.
    destruct (r !! "gone") as [v|] eqn:Ev.
    + split; [rewrite lookup_insert_eq; split_and!; [done|tauto|done]|]. intros c Hc.
      rewrite lookup_insert_ne, lookup_delete_ne by set_solver. done.
    + exfalso. apply not_elem_of_dom in Ev. rewrite Hr in Ev. by apply Ev, elem_of_list_to_set.
  - apply Forall_Forall2_diag, Forall_true. intros r. by split_and!.
  - apply Forall2_fmap_r, Forall_Forall2_diag, Forall_true. intros r. unfold compose. split; [rewrite lookup_insert_eq; by split_and!|].
    intros c Hc. rewrite lookup_insert_ne by set_solver. done.
Qed.

Lemma labels_step_columns t c :
  c ∈ t_columns (labels_step t) ↔
    if has (t_columns t) "protocol" then (c = "labels" ∨ c ∈ t_columns t) ∧ c ≠ "protocol" ∧ c ≠ "security" else c ∈ t_columns t.
Proof.
  unfold labels_step. destruct (has (t_columns t) "protocol"); [|done]. cbn [t_columns].
  rewrite !list_elem_of_filter, elem_of_app, list_elem_of_singleton. tauto.
Qed.

Lemma labels_row_lookup r c :
  labels_row r !! c =
    if bool_decide (c = "protocol" ∨ c = "security") then None
    else if bool_decide (c = "labels") then Some (fold_labels (r !! "protocol") (r !! "security")) else r !! c.
Proof.
  unfold labels_row. case_bool_decide as H1.
  - destruct H1 as [->| ->]; [rewrite lookup_delete_ne by done; by rewrite lookup_delete_eq|by rewrite lookup_delete_eq].
  - rewrite !lookup_delete_ne by naive_solver. case_bool_decide as H2; [subst c; by rewrite lookup_insert_eq|by rewrite lookup_insert_ne].
Qed.

Lemma upgraded_users t : well_formed t → ¬ ("gone" ∈ t_columns t ∧ "disabled" ∈ t_columns t) →
  Forall2 (upgraded_user t) (t_rows t) (t_rows (labels_step (gone_step t))).
Proof.
  intros Hwf Hno. pose proof (gone_step_rows t Hwf Hno) as Hrows.
  assert (has (t_columns (gone_step t)) "protocol" = has (t_columns t) "protocol") as Hp.
  { rewrite !has_elem. apply bool_decide_ext. rewrite gone_step_columns by done. naive_solver. }
  unfold labels_step. rewrite Hp, has_elem. unfold upgraded_user, upgraded_flag in *.
  destruct (bool_decide_reflect ("protocol" ∈ t_columns t)) as [Hin|Hin]; cbn [t_rows].
  - apply Forall2_fmap_r. eapply Forall2_impl; [exact Hrows|]. intros r r' [Hd Ho]. unfold compose. split_and!; [..|done|].
    1-3: rewrite labels_row_lookup; apply Hd.
    + exists (fold_labels (r !! "protocol") (r !! "security")). split; [|apply fold_labels_folded].
      rewrite labels_row_lookup. cbn. by rewrite !Ho by set_solver.
    + intros c Hc. rewrite labels_row_lookup, !bool_decide_eq_false_2 by set_solver. apply Ho. set_solver.
  - eapply Forall2_impl; [exact Hrows|]. intros r r' [Hd Ho].
    split_and!; [apply Hd|apply Hd|apply Hd|done|intros _; apply Ho; set_solver|]. intros c Hc. apply Ho. set_solver.
Qed.

Lemma upgraded_rosters t : well_formed t → ¬ ("gone" ∈ t_columns t ∧ "disabled" ∈ t_columns t) →
  Forall2 (upgraded_roster t) (t_rows t) (t_rows (deleting_step (gone_step t))).
Proof.
  intros Hwf Hno. pose proof (gone_step_rows t Hwf Hno) as Hrows.
  assert (has (t_columns (gone_step t)) "deleting" = has (t_columns t) "deleting") as Hp.
  { rewrite !has_elem. apply bool_decide_ext. rewrite gone_step_columns by done. naive_solver. }
  unfold deleting_step. rewrite Hp, has_elem. unfold upgraded_roster, upgraded_flag in *.
  destruct (bool_decide_reflect ("deleting" ∈ t_columns t)) as [Hin|Hin]; cbn [t_rows add_to].
  - eapply Forall2_impl; [exact Hrows|]. intros r r' [Hd Ho].
    split_and!; [apply Hd|apply Hd|apply Hd|intros _; apply Ho; set_solver|done|]. intros c Hc. apply Ho. set_solver.
  - apply Forall2_fmap_r. eapply Forall2_impl; [exact Hrows|]. intros r r' [Hd Ho]. unfold compose.
    rewrite lookup_insert_ne by done. rewrite lookup_insert_eq. split_and!; [apply Hd|apply Hd|apply Hd|done|done|].
    intros c Hc. rewrite lookup_insert_ne by set_solver. apply Ho. set_solver.
Qed.

(** A current schema is left as it is. *)
Lemma opened_current db : current db → opened db = (db, Ok ()).
Proof.
  intros ((u & Hu & Hud & Hug & Hup) & (r & Hr & Hrd & Hrg & Hrdel) & [x Hx]).
  assert (∀ name columns t, db !! name = Some t → create name columns db = Some db) as Hc.
  { intros name columns t Ht. unfold create. by rewrite Ht. }
  assert (∀ err name t, db !! name = Some t → "disabled" ∈ t_columns t → "gone" ∉ t_columns t →
    migrateGoneToDisabled err name {| m_db := db; m_left := None |} = ({| m_db := db; m_left := None |}, Ok ())) as Hg.
  { intros err name t Ht Hd Hng. unfold migrateGoneToDisabled. erewrite bind_ok by reflexivity. cbn [m_db]. rewrite Ht.
    cbn [fmap option_fmap option_map default]. unfold id. rewrite !has_elem, bool_decide_eq_false_2 by done.
    by rewrite bool_decide_eq_true_2 by done. }
  unfold opened, Open. cbn [negb andb]. rewrite andb_false_r.
  erewrite bind_ok by (apply exec_ok; by eapply Hc). erewrite bind_ok by (apply exec_ok; by eapply Hc).
  erewrite bind_ok by (by eapply Hg). erewrite bind_ok by (by eapply Hg).
  erewrite bind_ok.
  2:{ unfold migrateAddDeleting. erewrite bind_ok by reflexivity. cbn [m_db]. rewrite Hr. cbn [fmap option_fmap option_map default]. unfold id.
      by rewrite has_elem, bool_decide_eq_true_2 by done. }
  erewrite bind_ok.
  2:{ unfold migrateLabels. erewrite bind_ok by reflexivity. cbn [m_db]. rewrite Hu. cbn [fmap option_fmap option_map default]. unfold id.
      by rewrite has_elem, bool_decide_eq_false_2 by done. }
  by rewrite (exec_ok _ _ _ _ (Hc _ _ _ Hx)).
Qed.


(** ** Examples *)

Module Examples.

(** A database from before the disable rename and the labels. *)
Definition old_users : table := {|
  t_columns := ["email"; "protocol"; "security"; "up_bytes_total"; "gone"; "first_seen"];
  t_rows := [list_to_map [("email", Text "ann"); ("protocol", Text "VLESS"); ("security", Text "reality"); ("up_bytes_total", Int 7); ("gone", Int 1); ("first_seen", Int 3)];
             list_to_map [("email", Text "bob"); ("protocol", Null); ("security", Null); ("up_bytes_total", Int 9); ("gone", Int 0); ("first_seen", Int 4)]] |}%list.

Definition old : schema := {[ "users" := old_users ]}.

Lemma old_at_rest : at_rest old.
Proof.
  split; intros t Ht; [|by vm_compute in Ht]. vm_compute in Ht. injection Ht as <-. split_and!.
  - repeat constructor; cbn; vm_compute; done.
  - intros [_ H]. revert H. cbn. set_unfold. naive_solver.
  - cbn. set_unfold. naive_solver.
Qed.


(** The users' rows after a first Open that dies before its [n]th statement,
    and a second that lives. *)
Definition reopened (n : nat) : result openError () :=
  let (w, _) := Open "xform.db" true true {| m_db := old; m_left := Some n |} in (opened (m_db w)).2.

(** The label migration is four statements and no transaction: once the
    first has run and the third has not, the column is there and so is the old
    pair, and every later Open tries to add it again and fails. *)
Example interrupted_label_migration_never_opens :
  reopened 3 = Ok () ∧ reopened 4 = Err MigrateUsers ∧ reopened 5 = Err MigrateUsers ∧ reopened 6 = Ok ().
Proof. vm_compute. done. Qed.
End Examples.
End Migrations.
