(* ===== verification/XrayDecode.v ===== *)
(** * Decoding the xray config (internal/xrayconfig/xrayconfig.go)

    From the file's bytes to the [config] the rest of the Panel reads. The
    struct types and their json tags are data here, as they are to the
    reflection of encoding/json, and one decoder follows them. *)

From Stdlib Require Import Ascii String.
From S2P Require Import Prelude GoJson GoText GoDecode GoPrint XrayConfig Advertisements.

Module XrayDecode.
Import GoJson GoDecode GoPrint.

(** ** Types

    The Go types the config's structs are made of. A struct is its fields,
    each with the name its tag gives it. *)
Inductive type :=
| TString
| TBool
| TRawMessage
| TStringList                (* the stringList of this package *)
| TStringMap                 (* map[string]string *)
| TPointer (fs : fields)     (* to a struct *)
| TSlice (t : type)
| TStruct (fs : fields)
with fields :=
| NoFields
| Field (name : string) (t : type) (fs : fields).

(** A slice: what it shows, and the cells of its array beyond, which hold
    what a longer array left there. *)
Record slice (A : Type) := { sl_items : list A; sl_beyond : list A }.
Arguments sl_items {A}.
Arguments sl_beyond {A}.
Arguments Build_slice {A}.

(** The values of a type. *)
Fixpoint denote (t : type) : Type :=
  match t with
  | TString => string
  | TBool => bool
  | TRawMessage => option json
  | TStringList => list string
  | TStringMap => gmap string string
  | TPointer fs => option (tuple fs)
  | TSlice t => slice (denote t)
  | TStruct fs => tuple fs
  end
with tuple (fs : fields) : Type :=
  match fs with NoFields => unit | Field _ t fs => denote t * tuple fs end.

Definition nil_slice {A} : slice A := {| sl_items := []; sl_beyond := [] |}.

Fixpoint zero (t : type) : denote t :=
  match t with
  | TString => ""%string
  | TBool => false
  | TRawMessage => None
  | TStringList => []
  | TStringMap => ∅
  | TPointer _ => None
  | TSlice _ => nil_slice
  | TStruct fs => zeros fs
  end
with zeros (fs : fields) : tuple fs :=
  match fs with NoFields => () | Field _ t fs => (zero t, zeros fs) end.

Fixpoint names (fs : fields) : list string :=
  match fs with NoFields => [] | Field name _ fs => name :: names fs end.

(** ** The decoder *)

(** What a RawMessage's text denotes. *)
Fixpoint json_of (d : doc) : json :=
  match d with
  | DNull => JNull
  | DBool b => JBool b
  | DNumber literal => JNumber literal
  | DString _ s => JString s
  | DArray _ items => JArray (json_of <$> items)
  | DObject _ fields => JObject ((λ f, (f.1, json_of f.2)) <$> fields)
  end.

(** stringList.UnmarshalJSON: an array of strings, or one string of
    comma-separated values. *)
Definition UnmarshalJSON (d : doc) : option (list string) :=
  match decode_strings d [] with
  | Some l => Some l
  | None => match decode_string d "" with Some s => Some (Advertisements.split_on "," s) | None => None end
  end.

Definition decode_bool (d : doc) (old : bool) : option bool :=
  match d with DNull => Some old | DBool b => Some b | _ => None end.

(** A map takes its members in order, each over a zero value. *)
Fixpoint decode_members (ms : list (string * doc)) (m : gmap string string) : option (gmap string string) :=
  match ms with
  | [] => Some m
  | (key, d) :: ms => s ← decode_string d ""; decode_members ms (<[key := s]> m)
  end.

Definition decode_map (d : doc) (old : gmap string string) : option (gmap string string) :=
  match d with DNull => Some ∅ | DObject _ ms => decode_members ms old | _ => None end.

Section Slices.
Context {A : Type} (decode_item : doc → A → option A) (zero_item : A).

(** The items, each decoded over what its cell holds, and the cells beyond. *)
Fixpoint decode_cells (items : list doc) (cells : list A) : option (list A * list A) :=
  match items with
  | [] => Some ([], cells)
  | d :: items =>
      v ← decode_item d (hd zero_item cells);
      '(vs, beyond) ← decode_cells items (tl cells);
      Some (v :: vs, beyond)
  end.

Definition decode_slice (d : doc) (old : slice A) : option (slice A) :=
  match d with
  | DNull | DArray _ [] => Some nil_slice
  | DArray _ items =>
      '(vs, beyond) ← decode_cells items (sl_items old ++ sl_beyond old);
      Some {| sl_items := vs; sl_beyond := beyond |}
  | _ => None
  end.
End Slices.

Section WithRuntime.
Context `{GoRuntime}.

(** A value decoded over [old]. *)
Fixpoint decode_value (t : type) (d : doc) : denote t → option (denote t) :=
  match t with
  | TString => decode_string d
  | TBool => decode_bool d
  | TRawMessage => λ _, Some (Some (json_of d))
  | TStringList => λ _, UnmarshalJSON d
  | TStringMap => decode_map d
  | TPointer fs => λ old,
      match d with
      | DNull => Some None
      | _ => Some <$> decode_struct false (names fs) (set_field fs) d (default (zeros fs) old)
      end
  | TSlice t => decode_slice (decode_value t) (zero t) d
  | TStruct fs => decode_struct false (names fs) (set_field fs) d
  end
with set_field (fs : fields) (name : string) (d : doc) : tuple fs → option (tuple fs) :=
  match fs with
  | NoFields => Some
  | Field n t fs => λ '(v, vs),
      if String.eqb n name then v ← decode_value t d v; Some (v, vs)
      else vs ← set_field fs name d vs; Some (v, vs)
  end.
End WithRuntime.

(** ** The structs *)

Local Open Scope string_scope.

Definition clientConfig : fields :=
  Field "email" TString $ Field "id" TString $ Field "flow" TString $ Field "reverse" TRawMessage NoFields.

Definition inboundSettings : fields :=
  Field "clients" (TSlice (TStruct clientConfig)) $ Field "flow" TString $ Field "decryption" TString NoFields.

Definition rawConfig : fields := Field "header" TRawMessage NoFields.

Definition httpTransportConfig : fields :=
  Field "path" TString $ Field "host" TString $ Field "headers" TStringMap NoFields.

Definition grpcConfig : fields :=
  Field "serviceName" TString $ Field "authority" TString $ Field "multiMode" TBool NoFields.

Definition xhttpConfig : fields :=
  Field "path" TString $ Field "host" TString $ Field "mode" TString $ Field "extra" TRawMessage NoFields.

Definition tlsConfig : fields :=
  Field "serverName" TString $ Field "alpn" TStringList $ Field "rejectUnknownSni" TBool NoFields.

Definition realityConfig : fields :=
  Field "serverNames" (TSlice TString) $ Field "shortIds" (TSlice TString) NoFields.

Definition streamSettingsConfig : fields :=
  Field "network" TString $ Field "security" TString $ Field "finalmask" TRawMessage $
  Field "tlsSettings" (TStruct tlsConfig) $ Field "realitySettings" (TStruct realityConfig) $
  Field "rawSettings" (TPointer rawConfig) $ Field "tcpSettings" (TPointer rawConfig) $
  Field "wsSettings" (TStruct httpTransportConfig) $ Field "httpupgradeSettings" (TStruct httpTransportConfig) $
  Field "grpcSettings" (TStruct grpcConfig) $
  Field "xhttpSettings" (TPointer xhttpConfig) $ Field "splithttpSettings" (TPointer xhttpConfig) NoFields.

Definition inboundConfig : fields :=
  Field "tag" TString $ Field "protocol" TString $ Field "port" TRawMessage $
  Field "settings" (TStruct inboundSettings) $ Field "streamSettings" (TStruct streamSettingsConfig) NoFields.

Definition config : fields := Field "inbounds" (TSlice (TStruct inboundConfig)) NoFields.

(** ** The decoded config *)

Section Decode.
Context `{GoRuntime}.

(** The order in which a range over a header map visits it. *)
Variable visit : gmap string string → list (string * string).

Definition to_client : tuple clientConfig → XrayConfig.clientConfig :=
  λ '(email, (id, (flow, (reverse, _)))),
    {| XrayConfig.cc_email := email; XrayConfig.cc_id := id; XrayConfig.cc_flow := flow; XrayConfig.cc_reverse := reverse |}.

Definition to_settings : tuple inboundSettings → XrayConfig.inboundSettings :=
  λ '(clients, (flow, (decryption, _))),
    {| XrayConfig.is_clients := to_client <$> sl_items clients; XrayConfig.is_flow := flow; XrayConfig.is_decryption := decryption |}.

Definition to_raw : tuple rawConfig → XrayConfig.rawConfig := λ '(header, _), {| XrayConfig.rc_header := header |}.

Definition to_http : tuple httpTransportConfig → XrayConfig.httpTransportConfig :=
  λ '(path, (host, (headers, _))),
    {| XrayConfig.htc_path := path; XrayConfig.htc_host := host; XrayConfig.htc_headers := visit headers |}.

Definition to_grpc : tuple grpcConfig → XrayConfig.grpcConfig :=
  λ '(service, (authority, (multi, _))),
    {| XrayConfig.gc_service_name := service; XrayConfig.gc_authority := authority; XrayConfig.gc_multi_mode := multi |}.

Definition to_xhttp : tuple xhttpConfig → XrayConfig.xhttpConfig :=
  λ '(path, (host, (mode, (extra, _)))),
    {| XrayConfig.xc_path := path; XrayConfig.xc_host := host; XrayConfig.xc_mode := mode; XrayConfig.xc_extra := extra |}.

Definition to_tls : tuple tlsConfig → XrayConfig.tlsConfig :=
  λ '(name, (alpn, (reject, _))),
    {| XrayConfig.tc_server_name := name; XrayConfig.tc_alpn := alpn; XrayConfig.tc_reject_unknown_sni := reject |}.

Definition to_reality : tuple realityConfig → XrayConfig.realityConfig :=
  λ '(server_names, (ids, _)),
    {| XrayConfig.rc_server_names := sl_items server_names; XrayConfig.rc_short_ids := sl_items ids |}.

Definition to_stream : tuple streamSettingsConfig → XrayConfig.streamSettingsConfig :=
  λ '(network, (security, (mask, (tls, (reality, (raw, (tcp, (ws, (upgrade, (grpc, (xhttp, (split, _)))))))))))), {|
    XrayConfig.ss_network := network; XrayConfig.ss_security := security; XrayConfig.ss_final_mask := mask;
    XrayConfig.ss_tls := to_tls tls; XrayConfig.ss_reality := to_reality reality;
    XrayConfig.ss_raw := to_raw <$> raw; XrayConfig.ss_tcp := to_raw <$> tcp;
    XrayConfig.ss_websocket := to_http ws; XrayConfig.ss_httpupgrade := to_http upgrade; XrayConfig.ss_grpc := to_grpc grpc;
    XrayConfig.ss_xhttp := to_xhttp <$> xhttp; XrayConfig.ss_splithttp := to_xhttp <$> split |}.

Definition to_inbound : tuple inboundConfig → XrayConfig.inboundConfig :=
  λ '(tag, (protocol, (port, (settings, (stream, _))))), {|
    XrayConfig.ic_tag := tag; XrayConfig.ic_protocol := protocol; XrayConfig.ic_port := port;
    XrayConfig.ic_settings := to_settings settings; XrayConfig.ic_stream := to_stream stream |}.

Definition to_config : tuple config → XrayConfig.config :=
  λ '(inbounds, _), {| XrayConfig.cfg_inbounds := to_inbound <$> sl_items inbounds |}.

(** json.Unmarshal of the whole document into a zero config. *)
Definition decode (document : string) : option XrayConfig.config :=
  d ← parse_document document;
  to_config <$> decode_value (TStruct config) d (zeros config).

End Decode.

End XrayDecode.
