(* ===== verification/XrayDecodeTheorems.v ===== *)
(** * Decoding the xray config: theorems

    What is not one of the config's fields is not read: the document with
    everything else taken out decodes alike. And a config written out reads
    back. *)

From Stdlib Require Import Ascii String.
From S2P Require Import Prelude GoJson GoText GoDecode GoPrint XrayConfig Advertisements XrayDecode.

Module XrayDecodeTheorems.
Import GoJson GoDecode GoPrint XrayDecode.

Scheme type_fields_ind := Induction for type Sort Prop
with fields_type_ind := Induction for fields Sort Prop.
Combined Scheme type_mutind from type_fields_ind, fields_type_ind.

Section WithRuntime.
Context {GR : GoRuntime}.

(** ** What is read *)

(** A document with only what a type reads of it: members that name no field
    are gone, those that do have the field's name, and so on inside. *)
Fixpoint prune (t : type) (d : doc) : doc :=
  match t, d with
  | (TStruct fs | TPointer fs), DObject _ ms =>
      DObject "" (omap (λ m, name ← field_of (names fs) m.1; Some (name, prune_field fs name m.2)) ms)
  | TSlice t, DArray _ items => DArray "" (prune t <$> items)
  | _, d => d
  end
with prune_field (fs : fields) (name : string) (d : doc) : doc :=
  match fs with
  | NoFields => d
  | Field n t fs => if String.eqb n name then prune t d else prune_field fs name d
  end.

Lemma field_of_elem ns name : name ∈ ns → field_of ns name = Some name.
Proof.
  intros Hin%list_elem_of_In. unfold field_of. destruct (List.find (String.eqb name) ns) as [n|] eqn:E.
  - apply List.find_some in E as [_ ->%String.eqb_eq]. done.
  - pose proof (List.find_none _ _ E _ Hin) as Hn. cbn in Hn. by rewrite String.eqb_refl in Hn.
Qed.

Lemma field_of_names ns key name : field_of ns key = Some name → field_of ns name = Some name.
Proof.
  intros Hf. apply field_of_elem, list_elem_of_In. unfold field_of in Hf.
  destruct (List.find (String.eqb key) ns) eqn:E; [injection Hf as <-|]; by eapply List.find_some.
Qed.

Lemma prune_struct fs ms old :
  (∀ name d vs, set_field fs name (prune_field fs name d) vs = set_field fs name d vs) →
  decode_fields false (names fs) (set_field fs)
    (omap (λ m, name ← field_of (names fs) m.1; Some (name, prune_field fs name m.2)) ms) old =
  decode_fields false (names fs) (set_field fs) ms old.
Proof.
  intros Hset. revert old. induction ms as [|[key d] ms IH]; intros old; [done|]. cbn [omap list_omap fst snd decode_fields].
  destruct (field_of (names fs) key) as [name|] eqn:E; cbn [mbind option_bind]; [|apply IH].
  cbn [decode_fields]. rewrite (field_of_names _ _ _ E), Hset.
  destruct (set_field fs name d old) as [vs|]; cbn [mbind option_bind]; [apply IH|done].
Qed.

Lemma decode_prune :
  (∀ t d old, decode_value t (prune t d) old = decode_value t d old) ∧
  (∀ fs name d vs, set_field fs name (prune_field fs name d) vs = set_field fs name d vs).
Proof.
  apply type_mutind; try done.
  - intros fs IH [] old; try done. cbn. by rewrite prune_struct.
  - intros t IH [] old; try done. cbn. destruct items as [|d items]; [done|]. f_equal.
    change (_ ++ _) with (sl_items old ++ sl_beyond old). generalize (sl_items old ++ sl_beyond old).
    change (prune t d :: (prune t <$> items)) with (prune t <$> (d :: items)).
    induction (d :: items) as [|d' items' IHi]; intros cells; [done|]. cbn. rewrite IH.
    destruct (decode_value t d' _); cbn; [|done]. by rewrite IHi.
  - intros fs IH [] old; try done. cbn. by apply prune_struct.
  - intros n t IHt fs IHfs name d [v vs]. cbn. destruct (String.eqb n name); [by rewrite IHt|by rewrite IHfs].
Qed.

(** ** Writing *)

(** A RawMessage that is not there. *)
Definition absent (t : type) : denote t → bool :=
  match t with TRawMessage => λ v, match v with None => true | Some _ => false end | _ => λ _, false end.

(** A value as JSON: every field under its name, but for a RawMessage that
    is not there. *)
Fixpoint encode (t : type) : denote t → json :=
  match t with
  | TString => JString
  | TBool => JBool
  | TRawMessage => default JNull
  | TStringList => λ l, JArray (JString <$> l)
  | TStringMap => λ m, JObject ((λ kv, (kv.1, JString kv.2)) <$> map_to_list m)
  | TPointer fs => λ v, match v with None => JNull | Some v => JObject (encode_fields fs v) end
  | TSlice t => λ s, JArray (encode t <$> sl_items s)
  | TStruct fs => λ v, JObject (encode_fields fs v)
  end
with encode_fields (fs : fields) : tuple fs → list (string * json) :=
  match fs with
  | NoFields => λ _, []
  | Field name t fs => λ '(v, vs),
      if absent t v then encode_fields fs vs else (name, encode t v) :: encode_fields fs vs
  end.

(** What a text has of a value: no cells beyond a slice's items. *)
Fixpoint visible (t : type) : denote t → Prop :=
  match t with
  | TRawMessage => is_Some
  | TPointer fs => λ v, match v with None => True | Some v => visible_fields fs v end
  | TSlice t => λ s, sl_beyond s = [] ∧ Forall (visible t) (sl_items s)
  | TStruct fs => visible_fields fs
  | _ => λ _, True
  end
with visible_fields (fs : fields) : tuple fs → Prop :=
  match fs with
  | NoFields => λ _, True
  | Field _ t fs => λ '(v, vs), (absent t v = true ∨ visible t v) ∧ visible_fields fs vs
  end.

(** No two fields share a name, at any depth. *)
Fixpoint distinct (t : type) : bool :=
  match t with
  | TPointer fs | TStruct fs => distinct_fields fs
  | TSlice t => distinct t
  | _ => true
  end
with distinct_fields (fs : fields) : bool :=
  match fs with
  | NoFields => true
  | Field name t fs => negb (existsb (String.eqb name) (names fs)) && distinct t && distinct_fields fs
  end.

Lemma json_of_doc_of j : json_of (doc_of j) = j.
Proof.
  induction j as [| | | |items IH|fields IH] using json_nested_ind; try done; cbn; f_equal.
  - rewrite <-list_fmap_compose. induction IH as [|j l Hj _ IHl]; cbn in *; congruence.
  - rewrite <-list_fmap_compose. induction IH as [|[k j] l Hj _ IHl]; cbn in *; congruence.
Qed.

Lemma decode_strings_of l : decode_strings (doc_of (JArray (JString <$> l))) [] = Some l.
Proof.
  cbn. change (@nil string) with (@nil string). induction l as [|s l IH]; [done|]. cbn in *. by rewrite IH.
Qed.

Lemma decode_members_of l m : 
  decode_members ((λ f, (f.1, doc_of f.2)) <$> ((λ kv : string * string, (kv.1, JString kv.2)) <$> l)) m = Some (foldl (λ m kv, <[kv.1 := kv.2]> m) m l).
Proof. revert m. induction l as [|[k s] l IH]; intros m; cbn; [done|]. apply IH. Qed.

Lemma fold_map_to_list (m : gmap string string) : foldl (λ m kv, <[kv.1 := kv.2]> m) ∅ (map_to_list m) = m.
Proof.
  enough (∀ (l : list (string * string)) (m' : gmap string string), NoDup l.*1 → (∀ k s, (k, s) ∈ l → m' !! k = None) → foldl (λ m kv, <[kv.1 := kv.2]> m) m' l = list_to_map l ∪ m') as H1.
  { rewrite H1; [|apply NoDup_fst_map_to_list|done]. by rewrite list_to_map_to_list, map_union_empty. }
  intros l. induction l as [|[k s] l IH]; intros m' Hnd Hnone; cbn; [by rewrite map_empty_union|].
  inversion Hnd as [|? ? Hk Hnd']; subst. rewrite IH; [|done|].
  - apply map_eq. intros k'. rewrite !lookup_union, !lookup_insert. case_decide; subst.
    + rewrite not_elem_of_list_to_map_1 by done. rewrite (Hnone k' s) by (by left). done.
    + done.
  - intros k' s' Hin. rewrite lookup_insert_ne; [apply (Hnone k' s'); by right|]. intros ->. apply Hk. apply list_elem_of_fmap. by exists (k', s').
Qed.

(** Members that are not a field's leave it alone. *)
Lemma decode_fields_skip n t fs ns ms v vs :
  Forall (λ m : string * doc, m.1 ≠ n ∧ m.1 ∈ ns) ms →
  decode_fields false ns (set_field (Field n t fs)) ms (v, vs) =
    (vs' ← decode_fields false ns (set_field fs) ms vs; Some (v, vs')).
Proof.
  intros Hms. revert vs. induction Hms as [|[key d] ms [Hne Hin] _ IH]; intros vs; [done|]. cbn [fst] in *.
  cbn [decode_fields]. rewrite (field_of_elem _ _ Hin). cbn [set_field]. rewrite (proj2 (String.eqb_neq n key)) by congruence.
  destruct (set_field fs key d vs) as [vs'|]; cbn; [apply IH|done].
Qed.

Lemma encode_fields_names fs vs : Forall (λ m, m.1 ∈ names fs) (encode_fields fs vs).
Proof.
  induction fs as [|n t fs IH]; [constructor|]. destruct vs as [v vs]. cbn.
  assert (Forall (λ m : string * json, m.1 ∈ n :: names fs) (encode_fields fs vs)) as Hr.
  { eapply Forall_impl; [apply IH|]. intros m Hm. by right. }
  destruct (absent t v); [done|]. constructor; [by left|done].
Qed.

Lemma absent_zero t v : absent t v = true → v = zero t.
Proof. destruct t; try done. by destruct v. Qed.

Lemma decode_cells_fresh t l :
  (∀ v, v ∈ l → decode_value t (doc_of (encode t v)) (zero t) = Some v) →
  decode_cells (decode_value t) (zero t) (doc_of <$> (encode t <$> l)) [] = Some (l, []).
Proof.
  induction l as [|v l IH]; intros Hl; [done|]. cbn. rewrite (Hl v) by (by left). cbn.
  rewrite IH; [done|]. intros w Hw. apply Hl. by right.
Qed.

Lemma encoded_reads_back :
  (∀ t, distinct t = true → ∀ v, visible t v → decode_value t (doc_of (encode t v)) (zero t) = Some v) ∧
  (∀ fs, distinct_fields fs = true → ∀ ns, (∀ n, n ∈ names fs → n ∈ ns) → ∀ vs, visible_fields fs vs →
    decode_fields false ns (set_field fs) ((λ f, (f.1, doc_of f.2)) <$> encode_fields fs vs) (zeros fs) = Some vs).
Proof.
  apply type_mutind.
  - done.
  - done.
  - intros _ v [j ->]. cbn. by rewrite json_of_doc_of.
  - intros _ v _. cbn [encode decode_value]. unfold UnmarshalJSON. by rewrite decode_strings_of.
  - intros _ m _. cbn. rewrite decode_members_of. by rewrite fold_map_to_list.
  - intros fs IH Hd [v|] Hv; [|done]. cbn. rewrite IH; [done|done|done|done].
  - intros t IH Hd [l beyond] [Hb Hl]. cbn in Hb, Hl. subst beyond. cbn. destruct l as [|v l]; [done|].
    change (doc_of <$> (encode t <$> v :: l)) with (doc_of (encode t v) :: (doc_of <$> (encode t <$> l))).
    cbn [decode_slice]. change (doc_of (encode t v) :: _) with (doc_of <$> (encode t <$> v :: l)).
    cbn [sl_items sl_beyond nil_slice app]. rewrite decode_cells_fresh; [done|].
    intros w Hw. apply IH; [done|]. by eapply Forall_forall in Hl.
  - intros fs IH Hd v Hv. by apply IH.
  - intros _ ns _ [] _. done.
  - intros n t IHt fs IHfs [[Hn Ht]%andb_true_iff Hfs]%andb_true_iff ns Hns [v vs] [Hv Hvs].
    assert (n ∉ names fs) as Hnot.
    { intros Hin. apply list_elem_of_In in Hin. rewrite negb_true_iff in Hn. 
      assert (existsb (String.eqb n) (names fs) = true) as He; [|congruence]. apply existsb_exists. exists n. split; [done|apply String.eqb_refl]. }
    assert (Forall (λ m : string * doc, m.1 ≠ n ∧ m.1 ∈ ns) ((λ f, (f.1, doc_of f.2)) <$> encode_fields fs vs)) as Hskip.
    { apply Forall_fmap. eapply Forall_impl; [apply encode_fields_names|]. intros m Hm. cbn in *. split; [congruence|]. apply Hns. by right. }
    assert (decode_fields false ns (set_field fs) ((λ f, (f.1, doc_of f.2)) <$> encode_fields fs vs) (zeros fs) = Some vs) as Hrest.
    { apply IHfs; [done| |done]. intros n' Hn'. apply Hns. by right. }
    cbn [encode_fields zeros]. destruct (absent t v) eqn:E.
    + rewrite decode_fields_skip by done. by rewrite Hrest, <-(absent_zero _ _ E).
    + destruct Hv as [Hv|Hv]; [done|]. cbn [fmap list_fmap fst snd decode_fields].
      rewrite field_of_elem by (apply Hns; by left). cbn [set_field]. rewrite String.eqb_refl.
      rewrite (IHt Ht v Hv). cbn [mbind option_bind]. by rewrite decode_fields_skip, Hrest by done.
Qed.

(** ** The config as a value *)

Definition of_client (c : XrayConfig.clientConfig) : tuple clientConfig :=
  (XrayConfig.cc_email c, (XrayConfig.cc_id c, (XrayConfig.cc_flow c, (XrayConfig.cc_reverse c, ())))).

Definition of_items {A B} (f : A → B) (l : list A) : slice B := {| sl_items := f <$> l; sl_beyond := [] |}.

Definition of_settings (s : XrayConfig.inboundSettings) : tuple inboundSettings :=
  (of_items of_client (XrayConfig.is_clients s), (XrayConfig.is_flow s, (XrayConfig.is_decryption s, ()))).

Definition of_raw (r : XrayConfig.rawConfig) : tuple rawConfig := (XrayConfig.rc_header r, ()).

Definition of_http (h : XrayConfig.httpTransportConfig) : tuple httpTransportConfig :=
  (XrayConfig.htc_path h, (XrayConfig.htc_host h, (list_to_map (XrayConfig.htc_headers h), ()))).

Definition of_grpc (g : XrayConfig.grpcConfig) : tuple grpcConfig :=
  (XrayConfig.gc_service_name g, (XrayConfig.gc_authority g, (XrayConfig.gc_multi_mode g, ()))).

Definition of_xhttp (x : XrayConfig.xhttpConfig) : tuple xhttpConfig :=
  (XrayConfig.xc_path x, (XrayConfig.xc_host x, (XrayConfig.xc_mode x, (XrayConfig.xc_extra x, ())))).

Definition of_tls (t : XrayConfig.tlsConfig) : tuple tlsConfig :=
  (XrayConfig.tc_server_name t, (XrayConfig.tc_alpn t, (XrayConfig.tc_reject_unknown_sni t, ()))).

Definition of_reality (r : XrayConfig.realityConfig) : tuple realityConfig :=
  (of_items id (XrayConfig.rc_server_names r), (of_items id (XrayConfig.rc_short_ids r), ())).

Definition of_stream (s : XrayConfig.streamSettingsConfig) : tuple streamSettingsConfig :=
  (XrayConfig.ss_network s, (XrayConfig.ss_security s, (XrayConfig.ss_final_mask s,
   (of_tls (XrayConfig.ss_tls s), (of_reality (XrayConfig.ss_reality s),
   (of_raw <$> XrayConfig.ss_raw s, (of_raw <$> XrayConfig.ss_tcp s,
   (of_http (XrayConfig.ss_websocket s), (of_http (XrayConfig.ss_httpupgrade s), (of_grpc (XrayConfig.ss_grpc s),
   (of_xhttp <$> XrayConfig.ss_xhttp s, (of_xhttp <$> XrayConfig.ss_splithttp s, ())))))))))))).

Definition of_inbound (i : XrayConfig.inboundConfig) : tuple inboundConfig :=
  (XrayConfig.ic_tag i, (XrayConfig.ic_protocol i, (XrayConfig.ic_port i,
   (of_settings (XrayConfig.ic_settings i), (of_stream (XrayConfig.ic_stream i), ()))))).

Definition of_config (c : XrayConfig.config) : tuple config := (of_items of_inbound (XrayConfig.cfg_inbounds c), ()).

Definition config_json (c : XrayConfig.config) : json := encode (TStruct config) (of_config c).

Variable visit : gmap string string → list (string * string).

(** The headers in the order Go visits them. *)
Definition headers_in_order (h : XrayConfig.httpTransportConfig) : Prop :=
  visit (list_to_map (XrayConfig.htc_headers h)) = XrayConfig.htc_headers h.

Definition in_order (c : XrayConfig.config) : Prop :=
  Forall (λ i, headers_in_order (XrayConfig.ss_websocket (XrayConfig.ic_stream i)) ∧
               headers_in_order (XrayConfig.ss_httpupgrade (XrayConfig.ic_stream i))) (XrayConfig.cfg_inbounds c).

Lemma items_back {A B} (f : A → B) (g : B → A) (l : list A) : (∀ a, a ∈ l → g (f a) = a) → g <$> (f <$> l) = l.
Proof.
  intros Hgf. rewrite <-list_fmap_compose. rewrite <-(list_fmap_id l) at 2. apply list_fmap_ext.
  intros i a Ha. by apply Hgf, list_elem_of_lookup_2 with i.
Qed.

Lemma to_config_of c : in_order c → to_config visit (of_config c) = c.
Proof.
  destruct c as [inbounds]. intros Ho. unfold to_config, of_config. cbn [XrayConfig.cfg_inbounds of_items sl_items]. f_equal.
  apply items_back. intros [tag protocol port settings stream] Hi.
  unfold in_order in Ho. eapply Forall_forall in Ho as [Hw Hu]; [|exact Hi]. cbn in Hw, Hu. unfold of_inbound, to_inbound. cbn. f_equal.
  - destruct settings as [clients flow decryption]. unfold of_settings, to_settings. cbn. f_equal. apply items_back. by intros [].
  - destruct stream as [network security mask tls reality raw tcp ws up grpc xhttp split]. unfold of_stream, to_stream. cbn in *.
    unfold headers_in_order in Hw, Hu. rewrite Hw, Hu.
    f_equal; try (by destruct tls); try (by destruct grpc); try (by destruct ws); try (by destruct up).
    + destruct reality. cbn. unfold to_reality. cbn. by rewrite !list_fmap_id.
    + by destruct raw as [[]|].
    + by destruct tcp as [[]|].
    + by destruct xhttp as [[]|].
    + by destruct split as [[]|].
Qed.

Lemma visible_items {A} t (f : A → denote t) (l : list A) : (∀ a, visible t (f a)) → visible (TSlice t) (of_items f l).
Proof. intros Hf. split; [done|]. cbn. apply Forall_fmap, Forall_true. done. Qed.

Lemma visible_optional {A} fs (f : A → tuple fs) (o : option A) : (∀ a, visible_fields fs (f a)) → visible (TPointer fs) (f <$> o).
Proof. destruct o; cbn; auto. Qed.

Lemma raw_field v : absent TRawMessage v = true ∨ visible TRawMessage v.
Proof. destruct v; [right; by eexists|by left]. Qed.

#[local] Ltac solve_visible :=
  repeat first
    [ apply raw_field
    | match goal with
      | |- visible_fields _ _ => hnf
      | |- visible _ _ => hnf
      | |- True => exact I
      | |- _ ∧ _ => split
      | |- absent (TSlice TString) _ = true ∨ _ => right; apply (visible_items TString id); intros
      | |- absent (TSlice _) _ = true ∨ _ => right; apply visible_items; intros
      | |- absent (TPointer _) _ = true ∨ _ => right; apply visible_optional; intros
      | |- _ ∨ _ => right; hnf
      end ].

Lemma visible_config c : visible (TStruct config) (of_config c).
Proof. solve_visible. Qed.

(** A config written out is read back. The text of a config, with every
    field under the name its tag gives it, decodes to that config. *)
Theorem config_reads_back c :
  in_order c → printable (config_json c) = true → (Z.of_nat (height (config_json c)) ≤ 10000)%Z →
  decode visit (text_of (config_json c)) = Some c.
Proof.
  intros Ho Hp Hh. unfold decode. rewrite parse_print by done. cbn [mbind option_bind].
  unfold config_json. change (zeros config) with (zero (TStruct config)). rewrite (proj1 encoded_reads_back (TStruct config) eq_refl (of_config c) (visible_config c)).
  cbn [fmap option_fmap option_map]. by rewrite to_config_of.
Qed.

(** What the config's types do not name is not read. Two documents that
    differ only in members no field of the structs names, at any depth (the
    private server material, the routing, the outbounds), or in the case of a
    field's name, decode alike: the Panel's view of the file, its roster and
    whether it is accepted do not depend on them. *)
Theorem unnamed_members_stay_unread s s' d d' :
  parse_document s = Some d → parse_document s' = Some d' → prune (TStruct config) d = prune (TStruct config) d' →
  decode visit s = decode visit s' ∧ XrayConfig.parse (decode visit) s = XrayConfig.parse (decode visit) s'.
Proof.
  intros Hs Hs' Hp. assert (decode visit s = decode visit s') as He.
  { unfold decode. rewrite Hs, Hs'. cbn [mbind option_bind]. rewrite <-(proj1 decode_prune _ d), <-(proj1 decode_prune _ d'). by rewrite Hp. }
  split; [done|]. unfold XrayConfig.parse. by rewrite He.
Qed.

End WithRuntime.

(** ** Examples

    A document is written with a single quote for JSON's double one. *)

Module Examples.

#[local] Existing Instance AsciiRuntime.runtime.
Local Open Scope string_scope.

Definition doc_text (s : string) : string := of_bytes ((λ c, if (c =? 39)%Z then 34%Z else c) <$> bytes_of s).

(** The server's private key, its certificates and its routing. *)
Definition server (key certificate routing : string) : string := doc_text (
  "{'inbounds': [{'tag': 'in', 'protocol': 'vless', 'port': 443, 'settings': {'decryption': 'none', 'clients': [" +:+
  "{'email': 'ann@x', 'id': 'a', 'level': 0}, {'email': 'bob@x', 'id': 'b', 'flow': 'xtls-rprx-vision'}]}, " +:+
  "'streamSettings': {'network': 'raw', 'security': 'reality', 'rawSettings': {'header': {'type': 'none'}}, " +:+
  "'realitySettings': {'serverNames': ['one.example.com', 'two.example.com'], 'privateKey': '" +:+ key +:+ "'}, " +:+
  "'tlsSettings': {'ALPN': 'h2,http/1.1', 'certificates': [" +:+ certificate +:+ "]}, " +:+
  "'wsSettings': {'path': '/ws', 'headers': {'Host': 'cdn.example.com'}}}}], 'routing': " +:+ routing +:+ "}").

Definition server_config : XrayConfig.config := {| XrayConfig.cfg_inbounds := [{|
  XrayConfig.ic_tag := "in"; XrayConfig.ic_protocol := "vless"; XrayConfig.ic_port := Some (JNumber "443");
  XrayConfig.ic_settings := {|
    XrayConfig.is_clients := [
      {| XrayConfig.cc_email := "ann@x"; XrayConfig.cc_id := "a"; XrayConfig.cc_flow := ""; XrayConfig.cc_reverse := None |};
      {| XrayConfig.cc_email := "bob@x"; XrayConfig.cc_id := "b"; XrayConfig.cc_flow := "xtls-rprx-vision"; XrayConfig.cc_reverse := None |}];
    XrayConfig.is_flow := ""; XrayConfig.is_decryption := "none" |};
  XrayConfig.ic_stream := {|
    XrayConfig.ss_network := "raw"; XrayConfig.ss_security := "reality"; XrayConfig.ss_final_mask := None;
    XrayConfig.ss_tls := {| XrayConfig.tc_server_name := ""; XrayConfig.tc_alpn := ["h2"; "http/1.1"]; XrayConfig.tc_reject_unknown_sni := false |};
    XrayConfig.ss_reality := {| XrayConfig.rc_server_names := ["one.example.com"; "two.example.com"]; XrayConfig.rc_short_ids := [] |};
    XrayConfig.ss_raw := Some {| XrayConfig.rc_header := Some (JObject [("type", JString "none")]) |}; XrayConfig.ss_tcp := None;
    XrayConfig.ss_websocket := {| XrayConfig.htc_path := "/ws"; XrayConfig.htc_host := ""; XrayConfig.htc_headers := [("Host", "cdn.example.com")] |};
    XrayConfig.ss_httpupgrade := {| XrayConfig.htc_path := ""; XrayConfig.htc_host := ""; XrayConfig.htc_headers := [] |};
    XrayConfig.ss_grpc := {| XrayConfig.gc_service_name := ""; XrayConfig.gc_authority := ""; XrayConfig.gc_multi_mode := false |};
    XrayConfig.ss_xhttp := None; XrayConfig.ss_splithttp := None |} |}] |}.

Example server_decodes : decode map_to_list (server "secret" "{'key': ['k']}" "{'rules': []}") = Some server_config.
Proof. vm_compute. reflexivity. Qed.

(** The same key twice: what the first array left in a cell stays there
    under the second, as it does in Go. *)
Example repeated_key_merges :
  (λ c, (XrayConfig.is_clients ∘ XrayConfig.ic_settings) <$> XrayConfig.cfg_inbounds c) <$>
    decode map_to_list (doc_text "{'inbounds': [{'settings': {'clients': [{'email': 'ann@x', 'id': 'a'}], 'clients': [{'id': 'b'}]}}]}") =
  Some [[{| XrayConfig.cc_email := "ann@x"; XrayConfig.cc_id := "b"; XrayConfig.cc_flow := ""; XrayConfig.cc_reverse := None |}]].
Proof. vm_compute. reflexivity. Qed.

Example wrong_shapes_are_refused :
  decode map_to_list (doc_text "{'inbounds': {}}") = None ∧ decode map_to_list (doc_text "{'inbounds': []} {}") = None ∧
  decode map_to_list (doc_text "{'inbounds': [{'streamSettings': {'tlsSettings': {'alpn': 7}}}]}") = None ∧
  decode map_to_list (doc_text "null") = Some {| XrayConfig.cfg_inbounds := [] |}.
Proof. vm_compute. done. Qed.

Lemma config_reads_back_witness :
  decode map_to_list (text_of (config_json server_config)) = Some server_config.
Proof.
  apply (config_reads_back map_to_list server_config).
  - repeat constructor.
  - vm_compute. reflexivity.
  - vm_compute. discriminate.
Defined.

Definition parsed (s : string) : doc := default DNull (parse_document s).

Lemma unnamed_members_stay_unread_witness :
  decode map_to_list (server "secret" "{'key': ['k']}" "{'rules': []}") = decode map_to_list (server "rotated" "" "[]") ∧
  XrayConfig.parse (decode map_to_list) (server "secret" "{'key': ['k']}" "{'rules': []}") =
  XrayConfig.parse (decode map_to_list) (server "rotated" "" "[]").
Proof.
  apply (unnamed_members_stay_unread map_to_list _ _
           (parsed (server "secret" "{'key': ['k']}" "{'rules': []}")) (parsed (server "rotated" "" "[]"))).
  - vm_compute. reflexivity.
  - vm_compute. reflexivity.
  - vm_compute. reflexivity.
Defined.

End Examples.
End XrayDecodeTheorems.
