(* ===== verification/JsonSyntax.v ===== *)
(** * JSON documents as they are written

    A syntax of JSON that keeps every byte: what encoding/json's decoder
    accepts is the text of one such syntax, and the text of every such
    syntax is accepted for what it means. *)

From Stdlib Require Import Ascii String.
From S2P Require Import Prelude GoJson GoText GoDecode GoDecodeProps GoPrint.

Module JsonSyntax.
Import GoJson GoText GoDecode GoDecodeProps GoPrint.

Local Open Scope Z_scope.

(** What stands before a member's value: the key between its quotes, the
    white space around it and around the colon. *)
Record lead := { ld_before : list Z; ld_key : list Z; ld_mid : list Z; ld_after : list Z }.

(** A word is null, a boolean or a number. An item of a container has its
    white space on both sides; a container without items its own. *)
Inductive syntax :=
| SWord (d : doc)
| SString (body : list Z)
| SArray (ws : list Z) (items : list (list Z * syntax * list Z))
| SObject (ws : list Z) (items : list (lead * syntax * list Z)).

Definition lead_text (h : lead) : list Z :=
  ld_before h ++ 34 :: ld_key h ++ 34 :: ld_mid h ++ 58 :: ld_after h.

(** Its text. *)
Fixpoint spell (s : syntax) : list Z :=
  match s with
  | SWord d => bytes_of (raw_text d)
  | SString body => 34 :: body ++ [34]
  | SArray ws items =>
      91 :: match items with [] => ws | _ => separated 44 (λ e, e.1.1 ++ spell e.1.2 ++ e.2) items end ++ [93]
  | SObject ws items =>
      123 :: match items with [] => ws | _ => separated 44 (λ e, lead_text e.1.1 ++ spell e.1.2 ++ e.2) items end ++ [125]
  end.

(** What the decoder makes of it. *)
Fixpoint meaning (s : syntax) : doc :=
  match s with
  | SWord d => d
  | SString body => DString (string_literal body) (string_value body)
  | SArray ws items => DArray (of_bytes (spell s)) ((λ e, meaning e.1.2) <$> items)
  | SObject ws items => DObject (of_bytes (spell s)) ((λ e, (string_value (ld_key e.1.1), meaning e.1.2)) <$> items)
  end.

(** ** Well-formed syntax *)

Definition spaces (l : list Z) : Prop := Forall (λ b, is_space b = true) l.

Definition word (d : doc) : Prop :=
  match d with
  | DNull | DBool _ => True
  | DNumber literal => scan_number (bytes_of literal) = Some (bytes_of literal, [])
  | _ => False
  end.

(** The inside of a string literal. *)
Definition quotable (body : list Z) : Prop := scan_string (body ++ [34]) = Some (body, []) ∧ Forall is_byte body.

Definition lead_ok (h : lead) : Prop :=
  spaces (ld_before h) ∧ quotable (ld_key h) ∧ spaces (ld_mid h) ∧ spaces (ld_after h).

(** [depth] bounds the nesting. *)
Fixpoint valid (depth : nat) (s : syntax) : Prop :=
  match s with
  | SWord d => word d
  | SString body => quotable body
  | SArray ws items =>
      match depth with
      | O => False
      | S depth => spaces ws ∧ Forall (λ e, spaces e.1.1 ∧ valid depth e.1.2 ∧ spaces e.2) items
      end
  | SObject ws items =>
      match depth with
      | O => False
      | S depth => spaces ws ∧ Forall (λ e, lead_ok e.1.1 ∧ valid depth e.1.2 ∧ spaces e.2) items
      end
  end.

(** ** From text to syntax *)

Lemma spaces_split l : ∃ ws, spaces ws ∧ l = ws ++ skip_space l.
Proof. apply skip_space_split. Qed.

Lemma spaces_bytes l : spaces l → Forall is_byte l.
Proof.
  intros Hs. eapply Forall_impl; [exact Hs|]. intros b. unfold is_space, is_byte.
  rewrite !orb_true_iff, !Z.eqb_eq. lia.
Qed.

Lemma scan_word l d rest : Forall is_byte l → scalar l = Some (d, rest) → head_is 34 l = false →
  word d ∧ l = bytes_of (raw_text d) ++ rest.
Proof.
  intros Hb Hs Hq. destruct (scalar_local _ _ _ Hb Hs) as (E & _ & _ & Hk). split; [|done].
  revert Hs. unfold scalar. rewrite Hq.
  destruct (strip (bytes_of "null") l); [by intros [= <- <-]|].
  destruct (strip (bytes_of "true") l); [by intros [= <- <-]|].
  destruct (strip (bytes_of "false") l); [by intros [= <- <-]|].
  intros ([lit rest'] & Hn & [= <- <-])%bind_Some. cbn [word].
  apply scan_number_spec in Hn as (-> & _ & Hk'). apply app_inv_tail in E. cbn [raw_text] in E. rewrite <-E.
  specialize (Hk' [] I). by rewrite app_nil_r in Hk'.
Qed.

Lemma quotable_scan l body rest : Forall is_byte l → scan_string l = Some (body, rest) →
  quotable body ∧ l = body ++ 34 :: rest.
Proof.
  intros Hb (-> & Hk)%scan_string_spec. apply Forall_app in Hb as [Hb _]. split; [|done]. split; [apply (Hk [])|done].
Qed.

Section Containers.
Context (depth : nat)
  (IH : ∀ l d rest, Forall is_byte l → value depth l = Some (d, rest) →
     ∃ s, valid depth s ∧ l = spell s ++ rest ∧ meaning s = d).

(** One item: a value with white space on both sides, up to what follows. *)
Lemma item_syntax l d l1 : Forall is_byte l → value depth (skip_space l) = Some (d, l1) →
  ∃ a s b, spaces a ∧ valid depth s ∧ spaces b ∧ meaning s = d ∧ l = a ++ spell s ++ b ++ skip_space l1.
Proof.
  intros Hb Hv. destruct (spaces_split l) as (a & Ha & El).
  destruct (IH _ _ _ (skip_space_bytes _ Hb) Hv) as (s & Hs & Es & Em).
  destruct (spaces_split l1) as (b & Hbs & Eb). exists a, s, b. split_and!; [done..|].
  rewrite El at 1. rewrite Es. by rewrite Eb at 1.
Qed.

Lemma elements_syntax fuel l ds rest : Forall is_byte l → elements (value depth) fuel l = Some (ds, rest) →
  ∃ items, items ≠ [] ∧ Forall (λ e : list Z * syntax * list Z, spaces e.1.1 ∧ valid depth e.1.2 ∧ spaces e.2) items ∧
    (λ e, meaning e.1.2) <$> items = ds ∧
    l = separated 44 (λ e, e.1.1 ++ spell e.1.2 ++ e.2) items ++ 93 :: rest.
Proof.
  revert l ds. induction fuel as [|fuel IHf]; intros l ds Hb; [done|]. cbn [elements].
  intros ([d l1] & Hv & H)%bind_Some. destruct (item_syntax l d l1 Hb Hv) as (a & s & b & Ha & Hs & Hbs & Em & El).
  destruct (head_is 44 (skip_space l1)) eqn:E44.
  - apply head_is_cons in E44 as (r & Es). rewrite Es in El, H. cbn [tail] in H.
    apply bind_Some in H as ([ds' l2] & Hr & [= <- <-]).
    assert (Forall is_byte r) as Hrb.
    { rewrite El in Hb. apply Forall_app in Hb as [_ Hb]. apply Forall_app in Hb as [_ Hb].
      apply Forall_app in Hb as [_ Hb]. by apply Forall_inv_tail in Hb. }
    destruct (IHf r ds' Hrb Hr) as (items & Hne & Hall & Emap & Er).
    exists ((a, s, b) :: items). split_and!; [done|by constructor|by rewrite fmap_cons, Emap, <-Em|].
    destruct items as [|e items]; [done|].
    change (separated 44 ?f ((a, s, b) :: e :: items)) with ((a ++ spell s ++ b) ++ 44 :: separated 44 f (e :: items)).
    rewrite El, Er. by rewrite <-!app_assoc.
  - destruct (head_is 93 (skip_space l1)) eqn:E93; [|done]. injection H as <- <-.
    apply head_is_cons in E93 as (r & Es). rewrite Es in El |- *. cbn [tail].
    exists [(a, s, b)]. split_and!; [done|by constructor; [|constructor]|by rewrite <-Em|].
    cbn [separated fst snd]. rewrite El. by rewrite <-!app_assoc.
Qed.

Lemma members_syntax fuel l fs rest : Forall is_byte l → members (value depth) fuel l = Some (fs, rest) →
  ∃ items, items ≠ [] ∧ Forall (λ e : lead * syntax * list Z, lead_ok e.1.1 ∧ valid depth e.1.2 ∧ spaces e.2) items ∧
    (λ e, (string_value (ld_key e.1.1), meaning e.1.2)) <$> items = fs ∧
    l = separated 44 (λ e, lead_text e.1.1 ++ spell e.1.2 ++ e.2) items ++ 125 :: rest.
Proof.
  revert l fs. induction fuel as [|fuel IHf]; intros l fs Hb; [done|]. cbn [members].
  intros (l1 & H1 & H)%bind_Some. apply bind_Some in H as ([key l2] & H2 & H).
  apply bind_Some in H as (l3 & H3 & H). apply bind_Some in H as ([d l4] & Hv & H).
  destruct (spaces_split l) as (w1 & Hw1 & El). apply strip_app in H1. cbn [app] in H1. rewrite H1 in El.
  assert (Forall is_byte l1) as Hb1. { rewrite El in Hb. apply Forall_app in Hb as [_ Hb]. by apply Forall_inv_tail in Hb. }
  destruct (quotable_scan _ _ _ Hb1 H2) as [Hkey E1].
  destruct (spaces_split l2) as (w2 & Hw2 & E2). apply strip_app in H3. cbn [app] in H3. rewrite H3 in E2.
  assert (Forall is_byte l3) as Hb3.
  { rewrite E1 in Hb1. apply Forall_app in Hb1 as [_ Hb1]. apply Forall_inv_tail in Hb1. rewrite E2 in Hb1.
    apply Forall_app in Hb1 as [_ Hb1]. by apply Forall_inv_tail in Hb1. }
  destruct (item_syntax l3 d l4 Hb3 Hv) as (a & s & b & Ha & Hs & Hbs & Em & E3).
  set (h := {| ld_before := w1; ld_key := key; ld_mid := w2; ld_after := a |}).
  assert (lead_ok h) as Hh by done.
  assert (l = lead_text h ++ spell s ++ b ++ skip_space l4) as E.
  { rewrite El, E1, E2. unfold lead_text. cbn. rewrite E3. by repeat (rewrite <-?app_assoc; cbn [app]). }
  destruct (head_is 44 (skip_space l4)) eqn:E44.
  - apply head_is_cons in E44 as (r & Es). rewrite Es in E, H. cbn [tail] in H.
    apply bind_Some in H as ([fs' l5] & Hr & [= <- <-]).
    assert (Forall is_byte r) as Hrb.
    { rewrite E in Hb. apply Forall_app in Hb as [_ Hb]. apply Forall_app in Hb as [_ Hb].
      apply Forall_app in Hb as [_ Hb]. by apply Forall_inv_tail in Hb. }
    destruct (IHf r fs' Hrb Hr) as (items & Hne & Hall & Emap & Er).
    exists ((h, s, b) :: items). split_and!; [done|by constructor|by rewrite fmap_cons, Emap, <-Em|].
    destruct items as [|e items]; [done|].
    change (separated 44 ?f ((h, s, b) :: e :: items)) with ((lead_text h ++ spell s ++ b) ++ 44 :: separated 44 f (e :: items)).
    rewrite E, Er. by rewrite <-!app_assoc.
  - destruct (head_is 125 (skip_space l4)) eqn:E125; [|done]. injection H as <- <-.
    apply head_is_cons in E125 as (r & Es). rewrite Es in E |- *. cbn [tail].
    exists [(h, s, b)]. split_and!; [done|by constructor; [|constructor]|by rewrite <-Em|].
    cbn [separated fst snd]. rewrite E. by rewrite <-!app_assoc.
Qed.
End Containers.

Lemma container_cases {A} close (build : string → list A → doc) read l d rest :
  (∀ fuel l, read fuel (skip_space l) = read fuel l) → container close build read l = Some (d, rest) →
  (∃ ws, spaces ws ∧ tail l = ws ++ close :: rest ∧ d = build (consumed l rest) []) ∨
  (∃ fuel items, read fuel (tail l) = Some (items, rest) ∧ d = build (consumed l rest) items).
Proof.
  intros Hread. unfold container. destruct (head_is close (skip_space (tail l))) eqn:E.
  - apply head_is_cons in E as (r & Er). rewrite Er. cbn [tail]. intros [= <- <-]. left.
    destruct (spaces_split (tail l)) as (ws & Hws & El). rewrite Er in El. eauto.
  - rewrite Hread. intros ([items rest'] & Hr & [= <- <-])%bind_Some. right. eauto.
Qed.

Lemma elements_skip val fuel l : elements val fuel (skip_space l) = elements val fuel l.
Proof. destruct fuel; [done|]. cbn [elements]. by rewrite skip_space_idem. Qed.

Lemma members_skip val fuel l : members val fuel (skip_space l) = members val fuel l.
Proof. destruct fuel; [done|]. cbn [members]. by rewrite skip_space_idem. Qed.

Lemma scalar_syntax depth l d rest : Forall is_byte l → scalar l = Some (d, rest) →
  ∃ s, valid depth s ∧ l = spell s ++ rest ∧ meaning s = d.
Proof.
  intros Hb Hv. destruct (head_is 34 l) eqn:E.
  - apply head_is_cons in E as (r & ->). unfold scalar in Hv. cbn [head_is tail] in Hv. rewrite Z.eqb_refl in Hv.
    apply bind_Some in Hv as ([body rest'] & Hs & [= <- <-]). apply Forall_inv_tail in Hb.
    destruct (quotable_scan _ _ _ Hb Hs) as [Hq ->]. exists (SString body).
    split_and!; [by destruct depth|cbn [spell]; by rewrite <-app_comm_cons, <-app_assoc|done].
  - destruct (scan_word _ _ _ Hb Hv E) as [Hw El]. exists (SWord d). by destruct depth.
Qed.

(** Whatever the decoder reads is the text of a syntax that means it. *)
Lemma value_syntax depth l d rest : Forall is_byte l → value depth l = Some (d, rest) →
  ∃ s, valid depth s ∧ l = spell s ++ rest ∧ meaning s = d.
Proof.
  revert l d rest. induction depth as [|depth IH]; intros l d rest Hb Hv; cbn [value] in Hv.
  all: destruct (head_is 91 l) eqn:E1; [|destruct (head_is 123 l) eqn:E2].
  all: try done.
  all: try (by apply scalar_syntax).
  - apply head_is_cons in E1 as (r & ->). pose proof (Forall_inv_tail Hb) as Hrb.
    destruct (container_cases _ _ _ _ _ _ (elements_skip _) Hv) as [(ws & Hws & Er & ->)|(fuel & ds & Hr & ->)]; cbn [tail] in *.
    + exists (SArray ws []). rewrite Er. split_and!; [done|cbn [spell]; by rewrite <-app_comm_cons, <-app_assoc|].
      cbn [meaning spell]. f_equal. change (91 :: ws ++ 93 :: rest) with ((91 :: ws) ++ [93] ++ rest). by rewrite app_assoc, consumed_app.
    + destruct (elements_syntax depth IH fuel r ds rest Hrb Hr) as (items & Hne & Hall & <- & Er).
      exists (SArray [] items). assert (91 :: r = spell (SArray [] items) ++ rest) as E.
      { cbn [spell]. destruct items; [done|]. rewrite Er. by rewrite <-app_comm_cons, <-app_assoc. }
      split; [split; [constructor|done]|split; [done|]]. cbn [meaning]. f_equal. by rewrite E, consumed_app.
  - apply head_is_cons in E2 as (r & ->). pose proof (Forall_inv_tail Hb) as Hrb.
    destruct (container_cases _ _ _ _ _ _ (members_skip _) Hv) as [(ws & Hws & Er & ->)|(fuel & ds & Hr & ->)]; cbn [tail] in *.
    + exists (SObject ws []). rewrite Er. split_and!; [done|cbn [spell]; by rewrite <-app_comm_cons, <-app_assoc|].
      cbn [meaning spell]. f_equal. change (123 :: ws ++ 125 :: rest) with ((123 :: ws) ++ [125] ++ rest). by rewrite app_assoc, consumed_app.
    + destruct (members_syntax depth IH fuel r ds rest Hrb Hr) as (items & Hne & Hall & <- & Er).
      exists (SObject [] items). assert (123 :: r = spell (SObject [] items) ++ rest) as E.
      { cbn [spell]. destruct items; [done|]. rewrite Er. by rewrite <-app_comm_cons, <-app_assoc. }
      split; [split; [constructor|done]|split; [done|]]. cbn [meaning]. f_equal. by rewrite E, consumed_app.
Qed.

(** A document is one syntax between white space. *)
Lemma document_syntax t d : parse_document t = Some d →
  ∃ a s b, spaces a ∧ valid maxNestingDepth s ∧ spaces b ∧ meaning s = d ∧ bytes_of t = a ++ spell s ++ b.
Proof.
  unfold parse_document, parse_within. generalize maxNestingDepth. intros n ([d' rest] & Hv & H)%bind_Some.
  pose proof (bytes_of_range t) as Hb.
  destruct (item_syntax n (value_syntax n) _ _ _ Hb Hv) as (a & s & b & Ha & Hs & Hbs & Em & E).
  destruct (skip_space rest) eqn:Er; [|done]. injection H as <-. exists a, s, b. rewrite app_nil_r in E. done.
Qed.

(** ** From syntax to text *)

Lemma spaces_skip ws k : spaces ws → skip_space (ws ++ k) = skip_space k.
Proof. apply skip_space_app. Qed.

(** The first byte of a value. *)
Lemma spell_head depth s : valid depth s → ∃ c l, spell s = c :: l ∧ is_space c = false ∧ c ≠ 93 ∧ c ≠ 125 ∧ c ≠ 44 ∧
  (c = 91 → ∃ ws items, s = SArray ws items) ∧ (c = 123 → ∃ ws items, s = SObject ws items).
Proof.
  destruct s as [d|body|ws items|ws items]; intros Hv.
  - destruct d as [|[]|lit| | |]; try (by destruct depth); try (by eexists _, _).
    assert (scan_number (bytes_of lit) = Some (bytes_of lit, [])) as Hn by (by destruct depth).
    apply scan_number_spec in Hn as (_ & (b & t & E & Hb) & _). exists b, t. split; [done|].
    destruct Hb as [Hb| ->]; [|done]. unfold is_digit, is_space in *. lia.
  - by eexists _, _.
  - eexists _, _. split_and!; [done..|eauto|done].
  - eexists _, _. split_and!; [done..|eauto].
Qed.

Lemma separated_cons {A} (f : A → list Z) e e' items :
  separated 44 f (e :: e' :: items) = f e ++ 44 :: separated 44 f (e' :: items).
Proof. done. Qed.

Lemma separated_tail {A} (f : A → list Z) e items :
  ∃ t, separated 44 f (e :: items) = f e ++ t ∧ (length items ≤ length t)%nat.
Proof.
  revert e. induction items as [|e' items IH]; intros e; [exists []; split; [by rewrite app_nil_r|done]|].
  destruct (IH e') as (t & E & Hl). exists (44 :: separated 44 f (e' :: items)). rewrite separated_cons. split; [done|].
  rewrite E. cbn [length]. rewrite length_app. lia.
Qed.

Definition reads_back (depth : nat) (s : syntax) : Prop :=
  ∀ k, number_stop k → value depth (spell s ++ k) = Some (meaning s, k).

Definition array_item (e : list Z * syntax * list Z) : list Z := e.1.1 ++ spell e.1.2 ++ e.2.
Definition object_item (e : lead * syntax * list Z) : list Z := lead_text e.1.1 ++ spell e.1.2 ++ e.2.

Lemma spaces_then ws c k : spaces ws → is_space c = false → skip_space (ws ++ c :: k) = c :: k.
Proof. intros Hw Hc. rewrite spaces_skip by done. cbn [skip_space]. by rewrite Hc. Qed.

Lemma reads_item depth s a b c k : spaces a → valid depth s → reads_back depth s → spaces b → is_space c = false → number_byte c = false →
  value depth (skip_space (a ++ spell s ++ b ++ c :: k)) = Some (meaning s, b ++ c :: k) ∧ skip_space (b ++ c :: k) = c :: k.
Proof.
  intros Ha Hv Hr Hb Hc Hn. split; [|by apply spaces_then].
  rewrite spaces_skip by done. destruct (spell_head _ _ Hv) as (h & t & E & Hh & _).
  rewrite skip_space_id by (rewrite E; done). apply Hr. by apply spaces_stop.
Qed.

Lemma elements_read depth e items k fuel :
  Forall (λ e, spaces e.1.1 ∧ (valid depth e.1.2 ∧ reads_back depth e.1.2) ∧ spaces e.2) (e :: items) → (length (e :: items) ≤ fuel)%nat →
  elements (value depth) fuel (separated 44 array_item (e :: items) ++ 93 :: k) = Some ((λ e, meaning e.1.2) <$> e :: items, k).
Proof.
  revert e fuel. induction items as [|e' items IH]; intros [[a s] b] fuel [(Ha & (Hs & Hr) & Hb) Hall]%Forall_cons Hf; cbn [fst snd] in *;
    (destruct fuel as [|fuel]; [simpl in Hf; lia|]).
  - cbn [separated elements]. unfold array_item. cbn [fst snd]. rewrite <-!app_assoc.
    destruct (reads_item depth s a b 93 k Ha Hs Hr Hb eq_refl eq_refl) as [-> E]. cbn [mbind option_bind]. by rewrite E.
  - rewrite separated_cons. specialize (IH e' fuel Hall ltac:(simpl in *; lia)). revert IH.
    generalize (separated 44 array_item (e' :: items)). intros S IH. cbn [elements]. unfold array_item. cbn [fst snd].
    rewrite <-!app_assoc. cbn [app].
    destruct (reads_item depth s a b 44 (S ++ 93 :: k) Ha Hs Hr Hb eq_refl eq_refl) as [-> E]. cbn [mbind option_bind].
    rewrite E. cbn [head_is tail]. simpl (44 =? 44). by rewrite IH.
Qed.

Lemma lead_read h depth s b c k : lead_ok h → valid depth s → reads_back depth s → spaces b → is_space c = false → number_byte c = false →
  ∃ l1 l2 l3, strip [34] (skip_space (object_item (h, s, b) ++ c :: k)) = Some l1 ∧ scan_string l1 = Some (ld_key h, l2) ∧
    strip [58] (skip_space l2) = Some l3 ∧ value depth (skip_space l3) = Some (meaning s, b ++ c :: k) ∧ skip_space (b ++ c :: k) = c :: k.
Proof.
  intros (H1 & [H2 _] & H3 & H4) Hs Hr Hb Hc Hn. destruct h as [before key mid after]. cbn in H1, H2, H3, H4. cbn [ld_key].
  exists (key ++ 34 :: mid ++ 58 :: after ++ spell s ++ b ++ c :: k), (mid ++ 58 :: after ++ spell s ++ b ++ c :: k), (after ++ spell s ++ b ++ c :: k).
  assert (object_item ({| ld_before := before; ld_key := key; ld_mid := mid; ld_after := after |}, s, b) ++ c :: k =
    before ++ 34 :: key ++ 34 :: mid ++ 58 :: after ++ spell s ++ b ++ c :: k) as ->.
  { unfold object_item, lead_text. cbn. by repeat (rewrite <-?app_assoc; cbn [app]). }
  split_and!.
  - by rewrite spaces_then.
  - by apply (scan_string_spec (key ++ [34]) key []).
  - by rewrite spaces_then.
  - by apply reads_item.
  - by apply spaces_then.
Qed.

Lemma members_read depth e items k fuel :
  Forall (λ e, lead_ok e.1.1 ∧ (valid depth e.1.2 ∧ reads_back depth e.1.2) ∧ spaces e.2) (e :: items) → (length (e :: items) ≤ fuel)%nat →
  members (value depth) fuel (separated 44 object_item (e :: items) ++ 125 :: k) =
    Some ((λ e, (string_value (ld_key e.1.1), meaning e.1.2)) <$> e :: items, k).
Proof.
  revert e fuel. induction items as [|e' items IH]; intros [[h s] b] fuel [(Hh & (Hs & Hr) & Hb) Hall]%Forall_cons Hf; cbn [fst snd] in *;
    (destruct fuel as [|fuel]; [simpl in Hf; lia|]).
  - cbn [separated members]. destruct (lead_read h depth s b 125 k Hh Hs Hr Hb eq_refl eq_refl) as (l1 & l2 & l3 & -> & E2 & E3 & E4 & E5).
    cbn [mbind option_bind]. rewrite E2. cbn [mbind option_bind]. rewrite E3. cbn [mbind option_bind]. rewrite E4. cbn [mbind option_bind]. by rewrite E5.
  - rewrite separated_cons. specialize (IH e' fuel Hall ltac:(simpl in *; lia)). revert IH.
    generalize (separated 44 object_item (e' :: items)). intros S IH. cbn [members]. rewrite <-app_assoc. cbn [app].
    destruct (lead_read h depth s b 44 (S ++ 125 :: k) Hh Hs Hr Hb eq_refl eq_refl) as (l1 & l2 & l3 & -> & E2 & E3 & E4 & E5).
    cbn [mbind option_bind]. rewrite E2. cbn [mbind option_bind]. rewrite E3. cbn [mbind option_bind]. rewrite E4. cbn [mbind option_bind].
    rewrite E5. cbn [head_is tail]. simpl (44 =? 44). by rewrite IH.
Qed.

(** A container that is spelled with items, read. *)
Lemma container_read {A B} (item : B → list Z) open close (build : string → list A → doc) read e items k out :
  is_space close = false → 
  (∃ ws c t, item e = ws ++ c :: t ∧ spaces ws ∧ is_space c = false ∧ c ≠ close) →
  (∀ fuel l, read fuel (skip_space l) = read fuel l) →
  (∀ fuel, (length (e :: items) ≤ fuel)%nat → read fuel (separated 44 item (e :: items) ++ close :: k) = Some (out, k)) →
  container close build read ((open :: separated 44 item (e :: items) ++ [close]) ++ k) =
    Some (build (of_bytes (open :: separated 44 item (e :: items) ++ [close])) out, k).
Proof.
  intros Hclose (ws & c & t & Ei & Hws & Hc & Hne) Hskip Hread. unfold container. cbn [app tail]. rewrite <-app_assoc. cbn [app].
  destruct (separated_tail item e items) as (u & Es & Hu).
  assert (skip_space (separated 44 item (e :: items) ++ close :: k) = c :: t ++ u ++ close :: k) as E.
  { rewrite Es, Ei, <-!app_assoc. cbn [app]. by apply spaces_then. }
  rewrite E. cbn [head_is]. rewrite (proj2 (Z.eqb_neq _ _) Hne). rewrite <-E, Hskip, Hread.
  - cbn [mbind option_bind]. change (open :: separated 44 item (e :: items) ++ close :: k) with ((open :: separated 44 item (e :: items)) ++ [close] ++ k).
    by rewrite app_assoc, consumed_app.
  - rewrite E. cbn [length]. rewrite !length_app. lia.
Qed.

Lemma container_blank {A} open close (build : string → list A → doc) read ws k : spaces ws → is_space close = false →
  container close build read ((open :: ws ++ [close]) ++ k) = Some (build (of_bytes (open :: ws ++ [close])) [], k).
Proof.
  intros Hw Hc. unfold container. cbn [app tail]. rewrite <-app_assoc. cbn [app]. rewrite spaces_then by done.
  cbn [head_is tail]. rewrite Z.eqb_refl. change (open :: ws ++ close :: k) with ((open :: ws) ++ [close] ++ k). by rewrite app_assoc, consumed_app.
Qed.

Lemma word_reads d : word d → ∀ k, number_stop k → scalar (bytes_of (raw_text d) ++ k) = Some (d, k).
Proof.
  destruct d as [|[]|lit| | |]; try done. cbn [word raw_text]. intros Hn k Hk.
  pose proof Hn as (_ & (b & t & E & Hb) & Hnk)%scan_number_spec. unfold scalar. rewrite (Hnk k Hk), E. cbn [app head_is].
  assert (b ≠ 34 ∧ b ≠ 110 ∧ b ≠ 116 ∧ b ≠ 102) as (H1 & H2 & H3 & H4).
  { unfold is_digit in Hb. destruct Hb as [[?%Z.leb_le ?%Z.leb_le]%andb_prop| ->]; [lia|done]. }
  rewrite (proj2 (Z.eqb_neq _ _) H1). change (b :: t ++ k) with ([b] ++ t ++ k).
  erewrite (strip_none (bytes_of "null") [b]) by (done || congruence).
  erewrite (strip_none (bytes_of "true") [b]) by (done || congruence).
  erewrite (strip_none (bytes_of "false") [b]) by (done || congruence).
  cbn [mbind option_bind]. by rewrite <-E, of_bytes_bytes_of.
Qed.

(** The text of every syntax reads as what it means. *)
Lemma syntax_reads depth s : valid depth s → reads_back depth s.
Proof.
  revert s. induction depth as [|depth IH]; intros s Hv k Hk; destruct (spell_head _ _ Hv) as (c & l & E & _ & _ & _ & _ & H91 & H123);
    destruct s as [d|body|ws items|ws items]; try done.
  1,3: assert (c ≠ 91 ∧ c ≠ 123) as [Hc1 Hc2] by (split; intros ->; [destruct (H91 eq_refl) as (? & ? & ?)|destruct (H123 eq_refl) as (? & ? & ?)]; done);
    rewrite E; cbn [value app head_is]; rewrite !(proj2 (Z.eqb_neq _ _)) by done;
    change (c :: l ++ k) with ((c :: l) ++ k); rewrite <-E; by apply word_reads.
  1,2: destruct Hv as [Hs _]; cbn [spell value app head_is]; unfold scalar; cbn [head_is tail]; rewrite <-app_assoc;
    destruct (scan_string_spec _ _ _ Hs) as [_ Hb]; cbn [app]; simpl; by rewrite Hb.
  - destruct Hv as [Hws Hall]. cbn [value]. destruct items as [|e items].
    + cbn [spell]. cbn [app head_is]. simpl (91 =? 91). by apply (container_blank 91 93 DArray).
    + assert (value (S depth) (spell (SArray ws (e :: items)) ++ k) =
        container 93 DArray (elements (value depth)) (spell (SArray ws (e :: items)) ++ k)) as Ev by done.
      cbn [value] in Ev. rewrite Ev. apply (container_read array_item 91 93 DArray); [done| |by intros; apply elements_skip|].
      * apply Forall_inv in Hall as (Ha & Hs & _). destruct (spell_head _ _ Hs) as (c' & t & E' & Hc & Hne & _).
        exists e.1.1, c', (t ++ e.2). unfold array_item. rewrite E'. done.
      * intros fuel Hf. apply elements_read; [|done]. eapply Forall_impl; [exact Hall|]. intros e' (? & ? & ?). auto.
  - destruct Hv as [Hws Hall]. cbn [value]. destruct items as [|e items].
    + cbn [spell]. cbn [app head_is]. simpl. by apply (container_blank 123 125 DObject).
    + assert (value (S depth) (spell (SObject ws (e :: items)) ++ k) =
        container 125 DObject (members (value depth)) (spell (SObject ws (e :: items)) ++ k)) as Ev by done.
      cbn [value] in Ev. rewrite Ev. apply (container_read object_item 123 125 DObject); [done| |by intros; apply members_skip|].
      * apply Forall_inv in Hall as ((Hb & _) & _). eexists (ld_before e.1.1), 34, _. unfold object_item, lead_text.
        rewrite <-app_assoc. cbn [app]. done.
      * intros fuel Hf. apply members_read; [|done]. eapply Forall_impl; [exact Hall|]. intros e' (? & ? & ?). auto.
Qed.

Lemma syntax_parses depth a s b : spaces a → valid depth s → spaces b → parse_within depth (a ++ spell s ++ b) = Some (meaning s).
Proof.
  intros Ha Hs Hb. unfold parse_within. rewrite spaces_skip by done.
  destruct (spell_head _ _ Hs) as (c & l & E & Hc & _). rewrite skip_space_id by (rewrite E; done).
  rewrite (syntax_reads _ _ Hs).
  - cbn [mbind option_bind]. rewrite <-(app_nil_r b). by rewrite spaces_skip.
  - destruct Hb as [|x b Hx _]; [done|]. by apply (spaces_stop [x] 44 []); [constructor|].
Qed.

Lemma separated_bytes {A} (f : A → list Z) l : Forall (λ e, Forall is_byte (f e)) l → Forall is_byte (separated 44 f l).
Proof.
  induction 1 as [|e l He Hl IH]; [constructor|]. destruct l as [|e' l]; [done|]. rewrite separated_cons.
  apply Forall_app. split; [done|]. by constructor.
Qed.

Lemma lead_bytes_ok h : lead_ok h → Forall is_byte (lead_text h).
Proof.
  intros (H1 & [_ H2] & H3 & H4). unfold lead_text. apply Forall_app. split; [by apply spaces_bytes|].
  constructor; [done|]. apply Forall_app. split; [done|]. constructor; [done|].
  apply Forall_app. split; [by apply spaces_bytes|]. constructor; [done|by apply spaces_bytes].
Qed.

Lemma spell_bytes depth s : valid depth s → Forall is_byte (spell s).
Proof.
  revert s. induction depth as [|depth IH]; intros [d|body|ws items|ws items] Hv; try done.
  1,3: apply bytes_of_range.
  1,2: destruct Hv as [_ Hb]; constructor; [done|]; apply Forall_app; split; [done|by constructor].
  - destruct Hv as [Hws Hall]. cbn [spell]. constructor; [done|]. apply Forall_app. split; [|by constructor].
    destruct items as [|e items]; [by apply spaces_bytes|]. apply separated_bytes.
    eapply Forall_impl; [exact Hall|]. intros e' (? & ? & ?). rewrite !Forall_app. auto using spaces_bytes.
  - destruct Hv as [Hws Hall]. cbn [spell]. constructor; [done|]. apply Forall_app. split; [|by constructor].
    destruct items as [|e items]; [by apply spaces_bytes|]. apply separated_bytes.
    eapply Forall_impl; [exact Hall|]. intros e' (? & ? & ?). rewrite !Forall_app. auto using spaces_bytes, lead_bytes_ok.
Qed.

(** A value's raw text is its spelling. *)
Lemma raw_meaning depth s : valid depth s → bytes_of (raw_text (meaning s)) = spell s.
Proof.
  intros Hv. pose proof (spell_bytes _ _ Hv) as Hb. destruct s as [d|body|ws items|ws items]; cbn [meaning raw_text]; try done.
  all: by apply bytes_of_of_bytes.
Qed.

End JsonSyntax.
