(* ===== verification/JsonScan.v ===== *)
(** * The renderer's scanner on the documents the decoder reads

    The scan of a syntax's text, node by node: what the renderer takes for
    the value of a key, and where it stands, is what encoding/json reads
    there. *)

From Stdlib Require Import Ascii String.
From S2P Require Import Prelude GoJson GoText GoDecode GoDecodeProps GoPrint Render RenderProps RenderTheorems JsonText JsonSyntax.

Module JsonScan.
Import GoJson GoText GoDecode GoPrint Render RenderProps RenderTheorems JsonText JsonSyntax.

(** ** String literals *)

(** The scan of a literal's inside reaches its quote and nothing is left. *)
Definition closes (l : list Z) : Prop := ∃ body, GoDecode.scan_string l = Some (body, []).

Lemma closes_char b l : (b ≠ 34)%Z → (b ≠ 92)%Z → closes (b :: l) → (32 ≤ b)%Z ∧ closes l.
Proof.
  intros H1 H2 [body H]. cbn [GoDecode.scan_string] in H. rewrite !(proj2 (Z.eqb_neq _ _)) in H by done.
  destruct (b <? 32)%Z eqn:E; [done|]. apply Z.ltb_ge in E. split; [done|].
  apply bind_Some in H as ([body' rest] & Hs & [= <- ->]). by exists body'.
Qed.

Lemma closes_continuation b l : continuation b = true → closes (b :: l) → closes l.
Proof.
  unfold continuation. intros [?%Z.leb_le ?%Z.leb_le]%andb_prop Hc. by apply closes_char in Hc as [_ ?]; [|lia..].
Qed.

Lemma closes_rune b l : (b ≠ 34)%Z → (b ≠ 92)%Z → closes (b :: l) →
  ∃ r ok rest, decode_rune (b :: l) = Some (r, ok, rest) ∧ closes rest ∧ length rest ≤ length l.
Proof.
  intros H1 H2 Hc. apply closes_char in Hc as [_ Hc]; [|done..].
  assert (∃ r ok rest, Some (rune_error, false, l) = Some (r, ok, rest) ∧ closes rest ∧ length rest ≤ length l) as Hbad by eauto 6.
  cbn [decode_rune]. destruct (b <? 128)%Z; [eauto 6|].
  destruct (_ && _).
  { destruct l as [|b1 l]; [done|]. destruct (continuation b1) eqn:E1; [|done].
    eexists _, _, _. split; [done|]. split; [by eapply closes_continuation|simpl; lia]. }
  destruct (_ && _).
  { destruct l as [|b1 [|b2 l]]; [done..|]. destruct (_ && _) eqn:E; [|done].
    apply andb_prop in E as [[[E1 E2]%andb_prop _]%andb_prop _]. eexists _, _, _. split; [done|].
    split; [|simpl; lia]. eauto using closes_continuation. }
  destruct (_ && _); [|done].
  destruct l as [|b1 [|b2 [|b3 l]]]; [done..|]. destruct (_ && _) eqn:E; [|done].
  apply andb_prop in E as [[[[E1 E2]%andb_prop E3]%andb_prop _]%andb_prop _]. eexists _, _, _. split; [done|].
  split; [|simpl; lia]. eauto using closes_continuation.
Qed.

Lemma closes_hex4 l : closes (92%Z :: 117%Z :: l) → ∃ n rest, hex4 l = Some (n, rest) ∧ closes rest ∧ length rest ≤ length l.
Proof.
  intros [body H]. cbn [GoDecode.scan_string] in H. simpl in H.
  destruct l as [|h1 [|h2 [|h3 [|h4 l]]]]; try done. unfold is_hex in H. cbn [hex4].
  destruct (hex_value h1), (hex_value h2), (hex_value h3), (hex_value h4); try done. simpl in H.
  apply bind_Some in H as ([body' rest] & Hs & [= <- ->]). eexists _, _. split; [done|]. split; [by eexists|simpl; lia].
Qed.

Lemma closes_escape l : closes (92%Z :: l) → ∃ v rest, unescape l = Some (v, rest) ∧ closes rest ∧ length rest ≤ length l.
Proof.
  intros Hc. destruct l as [|e l]; [by destruct Hc|]. destruct (Z.eqb_spec e 117) as [->|Hne].
  - destruct (closes_hex4 _ Hc) as (hi & r1 & E & Hr1 & Hl). cbn [unescape]. rewrite E. cbn [mbind option_bind].
    assert (∀ v : list Z, ∃ (v' : list Z) rest, Some (v, r1) = Some (v', rest) ∧ closes rest ∧ length rest ≤ length (117%Z :: l)) as Hhere.
    { intros v. eexists _, _. split; [done|]. split; [done|simpl; lia]. }
    destruct (_ && _); [|apply Hhere].
    destruct r1 as [|b1 [|b2 r2]]; [apply Hhere|repeat case_match; apply Hhere|].
    destruct (decide (b1 = 92 ∧ b2 = 117)%Z) as [[-> ->]|Hno].
    + destruct (closes_hex4 _ Hr1) as (lo & r3 & -> & Hr3 & Hl3).
      destruct (_ && _); [|apply Hhere]. eexists _, _. split; [done|]. split; [done|simpl in *; lia].
    + repeat case_match; try apply Hhere; subst; by destruct Hno.
  - destruct Hc as [body H]. cbn [GoDecode.scan_string] in H. simpl in H. rewrite (proj2 (Z.eqb_neq _ _) Hne) in H.
    destruct (simple_escape e) eqn:E; [|done]. apply bind_Some in H as ([body' rest] & Hs & [= <- ->]).
    assert (closes l) as Hl by (by exists body'). unfold simple_escape in E. cbn [existsb] in E.
    rewrite !orb_true_iff, !Z.eqb_eq in E.
    destruct E as [->|[->|[->|[->|[->|[->|[->|[->|]]]]]]]]; [..|done]; eexists _, _; (split; [reflexivity|]); (split; [done|simpl; lia]).
Qed.

Lemma closes_unquote fuel l : closes l → length l ≤ fuel → is_Some (unquote_body fuel l).
Proof.
  revert l. induction fuel as [|fuel IH]; intros l Hc Hf.
  { destruct l; [by destruct Hc|simpl in Hf; lia]. }
  destruct l as [|b l]; [by destruct Hc|]. simpl in Hf.
  destruct (Z.eqb_spec b 34) as [->|H34].
  { destruct Hc as [body H]. cbn [GoDecode.scan_string] in H. simpl in H. injection H as _ ->. by eexists. }
  destruct (Z.eqb_spec b 92) as [->|H92].
  { destruct (closes_escape _ Hc) as (v & rest & E & Hr & Hl). cbn [unquote_body]. rewrite E. cbn [mbind option_bind].
    destruct (IH rest Hr) as [t ->]; [lia|]. by eexists. }
  rewrite unquote_body_char by done. destruct (closes_rune _ _ H34 H92 Hc) as (r & ok & rest & E & Hr & Hl).
  destruct (closes_char _ _ H34 H92 Hc) as [Hb _]. rewrite (proj2 (Z.ltb_ge _ _)) by done. rewrite E. cbn [mbind option_bind].
  destruct (IH rest Hr) as [t ->]; [lia|]. by eexists.
Qed.

Lemma scan_string_body l body rest : GoDecode.scan_string l = Some (body, rest) → string_body body.
Proof.
  revert body. induction (Nat.lt_wf_0_projected (length (A:=Z)) l) as [l _ IH]. intros body.
  destruct l as [|b r]; [done|]. cbn [GoDecode.scan_string].
  destruct (Z.eqb_spec b 34) as [->|H34]; [intros [= <- <-]; constructor|].
  destruct (Z.eqb_spec b 92) as [->|H92].
  - destruct r as [|e r]; [done|]. destruct (Z.eqb_spec e 117) as [->|H117].
    + destruct r as [|h1 [|h2 [|h3 [|h4 r]]]]; try done. destruct (_ && _ && _ && _) eqn:E; [|done].
      intros ([body' rest'] & Hs & [= <- <-])%bind_Some. apply IH in Hs; [|simpl; lia].
      assert (∀ h, is_hex h = true → h ≠ 34 ∧ h ≠ 92)%Z as Hh.
      { intros h. unfold is_hex. destruct (hex_value h) eqn:Ev; [|done]. intros _. split; intros ->; done. }
      apply andb_prop in E as [[[E1 E2]%andb_prop E3]%andb_prop E4].
      apply BodyEscape. repeat (apply BodyChar; [by apply Hh|by apply Hh|]). done.
    + destruct (simple_escape e); [|done]. intros ([body' rest'] & Hs & [= <- <-])%bind_Some.
      apply IH in Hs; [by apply BodyEscape|simpl; lia].
  - destruct (b <? 32)%Z; [done|]. intros ([body' rest'] & Hs & [= <- <-])%bind_Some.
    apply IH in Hs; [by apply BodyChar|simpl; lia].
Qed.

Lemma quotable_lit body : quotable body → string_lit (b_quote :: body ++ [b_quote]) (string_value body).
Proof.
  intros [Hs Hb]. exists body. split_and!; [done|by eapply scan_string_body|].
  unfold unquote. rewrite bytes_of_of_bytes.
  2: { constructor; [done|]. apply Forall_app. split; [done|by constructor]. }
  change b_quote with 34%Z. cbn beta iota. unfold string_value.
  destruct (closes_unquote (S (length (body ++ [34%Z]))) (body ++ [34%Z])) as [t Ht]; [by exists body|lia|].
  rewrite length_app in Ht |- *. cbn [length] in Ht |- *. by rewrite Ht.
Qed.

(** ** White space and words *)

Lemma spaces_gap l : spaces l → gap l.
Proof.
  intros Hs. apply gap_blanks. eapply Forall_impl; [exact Hs|]. intros c. unfold is_space, is_blank, b_space, b_tab, b_cr, b_lf.
  rewrite !orb_true_iff, !Z.eqb_eq. tauto.
Qed.

(** A byte of a number. *)
Definition numeral (b : Z) : Prop := is_digit b = true ∨ b = 45%Z ∨ b = 43%Z ∨ b = 46%Z ∨ b = 101%Z ∨ b = 69%Z.

Lemma digits1_numeral l ds rest : digits1 l = Some (ds, rest) → Forall numeral ds.
Proof. intros (_ & _ & Hf & _)%GoDecodeProps.digits1_spec. eapply Forall_impl; [exact Hf|]. by left. Qed.

Lemma scan_number_numeral l lit rest : scan_number l = Some (lit, rest) → Forall numeral lit.
Proof.
  assert (∀ b : Z, b = 45%Z ∨ b = 43%Z ∨ b = 46%Z ∨ b = 101%Z ∨ b = 69%Z → numeral b) as Hn by (intros b; unfold numeral; tauto).
  unfold scan_number. destruct (if head_is 45 l then _ else _) as [sign l0] eqn:Es.
  assert (Forall numeral sign) as Hsign.
  { destruct (head_is 45 l); injection Es as <- <-; [|constructor]. constructor; [auto|constructor]. }
  intros ([int l1] & Hi & H)%bind_Some. apply bind_Some in H as ([frac l2] & Hf & H). apply bind_Some in H as ([exp l3] & He & [= <- <-]).
  repeat (apply Forall_app; split); [done|..].
  - unfold scan_int in Hi. destruct (head_is 48 l0); [|by eapply digits1_numeral].
    injection Hi as <- <-. constructor; [by left|constructor].
  - unfold scan_fraction in Hf. destruct (head_is 46 l1); [|injection Hf as <- <-; constructor].
    apply bind_Some in Hf as ([ds r] & Hd%digits1_numeral & [= <- <-]). constructor; [auto 6|done].
  - unfold scan_exponent in He. destruct l2 as [|e r]; [injection He as <- <-; constructor|].
    destruct (_ || _) eqn:Ee; [|injection He as <- <-; constructor].
    assert (numeral e) as Hne. { apply orb_true_iff in Ee as [->%Z.eqb_eq| ->%Z.eqb_eq]; auto 8. }
    destruct r as [|x r]; [done|]. destruct ((x =? 43) || (x =? 45))%Z eqn:Ex;
      apply bind_Some in He as ([ds r'] & Hd%digits1_numeral & [= <- <-]); constructor; [done| |done|done].
    constructor; [|done]. apply orb_true_iff in Ex as [->%Z.eqb_eq| ->%Z.eqb_eq]; auto 8.
Qed.

Lemma numeral_plain b : numeral b → plain b.
Proof.
  unfold numeral, is_digit. rewrite andb_true_iff, !Z.leb_le. intros Hb. repeat split.
  - unfold is_blank, b_space, b_tab, b_cr, b_lf. rewrite !orb_false_iff, !Z.eqb_neq. lia.
  - unfold b_slash. lia.
  - unfold closer, b_comma, b_rbrace, b_rbracket, b_colon. lia.
Qed.

(** The text of a word: plain bytes, the first no container's and no quote. *)
Lemma word_plain d : word d → ∃ c l, bytes_of (raw_text d) = c :: l ∧ Forall plain (c :: l) ∧ c ≠ b_lbrace ∧ c ≠ b_lbracket ∧ c ≠ b_quote.
Proof.
  assert (∀ l, Forall (λ b, 97 ≤ b ≤ 122)%Z l → Forall plain l) as Hw.
  { intros l Hl. eapply Forall_impl; [exact Hl|]. intros b Hb. cbn beta in Hb. repeat split.
    - unfold is_blank, b_space, b_tab, b_cr, b_lf. rewrite !orb_false_iff, !Z.eqb_neq. lia.
    - unfold b_slash. lia.
    - unfold closer, b_comma, b_rbrace, b_rbracket, b_colon. lia. }
  destruct d as [|[]|lit| | |]; try done.
  1-3: intros _; eexists _, _; (split; [reflexivity|]); (split; [apply Hw; repeat (constructor; [vm_compute; split; discriminate|]); constructor|done]).
  cbn [word raw_text]. intros Hn. pose proof (scan_number_numeral _ _ _ Hn) as Hf.
  apply GoDecodeProps.scan_number_spec in Hn as (_ & (b & t & E & Hb) & _). rewrite E in *. exists b, t. split; [done|]. split.
  - eapply Forall_impl; [exact Hf|]. apply numeral_plain.
  - unfold is_digit in Hb. unfold b_lbrace, b_lbracket, b_quote. rewrite andb_true_iff, !Z.leb_le in Hb. lia.
Qed.

(** ** The nodes of a syntax *)

Section Place.
Context {A B : Type} (size : A → nat) (f : nat → A → B).

(** Items side by side from [pos] on, a comma between two. *)
Fixpoint place (pos : nat) (l : list A) : list B :=
  match l with [] => [] | x :: l => f pos x :: place (pos + size x + 1) l end.

(** Where the commas are. *)
Fixpoint commas (pos : nat) (l : list A) : list nat :=
  match l with
  | [] => []
  | x :: l => match l with [] => [] | _ => (pos + size x) :: commas (pos + size x + 1) l end
  end.
End Place.

(** The node of a syntax whose text starts at [pos]. *)
Fixpoint node_at (pos : nat) (s : syntax) : node :=
  let end_ := pos + length (spell s) in
  match s with
  | SWord _ => leaf KLiteral pos end_ ""
  | SString body => leaf KString pos end_ (string_value body)
  | SArray _ items => {|
      n_kind := KArray; n_start := pos; n_end := end_; n_value := ""; n_keys := []; n_propStarts := [];
      n_items := place (λ e, length (array_item e)) (λ p e, node_at (p + length e.1.1) e.1.2) (pos + 1) items;
      n_commas := commas (λ e, length (array_item e)) (pos + 1) items; n_trailing := false |}
  | SObject _ items => {|
      n_kind := KObject; n_start := pos; n_end := end_; n_value := "";
      n_keys := (λ e, string_value (ld_key e.1.1)) <$> items;
      n_propStarts := place (λ e, length (object_item e)) (λ p e, p + length (ld_before e.1.1)) (pos + 1) items;
      n_items := place (λ e, length (object_item e)) (λ p e, node_at (p + length (lead_text e.1.1)) e.1.2) (pos + 1) items;
      n_commas := []; n_trailing := false |}
  end.

(** ** Scanning *)

Lemma array_blank fuel doc start pos its cs tr :
  array_loop fuel doc start (blank doc pos) its cs tr = array_loop fuel doc start pos its cs tr.
Proof. destruct fuel; [done|]. cbn [array_loop]. by rewrite blank_idem. Qed.

Lemma object_blank fuel doc start pos ks ps its tr :
  object_loop fuel doc start (blank doc pos) ks ps its tr = object_loop fuel doc start pos ks ps its tr.
Proof. destruct fuel; [done|]. cbn [object_loop]. by rewrite blank_idem. Qed.

Lemma spell_starts depth s : valid depth s → starts (spell s).
Proof.
  intros Hv. destruct (spell_head _ _ Hv) as (c & l & E & Hc & H93 & _). exists c, l. split; [done|]. split; [|done].
  destruct s as [d|body|ws items|ws items]; cbn [spell] in E.
  - assert (word d) as Hw by (by destruct depth). destruct (word_plain _ Hw) as (c' & l' & E' & Hp & _).
    rewrite E in E'. injection E' as <- <-. by apply Forall_inv in Hp as [? _].
  - by injection E as <- <-.
  - by injection E as <- <-.
  - by injection E as <- <-.
Qed.

(** The scan of a syntax wherever its text stands. *)
Definition scans_at (s : syntax) : Prop :=
  ∀ doc pos X, drop pos doc = spell s ++ X → ends doc (pos + length (spell s)) →
    ∃ fuel, value fuel doc pos = Some (Ok (node_at pos s, pos + length (spell s))).

Lemma word_scans d : word d → scans_at (SWord d).
Proof.
  intros Hw doc pos X Hd He. cbn [spell] in *. destruct (word_plain _ Hw) as (c & l & E & Hp & H1 & H2 & H3).
  exists 1. cbn [value node_at spell]. rewrite E in *. apply Forall_cons in Hp as [Hc Hl].
  assert (blank doc pos = pos) as -> by (apply blank_loop_fixed; eapply solid_stop; [done|apply Hc]).
  destruct (drop_cons _ _ _ _ Hd) as [-> _].
  rewrite !(proj2 (Z.eqb_neq _ _)) by done. by rewrite (literal_text c l doc pos X).
Qed.

Lemma string_scans body : quotable body → scans_at (SString body).
Proof.
  intros Hq%quotable_lit doc pos X Hd _. cbn [spell node_at] in *. exists 1. cbn [value].
  assert (blank doc pos = pos) as -> by (apply blank_loop_fixed; by eapply solid_stop).
  pose proof (str_text _ _ _ _ _ Hq Hd) as Hs. destruct (drop_cons _ _ _ _ Hd) as [-> _]. simpl. by rewrite Hs.
Qed.

(** One element of an array and what the loop finds behind it. *)
Lemma element_step a s b its cs doc start pos c X :
  spaces a → starts (spell s) → scans_at s → spaces b → closer c →
  drop pos doc = array_item (a, s, b) ++ c :: X →
  let p2 := pos + length (array_item (a, s, b)) in
  let comma := (c =? b_comma)%Z in
  let p3 := if comma then blank doc (p2 + 1) else p2 in
  ∃ f, ∀ fuel, f ≤ fuel → array_loop (S fuel) doc start pos its cs false =
    array_loop fuel doc start p3 (its ++ [node_at (pos + length a) s]) (if comma then cs ++ [p2] else cs) (comma && at_byte doc p3 b_rbracket).
Proof.
  intros Ha Hst Hsc Hb Hc Hd p2 comma p3. unfold array_item in Hd. cbn [fst snd] in Hd. rewrite <-!app_assoc in Hd.
  pose proof (drop_step _ _ _ _ Hd) as Hd1. pose proof (drop_step _ _ _ _ Hd1) as Hd2.
  destruct (after_value doc _ b c X (spaces_gap _ Hb) Hc Hd2) as (He & Hbl & Hat).
  destruct (Hsc doc (pos + length a) _ Hd1 He) as (f & Hf). exists f. intros fuel Hle.
  rewrite (element_scan fuel doc start pos a (spell s) (node_at (pos + length a) s) its cs false _ (spaces_gap _ Ha) Hst Hd (value_more f fuel _ _ _ Hle Hf)).
  rewrite Hbl, Hat. subst p2 p3 comma. unfold array_item. cbn [fst snd]. rewrite !length_app.
  replace (pos + length a + length (spell s) + length b) with (pos + (length a + (length (spell s) + length b))) by lia. done.
Qed.

Lemma array_scans items doc start pos its cs X :
  items ≠ [] → Forall (λ e, spaces e.1.1 ∧ starts (spell e.1.2) ∧ scans_at e.1.2 ∧ spaces e.2) items →
  drop pos doc = GoPrint.separated 44%Z array_item items ++ b_rbracket :: X →
  let end_ := pos + length (GoPrint.separated 44%Z array_item items) + 1 in
  ∃ fuel, array_loop fuel doc start pos its cs false = Some (Ok ({|
    n_kind := KArray; n_start := start; n_end := end_; n_value := ""; n_keys := []; n_propStarts := [];
    n_items := its ++ place (λ e, length (array_item e)) (λ p e, node_at (p + length e.1.1) e.1.2) pos items;
    n_commas := cs ++ commas (λ e, length (array_item e)) pos items; n_trailing := false |}, end_)).
Proof.
  revert pos its cs. induction items as [|e items IH]; intros pos its cs; [done|]. intros _ [(Ha & Hst & Hsc & Hb) Hall]%Forall_cons Hd.
  destruct e as [[a s] b]. cbn [fst snd] in *. cbv zeta. destruct items as [|e' items].
  - cbn [GoPrint.separated] in *. destruct (element_step a s b its cs doc start pos b_rbracket X Ha Hst Hsc Hb ltac:(unfold closer; auto) Hd) as (f & Hf).
    cbn [Z.eqb b_rbracket b_comma Pos.eqb andb] in Hf. exists (S (S f)). rewrite (Hf (S f)) by lia. cbn [array_loop].
    pose proof (drop_step _ _ _ _ Hd) as Hd2.
    assert (blank doc (pos + length (array_item (a, s, b))) = pos + length (array_item (a, s, b))) as ->
      by (apply blank_loop_fixed; by eapply solid_stop).
    destruct (drop_cons _ _ _ _ Hd2) as [-> _]. simpl. by rewrite app_nil_r.
  - rewrite separated_cons in Hd |- *. set (rest := GoPrint.separated 44%Z array_item (e' :: items)) in *.
    rewrite <-app_assoc in Hd. cbn [app] in Hd.
    destruct (element_step a s b its cs doc start pos b_comma (rest ++ b_rbracket :: X) Ha Hst Hsc Hb ltac:(unfold closer; auto) Hd) as (f & Hf).
    cbn [Z.eqb b_comma Pos.eqb andb] in Hf. pose proof (drop_step _ _ _ _ Hd) as Hd2. destruct (drop_cons _ _ _ _ Hd2) as [_ Hd3].
    destruct (IH _ (its ++ [node_at (pos + length a) s]) (cs ++ [pos + length (array_item (a, s, b))]) ltac:(done) Hall Hd3) as (f2 & Hr).
    assert (at_byte doc (blank doc (pos + length (array_item (a, s, b)) + 1)) b_rbracket = false) as Hno.
    { destruct (Forall_inv Hall) as (Ha' & (c & l & El & Hc & Hne) & _).
      destruct (separated_tail array_item e' items) as (t & Et & _).
      assert (rest ++ b_rbracket :: X = e'.1.1 ++ c :: (l ++ e'.2 ++ t) ++ b_rbracket :: X) as Er.
      { unfold rest. rewrite Et. unfold array_item. rewrite El. by repeat (rewrite <-?app_assoc; cbn [app]). }
      rewrite Er in Hd3. rewrite (blank_gap e'.1.1 doc _ c _ (spaces_gap _ Ha') Hd3 Hc). apply drop_step in Hd3.
      rewrite (at_byte_drop _ _ _ _ _ Hd3). by apply Z.eqb_neq. }
    exists (S (f + f2)). rewrite Hf by lia. rewrite Hno, array_blank.
    rewrite (array_more f2 (f + f2) _ _ _ _ _ _ _ ltac:(lia) Hr). rewrite length_app. cbn [length].
    do 3 f_equal; [|lia]. f_equal; [lia| |].
    + cbn [place]. rewrite <-app_assoc. done.
    + rewrite <-app_assoc. done.
Qed.

Lemma lead_bytes h s b X : object_item (h, s, b) ++ X =
  ld_before h ++ (b_quote :: ld_key h ++ [b_quote]) ++ ld_mid h ++ b_colon :: ld_after h ++ spell s ++ b ++ X.
Proof. unfold object_item, lead_text. cbn [fst snd]. by repeat (rewrite <-?app_assoc; cbn [app]). Qed.

Lemma lead_length h : length (lead_text h) = length (ld_before h) + length (b_quote :: ld_key h ++ [b_quote]) + length (ld_mid h) + 1 + length (ld_after h).
Proof. unfold lead_text. repeat (rewrite length_app || cbn [length]). lia. Qed.

(** One member of an object and what the loop finds behind it. *)
Lemma member_step h s b ks ps its doc start pos c X :
  lead_ok h → starts (spell s) → scans_at s → spaces b → closer c →
  drop pos doc = object_item (h, s, b) ++ c :: X →
  let p2 := pos + length (object_item (h, s, b)) in
  let comma := (c =? b_comma)%Z in
  let p3 := if comma then blank doc (p2 + 1) else p2 in
  ∃ f, ∀ fuel, f ≤ fuel → object_loop (S fuel) doc start pos ks ps its false =
    object_loop fuel doc start p3 (ks ++ [string_value (ld_key h)]) (ps ++ [pos + length (ld_before h)])
      (its ++ [node_at (pos + length (lead_text h)) s]) (comma && at_byte doc p3 b_rbrace).
Proof.
  intros (H1 & Hk%quotable_lit & H3 & H4) Hst Hsc Hb Hc Hd p2 comma p3.
  assert (drop (pos + length (lead_text h)) doc = spell s ++ b ++ c :: X) as Hd1.
  { unfold object_item in Hd. cbn [fst snd] in Hd. rewrite <-!app_assoc in Hd. by apply drop_step in Hd. }
  rewrite lead_bytes in Hd. pose proof (drop_step _ _ _ _ Hd1) as Hd2.
  destruct (after_value doc _ b c X (spaces_gap _ Hb) Hc Hd2) as (He & Hbl & Hat).
  destruct (Hsc doc (pos + length (lead_text h)) _ Hd1 He) as (f & Hf). exists f. intros fuel Hle.
  pose proof (value_more f fuel _ _ _ Hle Hf) as Hv. rewrite lead_length, !Nat.add_assoc in Hv, Hbl, Hat.
  rewrite (member_scan fuel doc start pos _ _ _ _ _ _ _ ks ps its false _ (spaces_gap _ H1) Hk (spaces_gap _ H3) (spaces_gap _ H4) Hst Hd Hv).
  rewrite Hbl, Hat, lead_length, !Nat.add_assoc. subst p2 p3 comma. unfold object_item. cbn [fst snd].
  rewrite !length_app, lead_length, !Nat.add_assoc. done.
Qed.

Lemma object_scans items doc start pos ks ps its X :
  items ≠ [] → Forall (λ e, lead_ok e.1.1 ∧ starts (spell e.1.2) ∧ scans_at e.1.2 ∧ spaces e.2) items →
  drop pos doc = GoPrint.separated 44%Z object_item items ++ b_rbrace :: X →
  let end_ := pos + length (GoPrint.separated 44%Z object_item items) + 1 in
  ∃ fuel, object_loop fuel doc start pos ks ps its false = Some (Ok ({|
    n_kind := KObject; n_start := start; n_end := end_; n_value := "";
    n_keys := ks ++ ((λ e, string_value (ld_key e.1.1)) <$> items);
    n_propStarts := ps ++ place (λ e, length (object_item e)) (λ p e, p + length (ld_before e.1.1)) pos items;
    n_items := its ++ place (λ e, length (object_item e)) (λ p e, node_at (p + length (lead_text e.1.1)) e.1.2) pos items;
    n_commas := []; n_trailing := false |}, end_)).
Proof.
  revert pos ks ps its. induction items as [|e items IH]; intros pos ks ps its; [done|]. intros _ [(Ha & Hst & Hsc & Hb) Hall]%Forall_cons Hd.
  destruct e as [[h s] b]. cbn [fst snd] in *. cbv zeta. destruct items as [|e' items].
  - cbn [GoPrint.separated] in *. destruct (member_step h s b ks ps its doc start pos b_rbrace X Ha Hst Hsc Hb ltac:(unfold closer; auto) Hd) as (f & Hf).
    cbn [Z.eqb b_rbrace b_comma Pos.eqb andb] in Hf. exists (S (S f)). rewrite (Hf (S f)) by lia. cbn [object_loop].
    pose proof (drop_step _ _ _ _ Hd) as Hd2.
    assert (blank doc (pos + length (object_item (h, s, b))) = pos + length (object_item (h, s, b))) as ->
      by (apply blank_loop_fixed; by eapply solid_stop).
    destruct (drop_cons _ _ _ _ Hd2) as [-> _]. done.
  - rewrite separated_cons in Hd |- *. set (rest := GoPrint.separated 44%Z object_item (e' :: items)) in *.
    rewrite <-app_assoc in Hd. cbn [app] in Hd.
    destruct (member_step h s b ks ps its doc start pos b_comma (rest ++ b_rbrace :: X) Ha Hst Hsc Hb ltac:(unfold closer; auto) Hd) as (f & Hf).
    cbn [Z.eqb b_comma Pos.eqb andb] in Hf. pose proof (drop_step _ _ _ _ Hd) as Hd2. destruct (drop_cons _ _ _ _ Hd2) as [_ Hd3].
    destruct (IH _ (ks ++ [string_value (ld_key h)]) (ps ++ [pos + length (ld_before h)]) (its ++ [node_at (pos + length (lead_text h)) s]) ltac:(done) Hall Hd3) as (f2 & Hr).
    assert (at_byte doc (blank doc (pos + length (object_item (h, s, b)) + 1)) b_rbrace = false) as Hno.
    { destruct (Forall_inv Hall) as ((Ha' & _) & _). destruct (separated_tail object_item e' items) as (t & Et & _).
      destruct e' as [[h' s'] b']. cbn [fst snd] in Ha'. unfold rest in Hd3. rewrite Et, <-app_assoc, lead_bytes in Hd3. cbn [app] in Hd3.
      rewrite (blank_gap (ld_before h') doc _ b_quote _ (spaces_gap _ Ha') Hd3) by done. apply drop_step in Hd3.
      by rewrite (at_byte_drop _ _ _ _ _ Hd3). }
    exists (S (f + f2)). rewrite Hf by lia. rewrite Hno, object_blank.
    rewrite (object_more f2 (f + f2) _ _ _ _ _ _ _ _ ltac:(lia) Hr). rewrite length_app. cbn [length].
    do 3 f_equal; [|lia]. f_equal; [lia|by rewrite <-app_assoc..].
Qed.

Lemma container_at doc pos c l X : drop pos doc = (c :: l) ++ X → solid c →
  blank doc pos = pos ∧ doc !! pos = Some c ∧ drop (pos + 1) doc = l ++ X.
Proof.
  intros Hd Hc. split; [apply blank_loop_fixed; by eapply solid_stop|]. by apply drop_cons.
Qed.

(** A container with nothing but white space inside. *)
Lemma blank_then doc pos ws c X : spaces ws → solid c → drop pos doc = (ws ++ [c]) ++ X →
  blank doc pos = pos + length ws ∧ doc !! (pos + length ws) = Some c.
Proof.
  intros Hws Hc Hd. rewrite <-app_assoc in Hd. cbn [app] in Hd. split; [by apply (blank_gap ws doc pos c X (spaces_gap _ Hws))|].
  apply drop_step in Hd. by destruct (drop_cons _ _ _ _ Hd).
Qed.

Lemma syntax_scans depth s : valid depth s → scans_at s.
Proof.
  revert s. induction depth as [|depth IH]; intros [d|body|ws items|ws items] Hv; try done.
  1,3: by apply word_scans. 1,2: by apply string_scans.
  - destruct Hv as [Hws Hall]. intros doc pos X Hd _. destruct items as [|e items].
    + destruct (container_at _ _ _ _ _ Hd) as (Hb & Hl & Hd1); [done|].
      destruct (blank_then doc (pos + 1) ws 93%Z X) as [Hb1 Hl1]; [done..|].
      exists 2. cbn [value]. rewrite Hb, Hl. simpl. rewrite Hb1, Hl1. simpl. rewrite length_app. cbn [length].
      do 3 f_equal; [|lia]. f_equal. lia.
    + change (spell (SArray ws (e :: items))) with (91%Z :: GoPrint.separated 44%Z array_item (e :: items) ++ [93%Z]) in *.
      destruct (container_at _ _ _ _ _ Hd) as (Hb & Hl & Hd1); [done|]. rewrite <-app_assoc in Hd1. cbn [app] in Hd1.
      destruct (array_scans (e :: items) doc pos (pos + 1) [] [] X ltac:(done)) as (f & Hf); [|exact Hd1|].
      { eapply Forall_impl; [exact Hall|]. intros e' (? & ? & ?). split_and!; eauto using spell_starts. }
      exists (S f). cbn [value]. rewrite Hb, Hl. simpl Z.eqb. cbn beta iota. rewrite Hf. cbn [node_at app].
      change (spell (SArray ws (e :: items))) with (91%Z :: GoPrint.separated 44%Z array_item (e :: items) ++ [93%Z]).
      cbn [length]. rewrite length_app. cbn [length].
      replace (pos + S (length (GoPrint.separated 44%Z array_item (e :: items)) + 1)) with (pos + 1 + length (GoPrint.separated 44%Z array_item (e :: items)) + 1) by lia.
      done.
  - destruct Hv as [Hws Hall]. intros doc pos X Hd _. destruct items as [|e items].
    + destruct (container_at _ _ _ _ _ Hd) as (Hb & Hl & Hd1); [done|].
      destruct (blank_then doc (pos + 1) ws 125%Z X) as [Hb1 Hl1]; [done..|].
      exists 2. cbn [value]. rewrite Hb, Hl. simpl. rewrite Hb1, Hl1. simpl. rewrite length_app. cbn [length].
      do 3 f_equal; [|lia]. f_equal. lia.
    + change (spell (SObject ws (e :: items))) with (123%Z :: GoPrint.separated 44%Z object_item (e :: items) ++ [125%Z]) in *.
      destruct (container_at _ _ _ _ _ Hd) as (Hb & Hl & Hd1); [done|]. rewrite <-app_assoc in Hd1. cbn [app] in Hd1.
      destruct (object_scans (e :: items) doc pos (pos + 1) [] [] [] X ltac:(done)) as (f & Hf); [|exact Hd1|].
      { eapply Forall_impl; [exact Hall|]. intros e' (? & ? & ?). split_and!; eauto using spell_starts. }
      exists (S f). cbn [value]. rewrite Hb, Hl. simpl Z.eqb. cbn beta iota. rewrite Hf. cbn [node_at app].
      change (spell (SObject ws (e :: items))) with (123%Z :: GoPrint.separated 44%Z object_item (e :: items) ++ [125%Z]).
      cbn [length]. rewrite length_app. cbn [length].
      replace (pos + S (length (GoPrint.separated 44%Z object_item (e :: items)) + 1)) with (pos + 1 + length (GoPrint.separated 44%Z object_item (e :: items)) + 1) by lia.
      done.
Qed.

(** The scan of a document the decoder reads: its root, byte for byte. *)
Lemma document_scan depth a s b : spaces a → valid depth s → spaces b →
  let doc := a ++ spell s ++ b in parseJSONC (parse_fuel doc) doc = Some (Ok (node_at (length a) s)).
Proof.
  intros Ha Hv Hb doc. assert (drop (length a) doc = spell s ++ b) as Hd by apply drop_app_length.
  pose proof (drop_step _ _ _ _ Hd) as Hd2.
  destruct (syntax_scans depth s Hv doc (length a) b Hd) as (fuel & Hs).
  { by eapply gap_ends_eof; [apply spaces_gap|]. }
  apply (parse_fuel_enough fuel). unfold parseJSONC. rewrite <-value_blank.
  assert (blank doc 0 = length a) as ->.
  { destruct (spell_starts _ _ Hv) as (c & l' & El & Hc & _).
    apply (blank_gap a doc 0 c (l' ++ b)); [by apply spaces_gap| |done]. unfold doc. by rewrite El. }
  rewrite Hs. assert (length a + length (spell s) + length b = length doc) as Hl by (unfold doc; rewrite !length_app; lia).
  rewrite (gap_blank_eof b doc _ (spaces_gap _ Hb) Hd2 Hl). by rewrite bool_decide_eq_true_2.
Qed.

(** ** Agreement *)

(** The node and the value are the same part of the document, and its parts
    are, one by one. *)
Inductive shows (doc : document) : node → GoDecode.doc → Prop :=
| ShowsWord n d : n_kind n = KLiteral → word d → slice doc (n_start n) (n_end n) = bytes_of (raw_text d) → shows doc n d
| ShowsString n literal s : n_kind n = KString → n_value n = s →
    slice doc (n_start n) (n_end n) = bytes_of literal → shows doc n (DString literal s)
| ShowsArray n text items : n_kind n = KArray → Forall2 (shows doc) (n_items n) items →
    slice doc (n_start n) (n_end n) = bytes_of text → shows doc n (DArray text items)
| ShowsObject n text fields : n_kind n = KObject → n_keys n = fields.*1 → Forall2 (shows doc) (n_items n) (fields.*2) →
    slice doc (n_start n) (n_end n) = bytes_of text → shows doc n (DObject text fields).

Lemma drop_head (doc : document) pos c l X : drop pos doc = (c :: l) ++ X → drop (pos + 1) doc = l ++ X.
Proof. intros Hd. by destruct (drop_cons _ _ _ _ Hd). Qed.

Lemma slice_here doc pos l X : drop pos doc = l ++ X → slice doc pos (pos + length l) = l.
Proof. intros Hd. unfold slice. rewrite Hd. replace (pos + length l - pos) with (length l) by lia. apply take_app_length. Qed.

Lemma place_shows {A} doc (text : A → list Z) (skip : A → nat) (sub : A → syntax) items pos X :
  Forall (λ e, ∀ p Y, drop p doc = text e ++ Y → shows doc (node_at (p + skip e) (sub e)) (meaning (sub e))) items →
  drop pos doc = GoPrint.separated 44%Z text items ++ X →
  Forall2 (shows doc) (place (λ e, length (text e)) (λ p e, node_at (p + skip e) (sub e)) pos items) (meaning ∘ sub <$> items).
Proof.
  intros Hall. revert pos. induction Hall as [|e items He Hall IH]; intros pos Hd; [constructor|]. cbn [place].
  destruct items as [|e' items].
  - cbn [GoPrint.separated] in Hd. constructor; [by eapply He|constructor].
  - rewrite separated_cons, <-app_assoc in Hd. cbn [app] in Hd. constructor; [by eapply He|]. apply IH.
    apply drop_step in Hd. by destruct (drop_cons _ _ _ _ Hd).
Qed.

Lemma syntax_shows depth s doc pos X : valid depth s → drop pos doc = spell s ++ X → shows doc (node_at pos s) (meaning s).
Proof.
  revert s pos X. induction depth as [|depth IH]; intros [d|body|ws items|ws items] pos X Hv Hd; try done;
    pose proof (slice_here _ _ _ _ Hd) as Hs; pose proof (raw_meaning _ _ Hv) as Hraw.
  1,3: by apply ShowsWord.
  1,2: apply ShowsString; [done..|]; cbn [node_at leaf n_start n_end]; rewrite Hs; symmetry; exact Hraw.
  - apply ShowsArray; [done| |cbn [node_at n_start n_end]; rewrite Hs; symmetry; exact Hraw].
    destruct Hv as [Hws Hall]. destruct items as [|e items]; [constructor|].
    change (spell (SArray ws (e :: items))) with (91%Z :: GoPrint.separated 44%Z array_item (e :: items) ++ [93%Z]) in Hd.
    apply drop_head in Hd. rewrite <-app_assoc in Hd.
    apply (place_shows doc array_item (λ e, length e.1.1) (λ e, e.1.2) (e :: items) (pos + 1) ([93%Z] ++ X)); [|exact Hd].
    eapply Forall_impl; [exact Hall|]. intros e' (_ & Hv & _) p Y Hp. unfold array_item in Hp. rewrite <-!app_assoc in Hp.
    apply drop_step in Hp. by eapply IH.
  - apply ShowsObject; [done| | |cbn [node_at n_start n_end]; rewrite Hs; symmetry; exact Hraw].
    { cbn [node_at n_keys]. by rewrite <-list_fmap_compose. }
    destruct Hv as [Hws Hall]. destruct items as [|e items]; [constructor|].
    change (spell (SObject ws (e :: items))) with (123%Z :: GoPrint.separated 44%Z object_item (e :: items) ++ [125%Z]) in Hd.
    apply drop_head in Hd. rewrite <-app_assoc in Hd. cbn [node_at n_items]. rewrite <-list_fmap_compose.
    apply (place_shows doc object_item (λ e, length (lead_text e.1.1)) (λ e, e.1.2) (e :: items) (pos + 1) ([125%Z] ++ X)); [|exact Hd].
    eapply Forall_impl; [exact Hall|]. intros e' (_ & Hv & _) p Y Hp. unfold object_item in Hp. rewrite <-!app_assoc in Hp.
    apply drop_step in Hp. by eapply IH.
Qed.

(** C13: the two readers of the config agree. Whatever file the reading side
    accepts, byte for byte and within its limit on nesting, the renderer's
    scanner accepts too, and sees the same document in it: the same kinds, the
    same keys and strings with their escapes undone, the same items in order,
    each where the decoder's raw text of it stands. *)
Theorem reader_and_renderer_agree document d : parse_document document = Some d →
  let doc := bytes_of document in
  ∃ root, parseJSONC (parse_fuel doc) doc = Some (Ok root) ∧ shows doc root d.
Proof.
  intros (a & s & b & Ha & Hv & Hb & <- & E)%document_syntax doc. subst doc. rewrite E.
  exists (node_at (length a) s). split; [by eapply document_scan|].
  eapply syntax_shows; [exact Hv|]. apply drop_app_length.
Qed.

End JsonScan.
