(* ===== verification/RenderSyntax.v ===== *)
(** * Editing a document as syntax

    Edits of the renderer's kind on a document the decoder reads: what they
    make of its text is the text of another syntax, and so another value. One
    clients array, one entry, one settings object, at their place in the
    whole. *)

From Stdlib Require Import Ascii String.
From S2P Require Import Prelude GoJson GoText GoDecode GoDecodeProps GoPrint Render RenderProps RenderTheorems JsonText JsonSyntax JsonScan XrayDecode.

Module RenderSyntax.
Import GoJson GoText GoDecode GoPrint Render RenderProps RenderTheorems JsonText JsonSyntax JsonScan.

(** ** Editing a part of the text *)

(** The edits carried out on the text that stands at [off]. *)
Fixpoint patch (off : nat) (l : list Z) (edits : list textEdit) : list Z :=
  match edits with
  | [] => l
  | e :: edits => take (te_at e - off) l ++ bytes_of (te_text e) ++ patch (te_end e) (drop (te_end e - off) l) edits
  end.

Lemma splice_patch doc from edits len : disjoint_from from edits len → splice doc from edits = patch from (drop from doc) edits.
Proof.
  revert from. induction edits as [|e edits IH]; intros from; [done|]. intros (? & ? & Hd). cbn [splice patch].
  rewrite (IH _ Hd), drop_drop. unfold slice. by replace (from + (te_end e - from)) with (te_end e) by lia.
Qed.

Lemma disjoint_app a es1 b es2 c : disjoint_from a es1 b → disjoint_from b es2 c → disjoint_from a (es1 ++ es2) c.
Proof.
  revert a. induction es1 as [|e es1 IH]; intros a; cbn.
  - intros Hab Hd. by eapply disjoint_from_mono.
  - intros (? & ? & ?) Hd. auto.
Qed.

Lemma patch_later off l1 l2 es c : disjoint_from (off + length l1) es c → patch off (l1 ++ l2) es = l1 ++ patch (off + length l1) l2 es.
Proof.
  destruct es as [|e es]; [done|]. intros (Ha & He & Hd). cbn [patch].
  rewrite take_app_ge by lia. rewrite drop_app_ge by lia. rewrite <-!app_assoc.
  replace (te_at e - off - length l1) with (te_at e - (off + length l1)) by lia.
  by replace (te_end e - off - length l1) with (te_end e - (off + length l1)) by lia.
Qed.

Lemma patch_app off l1 l2 es1 es2 c :
  disjoint_from off es1 (off + length l1) → disjoint_from (off + length l1) es2 c →
  patch off (l1 ++ l2) (es1 ++ es2) = patch off l1 es1 ++ patch (off + length l1) l2 es2.
Proof.
  revert off l1. induction es1 as [|e es1 IH]; intros off l1 H1 H2; [by eapply patch_later|].
  destruct H1 as (Ha & He & Hd). pose proof (disjoint_from_le _ _ _ Hd). cbn [patch app].
  rewrite take_app_le by lia. rewrite drop_app_le by lia. rewrite <-!app_assoc. do 2 f_equal.
  replace (off + length l1) with (te_end e + length (drop (te_end e - off) l1)) in * by (rewrite length_drop; lia).
  by apply IH.
Qed.

(** Edits within the middle of a text. *)
Lemma patch_middle off a m b es m' :
  disjoint_from (off + length a) es (off + length a + length m) → patch (off + length a) m es = m' →
  patch off (a ++ m ++ b) es = a ++ m' ++ b ∧ disjoint_from off es (off + length (a ++ m ++ b)).
Proof.
  intros Hd <-. split.
  - rewrite (patch_later off a _ es _ Hd). f_equal. rewrite <-(app_nil_r es).
    rewrite (patch_app _ m b es [] (off + length a + length m)), app_nil_r; [done..|]. cbn. lia.
  - rewrite !length_app. eapply disjoint_from_mono; [|rewrite <-(app_nil_r es); eapply disjoint_app; [exact Hd|cbn; lia]]. lia.
Qed.

(** One insertion. *)
Lemma patch_insert off a b text :
  patch off (a ++ b) [{| te_at := off + length a; te_end := off + length a; te_text := text |}] = a ++ bytes_of text ++ b.
Proof.
  cbn [patch te_at te_end te_text]. replace (off + length a - off) with (length a) by lia. by rewrite take_app_length, drop_app_length.
Qed.

(** ** Items side by side *)

Definition ahead {A} (f : A → list Z) (pre : list A) : list Z := concat ((λ x, f x ++ [44%Z]) <$> pre).
Definition behind {A} (f : A → list Z) (post : list A) : list Z := concat ((λ x, 44%Z :: f x) <$> post).

Lemma separated_middle {A} (f : A → list Z) pre e post :
  GoPrint.separated 44%Z f (pre ++ e :: post) = ahead f pre ++ f e ++ behind f post.
Proof.
  induction pre as [|x pre IH]; cbn [app].
  - revert e. induction post as [|y post IH]; intros e; [cbn; by rewrite app_nil_r|].
    rewrite separated_cons, IH. done.
  - destruct (pre ++ e :: post) as [|y l] eqn:E; [by destruct pre|]. rewrite separated_cons, IH.
    unfold ahead. cbn. by rewrite <-!app_assoc.
Qed.

Lemma place_middle {A B} (f : A → list Z) (g : nat → A → B) pos pre e post :
  place (λ x, length (f x)) g pos (pre ++ e :: post) =
  place (λ x, length (f x)) g pos pre ++ g (pos + length (ahead f pre)) e ::
    place (λ x, length (f x)) g (pos + length (ahead f pre) + length (f e) + 1) post.
Proof.
  revert pos. induction pre as [|x pre IH]; intros pos; cbn [app place].
  - cbn. by rewrite Nat.add_0_r.
  - rewrite IH. cbn [app]. f_equal. unfold ahead. cbn. rewrite !length_app. cbn [length].
    replace (pos + length (f x) + 1 + length (concat ((λ x0 : A, f x0 ++ [44%Z]) <$> pre)))
      with (pos + (length (f x) + 1 + length (concat ((λ x0 : A, f x0 ++ [44%Z]) <$> pre)))) by lia. done.
Qed.

(** ** Syntax with one part replaced *)

Definition patched (pos : nat) (s : syntax) (es : list textEdit) (s' : syntax) : Prop :=
  disjoint_from pos es (pos + length (spell s)) ∧ patch pos (spell s) es = spell s'.

Lemma patched_refl pos s : patched pos s [] s.
Proof. split; [cbn; lia|done]. Qed.

Lemma spell_object ws pre e post :
  spell (SObject ws (pre ++ e :: post)) = (123%Z :: ahead object_item pre ++ lead_text e.1.1) ++ spell e.1.2 ++ (e.2 ++ behind object_item post ++ [125%Z]).
Proof.
  assert (spell (SObject ws (pre ++ e :: post)) = 123%Z :: GoPrint.separated 44%Z object_item (pre ++ e :: post) ++ [125%Z]) as ->.
  { cbn [spell]. by destruct pre. }
  rewrite separated_middle. unfold object_item at 2. by repeat (rewrite <-?app_assoc; cbn [app]).
Qed.

(** Where a member's value stands. *)
Definition member_pos (pos : nat) (pre : list (lead * syntax * list Z)) (h : lead) : nat :=
  pos + 1 + length (ahead object_item pre) + length (lead_text h).

Lemma patched_member pos ws pre h s b post es s' : patched (member_pos pos pre h) s es s' →
  patched pos (SObject ws (pre ++ (h, s, b) :: post)) es (SObject ws (pre ++ (h, s', b) :: post)).
Proof.
  intros [Hd Hp]. unfold patched. rewrite !spell_object. cbn [fst snd].
  assert (pos + length (123%Z :: ahead object_item pre ++ lead_text h) = member_pos pos pre h) as E.
  { unfold member_pos. cbn [length]. rewrite length_app. lia. }
  destruct (patch_middle pos (123%Z :: ahead object_item pre ++ lead_text h) (spell s) (b ++ behind object_item post ++ [125%Z]) es (spell s'))
    as [H1 H2]; [by rewrite E..|]. done.
Qed.

(** A member's value by its key: the first of that name. *)
Lemma find_member (items : list (lead * syntax * list Z)) key :
  (∃ pre h s b post, items = pre ++ (h, s, b) :: post ∧ string_value (ld_key h) = key ∧
     Forall (λ e, string_value (ld_key e.1.1) ≠ key) pre) ∨
  Forall (λ e, string_value (ld_key e.1.1) ≠ key) items.
Proof.
  induction items as [|[[h s] b] items IH]; [by right|].
  destruct (decide (string_value (ld_key h) = key)) as [<-|Hne]; [left; by exists [], h, s, b, items|].
  destruct IH as [(pre & h' & s' & b' & post & -> & Hk & Hf)|Hf]; [left|right; by constructor].
  exists ((h, s, b) :: pre), h', s', b', post. split_and!; [done|done|by constructor].
Qed.

Lemma assoc_first_skip key (keys1 keys2 : list string) (items1 items2 : list node) :
  Forall (λ k, k ≠ key) keys1 → length keys1 = length items1 →
  assoc_first key (keys1 ++ keys2) (items1 ++ items2) = assoc_first key keys2 items2.
Proof.
  intros Hf. revert items1. induction Hf as [|k keys1 Hk Hf IH]; intros [|item items1] Hl; try done. cbn.
  rewrite (proj2 (String.eqb_neq _ _) Hk). apply IH. by injection Hl.
Qed.

Lemma place_length {A B} (size : A → nat) (g : nat → A → B) pos l : length (place size g pos l) = length l.
Proof. revert pos. induction l as [|x l IH]; intros pos; cbn; [done|]. by rewrite IH. Qed.

Lemma get_member pos ws pre h s b post key : string_value (ld_key h) = key → Forall (λ e, string_value (ld_key e.1.1) ≠ key) pre →
  get (node_at pos (SObject ws (pre ++ (h, s, b) :: post))) key = Some (node_at (member_pos pos pre h) s).
Proof.
  intros Hk Hpre. unfold get. cbn [node_at n_kind n_keys n_items]. rewrite fmap_app, fmap_cons, place_middle, assoc_first_skip.
  - cbn [assoc_first fst snd]. by rewrite Hk, String.eqb_refl.
  - apply Forall_fmap. done.
  - by rewrite length_fmap, place_length.
Qed.

Lemma get_none pos ws items key : Forall (λ e, string_value (ld_key e.1.1) ≠ key) items → get (node_at pos (SObject ws items)) key = None.
Proof.
  intros Hf. unfold get. cbn [node_at n_kind n_keys n_items].
  rewrite <-(app_nil_r ((λ e : lead * syntax * list Z, string_value (ld_key e.1.1)) <$> items)), <-(app_nil_r (place _ _ _ _)).
  rewrite assoc_first_skip; [done|by apply Forall_fmap|by rewrite length_fmap, place_length].
Qed.

(** ** Values *)

(** What a syntax denotes. *)
Definition denotes (s : syntax) : json := XrayDecode.json_of (meaning s).

Lemma denotes_array ws items : denotes (SArray ws items) = JArray ((λ e, denotes e.1.2) <$> items).
Proof. unfold denotes. cbn [meaning XrayDecode.json_of]. by rewrite <-list_fmap_compose. Qed.

Lemma denotes_object ws items :
  denotes (SObject ws items) = JObject ((λ e, (string_value (ld_key e.1.1), denotes e.1.2)) <$> items).
Proof. unfold denotes. cbn [meaning XrayDecode.json_of]. by rewrite <-list_fmap_compose. Qed.

(** A client as the value of an array. *)
Definition client_json (op : ClientOp) : json :=
  JObject ([("email"%string, JString (co_email op)); ("id"%string, JString (co_id op))] ++
           (if String.eqb (co_flow op) "" then [] else [("flow"%string, JString (co_flow op))])).

(** *** The rendered clients *)

Definition plain_lead (before : list Z) (key : string) : lead :=
  {| ld_before := before; ld_key := bytes_of key; ld_mid := []; ld_after := [32%Z] |}.

Definition string_syntax (s : string) : syntax := SString (quote_body s).

Definition client_syntax (op : ClientOp) : syntax :=
  SObject [] ([(plain_lead [] "email"%string, string_syntax (co_email op), []);
               (plain_lead [32%Z] "id"%string, string_syntax (co_id op), [])] ++
              (if String.eqb (co_flow op) "" then [] else [(plain_lead [32%Z] "flow"%string, string_syntax (co_flow op), [])])).

Lemma quotable_quote s : utf8_valid s = true → quotable (quote_body s).
Proof.
  intros Hv. split; [by apply scan_quote_body|].
  assert (Forall is_byte (bytes_of (quote s))) as Hb by apply bytes_of_range. rewrite bytes_of_quote in Hb by done.
  apply Forall_inv_tail in Hb. by apply Forall_app in Hb as [? _].
Qed.

Lemma valid_string depth s : utf8_valid s = true → valid depth (string_syntax s).
Proof. intros Hv. destruct depth; by apply quotable_quote. Qed.

Lemma spell_string s : utf8_valid s = true → spell (string_syntax s) = bytes_of (quote s).
Proof. intros Hv. by rewrite bytes_of_quote. Qed.

Lemma denotes_string s : utf8_valid s = true → denotes (string_syntax s) = JString s.
Proof. intros Hv. unfold denotes. cbn [string_syntax meaning XrayDecode.json_of]. by rewrite quote_value. Qed.

Lemma spaces_32 : spaces [32%Z].
Proof. by constructor. Qed.

Lemma valid_client depth op : op_valid op → valid (S depth) (client_syntax op).
Proof.
  intros (He & Hi & Hf). split; [constructor|].
  assert (∀ before key v, spaces before → quotable (bytes_of key) → utf8_valid v = true →
    lead_ok (plain_lead before key) ∧ valid depth (string_syntax v) ∧ spaces []) as Hm.
  { intros before key v Hb Hq Hv. split; [|split; [by apply valid_string|constructor]].
    split; [done|]. split; [done|]. split; [constructor|apply spaces_32]. }
  assert (∀ k : list Z, Forall is_byte k → GoDecode.scan_string (k ++ [34%Z]) = Some (k, []) → quotable k) as Hq by done.
  constructor; [apply Hm; [constructor| |done]|constructor; [apply Hm; [apply spaces_32| |done]|]].
  1,2: by apply Hq; [apply bytes_of_range|].
  destruct (String.eqb (co_flow op) ""); [constructor|]. constructor; [|constructor].
  apply Hm; [apply spaces_32| |done]. by apply Hq; [apply bytes_of_range|].
Qed.

Lemma spell_client op : op_valid op → spell (client_syntax op) = bytes_of (renderEntry op).
Proof.
  intros (He & Hi & Hf). unfold client_syntax, renderEntry. rewrite !bytes_of_app, !member_bytes.
  destruct (String.eqb (co_flow op) ""); cbn [app spell GoPrint.separated]; unfold lead_text; cbn [fst snd plain_lead ld_before ld_key ld_mid ld_after];
    rewrite !spell_string by done; rewrite ?bytes_of_app, ?member_bytes; by repeat (rewrite <-?app_assoc; cbn [app]; rewrite ?app_nil_r).
Qed.

Lemma denotes_client op : op_valid op → denotes (client_syntax op) = client_json op.
Proof.
  intros (He & Hi & Hf). unfold client_syntax, client_json. rewrite denotes_object. 
  destruct (String.eqb (co_flow op) ""); cbn [app fmap list_fmap fst snd]; rewrite !denotes_string by done; done.
Qed.

(** Clients side by side: the white space before the first, before each
    other, and after the last. *)
Fixpoint client_items (first next fin : list Z) (ops : list ClientOp) : list (list Z * syntax * list Z) :=
  match ops with
  | [] => []
  | [op] => [(first, client_syntax op, fin)]
  | op :: ops => (first, client_syntax op, []) :: client_items next next fin ops
  end.

Lemma client_items_cons first next fin op op' ops :
  client_items first next fin (op :: op' :: ops) = (first, client_syntax op, []) :: client_items next next fin (op' :: ops).
Proof. done. Qed.

Lemma client_items_ne first next fin op ops : client_items first next fin (op :: ops) ≠ [].
Proof. by destruct ops. Qed.

Lemma behind_all {A} (f : A → list Z) l : l ≠ [] → behind f l = 44%Z :: GoPrint.separated 44%Z f l.
Proof. intros Hl. destruct l as [|e l]; [done|]. pose proof (separated_middle f [] e l) as Hm. cbn [app] in Hm. by rewrite Hm. Qed.

Lemma join_cons sep op op' ops :
  join sep (renderEntries (op :: op' :: ops)) = renderEntry op +:+ sep +:+ join sep (renderEntries (op' :: ops)).
Proof. done. Qed.

Lemma spell_items first next fin op ops : spaces next → Forall op_valid (op :: ops) →
  GoPrint.separated 44%Z array_item (client_items first next fin (op :: ops)) =
  first ++ bytes_of (join ("," +:+ of_bytes next) (renderEntries (op :: ops))) ++ fin.
Proof.
  intros Hn. revert first op. induction ops as [|op' ops IH]; intros first op [Hop Hops]%Forall_cons.
  - cbn [client_items GoPrint.separated renderEntries fmap list_fmap join]. unfold array_item. cbn [fst snd]. by rewrite spell_client.
  - rewrite client_items_cons, join_cons. pose proof (IH next op' Hops) as IH'.
    destruct (client_items next next fin (op' :: ops)) as [|e l] eqn:E; [by destruct ops|].
    rewrite separated_cons, IH'. unfold array_item. cbn [fst snd]. rewrite spell_client by done.
    rewrite !bytes_of_app, (bytes_of_of_bytes next) by (by apply spaces_bytes). repeat (rewrite <-?app_assoc; cbn [app]). done.
Qed.

Lemma valid_items depth first next fin ops : spaces first → spaces next → spaces fin → Forall op_valid ops →
  Forall (λ e, spaces e.1.1 ∧ valid (S depth) e.1.2 ∧ spaces e.2) (client_items first next fin ops).
Proof.
  intros Hf Hn Hfin Hops. revert first Hf. induction Hops as [|op ops Hop Hops IH]; intros first Hf; [constructor|].
  pose proof (valid_client depth op Hop) as Hv. destruct ops as [|op' ops].
  - constructor; [|constructor]. exact (conj Hf (conj Hv Hfin)).
  - rewrite client_items_cons. constructor; [|by apply IH]. exact (conj Hf (conj Hv (Forall_nil_2 _))).
Qed.

Lemma denotes_items first next fin ops : Forall op_valid ops →
  (λ e, denotes e.1.2) <$> client_items first next fin ops = client_json <$> ops.
Proof.
  intros Hops. revert first. induction Hops as [|op ops Hop Hops IH]; intros first; [done|].
  destruct ops as [|op' ops].
  - cbn [client_items fmap list_fmap fst snd]. by rewrite denotes_client.
  - rewrite client_items_cons, !fmap_cons, IH. cbn [fst snd]. by rewrite denotes_client.
Qed.

(** ** Appending to a clients array *)

(** The edit adds these clients at the end. *)
Definition appends (depth : nat) (pos : nat) (ws : list Z) (items : list (list Z * syntax * list Z)) (ops : list ClientOp) (e : textEdit) : Prop :=
  ∃ s', patched pos (SArray ws items) [e] s' ∧ valid depth s' ∧
    denotes s' = JArray (((λ e, denotes e.1.2) <$> items) ++ (client_json <$> ops)).

Lemma patched_insert pos a b text s s' : spell s = a ++ b → spell s' = a ++ bytes_of text ++ b →
  patched pos s [{| te_at := pos + length a; te_end := pos + length a; te_text := text |}] s'.
Proof.
  intros Hs Hs'. unfold patched. rewrite Hs, Hs', patch_insert, length_app. split; [cbn; lia|done].
Qed.

Lemma append_empty depth pos ws first next fin op ops text : valid (S (S depth)) (SArray ws []) → spaces first → spaces next → spaces fin → Forall op_valid (op :: ops) →
  bytes_of text = first ++ bytes_of (join ("," +:+ of_bytes next) (renderEntries (op :: ops))) ++ fin →
  appends (S (S depth)) pos ws [] (op :: ops) {| te_at := pos + 1; te_end := pos + 1; te_text := text |}.
Proof.
  intros [Hws _] Hf Hn Hfin Hops Ht. exists (SArray ws (client_items first next (fin ++ ws) (op :: ops))). split_and!.
  - apply (patched_insert pos [91%Z] (ws ++ [93%Z])); [done|].
    pose proof (client_items_ne first next (fin ++ ws) op ops) as Hne.
    cbn [spell]. destruct (client_items first next (fin ++ ws) (op :: ops)) as [|e l] eqn:E; [done|].
    change (λ e0 : list Z * syntax * list Z, e0.1.1 ++ spell e0.1.2 ++ e0.2) with array_item.
    rewrite <-E, spell_items, Ht by done. by repeat (rewrite <-?app_assoc; cbn [app]).
  - split; [done|]. apply valid_items; [done|done|by apply Forall_app|done].
  - by rewrite denotes_array, denotes_items.
Qed.

Lemma spell_array_last ws pre a s b :
  spell (SArray ws (pre ++ [(a, s, b)])) = (91%Z :: ahead array_item pre ++ a ++ spell s) ++ b ++ [93%Z].
Proof.
  assert (spell (SArray ws (pre ++ [(a, s, b)])) = 91%Z :: GoPrint.separated 44%Z array_item (pre ++ [(a, s, b)]) ++ [93%Z]) as ->.
  { cbn [spell]. by destruct pre. }
  rewrite separated_middle. unfold array_item at 2, behind. cbn [concat fmap list_fmap fst snd]. by repeat (rewrite <-?app_assoc; cbn [app]; rewrite ?app_nil_r).
Qed.

(** Where the last entry of an array ends. *)
Definition last_end (pos : nat) (pre : list (list Z * syntax * list Z)) (a : list Z) (s : syntax) : nat :=
  pos + length (91%Z :: ahead array_item pre ++ a ++ spell s).

Lemma append_more depth pos ws pre a s b next op ops text : valid (S (S depth)) (SArray ws (pre ++ [(a, s, b)])) → spaces next → Forall op_valid (op :: ops) →
  bytes_of text = 44%Z :: next ++ bytes_of (join ("," +:+ of_bytes next) (renderEntries (op :: ops))) →
  appends (S (S depth)) pos ws (pre ++ [(a, s, b)]) (op :: ops)
    {| te_at := last_end pos pre a s; te_end := last_end pos pre a s; te_text := text |}.
Proof.
  intros [Hws Hall] Hn Hops Ht. apply Forall_app in Hall as [Hpre [(Ha & Hs & Hb) _]%Forall_cons]. cbn [fst snd] in *.
  exists (SArray ws (pre ++ (a, s, []) :: client_items next next b (op :: ops))). split_and!.
  - eapply patched_insert; [apply spell_array_last|].
    assert (spell (SArray ws (pre ++ (a, s, []) :: client_items next next b (op :: ops))) =
      91%Z :: GoPrint.separated 44%Z array_item (pre ++ (a, s, []) :: client_items next next b (op :: ops)) ++ [93%Z]) as ->.
    { cbn [spell]. by destruct pre. }
    rewrite separated_middle. pose proof (spell_items next next b op ops Hn Hops) as Hsp.
    rewrite (behind_all array_item) by apply client_items_ne.
    rewrite Hsp, Ht. unfold array_item at 2. cbn [fst snd]. by repeat (rewrite <-?app_assoc; cbn [app]; rewrite ?app_nil_r).
  - split; [done|]. apply Forall_app. split; [done|]. constructor; [exact (conj Ha (conj Hs (Forall_nil_2 _)))|]. by apply valid_items.
  - rewrite denotes_array, !fmap_app, fmap_cons, denotes_items by done. cbn [fst snd fmap list_fmap]. by rewrite <-app_assoc.
Qed.

Lemma node_start pos s : n_start (node_at pos s) = pos.
Proof. by destruct s. Qed.

Lemma node_end pos s : n_end (node_at pos s) = pos + length (spell s).
Proof. by destruct s. Qed.

(** An indentation is white space. *)
Lemma indent_spaces before indent after : spaces (bytes_of before) → blank_indent indent → spaces (bytes_of after) →
  spaces (bytes_of (before +:+ indent +:+ after)).
Proof.
  intros Hb Hi Ha. rewrite !bytes_of_app. repeat (apply Forall_app; split); [done| |done].
  eapply Forall_impl; [exact Hi|]. intros c. unfold is_space, is_blank, b_space, b_tab, b_cr, b_lf.
  rewrite !orb_true_iff, !Z.eqb_eq. tauto.
Qed.

Lemma spaces_nl : spaces (bytes_of nl).
Proof. by constructor. Qed.

Lemma app_empty (s : string) : s +:+ "" = s.
Proof. induction s as [|c s IH]; [done|]. change (String c s +:+ "") with (String c (s +:+ "")). by rewrite IH. Qed.

Lemma join_bytes sep ops : join ("," +:+ sep) ops = join ("," +:+ of_bytes (bytes_of sep)) ops.
Proof. by rewrite of_bytes_bytes_of. Qed.

Lemma plan_append_empty depth doc pos ws op ops : valid (S (S depth)) (SArray ws []) → Forall op_valid (op :: ops) →
  ∃ e, planAppend doc (node_at pos (SArray ws [])) (op :: ops) = Some e ∧ appends (S (S depth)) pos ws [] (op :: ops) e.
Proof.
  intros Hv Hops. unfold planAppend. rewrite node_start. cbn [node_at n_items place last n_trailing]. destruct (multiline _ _ _).
  - set (indent := lineIndent doc pos). assert (blank_indent indent) as Hi by apply lineIndent_blank. clearbody indent.
    eexists. split; [reflexivity|]. apply (append_empty _ pos ws (bytes_of (nl +:+ indent +:+ "  ")) (bytes_of (nl +:+ indent +:+ "  ")) (bytes_of (nl +:+ indent)));
      [done|by apply indent_spaces; [apply spaces_nl| |by repeat constructor]..| |done|].
    + rewrite <-(app_empty indent). apply indent_spaces; [apply spaces_nl|done|constructor].
    + rewrite <-join_bytes, !bytes_of_app. by repeat (rewrite <-?app_assoc; cbn [app]).
  - eexists. split; [reflexivity|]. apply (append_empty _ pos ws [] (bytes_of " ") []); [done|constructor|by repeat constructor|constructor|done|].
    rewrite <-join_bytes. cbn [app]. by rewrite app_nil_r.
Qed.

(** After an entry the text that is inserted depends on the indentation
    alone. *)
Lemma plan_append_more doc pos ws pre a s b op ops :
  ∃ text next, planAppend doc (node_at pos (SArray ws (pre ++ [(a, s, b)]))) (op :: ops) =
      Some {| te_at := last_end pos pre a s; te_end := last_end pos pre a s; te_text := text |} ∧
    spaces next ∧ bytes_of text = 44%Z :: next ++ bytes_of (join ("," +:+ of_bytes next) (renderEntries (op :: ops))).
Proof.
  unfold planAppend. rewrite node_start.
  assert (last (n_items (node_at pos (SArray ws (pre ++ [(a, s, b)])))) = Some (node_at (pos + 1 + length (ahead array_item pre) + length a) s)) as ->.
  { cbn [node_at n_items]. rewrite (place_middle array_item). cbn [place fst snd]. by rewrite last_snoc. }
  rewrite !node_start, !node_end. cbn [node_at n_trailing].
  assert (pos + 1 + length (ahead array_item pre) + length a + length (spell s) = last_end pos pre a s) as ->.
  { unfold last_end. cbn [length]. rewrite !length_app. lia. }
  destruct (multiline _ _ _).
  - set (indent := lineIndent doc _). assert (blank_indent indent) as Hi by apply lineIndent_blank. clearbody indent.
    eexists _, (bytes_of (nl +:+ indent)). split; [reflexivity|]. split.
    + rewrite <-(app_empty indent). apply indent_spaces; [apply spaces_nl|done|constructor].
    + rewrite <-join_bytes, !bytes_of_app. by repeat (rewrite <-?app_assoc; cbn [app]).
  - eexists _, (bytes_of " "). split; [reflexivity|]. split; [by repeat constructor|].
    rewrite <-join_bytes, !bytes_of_app. done.
Qed.

(** ** A new clients key *)

Definition clients_syntax (first next fin : list Z) (ops : list ClientOp) : syntax :=
  SArray (first ++ fin) (client_items first next fin ops).

Lemma spell_clients first next fin ops : spaces next → Forall op_valid ops →
  spell (clients_syntax first next fin ops) =
  91%Z :: first ++ bytes_of (join ("," +:+ of_bytes next) (renderEntries ops)) ++ fin ++ [93%Z].
Proof.
  intros Hn Hops. unfold clients_syntax. destruct ops as [|op ops]; [cbn; by rewrite <-app_assoc|].
  pose proof (spell_items first next fin op ops Hn Hops) as Hs. pose proof (client_items_ne first next fin op ops) as Hne.
  cbn [spell]. destruct (client_items first next fin (op :: ops)) as [|e l]; [done|].
  change (λ e0 : list Z * syntax * list Z, e0.1.1 ++ spell e0.1.2 ++ e0.2) with array_item.
  rewrite Hs. by repeat (rewrite <-?app_assoc; cbn [app]).
Qed.

Lemma valid_clients depth first next fin ops : spaces first → spaces next → spaces fin → Forall op_valid ops →
  valid (S (S depth)) (clients_syntax first next fin ops).
Proof. intros. split; [by apply Forall_app|]. by apply valid_items. Qed.

Lemma denotes_clients first next fin ops : Forall op_valid ops →
  denotes (clients_syntax first next fin ops) = JArray (client_json <$> ops).
Proof. intros. unfold clients_syntax. by rewrite denotes_array, denotes_items. Qed.

Definition clients_key : string := dq +:+ "clients" +:+ dq.

Definition clients_lead (before : list Z) : lead := plain_lead before "clients".

Lemma clients_lead_ok before : spaces before → lead_ok (clients_lead before).
Proof.
  intros Hb. split; [done|]. split; [by split; [|apply bytes_of_range]|]. split; [constructor|apply spaces_32].
Qed.

Lemma clients_lead_text before : lead_text (clients_lead before) = before ++ bytes_of (clients_key +:+ ": ").
Proof. done. Qed.

(** The edit gives the settings a clients key, last. *)
Definition keyed (depth pos : nat) (ws : list Z) (items : list (lead * syntax * list Z)) (ops : list ClientOp) (e : textEdit) : Prop :=
  ∃ s', patched pos (SObject ws items) [e] s' ∧ valid depth s' ∧
    denotes s' = JObject (((λ e, (string_value (ld_key e.1.1), denotes e.1.2)) <$> items) ++ [("clients"%string, JArray (client_json <$> ops))]).

Lemma key_empty depth pos ws before first next fin after ops text : valid (S (S (S depth))) (SObject ws []) →
  spaces before → spaces first → spaces next → spaces fin → spaces after → Forall op_valid ops →
  bytes_of text = before ++ bytes_of (clients_key +:+ ": ") ++ spell (clients_syntax first next fin ops) ++ after →
  keyed (S (S (S depth))) pos ws [] ops {| te_at := pos + 1; te_end := pos + 1; te_text := text |}.
Proof.
  intros [Hws _] Hbe Hf Hn Hfin Haf Hops Ht.
  exists (SObject ws [(clients_lead before, clients_syntax first next fin ops, after ++ ws)]). split_and!.
  - apply (patched_insert pos [123%Z] (ws ++ [125%Z])); [done|].
    cbn [spell GoPrint.separated fst snd]. rewrite clients_lead_text, Ht. by repeat (rewrite <-?app_assoc; cbn [app]).
  - split; [done|]. constructor; [|constructor].
    exact (conj (clients_lead_ok _ Hbe) (conj (valid_clients depth _ _ _ _ Hf Hn Hfin Hops) (Forall_app_2 _ _ _ Haf Hws))).
  - rewrite denotes_object. cbn [fmap list_fmap fst snd]. by rewrite denotes_clients.
Qed.

Lemma key_more depth pos ws pre h s b before first next fin ops text : valid (S (S (S depth))) (SObject ws (pre ++ [(h, s, b)])) →
  spaces before → spaces first → spaces next → spaces fin → Forall op_valid ops →
  bytes_of text = 44%Z :: before ++ bytes_of (clients_key +:+ ": ") ++ spell (clients_syntax first next fin ops) →
  let at_ := member_pos pos pre h + length (spell s) in
  keyed (S (S (S depth))) pos ws (pre ++ [(h, s, b)]) ops {| te_at := at_; te_end := at_; te_text := text |}.
Proof.
  intros [Hws Hall] Hbe Hf Hn Hfin Hops Ht at_. apply Forall_app in Hall as [Hpre [(Hh & Hs & Hb) _]%Forall_cons]. cbn [fst snd] in Hh, Hs, Hb.
  set (a := (123%Z :: ahead object_item pre ++ lead_text h) ++ spell s).
  assert (at_ = pos + length a) as ->.
  { unfold at_, a, member_pos. rewrite !length_app. cbn [length]. rewrite length_app. lia. }
  exists (SObject ws (pre ++ (h, s, []) :: [(clients_lead before, clients_syntax first next fin ops, b)])). split_and!.
  - apply (patched_insert pos a (b ++ [125%Z])).
    + rewrite spell_object. unfold a, behind. cbn [fst snd concat fmap list_fmap]. by repeat (rewrite <-?app_assoc; cbn [app]).
    + rewrite spell_object. unfold a, behind, object_item at 2. cbn [fst snd concat fmap list_fmap]. rewrite clients_lead_text, Ht.
      by repeat (rewrite <-?app_assoc; cbn [app]; rewrite ?app_nil_r).
  - split; [done|]. apply Forall_app. split; [done|]. constructor; [exact (conj Hh (conj Hs (Forall_nil_2 _)))|]. constructor; [|constructor].
    exact (conj (clients_lead_ok _ Hbe) (conj (valid_clients depth _ _ _ _ Hf Hn Hfin Hops) Hb)).
  - rewrite denotes_object, !fmap_app, !fmap_cons. cbn [fst snd fmap list_fmap]. rewrite denotes_clients by done. by rewrite <-app_assoc.
Qed.

Lemma rendered_value indent ops : blank_indent indent → Forall op_valid ops →
  let first := bytes_of (nl +:+ indent +:+ "  ") in
  bytes_of (renderClientsValue indent ops) = spell (clients_syntax first first (bytes_of (nl +:+ indent)) ops).
Proof.
  intros Hi Hops first. rewrite spell_clients; [|apply indent_spaces; [apply spaces_nl|done|by repeat constructor]|done].
  unfold first. rewrite <-join_bytes. unfold renderClientsValue. rewrite !bytes_of_app. by repeat (rewrite <-?app_assoc; cbn [app]).
Qed.

Lemma inline_value ops : Forall op_valid ops →
  bytes_of ("[" +:+ join ", " (renderEntries ops) +:+ "]") = spell (clients_syntax [] (bytes_of " ") [] ops).
Proof.
  intros Hops. rewrite spell_clients; [|by repeat constructor|done]. rewrite <-join_bytes, !bytes_of_app. done.
Qed.

Lemma plan_key depth doc pos ws items ops : valid (S (S (S depth))) (SObject ws items) → Forall op_valid ops →
  ∃ e, planKeyInsert doc (node_at pos (SObject ws items)) ops = Some e ∧ keyed (S (S (S depth))) pos ws items ops e.
Proof.
  intros Hv Hops. unfold planKeyInsert. rewrite node_start. fold clients_key.
  destruct items as [|[[h s] b] pre _] using rev_ind.
  - cbn [node_at n_items n_propStarts place last]. destruct (multiline _ _ _).
    + set (outer := lineIndent doc pos). assert (blank_indent outer) as Ho by apply lineIndent_blank. clearbody outer.
      set (indent := outer +:+ "  ").
      assert (blank_indent indent) as Hi. { unfold blank_indent, indent. rewrite bytes_of_app. apply Forall_app. split; [done|by repeat constructor]. }
      clearbody indent. eexists. split; [reflexivity|].
      apply (key_empty _ pos ws (bytes_of (nl +:+ indent +:+ "")) (bytes_of (nl +:+ indent +:+ "  ")) (bytes_of (nl +:+ indent +:+ "  ")) (bytes_of (nl +:+ indent)) (bytes_of (nl +:+ outer +:+ "")));
        [done|try (apply indent_spaces; [apply spaces_nl|done|by repeat constructor])..|done|].
      * rewrite <-(app_empty indent). apply indent_spaces; [apply spaces_nl|done|constructor].
      * rewrite <-rendered_value by done. rewrite !app_empty, !bytes_of_app. by repeat (rewrite <-?app_assoc; cbn [app]).
    + eexists. split; [reflexivity|].
      apply (key_empty _ pos ws [] [] (bytes_of " ") [] []); [done|constructor|constructor|by repeat constructor|constructor|constructor|done|].
      rewrite <-inline_value by done. rewrite !bytes_of_app, app_nil_r. by repeat (rewrite <-?app_assoc; cbn [app]).
  - assert (last (n_items (node_at pos (SObject ws (pre ++ [(h, s, b)])))) = Some (node_at (member_pos pos pre h) s)) as ->.
    { cbn [node_at n_items]. rewrite (place_middle object_item). cbn [place fst snd]. by rewrite last_snoc. }
    assert (∃ p, last (n_propStarts (node_at pos (SObject ws (pre ++ [(h, s, b)])))) = Some p) as [p ->].
    { cbn [node_at n_propStarts]. rewrite (place_middle object_item). cbn [place fst snd]. rewrite last_snoc. eauto. }
    rewrite !node_end. destruct (multiline _ _ _).
    + set (indent := lineIndent doc p). assert (blank_indent indent) as Hi by apply lineIndent_blank. clearbody indent.
      eexists. split; [reflexivity|].
      apply (key_more _ pos ws pre h s b (bytes_of (nl +:+ indent +:+ "")) (bytes_of (nl +:+ indent +:+ "  ")) (bytes_of (nl +:+ indent +:+ "  ")) (bytes_of (nl +:+ indent)));
        [done|try (apply indent_spaces; [apply spaces_nl|done|by repeat constructor])..|done|].
      * rewrite <-(app_empty indent). apply indent_spaces; [apply spaces_nl|done|constructor].
      * rewrite <-rendered_value by done. rewrite !app_empty, !bytes_of_app. by repeat (rewrite <-?app_assoc; cbn [app]).
    + eexists. split; [reflexivity|].
      apply (key_more _ pos ws pre h s b (bytes_of " ") [] (bytes_of " ") []); [done|by repeat constructor|constructor|by repeat constructor|constructor|done|].
      rewrite <-inline_value by done. rewrite !bytes_of_app. by repeat (rewrite <-?app_assoc; cbn [app]).
Qed.


(** ** Values and their parts *)

(** The first value under a key, and the object with it changed. *)
Fixpoint first_field (key : string) (fields : list (string * json)) : option json :=
  match fields with
  | [] => None
  | (k, v) :: fields => if String.eqb k key then Some v else first_field key fields
  end.

Fixpoint on_first (key : string) (f : json → json) (fields : list (string * json)) : list (string * json) :=
  match fields with
  | [] => []
  | (k, v) :: fields => if String.eqb k key then (k, f v) :: fields else (k, v) :: on_first key f fields
  end.

Definition json_email (j : json) : option string :=
  match j with
  | JObject fields => match first_field "email" fields with Some (JString email) => Some email | _ => None end
  | _ => None
  end.

Lemma on_first_id key f fields : (∀ j, f j = j) → on_first key f fields = fields.
Proof. intros Hf. induction fields as [|[k v] fields IH]; [done|]. cbn. destruct (String.eqb k key); [by rewrite Hf|by rewrite IH]. Qed.

Definition string_of (j : json) : string := match j with JString s => s | _ => ""%string end.

(** ** Nodes and values *)

Definition field_values (items : list (lead * syntax * list Z)) : list (string * json) :=
  (λ e, (string_value (ld_key e.1.1), denotes e.1.2)) <$> items.

Lemma first_field_skip key pre fields : Forall (λ e, string_value (ld_key e.1.1) ≠ key) pre →
  first_field key (field_values pre ++ fields) = first_field key fields.
Proof.
  induction 1 as [|e pre He _ IH]; [done|].
  change (field_values (e :: pre)) with ((string_value (ld_key e.1.1), denotes e.1.2) :: field_values pre).
  cbn [app first_field]. by rewrite (proj2 (String.eqb_neq _ _) He).
Qed.

Lemma on_first_skip key f pre fields : Forall (λ e, string_value (ld_key e.1.1) ≠ key) pre →
  on_first key f (field_values pre ++ fields) = field_values pre ++ on_first key f fields.
Proof.
  induction 1 as [|e pre He _ IH]; [done|].
  change (field_values (e :: pre)) with ((string_value (ld_key e.1.1), denotes e.1.2) :: field_values pre).
  cbn [app on_first]. rewrite (proj2 (String.eqb_neq _ _) He). by f_equal.
Qed.

(** A key in an object: its node, its value, and the object with another
    value there. *)
Lemma field_found ws pre h s b post key : string_value (ld_key h) = key → Forall (λ e, string_value (ld_key e.1.1) ≠ key) pre →
  first_field key (field_values (pre ++ (h, s, b) :: post)) = Some (denotes s) ∧
  ∀ f s', denotes s' = f (denotes s) →
    denotes (SObject ws (pre ++ (h, s', b) :: post)) = JObject (on_first key f (field_values (pre ++ (h, s, b) :: post))).
Proof.
  intros Hk Hpre. unfold field_values. rewrite !fmap_app, !fmap_cons. cbn [fst snd]. fold (field_values pre).
  split.
  - rewrite first_field_skip by done. cbn [first_field]. by rewrite Hk, String.eqb_refl.
  - intros f s' Hs. rewrite on_first_skip by done. cbn [on_first]. rewrite Hk, String.eqb_refl, denotes_object, fmap_app, fmap_cons.
    cbn [fst snd]. by rewrite Hk, Hs.
Qed.

Lemma field_missing items key f : Forall (λ e, string_value (ld_key e.1.1) ≠ key) items →
  first_field key (field_values items) = None ∧ on_first key f (field_values items) = field_values items.
Proof.
  intros Hi. rewrite <-(app_nil_r (field_values items)). by rewrite first_field_skip, on_first_skip by done.
Qed.

(** The kind of a node is the kind of the value. *)
Definition kind_of (j : json) : nodeKind :=
  match j with JObject _ => KObject | JArray _ => KArray | JString _ => KString | _ => KLiteral end.

Lemma node_kind depth pos s : valid depth s → n_kind (node_at pos s) = kind_of (denotes s).
Proof.
  destruct s as [d|body|ws items|ws items]; intros Hv; [|done..].
  assert (word d) as Hw by (by destruct depth). by destruct d.
Qed.

Lemma node_string depth pos s t : valid depth s → denotes s = JString t → n_value (node_at pos s) = t.
Proof.
  destruct s as [d|body|ws items|ws items]; intros Hv; [|by intros [= <-]|done|done].
  assert (word d) as Hw by (by destruct depth). by destruct d.
Qed.

Lemma node_value depth pos s : valid depth s → n_value (node_at pos s) = string_of (denotes s).
Proof.
  destruct s as [d|body|ws items|ws items]; intros Hv; [|done..].
  assert (word d) as Hw by (by destruct depth). by destruct d.
Qed.

Lemma get_field depth pos ws items key : valid (S depth) (SObject ws items) →
  match get (node_at pos (SObject ws items)) key with
  | Some n => ∃ q s, n = node_at q s ∧ valid depth s ∧ first_field key (field_values items) = Some (denotes s)
  | None => first_field key (field_values items) = None
  end.
Proof.
  intros [_ Hall]. destruct (find_member items key) as [(pre & h & s & b & post & -> & Hk & Hpre)|Hno].
  - rewrite (get_member _ _ _ _ _ _ _ _ Hk Hpre). apply Forall_app in Hall as [_ [(_ & Hs & _) _]%Forall_cons].
    eexists _, s. split_and!; [done|done|]. by apply (field_found []).
  - rewrite get_none by done. by apply (field_missing _ _ id).
Qed.

Definition entry_email (n : node) : option string :=
  match n_kind n, get n "email" with
  | KObject, Some v => if bool_decide (n_kind v = KString) then Some (n_value v) else None
  | _, _ => None
  end.

Lemma node_email depth pos s : valid depth s → entry_email (node_at pos s) = json_email (denotes s).
Proof.
  intros Hv. unfold entry_email. destruct s as [d|body|ws items|ws items]; [|done|done|].
  - assert (word d) as Hw by (by destruct depth). by destruct d.
  - destruct depth as [|depth]; [done|]. pose proof (get_field depth pos ws items "email" Hv) as Hg.
    rewrite denotes_object. fold (field_values items). cbn [json_email]. cbn [node_at n_kind] in Hg |- *.
    destruct (get _ "email") as [n|]; [|by rewrite Hg].
    destruct Hg as (q & s & -> & Hs & ->). rewrite (node_kind _ _ _ Hs).
    destruct (denotes s) eqn:E; cbn [kind_of]; try done. by rewrite bool_decide_eq_true_2, (node_string _ _ _ _ Hs E).
Qed.

Lemma email_step_found k m l email :
  is_Some ((foldl email_step (k, m) l).2 !! email) ↔ is_Some (m !! email) ∨ email ∈ omap entry_email l.
Proof.
  revert k m. induction l as [|n l IH]; intros k m; cbn [foldl].
  { cbn. rewrite elem_of_nil. tauto. }
  assert (email_step (k, m) n = (k + 1, match entry_email n with Some e => <[e := k]> m | None => m end)) as ->.
  { unfold email_step, entry_email. destruct (n_kind n); try done. destruct (get n "email"); [|done]. by case_bool_decide. }
  rewrite IH. cbn [omap list_omap]. destruct (entry_email n) as [e|]; [|done].
  rewrite elem_of_cons. destruct (decide (e = email)) as [->|Hne].
  - rewrite lookup_insert_eq. split; [auto|by left; eexists].
  - rewrite lookup_insert_ne by done. naive_solver.
Qed.

Lemma place_emails depth (items : list (list Z * syntax * list Z)) pos : Forall (λ e, spaces e.1.1 ∧ valid depth e.1.2 ∧ spaces e.2) items →
  omap entry_email (place (λ e, length (array_item e)) (λ p e, node_at (p + length e.1.1) e.1.2) pos items) =
  omap json_email ((λ e, denotes e.1.2) <$> items).
Proof.
  intros Hall. revert pos. induction Hall as [|e items (_ & He & _) _ IH]; intros pos; [done|].
  cbn [place fmap list_fmap omap list_omap]. rewrite (node_email depth) by done. by rewrite IH.
Qed.

Lemma drop_present depth pos ws items ops : valid (S depth) (SArray ws items) →
  dropEmails ops (emailsOf (byEmailOf (node_at pos (SArray ws items)))) =
  dropEmails ops (omap json_email ((λ e, denotes e.1.2) <$> items)).
Proof.
  intros [_ Hall]. unfold dropEmails. apply list_filter_iff. intros op. f_equiv.
  rewrite <-(place_emails depth items (pos + 1) Hall).
  unfold emailsOf. rewrite list_elem_of_fmap. unfold byEmailOf. fold email_step. cbn [node_at n_items].
  set (l := place _ _ _ _). pose proof (email_step_found 0 ∅ l (co_email op)) as Hf. rewrite lookup_empty in Hf.
  split.
  - intros ([e i] & He & Hin%elem_of_map_to_list). cbn in He. subst e.
    destruct (proj1 Hf) as [[? Hn]|]; [by eexists|done|done].
  - intros Hin. destruct (proj2 Hf (or_intror Hin)) as [i Hi]. exists (co_email op, i). split; [done|]. by apply elem_of_map_to_list.
Qed.

Lemma dropEmails_idem ops present : dropEmails (dropEmails ops present) present = dropEmails ops present.
Proof. unfold dropEmails. rewrite list_filter_filter. apply list_filter_iff. tauto. Qed.

Lemma dropEmails_valid ops present : Forall op_valid ops → Forall op_valid (dropEmails ops present).
Proof. rewrite !Forall_forall. intros Ho op [_ Hin]%list_elem_of_filter. by apply Ho. Qed.

(** ** Edits that change a value *)

(** The edits make of [s] what [f] makes of its value. *)
Definition performs (depth pos : nat) (s : syntax) (es : list textEdit) (f : json → json) : Prop :=
  ∃ s', patched pos s es s' ∧ valid depth s' ∧ denotes s' = f (denotes s).

Lemma performs_nothing depth pos s f : valid depth s → f (denotes s) = denotes s → performs depth pos s [] f.
Proof. intros Hv Hf. exists s. split_and!; [apply patched_refl|done|done]. Qed.

(** A member's value changed. *)
Lemma performs_member depth pos ws pre h s b post es key f :
  valid (S depth) (SObject ws (pre ++ (h, s, b) :: post)) → string_value (ld_key h) = key →
  Forall (λ e, string_value (ld_key e.1.1) ≠ key) pre → performs depth (member_pos pos pre h) s es f →
  performs (S depth) pos (SObject ws (pre ++ (h, s, b) :: post)) es
    (λ j, match j with JObject fields => JObject (on_first key f fields) | _ => j end).
Proof.
  intros [Hws Hall] Hk Hpre (s' & Hp & Hv & Hd). exists (SObject ws (pre ++ (h, s', b) :: post)). split_and!.
  - by apply patched_member.
  - split; [done|]. apply Forall_app in Hall as [H1 [(Hh & _ & Hb) H2]%Forall_cons]. cbn [fst snd] in Hh, Hb.
    apply Forall_app. split; [done|]. constructor; [exact (conj Hh (conj Hv Hb))|done].
  - rewrite (denotes_object ws (pre ++ (h, s, b) :: post)). fold (field_values (pre ++ (h, s, b) :: post)).
    by apply (field_found ws pre h s b post key Hk Hpre).
Qed.

Definition before_edit (a b : textEdit) : Prop := te_at a < te_at b.

Lemma disjoint_ge lo es hi : disjoint_from lo es hi → Forall (λ e, lo ≤ te_at e) es.
Proof.
  revert lo. induction es as [|e es IH]; intros lo; [constructor|]. intros (Hl & He & Hd). constructor; [done|].
  eapply Forall_impl; [by apply IH|]. cbn. lia.
Qed.

Lemma disjoint_le lo es hi : disjoint_from lo es hi → Forall (λ e, te_at e ≤ hi) es.
Proof.
  revert lo. induction es as [|e es IH]; intros lo; [constructor|]. intros (Hl & He & Hd).
  pose proof (disjoint_from_le _ _ _ Hd). constructor; [lia|]. by eapply IH.
Qed.

Lemma before_edit_inj l x y : StronglySorted before_edit l → x ∈ l → y ∈ l → te_at x = te_at y → x = y.
Proof.
  unfold before_edit. induction 1 as [|e l _ IH He]; [by intros ?%elem_of_nil|]. rewrite Forall_forall in He. rewrite !elem_of_cons.
  intros [->|Hx] [->|Hy] Heq; [done|specialize (He _ Hy); lia|specialize (He _ Hx); lia|auto].
Qed.

Lemma sorted_rev l : StronglySorted before_edit l → StronglySorted (λ a b, te_at b ≤ te_at a) (rev l).
Proof.
  unfold before_edit. induction 1 as [|e l _ IH He]; [constructor|]. rewrite Forall_forall in He. cbn [rev]. apply StronglySorted_app. split_and!.
  - intros x y Hx ->%list_elem_of_singleton. rewrite <-Permutation_rev in Hx. specialize (He _ Hx). lia.
  - done.
  - by repeat constructor.
Qed.

Lemma apply_planned `{DescSort sort_edits} doc edits es lo : edits ≡ₚ es → StronglySorted before_edit es → disjoint_from lo es (length doc) →
  apply_edits doc (sort_edits edits) = Some (patch 0 doc es).
Proof.
  intros Hperm Hs Hd. assert (sort_edits edits = rev es) as ->.
  { apply (StronglySorted_unique_strong (λ a b, te_at b ≤ te_at a)); [|apply sort_desc|by apply sorted_rev|].
    - intros x y Hx Hy Hyx Hxy. apply (before_edit_inj es); [done| | |lia].
      + by rewrite (sort_perm edits), Hperm in Hx.
      + by rewrite <-Permutation_rev in Hy.
    - by rewrite (sort_perm edits), <-Permutation_rev. }
  rewrite (apply_edits_splice _ lo) by done. by rewrite (splice_patch _ 0 _ (length doc)), drop_0 by (eapply disjoint_from_mono; [|done]; lia).
Qed.

(** What the edits of a plan make of the whole document. *)
Lemma performed_document `{DescSort sort_edits} depth a s b edits es f :
  performs depth (length a) s es f → edits ≡ₚ es → StronglySorted before_edit es →
  ∃ s', valid depth s' ∧ denotes s' = f (denotes s) ∧
    apply_edits (a ++ spell s ++ b) (sort_edits edits) = Some (a ++ spell s' ++ b).
Proof.
  intros (s' & [Hd Hp] & Hv' & He) Hperm Hs. exists s'. split_and!; [done|done|].
  destruct (patch_middle 0 a (spell s) b es (spell s') Hd Hp) as [H1 H2].
  by rewrite (apply_planned _ _ _ 0 Hperm) by done; rewrite H1.
Qed.

End RenderSyntax.
