(* ===== verification/RenderEntries.v ===== *)
(** * The entries of a clients array

    Items side by side, an id rewritten in place, and which entry a plan's
    set finds: the last of its email. *)

From Stdlib Require Import Ascii String.
From S2P Require Import Prelude GoJson GoText GoDecode GoDecodeProps GoPrint Render RenderProps RenderTheorems JsonText JsonSyntax JsonScan XrayDecode RenderSyntax.

Module RenderEntries.
Import GoJson GoText GoDecode GoPrint Render RenderProps RenderTheorems JsonText JsonSyntax JsonScan RenderSyntax.

(** ** Items side by side *)

#[local] Abbreviation item := (list Z * syntax * list Z)%type.

Definition item_ok (depth : nat) (e : item) : Prop := spaces e.1.1 ∧ valid depth e.1.2 ∧ spaces e.2.

(** The values of the items. *)
Definition values (items : list item) : list json := (λ e, denotes e.1.2) <$> items.

(** The edits of each item change its value. *)
Fixpoint each_performs (depth pos : nat) (items : list item) (eds : list (list textEdit * (json → json))) : Prop :=
  match items, eds with
  | [], [] => True
  | e :: items, (es, f) :: eds =>
      performs depth (pos + length e.1.1) e.1.2 es f ∧ StronglySorted before_edit es ∧
      each_performs depth (pos + length (array_item e) + 1) items eds
  | _, _ => False
  end.

(** What the edits make of the items of an array, side by side at [pos]: the
    same white space around other values. *)
Definition items_performed (depth pos : nat) (items : list item) (es : list textEdit) (out : list json) : Prop :=
  ∃ items', (λ e, e.1.1) <$> items' = (λ e, e.1.1) <$> items ∧ snd <$> items' = snd <$> items ∧
    disjoint_from pos es (pos + length (GoPrint.separated 44%Z array_item items)) ∧
    patch pos (GoPrint.separated 44%Z array_item items) es = GoPrint.separated 44%Z array_item items' ∧
    Forall (item_ok depth) items' ∧ values items' = out ∧ StronglySorted before_edit es.

Lemma item_performed depth pos a s b es f : spaces a → spaces b → performs depth (pos + length a) s es f →
  ∃ s', disjoint_from pos es (pos + length (array_item (a, s, b))) ∧ patch pos (array_item (a, s, b)) es = array_item (a, s', b) ∧
    item_ok depth (a, s', b) ∧ denotes s' = f (denotes s).
Proof.
  intros Ha Hb (s' & [Hd Hp] & Hv & He). destruct (patch_middle pos a (spell s) b es (spell s')) as [H1 H2]; [done..|].
  exists s'. split_and!; done.
Qed.

Lemma sorted_apart es1 es2 lo mid hi : disjoint_from lo es1 mid → disjoint_from (mid + 1) es2 hi →
  StronglySorted before_edit es1 → StronglySorted before_edit es2 → StronglySorted before_edit (es1 ++ es2).
Proof.
  intros Hd1 Hd2 Hs1 Hs2. apply StronglySorted_app. split_and!; [|done|done]. intros x y Hx Hy.
  apply disjoint_le in Hd1. apply disjoint_ge in Hd2. rewrite Forall_forall in Hd1, Hd2.
  specialize (Hd1 _ Hx). specialize (Hd2 _ Hy). unfold before_edit. lia.
Qed.

Lemma side_by_side depth pos items eds : Forall (item_ok depth) items → each_performs depth pos items eds →
  items_performed depth pos items (concat eds.*1) (zip_with (λ f j, f j) eds.*2 (values items)).
Proof.
  intros Hall. revert pos eds. induction Hall as [|[[a s] b] items (Ha & Hs & Hb) Hall IH]; intros pos [|[es1 f] eds]; try done.
  { intros _. exists []. split_and!; try done; [cbn; lia|constructor]. }
  intros (Hp & Hso1 & Hrest). cbn [fst snd] in Hp, Ha, Hb. destruct (item_performed _ _ a s b es1 _ Ha Hb Hp) as (s' & Hd1 & Hp1 & Hv1 & Hden1).
  destruct (IH _ _ Hrest) as (items' & Hfst & Hsnd & Hd2 & Hp2 & Hv2 & Hden2 & Hso2). unfold values in *.
  destruct items as [|e items].
  { destruct items'; [|done]. destruct eds; [|done]. cbn [fmap list_fmap fst snd concat zip_with]. rewrite app_nil_r.
    exists [(a, s', b)]. cbn [GoPrint.separated]. split_and!; [done..|by constructor| |done]. unfold values. cbn [fmap list_fmap fst snd zip_with]. by rewrite Hden1. }
  exists ((a, s', b) :: items'). destruct items' as [|e' items']; [done|].
  assert (concat ((es1, f) :: eds).*1 = es1 ++ concat eds.*1) as -> by done. set (es2 := concat eds.*1) in *. rewrite !separated_cons.
  set (l1 := array_item (a, s, b)) in *. set (l2 := GoPrint.separated 44%Z array_item (e :: items)) in *.
  assert (disjoint_from (pos + length (l1 ++ [44%Z])) es2 (pos + length (l1 ++ 44%Z :: l2))) as Hd2'.
  { rewrite !length_app. cbn [length]. rewrite !Nat.add_assoc.
    by replace (pos + length l1 + S (length l2)) with (pos + length l1 + 1 + length l2) by lia. }
  assert (disjoint_from pos es1 (pos + length (l1 ++ [44%Z]))) as Hd1'.
  { rewrite <-(app_nil_r es1). eapply disjoint_app; [exact Hd1|]. cbn [disjoint_from]. rewrite length_app. lia. }
  split_and!.
  - rewrite !fmap_cons in *. by rewrite Hfst.
  - rewrite !fmap_cons in *. by rewrite Hsnd.
  - eapply disjoint_app; [exact Hd1'|exact Hd2'].
  - replace (l1 ++ 44%Z :: l2) with ((l1 ++ [44%Z]) ++ l2) by (by rewrite <-app_assoc).
    rewrite (patch_app pos (l1 ++ [44%Z]) l2 es1 es2 _ Hd1' Hd2').
    rewrite <-(app_nil_r es1). rewrite (patch_app pos l1 [44%Z] es1 [] (pos + length l1) Hd1) by (cbn; lia).
    cbn [patch]. rewrite Hp1, <-app_assoc. cbn [app]. do 2 f_equal.
    rewrite length_app. cbn [length]. rewrite Nat.add_assoc. exact Hp2.
  - by constructor.
  - unfold values. rewrite !fmap_cons in *. cbn [fmap list_fmap fst snd zip_with] in *. by rewrite Hden2, Hden1.
  - eapply (sorted_apart _ _ pos (pos + length l1)); [exact Hd1|exact Hd2|done|done].
Qed.

(** An array, from its items. *)
Lemma array_performs depth pos ws items es out : spaces ws → items_performed depth (pos + 1) items es out →
  ∃ s', patched pos (SArray ws items) es s' ∧ valid (S depth) s' ∧ denotes s' = JArray out.
Proof.
  intros Hws (items' & Hfst & _ & Hd & Hp & Hv & <- & _). set (tail := match items with [] => ws ++ [93%Z] | _ => [93%Z] end).
  assert (length items' = length items) as Hlen by (apply (f_equal length) in Hfst; by rewrite !length_fmap in Hfst).
  assert (∀ l : list item, length l = length items → spell (SArray ws l) = [91%Z] ++ GoPrint.separated 44%Z array_item l ++ tail) as Hspell.
  { intros l Hl. unfold tail. by destruct l, items. }
  exists (SArray ws items'). split_and!; [|done|apply denotes_array].
  unfold patched. rewrite !Hspell by done.
  destruct (patch_middle pos [91%Z] (GoPrint.separated 44%Z array_item items) tail es (GoPrint.separated 44%Z array_item items')); done.
Qed.

(** ** An id rewritten in place *)

Definition set_id (id : string) (j : json) : json :=
  match j with
  | JObject fields =>
      match first_field "id" fields with
      | Some (JString _) => JObject (on_first "id" (λ _, JString id) fields)
      | _ => JObject (("id"%string, JString id) :: fields)
      end
  | _ => j
  end.

Lemma on_first_same key v fields : first_field key fields = Some v → on_first key (λ _, v) fields = fields.
Proof.
  induction fields as [|[k w] fields IH]; [done|]. cbn. destruct (String.eqb k key); [by intros [= ->]|]. intros Hf. by rewrite IH.
Qed.

(** Another string in the place of one. *)
Lemma string_performs depth pos body id : utf8_valid id = true →
  performs depth pos (SString body) [{| te_at := pos; te_end := pos + length (spell (SString body)); te_text := quote id |}] (λ _, JString id).
Proof.
  intros Hv. exists (string_syntax id). split_and!; [|by apply valid_string|by apply denotes_string].
  split; [cbn [disjoint_from te_at te_end]; lia|]. cbn [patch te_at te_end te_text]. rewrite spell_string by done. rewrite Nat.sub_diag, Nat.add_comm, Nat.add_sub.
  rewrite drop_all. cbn [take app]. by rewrite app_nil_r.
Qed.

Definition id_lead : lead := plain_lead [] "id".

(** A member put before the others. *)
Lemma id_first_performs depth pos ws h s b items id : valid (S depth) (SObject ws ((h, s, b) :: items)) → utf8_valid id = true →
  performs (S depth) pos (SObject ws ((h, s, b) :: items))
    [{| te_at := pos + 1; te_end := pos + 1; te_text := member "id" +:+ quote id +:+ ", " |}]
    (λ j, match j with JObject fields => JObject (("id"%string, JString id) :: fields) | _ => j end).
Proof.
  intros [Hws Hall] Hid. apply Forall_cons in Hall as [((Hb1 & Hk & Hm & Ha) & Hs & Hb) Hall]. cbn [fst snd] in *.
  set (h' := {| ld_before := 32%Z :: ld_before h; ld_key := ld_key h; ld_mid := ld_mid h; ld_after := ld_after h |}).
  exists (SObject ws ((id_lead, string_syntax id, []) :: (h', s, b) :: items)). split_and!.
  - change 1 with (length [123%Z]) at 1. pose proof (patched_insert pos [123%Z]) as Hi.
    change (pos + 1) with (pos + length [123%Z]).
    apply (Hi (GoPrint.separated 44%Z object_item ((h, s, b) :: items) ++ [125%Z])); [done|].
    change (spell (SObject ws ((id_lead, string_syntax id, []) :: (h', s, b) :: items))) with
      (123%Z :: GoPrint.separated 44%Z object_item ((id_lead, string_syntax id, []) :: (h', s, b) :: items) ++ [125%Z]).
    rewrite separated_cons. unfold object_item at 1. cbn [fst snd].
    assert (GoPrint.separated 44%Z object_item ((h', s, b) :: items) = 32%Z :: GoPrint.separated 44%Z object_item ((h, s, b) :: items)) as ->.
    { destruct items; cbn [GoPrint.separated]; done. }
    rewrite spell_string by done. rewrite !bytes_of_app, member_bytes. unfold lead_text, id_lead, plain_lead. cbn [ld_before ld_key ld_mid ld_after].
    by repeat (rewrite <-?app_assoc; cbn [app]).
  - split; [done|]. constructor.
    + split; [|split; [by apply valid_string|constructor]]. split; [constructor|]. split; [by split; [|apply bytes_of_range]|]. split; [constructor|apply spaces_32].
    + constructor; [|done]. split; [|by split]. split; [by constructor|]. by split.
  - rewrite !denotes_object, !fmap_cons. cbn [fst snd]. by rewrite denotes_string.
Qed.

(** planIDSet, on an entry that has a member. *)
Lemma plan_id_performs depth pos ws items id : valid (S depth) (SObject ws items) → items ≠ [] → utf8_valid id = true →
  let es := opt_list (planIDSet (node_at pos (SObject ws items)) id) in
  performs (S depth) pos (SObject ws items) es (set_id id) ∧ StronglySorted before_edit es.
Proof.
  intros Hv Hne Hid es. assert (StronglySorted before_edit es) as Hsort by (unfold es; destruct (planIDSet _ _); repeat constructor). split; [|done].
  unfold es. clear es Hsort. pose proof (denotes_object ws items) as Hden. fold (field_values items) in Hden.
  assert (n_items (node_at pos (SObject ws items)) ≠ []) as Hni by (cbn [node_at n_items]; by destruct items).
  assert (∀ f, set_id id (denotes (SObject ws items)) = f (denotes (SObject ws items)) → ∀ es,
    performs (S depth) pos (SObject ws items) es f → performs (S depth) pos (SObject ws items) es (set_id id)) as Hswap.
  { intros f Hf es (s' & ? & ? & Hs'). exists s'. split_and!; [done|done|]. by rewrite Hs', Hf. }
  assert (match first_field "id" (field_values items) with Some (JString _) => False | _ => True end →
    performs (S depth) pos (SObject ws items) [{| te_at := pos + 1; te_end := pos + 1; te_text := member "id" +:+ quote id +:+ ", " |}] (set_id id)) as Hinsert.
  { intros Hno. destruct items as [|[[h s] b] items]; [done|]. eapply Hswap; [|by apply id_first_performs].
    rewrite Hden. cbn [set_id]. destruct (first_field "id" (field_values ((h, s, b) :: items))) as [[]|]; done. }
  unfold planIDSet. rewrite node_start, (bool_decide_eq_false_2 _ Hni).
  destruct (find_member items "id") as [(pre & h & s & b & post & -> & Hk & Hpre)|Hno].
  - rewrite (get_member _ _ _ _ _ _ _ _ Hk Hpre). pose proof (proj1 (field_found ws pre h s b post "id" Hk Hpre)) as Hff. rewrite Hff in Hinsert.
    pose proof Hv as [_ Hall]. apply Forall_app in Hall as [_ [(_ & Hs & _) _]%Forall_cons]. cbn [fst snd] in Hs.
    rewrite (node_kind _ _ _ Hs). destruct (denotes s) as [| | |t| |] eqn:E; cbn [kind_of]; try (rewrite bool_decide_eq_false_2 by done; by apply Hinsert).
    rewrite bool_decide_eq_true_2 by done. rewrite (node_string _ _ _ _ Hs E), node_start, node_end.
    destruct (String.eqb_spec t id) as [->|Hne'].
    + apply performs_nothing; [done|]. rewrite Hden. cbn [set_id]. rewrite Hff. by rewrite on_first_same.
    + destruct s as [w|body| |]; [assert (word w) by (by destruct depth); by destruct w| |done..]. cbn [opt_list].
      eapply Hswap; [|eapply performs_member; [exact Hv|exact Hk|exact Hpre|by apply string_performs]].
      rewrite Hden. cbn [set_id]. by rewrite Hff.
  - rewrite get_none by done. apply Hinsert. by rewrite (proj1 (field_missing items "id" (λ j, j) Hno)).
Qed.

(** ** The sets of a plan *)

Definition set_of (sets : list ClientOp) (email : string) : option ClientOp := List.find (λ s, String.eqb (co_email s) email) sets.

(** The new id of each entry that is the last of its email and has a set. *)
Fixpoint new_ids (sets : list ClientOp) (emails : list (option string)) : list (option string) :=
  match emails with
  | [] => []
  | e :: emails =>
      match e with
      | Some email => if bool_decide (Some email ∈ emails) then None else co_id <$> set_of sets email
      | None => None
      end :: new_ids sets emails
  end.

Definition with_id (id : option string) (j : json) : json := match id with Some id => set_id id j | None => j end.

Definition id_edits (id : option string) (n : node) : list textEdit :=
  match id with Some id => opt_list (planIDSet n id) | None => [] end.

(** The nodes of the items of an array. *)
Definition nodes_at (pos : nat) (items : list item) : list node :=
  place (λ e : item, length (array_item e)) (λ p e, node_at (p + length e.1.1) e.1.2) pos items.

Lemma set_of_valid sets email op : Forall op_valid sets → set_of sets email = Some op → utf8_valid (co_id op) = true.
Proof. intros Hs [Hin _]%List.find_some. rewrite Forall_forall in Hs. destruct (Hs op) as (_ & ? & _); [by apply list_elem_of_In|done]. Qed.

(** An entry with an email has a member. *)
Lemma emailed_entry depth s email : valid depth s → json_email (denotes s) = Some email →
  ∃ d ws items, depth = S d ∧ s = SObject ws items ∧ items ≠ [].
Proof.
  destruct s as [w|body|ws items|ws items]; intros Hv.
  - assert (word w) by (by destruct depth). by destruct w.
  - done.
  - done.
  - destruct depth as [|d]; [done|]. rewrite denotes_object. intros He. exists d, ws, items. split_and!; [done|done|]. by intros ->.
Qed.

(** *** What planSets plans *)

(** The last entry of an email. *)
Fixpoint last_of (email : string) (l : list node) : option node :=
  match l with
  | [] => None
  | n :: l =>
      match last_of email l with
      | Some n' => Some n'
      | None => if bool_decide (entry_email n = Some email) then Some n else None
      end
  end.

Lemma last_of_snoc email l n : last_of email (l ++ [n]) = if bool_decide (entry_email n = Some email) then Some n else last_of email l.
Proof. induction l as [|m l IH]; [done|]. cbn. rewrite IH. by case_bool_decide. Qed.

Lemma last_of_none email l : last_of email l = None ↔ Some email ∉ entry_email <$> l.
Proof.
  induction l as [|n l IH]; [split; [intros _; apply not_elem_of_nil|done]|]. cbn [last_of]. rewrite fmap_cons, not_elem_of_cons, <-IH.
  destruct (last_of email l); [naive_solver|]. case_bool_decide; naive_solver.
Qed.

Lemma email_step_entry k m n : email_step (k, m) n = (k + 1, match entry_email n with Some e => <[e := k]> m | None => m end).
Proof. unfold email_step, entry_email. destruct (n_kind n); try done. destruct (get n "email"); [|done]. by case_bool_decide. Qed.

Lemma byEmail_last clients email : byEmailOf clients !! email ≫= (λ i, n_items clients !! i) = last_of email (n_items clients).
Proof.
  unfold byEmailOf. fold email_step.
  enough (∀ l, (foldl email_step (0, ∅) l).1 = length l ∧
    (foldl email_step (0, ∅) l).2 !! email ≫= (λ i, l !! i) = last_of email l ∧
    ∀ i, (foldl email_step (0, ∅) l).2 !! email = Some i → i < length l) as H by apply H.
  intros l. induction l as [|n l (IH1 & IH2 & IH3)] using rev_ind; [split_and!; [done|done|]; intros i; cbn; by rewrite lookup_empty|].
  rewrite foldl_app, length_app. cbn [foldl]. destruct (foldl email_step (0, ∅) l) as [k m]. cbn [fst snd] in *. subst k.
  rewrite email_step_entry, last_of_snoc. cbn [fst snd length].
  assert (m !! email ≫= (λ i, (l ++ [n]) !! i) = m !! email ≫= (λ i, l !! i)) as Hold.
  { destruct (m !! email) as [i|] eqn:E; [|done]. cbn. apply lookup_app_l. by apply IH3. }
  destruct (entry_email n) as [e|] eqn:Ee.
  - destruct (decide (e = email)) as [->|Hne].
    + rewrite bool_decide_eq_true_2 by done. rewrite lookup_insert_eq. split_and!; [done| |intros i [= <-]; lia].
      cbn. by rewrite lookup_app_r, Nat.sub_diag.
    + rewrite bool_decide_eq_false_2 by congruence. rewrite lookup_insert_ne by done. rewrite Hold, IH2. split_and!; [done|done|].
      intros i Hi. specialize (IH3 i Hi). lia.
  - rewrite bool_decide_eq_false_2 by done. rewrite Hold, IH2. split_and!; [done|done|]. intros i Hi. specialize (IH3 i Hi). lia.
Qed.

Lemma byEmail_split clients email i : byEmailOf clients !! email = Some i →
  ∃ before n after, n_items clients = before ++ n :: after ∧ length before = i ∧ entry_email n = Some email ∧ Some email ∉ entry_email <$> after.
Proof.
  unfold byEmailOf. fold email_step.
  enough (∀ l, (foldl email_step (0, ∅) l).1 = length l ∧ ((foldl email_step (0, ∅) l).2 !! email = Some i →
    ∃ before n after, l = before ++ n :: after ∧ length before = i ∧ entry_email n = Some email ∧ Some email ∉ entry_email <$> after)) as H by apply H.
  intros l. induction l as [|n l (IH1 & IH2)] using rev_ind; [by split; [|cbn; rewrite lookup_empty]|].
  rewrite foldl_app, length_app. cbn [foldl]. destruct (foldl email_step (0, ∅) l) as [k m]. cbn [fst snd] in *. subst k.
  rewrite email_step_entry. cbn [fst snd length]. split; [done|].
  assert (m !! email = Some i → entry_email n ≠ Some email → ∃ before n' after, l ++ [n] = before ++ n' :: after ∧ length before = i ∧
    entry_email n' = Some email ∧ Some email ∉ entry_email <$> after) as Hold.
  { intros Hm Hn. destruct (IH2 Hm) as (before & n' & after & -> & Hl & He & Hno). exists before, n', (after ++ [n]). split_and!; [by rewrite <-app_assoc|done|done|].
    rewrite fmap_app. intros [?|Hx%list_elem_of_singleton]%elem_of_app; [done|congruence]. }
  destruct (entry_email n) as [e|] eqn:Ee; [|intros Hm; by apply Hold].
  destruct (decide (e = email)) as [->|Hne]; [|rewrite lookup_insert_ne by done; intros Hm; apply Hold; [done|congruence]].
  rewrite lookup_insert_eq. intros [= <-]. exists l, n, []. split_and!; [done|done|done|apply not_elem_of_nil].
Qed.

Definition set_edits (l : list node) (set : ClientOp) : list textEdit :=
  match last_of (co_email set) l with Some n => opt_list (planIDSet n (co_id set)) | None => [] end.

Lemma planSets_split clients sets :
  planSets clients (byEmailOf clients) sets =
    (sets ≫= set_edits (n_items clients), filter (λ set, Some (co_email set) ∉ entry_email <$> n_items clients) sets).
Proof.
  unfold planSets. fold (set_step clients (byEmailOf clients)). induction sets as [|set sets IH] using rev_ind; [done|].
  rewrite foldl_app, IH. cbn [foldl]. unfold set_step at 1. rewrite byEmail_last, bind_app, filter_app. cbn [mbind list_bind].
  unfold set_edits at 2 4. rewrite app_nil_r, filter_cons, filter_nil. pose proof (last_of_none (co_email set) (n_items clients)) as Hn.
  destruct (last_of (co_email set) (n_items clients)) as [n|]; [rewrite decide_False by naive_solver|rewrite decide_True by naive_solver];
    by rewrite app_nil_r.
Qed.

Lemma bind_agree {A B} (f g : A → list B) (l : list A) : (∀ x, x ∈ l → f x = g x) → l ≫= f = l ≫= g.
Proof.
  induction l as [|x l IH]; intros Hfg; [done|]. cbn [mbind list_bind]. rewrite (Hfg x) by (by left). f_equal. apply IH. intros y Hy. apply Hfg. by right.
Qed.

Lemma set_of_split sets email op : set_of sets email = Some op → NoDup (co_email <$> sets) →
  ∃ before after, sets = before ++ op :: after ∧ co_email op = email ∧ ∀ s, s ∈ before ++ after → co_email s ≠ email.
Proof.
  unfold set_of. induction sets as [|s sets IH]; [done|]. cbn [List.find]. rewrite fmap_cons, NoDup_cons. destruct (String.eqb_spec (co_email s) email) as [He|He].
  - intros [= ->] [Hnot _]. exists [], sets. split_and!; [done|done|]. cbn [app]. intros s Hs E. apply Hnot. rewrite He, <-E. by apply list_elem_of_fmap_2.
  - intros Hf [_ Hnd]. destruct (IH Hf Hnd) as (before & after & -> & Ho & Hrest). exists (s :: before), after. split_and!; [done|done|].
    cbn [app]. intros s' [->|Hs']%elem_of_cons; [done|by apply Hrest].
Qed.

Lemma set_of_none sets email : set_of sets email = None → ∀ s, s ∈ sets → co_email s ≠ email.
Proof. intros Hf s Hs%list_elem_of_In. by apply String.eqb_neq, (List.find_none _ _ Hf). Qed.

(** The rewrites, in the order of the sets or of the entries. *)
Lemma sets_permuted sets l : NoDup (co_email <$> sets) →
  sets ≫= set_edits l ≡ₚ concat (zip_with id_edits (new_ids sets (entry_email <$> l)) l).
Proof.
  intros Hnd. induction l as [|n l IH].
  { assert (sets ≫= set_edits [] = []) as -> by (clear; by induction sets). done. }
  cbn [fmap list_fmap new_ids zip_with concat]. rewrite <-IH. clear IH.
  assert ((∀ s, s ∈ sets → entry_email n = Some (co_email s) → last_of (co_email s) l ≠ None) → sets ≫= set_edits (n :: l) = sets ≫= set_edits l) as Hsame.
  { intros Hlater. apply bind_agree. intros s Hs. unfold set_edits. cbn [last_of]. specialize (Hlater s Hs).
    destruct (last_of (co_email s) l); [done|]. case_bool_decide as He; [by destruct (Hlater He)|done]. }
  destruct (entry_email n) as [email|] eqn:Ee; [|cbn [id_edits app]; by rewrite Hsame].
  case_bool_decide as Hin; cbn [id_edits app].
  { rewrite Hsame; [done|]. intros s _ [= ->]. intros Hn%last_of_none. by apply Hn. }
  destruct (set_of sets email) as [op|] eqn:Eo; cbn [fmap option_fmap option_map id_edits app].
  2: { rewrite Hsame; [done|]. intros s Hs [= E]. by destruct (set_of_none _ _ Eo s Hs). }
  destruct (set_of_split _ _ _ Eo Hnd) as (before & after & -> & Ho & Hrest). rewrite !bind_app, !bind_cons.
  assert (∀ part, (∀ s, s ∈ part → s ∈ before ++ after) → part ≫= set_edits (n :: l) = part ≫= set_edits l) as Hpart.
  { intros part Hp. apply bind_agree. intros s Hs. unfold set_edits. cbn [last_of]. rewrite Ee.
    destruct (last_of (co_email s) l); [done|]. rewrite bool_decide_eq_false_2; [done|]. intros [= E]. by destruct (Hrest s (Hp s Hs)). }
  rewrite !Hpart by (intros s Hs; apply elem_of_app; auto).
  apply last_of_none in Hin. assert (set_edits (n :: l) op = opt_list (planIDSet n (co_id op))) as ->.
  { unfold set_edits. cbn [last_of]. rewrite Ho, Hin, Ee. by rewrite bool_decide_eq_true_2. }
  assert (set_edits l op = []) as -> by (unfold set_edits; by rewrite Ho, Hin).
  cbn [app]. rewrite Permutation_app_comm, <-app_assoc. by rewrite (Permutation_app_comm (after ≫= _)).
Qed.

Lemma nodes_emails depth pos items : Forall (item_ok depth) items → entry_email <$> nodes_at pos items = json_email <$> values items.
Proof.
  intros Hall. revert pos. induction Hall as [|e items (_ & He & _) _ IH]; intros pos; [done|].
  unfold nodes_at, values. cbn [place fmap list_fmap]. f_equal; [by eapply node_email|apply IH].
Qed.

(** The rewrites, entry by entry. *)
Definition ids_edits (sets : list ClientOp) (pos : nat) (items : list item) : list textEdit :=
  concat (zip_with id_edits (new_ids sets (json_email <$> values items)) (nodes_at pos items)).

Lemma planned_sets depth pos ws items sets : Forall (item_ok depth) items → NoDup (co_email <$> sets) →
  let clients := node_at pos (SArray ws items) in
  (planSets clients (byEmailOf clients) sets).1 ≡ₚ ids_edits sets (pos + 1) items.
Proof.
  intros Hall Hnd clients. rewrite planSets_split. cbn [fst]. rewrite (sets_permuted sets (n_items clients) Hnd).
  change (n_items clients) with (nodes_at (pos + 1) items). by rewrite (nodes_emails depth).
Qed.

(** ** The text of an array *)

Lemma before_last ws pre a s b : spell (SArray ws (pre ++ [(a, s, b)])) = ([91%Z] ++ GoPrint.separated 44%Z array_item (pre ++ [(a, s, [])])) ++ b ++ [93%Z].
Proof.
  rewrite spell_array_last, separated_middle. unfold array_item at 3, behind. cbn [fst snd concat fmap list_fmap].
  by repeat (rewrite <-?app_assoc; cbn [app]; rewrite ?app_nil_r).
Qed.

Lemma last_end_text pos pre a s : last_end pos pre a s = pos + length ([91%Z] ++ GoPrint.separated 44%Z array_item (pre ++ [(a, s, [])])).
Proof.
  unfold last_end. rewrite separated_middle. unfold array_item at 3, behind. cbn [fst snd concat fmap list_fmap app]. by rewrite !app_nil_r.
Qed.

(** The rewrites lie inside the entries. *)
Lemma plan_id_within depth pos s id : valid depth s → (∃ email, json_email (denotes s) = Some email) →
  Forall (λ e, te_at e < pos + length (spell s)) (opt_list (planIDSet (node_at pos s) id)).
Proof.
  intros Hv [email He]. destruct (emailed_entry _ _ _ Hv He) as (d & ws & items & -> & -> & Hne).
  assert (1 < length (spell (SObject ws items))) as Hlen by (cbn [spell length]; rewrite length_app; cbn [length]; lia).
  assert (∀ insert, te_at insert = pos + 1 → Forall (λ e, te_at e < pos + length (spell (SObject ws items))) (opt_list (Some insert))) as Hins.
  { intros insert Hi. cbn [opt_list]. constructor; [lia|constructor]. }
  unfold planIDSet. rewrite node_start. destruct (find_member items "id") as [(pre & h & v & b & post & -> & Hk & Hpre)|Hno].
  - rewrite (get_member _ _ _ _ _ _ _ _ Hk Hpre). case_bool_decide; [|by apply Hins]. destruct (String.eqb _ _); [constructor|].
    cbn [opt_list]. constructor; [|constructor]. cbn [te_at]. rewrite node_start, spell_object. unfold member_pos. cbn [fst snd].
    rewrite !length_app. cbn [length]. rewrite !length_app. cbn [length]. lia.
  - rewrite get_none by done. by apply Hins.
Qed.

Lemma patched_cut pos A M B s s' : spell s = A ++ M ++ B → spell s' = A ++ B →
  patched pos s [{| te_at := pos + length A; te_end := pos + length A + length M; te_text := "" |}] s'.
Proof.
  intros Hs Hs'. unfold patched. rewrite Hs, Hs', !length_app. split; [cbn [disjoint_from te_at te_end]; lia|].
  cbn [patch te_at te_end te_text]. replace (pos + length A - pos) with (length A) by lia. rewrite take_app_length.
  replace (pos + length A + length M - pos) with (length A + length M) by lia.
  rewrite <-drop_drop, drop_app_length, drop_app_length. done.
Qed.

Lemma commas_middle {A} (f : A → list Z) pos pre x y post :
  commas (λ e, length (f e)) pos (pre ++ x :: y :: post) !! length pre = Some (pos + length (ahead f pre) + length (f x)).
Proof.
  revert pos. induction pre as [|p pre IH]; intros pos; [cbn; by rewrite Nat.add_0_r|].
  cbn [app commas length]. destruct (pre ++ x :: y :: post) as [|q l] eqn:E; [by destruct pre|]. cbn [lookup list_lookup].
  rewrite IH. unfold ahead. cbn [fmap list_fmap concat]. rewrite !length_app. cbn [length]. f_equal. lia.
Qed.

Lemma commas_length {A} (f : A → list Z) pos l : length (commas (λ e, length (f e)) pos l) = pred (length l).
Proof. revert pos. induction l as [|x l IH]; intros pos; [done|]. cbn [commas]. destruct l as [|y l]; [done|]. cbn [length]. rewrite IH. done. Qed.

Lemma spell_array ws (items : list item) : spell (SArray ws items) = [91%Z] ++ GoPrint.separated 44%Z array_item items ++ match items with [] => ws ++ [93%Z] | _ => [93%Z] end.
Proof. by destruct items. Qed.
End RenderEntries.
