(* ===== verification/RenderFates.v ===== *)
(** * What becomes of the entries of a clients array

    A change of an array takes entries out, gives entries a new id and puts
    clients after the last. Here the edits of all three at once, in the order
    of the text, and what they make of the array. *)

From Stdlib Require Import Ascii String.
From S2P Require Import Prelude GoJson GoText GoDecode GoDecodeProps GoPrint Render RenderProps RenderTheorems JsonText JsonSyntax JsonScan XrayDecode RenderSyntax RenderEntries.

Module RenderFates.
Import GoJson GoText GoDecode GoPrint Render RenderProps RenderTheorems JsonText JsonSyntax JsonScan RenderSyntax RenderEntries.

#[local] Abbreviation item := (list Z * syntax * list Z)%type.

(** ** The edits in the order of the text *)

(** An entry is taken out, or kept under a new id or its own. *)
Definition fate : Set := option (option string).

Definition outcome (f : fate) (j : json) : list json := match f with Some id => [with_id id j] | None => [] end.

Definition cut (from to : nat) : textEdit := {| te_at := from; te_end := to; te_text := "" |}.

(** An entry's way out: up to the next entry, or from the comma before it. *)
Definition removal_edit (p : nat) (prev : option nat) (s : syntax) (b : list Z) (rest : list item) : textEdit :=
  match rest, prev with
  | next :: _, _ => cut p (p + length (spell s) + length b + 1 + length next.1.1)
  | [], Some comma => cut comma (p + length (spell s))
  | [], None => cut p (p + length (spell s))
  end.

(** The edits of the entry [s] at [p], the white space [b] after it, and the
    entries that follow; [prev] is the comma before. *)
Fixpoint entry_edits (p : nat) (prev : option nat) (s : syntax) (b : list Z) (rest : list item) (fates : list fate) : list textEdit :=
  match fates with
  | [] => []
  | f :: fates =>
      match f with Some id => id_edits id (node_at p s) | None => [removal_edit p prev s b rest] end ++
      match rest with
      | [] => []
      | (a2, s2, b2) :: rest =>
          entry_edits (p + length (spell s) + length b + 1 + length a2) (Some (p + length (spell s) + length b)) s2 b2 rest fates
      end
  end.

(** No entry is taken out right before a last one that is taken out, and one
    is kept. *)
Fixpoint apart (fates : list fate) : bool :=
  match fates with
  | [] | [None] => false
  | [Some _; None] => true
  | [Some _] => true
  | _ :: fates => apart fates
  end.

(** A new id goes to an entry with an email. *)
Definition fits (f : fate) (s : syntax) : Prop :=
  match f with Some (Some id) => utf8_valid id = true ∧ ∃ email, json_email (denotes s) = Some email | _ => True end.

Lemma kept_performs depth p s id : valid depth s → fits (Some id) s →
  performs depth p s (id_edits id (node_at p s)) (with_id id) ∧ StronglySorted before_edit (id_edits id (node_at p s)).
Proof.
  intros Hs Hf. destruct id as [id|]; [|split; [by apply performs_nothing|constructor]]. destruct Hf as (Hv & email & He).
  destruct (emailed_entry depth s email Hs He) as (d & ws & its & -> & -> & Hne). by apply plan_id_performs.
Qed.

(** The text from an entry on. *)
Definition onward (s : syntax) (b : list Z) (rest : list item) : list Z := spell s ++ b ++ behind array_item rest.

Lemma onward_next s b a2 s2 b2 rest : onward s b ((a2, s2, b2) :: rest) = (spell s ++ b ++ 44%Z :: a2) ++ onward s2 b2 rest.
Proof. unfold onward, behind. cbn [fmap list_fmap concat]. unfold array_item at 1. cbn [fst snd]. by repeat (rewrite <-?app_assoc; cbn [app]). Qed.

Lemma separated_onward (a : list Z) s b (rest : list item) : GoPrint.separated 44%Z array_item ((a, s, b) :: rest) = a ++ onward s b rest.
Proof.
  pose proof (separated_middle array_item [] (a, s, b) rest) as E. cbn [app] in E. rewrite E. unfold onward.
  change (array_item (a, s, b)) with (a ++ spell s ++ b). cbn [ahead fmap list_fmap concat app]. by rewrite <-!app_assoc.
Qed.

(** The edits, and what is then there. *)
Definition onward_performed (depth p : nat) (s : syntax) (b : list Z) (rest : list item) (es : list textEdit) (out : list json) : Prop :=
  ∃ s' b' rest', disjoint_from p es (p + length (onward s b rest)) ∧ patch p (onward s b rest) es = onward s' b' rest' ∧
    valid depth s' ∧ spaces b' ∧ Forall (item_ok depth) rest' ∧ denotes s' :: values rest' = out ∧ StronglySorted before_edit es.

Lemma cut_patch p l1 l2 es : patch p (l1 ++ l2) (cut p (p + length l1) :: es) = patch (p + length l1) l2 es.
Proof. cbn [patch cut te_at te_end te_text]. rewrite Nat.sub_diag, Nat.add_comm, Nat.add_sub, drop_app_length. done. Qed.

Lemma sorted_before es1 es2 lo mid hi : disjoint_from lo es1 mid → disjoint_from mid es2 hi → Forall (λ e, te_at e < mid) es1 →
  StronglySorted before_edit es1 → StronglySorted before_edit es2 → StronglySorted before_edit (es1 ++ es2).
Proof.
  intros Hd1 Hd2 Hlt Hs1 Hs2. apply StronglySorted_app. split_and!; [|done|done]. intros x y Hx Hy.
  apply disjoint_ge in Hd2. rewrite Forall_forall in Hlt, Hd2. specialize (Hlt _ Hx). specialize (Hd2 _ Hy). unfold before_edit. lia.
Qed.

(** An entry taken out, with those after it edited too. *)
Lemma taken_performed depth p prev s b a2 s2 b2 rest fates out :
  onward_performed depth (p + length (spell s) + length b + 1 + length a2) s2 b2 rest
    (entry_edits (p + length (spell s) + length b + 1 + length a2) (Some (p + length (spell s) + length b)) s2 b2 rest fates) out →
  onward_performed depth p s b ((a2, s2, b2) :: rest) (entry_edits p prev s b ((a2, s2, b2) :: rest) (None :: fates)) out.
Proof.
  intros (s' & b' & rest' & Hd & Hp & Hs & Hb & Hr & Ho & Hso). exists s', b', rest'. rewrite onward_next.
  cbn [entry_edits removal_edit fst app]. set (es := entry_edits _ _ s2 b2 rest fates) in *.
  assert (p + length (spell s) + length b + 1 + length a2 = p + length (spell s ++ b ++ 44%Z :: a2)) as E by (rewrite !length_app; cbn [length]; lia).
  rewrite E in *. split_and!; [| |done..|].
  - cbn [disjoint_from cut te_at te_end]. rewrite (length_app _ (onward s2 b2 rest)), Nat.add_assoc. split_and!; [done|lia|done].
  - by rewrite cut_patch.
  - constructor; [done|]. apply disjoint_ge in Hd. eapply Forall_impl; [exact Hd|]. intros e. unfold before_edit. cbn [te_at cut]. rewrite !length_app. cbn [length]. lia.
Qed.

(** An entry kept. *)
Lemma kept_text depth p s id : valid depth s → fits (Some id) s →
  let es := id_edits id (node_at p s) in
  ∃ s', disjoint_from p es (p + length (spell s)) ∧ patch p (spell s) es = spell s' ∧ valid depth s' ∧ denotes s' = with_id id (denotes s) ∧
    StronglySorted before_edit es ∧ Forall (λ e, te_at e < p + length (spell s)) es.
Proof.
  intros Hs Hf es. destruct (kept_performs depth p s id Hs Hf) as [(s' & [Hd Hp] & Hv & Hden) Hso]. exists s'. split_and!; [done..|].
  unfold es. destruct id as [id|]; [|constructor]. destruct Hf as [_ He]. by eapply plan_id_within.
Qed.

Lemma kept_performed depth p prev s b a2 s2 b2 rest id fates out : valid depth s → spaces b → spaces a2 → fits (Some id) s →
  onward_performed depth (p + length (spell s) + length b + 1 + length a2) s2 b2 rest
    (entry_edits (p + length (spell s) + length b + 1 + length a2) (Some (p + length (spell s) + length b)) s2 b2 rest fates) out →
  onward_performed depth p s b ((a2, s2, b2) :: rest) (entry_edits p prev s b ((a2, s2, b2) :: rest) (Some id :: fates)) (with_id id (denotes s) :: out).
Proof.
  intros Hs Hb Ha2 Hf (s2' & b2' & rest' & Hd2 & Hp2 & Hs2 & Hb2 & Hr & <- & Hso2).
  destruct (kept_text depth p s id Hs Hf) as (s' & Hd & Hp & Hv & Hden & Hso & Hlt). cbn [entry_edits].
  set (es := id_edits id (node_at p s)) in *. set (es2 := entry_edits _ _ s2 b2 rest fates) in *.
  assert (p + length (spell s) + length b + 1 + length a2 = p + length (spell s) + length (b ++ 44%Z :: a2)) as E by (rewrite !length_app; cbn [length]; lia).
  rewrite E in *. exists s', b, ((a2, s2', b2') :: rest'). rewrite !onward_next, <-!app_assoc, !(app_assoc b).
  assert (disjoint_from (p + length (spell s)) es2 (p + length (spell s) + length ((b ++ 44%Z :: a2) ++ onward s2 b2 rest))) as Hd2'.
  { rewrite length_app, Nat.add_assoc. eapply disjoint_from_mono; [|exact Hd2]. lia. }
  split_and!; [| |done|done| | |].
  - rewrite (length_app (spell s)), Nat.add_assoc. by eapply disjoint_app.
  - rewrite (patch_app p (spell s) _ es es2 _ Hd Hd2'), Hp. f_equal. by rewrite (patch_later _ _ _ es2 _ Hd2), Hp2.
  - constructor; [|done]. by split.
  - unfold values. by rewrite fmap_cons, Hden.
  - by eapply sorted_before.
Qed.

Lemma last_kept_performed depth p prev s b id : valid depth s → spaces b → fits (Some id) s →
  onward_performed depth p s b [] (entry_edits p prev s b [] [Some id]) [with_id id (denotes s)].
Proof.
  intros Hs Hb Hf. destruct (kept_text depth p s id Hs Hf) as (s' & Hd & Hp & Hv & Hden & Hso & _).
  cbn [entry_edits]. rewrite app_nil_r. exists s', b, []. unfold onward, behind. cbn [fmap list_fmap concat]. rewrite !app_nil_r.
  rewrite <-(app_nil_r (id_edits id (node_at p s))) at 1 2.
  assert (disjoint_from (p + length (spell s)) [] (p + length (spell s) + length b)) as Hnil by (cbn; lia).
  split_and!; [| |done|done|constructor| |done].
  - rewrite length_app, Nat.add_assoc. by eapply disjoint_app.
  - by rewrite (patch_app p (spell s) b _ [] _ Hd Hnil), Hp.
  - unfold values. cbn. by rewrite Hden.
Qed.

(** The last entry taken out, after one that is kept. *)
Lemma last_taken_performed depth p prev s b a2 s2 b2 id : valid depth s → spaces b → spaces b2 → fits (Some id) s →
  onward_performed depth p s b [(a2, s2, b2)] (entry_edits p prev s b [(a2, s2, b2)] [Some id; None]) [with_id id (denotes s)].
Proof.
  intros Hs Hb Hb2 Hf. destruct (kept_text depth p s id Hs Hf) as (s' & Hd & Hp & Hv & Hden & Hso & Hlt).
  cbn [entry_edits removal_edit app]. set (es := id_edits id (node_at p s)) in *. exists s', (b ++ b2), [].
  assert (onward s b [(a2, s2, b2)] = spell s ++ b ++ (44%Z :: a2 ++ spell s2) ++ b2) as ->.
  { unfold onward, behind. cbn [fmap list_fmap concat]. change (array_item (a2, s2, b2)) with (a2 ++ spell s2 ++ b2). by repeat (rewrite <-?app_assoc; cbn [app]; rewrite ?app_nil_r). }
  assert (p + length (spell s) + length b + 1 + length a2 + length (spell s2) = p + length (spell s) + length b + length (44%Z :: a2 ++ spell s2)) as E.
  { cbn [length]. rewrite length_app. lia. }
  rewrite E. set (gone := 44%Z :: a2 ++ spell s2).
  assert (disjoint_from (p + length (spell s)) [cut (p + length (spell s) + length b) (p + length (spell s) + length b + length gone)]
    (p + length (spell s) + length (b ++ gone ++ b2))) as Hcut.
  { cbn [disjoint_from cut te_at te_end]. rewrite !length_app. lia. }
  split_and!; [| |done|by apply Forall_app|constructor| |].
  - rewrite (length_app (spell s)), Nat.add_assoc. by eapply disjoint_app.
  - rewrite (patch_app p (spell s) _ es _ _ Hd Hcut), Hp. unfold onward, behind. cbn [fmap list_fmap concat]. rewrite app_nil_r. f_equal.
    rewrite (patch_later _ b (gone ++ b2) _ (p + length (spell s) + length b + length (gone ++ b2))); [|cbn [disjoint_from cut te_at te_end]; rewrite length_app; lia].
    f_equal. by rewrite cut_patch.
  - unfold values. cbn. by rewrite Hden.
  - eapply sorted_before; [exact Hd|exact Hcut|done|done|by repeat constructor].
Qed.

(** The edits of all the entries. *)
Lemma entries_performed depth p prev s b rest fates : valid depth s → spaces b → Forall (item_ok depth) rest →
  Forall2 fits fates (s :: ((λ e, e.1.2) <$> rest)) → apart fates = true →
  onward_performed depth p s b rest (entry_edits p prev s b rest fates) (concat (zip_with outcome fates (denotes s :: values rest))).
Proof.
  intros Hs Hb Hall. revert p prev s b Hs Hb fates. induction Hall as [|[[a2 s2] b2] rest (Ha2 & Hs2 & Hb2) Hall IH]; intros p prev s b Hs Hb fates Hf Hap; cbn [fst snd] in *.
  - destruct fates as [|f fates]; [by inversion Hf|]. apply Forall2_cons in Hf as [Hf Hn]. destruct fates; [|by inversion Hn].
    destruct f as [id|]; [|done]. by apply last_kept_performed.
  - destruct fates as [|f fates]; [by inversion Hf|]. cbn [fmap list_fmap fst snd] in Hf. apply Forall2_cons in Hf as [Hf Hfs].
    assert (fates ≠ []) as Hne by (intros ->; by inversion Hfs). unfold values. cbn [fmap list_fmap fst snd]. fold (values rest).
    destruct (decide (fates = [None] ∧ is_Some f)) as [[-> [id ->]]|Hno].
    + apply Forall2_cons in Hfs as [_ Hfs]. destruct rest; [|by inversion Hfs]. cbn [zip_with outcome concat app]. by apply last_taken_performed.
    + assert (apart fates = true) as Hap' by (destruct f as [id|], fates as [|[] []]; try done; destruct Hno; by eauto).
      specialize (IH (p + length (spell s) + length b + 1 + length a2) (Some (p + length (spell s) + length b)) s2 b2 Hs2 Hb2 fates Hfs Hap').
      destruct f as [id|]; [by apply kept_performed|by apply taken_performed].
Qed.

(** ** The array *)

Definition items_edits (pos : nat) (items : list item) (fates : list fate) : list textEdit :=
  match items with [] => [] | (a, s, b) :: rest => entry_edits (pos + length a) None s b rest fates end.

(** What the edits make of the items that stand at [pos]. *)
Definition items_edited (depth pos : nat) (items : list item) (es : list textEdit) (out : list json) : Prop :=
  ∃ items', items' ≠ [] ∧ disjoint_from pos es (pos + length (GoPrint.separated 44%Z array_item items)) ∧
    patch pos (GoPrint.separated 44%Z array_item items) es = GoPrint.separated 44%Z array_item items' ∧
    Forall (item_ok depth) items' ∧ values items' = out ∧ StronglySorted before_edit es.

Lemma items_performed_edited depth pos items fates : Forall (item_ok depth) items → Forall2 fits fates ((λ e, e.1.2) <$> items) → apart fates = true →
  items_edited depth pos items (items_edits pos items fates) (concat (zip_with outcome fates (values items))).
Proof.
  intros Hall Hf Hap. destruct items as [|[[a s] b] rest]; [by inversion Hf; subst|]. apply Forall_cons in Hall as [(Ha & Hs & Hb) Hall]. cbn [fst snd] in *.
  destruct (entries_performed depth (pos + length a) None s b rest fates Hs Hb Hall Hf Hap) as (s' & b' & rest' & Hd & Hp & Hs' & Hb' & Hr & Ho & Hso).
  cbn [items_edits]. set (es := entry_edits _ None s b rest fates) in *. exists ((a, s', b') :: rest'). rewrite !separated_onward. split_and!; [done| | |by constructor|exact Ho|done].
  - rewrite length_app, Nat.add_assoc. eapply disjoint_from_mono; [|exact Hd]. lia.
  - by rewrite (patch_later _ _ _ es _ Hd), Hp.
Qed.

Lemma array_edited depth pos ws items es out : spaces ws → items ≠ [] → items_edited depth (pos + 1) items es out →
  ∃ s', patched pos (SArray ws items) es s' ∧ valid (S depth) s' ∧ denotes s' = JArray out.
Proof.
  intros Hws Hne (items' & Hne' & Hd & Hp & Hv & <- & _).
  assert (∀ l : list item, l ≠ [] → spell (SArray ws l) = [91%Z] ++ GoPrint.separated 44%Z array_item l ++ [93%Z]) as Hspell by (by intros []).
  exists (SArray ws items'). split_and!; [|done|apply denotes_array].
  unfold patched. rewrite !Hspell by done.
  destruct (patch_middle pos [91%Z] (GoPrint.separated 44%Z array_item items) [93%Z] es (GoPrint.separated 44%Z array_item items')); done.
Qed.

(** *** Clients after the last entry *)

(** The white space after the last entry is not looked at. *)
Lemma items_edits_last pos pre a s b b' fates : items_edits pos (pre ++ [(a, s, b)]) fates = items_edits pos (pre ++ [(a, s, b')]) fates.
Proof.
  assert (∀ p prev s b b', entry_edits p prev s b [] fates = entry_edits p prev s b' [] fates) as Hone by (clear; intros; destruct fates; done).
  assert (∀ rest p prev s0 b0 fates, entry_edits p prev s0 b0 (rest ++ [(a, s, b)]) fates = entry_edits p prev s0 b0 (rest ++ [(a, s, b')]) fates) as Hmore.
  { clear. induction rest as [|[[a1 s1] b1] rest IH]; intros p prev s0 b0 fates; destruct fates as [|f fates]; try done; cbn [app entry_edits].
    by rewrite IH. }
  destruct pre as [|[[a0 s0] b0] pre]; cbn [app items_edits]; [apply Hone|apply Hmore].
Qed.

Lemma appended_items depth ws items' text next b op ops : spaces ws → items' ≠ [] → Forall (item_ok (S depth)) items' → spaces b → Forall op_valid (op :: ops) →
  spaces next → bytes_of text = 44%Z :: next ++ bytes_of (join ("," +:+ of_bytes next) (renderEntries (op :: ops))) →
  ∃ s', spell s' = [91%Z] ++ GoPrint.separated 44%Z array_item items' ++ bytes_of text ++ b ++ [93%Z] ∧ valid (S (S depth)) s' ∧
    denotes s' = JArray (values items' ++ (client_json <$> op :: ops)).
Proof.
  intros Hws Hne Hall Hb Hops Hn Ht. destruct items' as [|[[a s] b1] pre _] using rev_ind; [done|].
  exists (SArray ws (pre ++ (a, s, b1) :: client_items next next b (op :: ops))). split_and!.
  - assert (spell (SArray ws (pre ++ (a, s, b1) :: client_items next next b (op :: ops))) =
      91%Z :: GoPrint.separated 44%Z array_item (pre ++ (a, s, b1) :: client_items next next b (op :: ops)) ++ [93%Z]) as ->.
    { cbn [spell]. by destruct pre. }
    rewrite !separated_middle. pose proof (spell_items next next b op ops Hn Hops) as Hsp.
    rewrite (behind_all array_item) by apply client_items_ne. rewrite Hsp, Ht. cbn [behind fmap list_fmap concat].
    by repeat (rewrite <-?app_assoc; cbn [app]; rewrite ?app_nil_r).
  - apply Forall_app in Hall as [Hpre [Hlast _]%Forall_cons]. split; [done|]. apply Forall_app. split; [done|]. constructor; [done|]. by apply valid_items.
  - rewrite denotes_array. unfold values. rewrite !fmap_app, fmap_cons, denotes_items by done. cbn [fst snd fmap list_fmap]. by rewrite <-app_assoc.
Qed.

Lemma appended_after depth pos ws pre a s b es out text next op ops : valid (S (S depth)) (SArray ws (pre ++ [(a, s, b)])) → Forall op_valid (op :: ops) →
  items_edited (S depth) (pos + 1) (pre ++ [(a, s, [])]) es out → Forall (λ e, te_at e < last_end pos pre a s) es →
  spaces next → bytes_of text = 44%Z :: next ++ bytes_of (join ("," +:+ of_bytes next) (renderEntries (op :: ops))) →
  let es' := es ++ [{| te_at := last_end pos pre a s; te_end := last_end pos pre a s; te_text := text |}] in
  ∃ s', patched pos (SArray ws (pre ++ [(a, s, b)])) es' s' ∧ valid (S (S depth)) s' ∧
    denotes s' = JArray (out ++ (client_json <$> op :: ops)) ∧ StronglySorted before_edit es'.
Proof.
  intros Hv Hops (items' & Hne & Hd & Hp & Hok & <- & Hsort) Hlt Hn Ht es'. pose proof Hv as [Hws Hall].
  apply Forall_app in Hall as [_ [(_ & _ & Hb) _]%Forall_cons]. cbn [fst snd] in Hb.
  destruct (appended_items depth ws items' text next b op ops Hws Hne Hok Hb Hops Hn Ht) as (s' & Hs' & Hvs' & Hden).
  exists s'. set (L := [91%Z] ++ GoPrint.separated 44%Z array_item (pre ++ [(a, s, [])])) in *.
  assert (last_end pos pre a s = pos + length L) as El by apply last_end_text. unfold es'. rewrite El.
  assert (disjoint_from pos es (pos + length L)) as HdL.
  { eapply disjoint_from_mono; [|unfold L; rewrite length_app; cbn [length]; rewrite Nat.add_assoc; exact Hd]. lia. }
  assert (disjoint_from (pos + length L) [{| te_at := pos + length L; te_end := pos + length L; te_text := text |}] (pos + length L + length (b ++ [93%Z]))) as Hde.
  { cbn [disjoint_from te_at te_end]. lia. }
  split; [split|split_and!; [done|done|]].
  - rewrite before_last. fold L. rewrite (length_app L), Nat.add_assoc. eapply disjoint_app; [exact HdL|exact Hde].
  - rewrite before_last. fold L. rewrite (patch_app pos L (b ++ [93%Z]) es _ _ HdL Hde), Hs'.
    pose proof (patch_insert (pos + length L) [] (b ++ [93%Z]) text) as Hi. cbn [length app] in Hi. rewrite Nat.add_0_r in Hi. rewrite Hi.
    assert (patch pos L es = [91%Z] ++ GoPrint.separated 44%Z array_item items') as ->; [|by rewrite <-app_assoc].
    etransitivity; [exact (patch_later pos [91%Z] _ _ _ Hd)|]. change (pos + length [91%Z]) with (pos + 1). by rewrite Hp.
  - rewrite El in Hlt. eapply sorted_before; [exact HdL|exact Hde|done|done|by repeat constructor].
Qed.

(** The edits lie before the end of the last entry. *)
Lemma entries_within depth p prev s b rest fates : valid depth s → Forall (item_ok depth) rest → Forall2 fits fates (s :: ((λ e, e.1.2) <$> rest)) →
  match prev with Some comma => comma < p | None => fates ≠ [None] end →
  Forall (λ e, te_at e < p + length (onward s b rest)) (entry_edits p prev s b rest fates).
Proof.
  intros Hs Hall. revert p prev s b Hs fates. induction Hall as [|[[a2 s2] b2] rest (_ & Hs2 & _) Hall IH]; intros p prev s b Hs fates Hf Hprev;
    (destruct fates as [|f fates]; [constructor|]; cbn [fmap list_fmap fst snd] in Hf; apply Forall2_cons in Hf as [Hf Hfs]; cbn [entry_edits fst snd] in *; apply Forall_app; split).
  - unfold onward. rewrite length_app. destruct f as [id|].
    + destruct (kept_text depth p s id Hs Hf) as (? & _ & _ & _ & _ & _ & Hlt). eapply Forall_impl; [exact Hlt|]. cbn beta. lia.
    + inversion Hfs. subst fates. destruct prev as [comma|]; [|done]. constructor; [|constructor]. cbn. lia.
  - constructor.
  - rewrite onward_next, length_app. rewrite length_app. destruct f as [id|].
    + destruct (kept_text depth p s id Hs Hf) as (? & _ & _ & _ & _ & _ & Hlt). eapply Forall_impl; [exact Hlt|]. cbn beta. lia.
    + constructor; [|constructor]. cbn [removal_edit cut te_at]. rewrite length_app. cbn [length]. lia.
  - eapply Forall_impl; [apply IH; [done|exact Hfs|lia]|]. cbn beta. intros e. rewrite onward_next, !length_app. cbn [length]. lia.
Qed.

Lemma items_within depth pos items fates : Forall (item_ok depth) items → Forall2 fits fates ((λ e, e.1.2) <$> items) → apart fates = true →
  Forall (λ e, te_at e < pos + length (GoPrint.separated 44%Z array_item items)) (items_edits pos items fates).
Proof.
  intros Hall Hf Hap. destruct items as [|[[a s] b] rest]; [constructor|]. apply Forall_cons in Hall as [(_ & Hs & _) Hall]. cbn [fst snd items_edits] in *.
  eapply Forall_impl; [eapply (entries_within depth (pos + length a) None s b rest); [done..|by intros ->]|].
  cbn beta. intros e. rewrite separated_onward, length_app. lia.
Qed.

(** ** What the plan plans *)

(** The fates a change gives the entries of these emails: the last entry of
    each email is looked at. *)
Fixpoint fates_of (removes : list string) (sets : list ClientOp) (emails : list (option string)) : list fate :=
  match emails with
  | [] => []
  | e :: emails =>
      match e with
      | None => Some None
      | Some email =>
          if bool_decide (Some email ∈ emails) then Some None
          else if bool_decide (email ∈ removes) then None else Some (co_id <$> set_of sets email)
      end :: fates_of removes sets emails
  end.

Lemma fates_length removes sets emails : length (fates_of removes sets emails) = length emails.
Proof. induction emails as [|e emails IH]; [done|]. cbn. by rewrite IH. Qed.

Lemma fates_fit depth removes sets items : Forall (item_ok depth) items → Forall op_valid sets →
  Forall2 fits (fates_of removes sets (json_email <$> values items)) ((λ e, e.1.2) <$> items).
Proof.
  intros Hall Hsets. induction Hall as [|[[a s] b] items _ _ IH]; [constructor|]. unfold values in *. cbn [fmap list_fmap fates_of fst snd]. constructor; [|exact IH].
  destruct (json_email (denotes s)) as [email|] eqn:E; [|done]. repeat (case_bool_decide; [done|]).
  destruct (set_of sets email) as [op|] eqn:Eo; [|done]. split; [by eapply set_of_valid|by eexists].
Qed.

Lemma fate_taken removes sets emails i : fates_of removes sets emails !! i = Some None ↔
  ∃ email, emails !! i = Some (Some email) ∧ (Some email ∉ drop (S i) emails) ∧ email ∈ removes.
Proof.
  revert i. induction emails as [|e emails IH]; intros [|i]; cbn [fates_of lookup list_lookup]; [naive_solver..| |apply IH].
  cbn [drop]. destruct e as [email|]; [|naive_solver]. repeat case_bool_decide; naive_solver.
Qed.

(** Where entries are taken out. *)
Fixpoint gone (i : nat) (fates : list fate) : list nat :=
  match fates with [] => [] | f :: fates => match f with None => [i] | Some _ => [] end ++ gone (S i) fates end.

Lemma elem_of_gone i fates j : j ∈ gone i fates ↔ ∃ k, j = i + k ∧ fates !! k = Some None.
Proof.
  revert i. induction fates as [|f fates IH]; intros i; cbn [gone]; [rewrite elem_of_nil; naive_solver|].
  rewrite elem_of_app, IH. split.
  - intros [Hj|(k & -> & Hk)]; [|exists (S k); split; [lia|done]]. exists 0. destruct f; [by apply elem_of_nil in Hj|].
    apply list_elem_of_singleton in Hj as ->. split; [lia|done].
  - intros ([|k] & -> & Hk); [left|right; exists k; split; [lia|done]]. cbn in Hk. injection Hk as ->. rewrite Nat.add_0_r. by left.
Qed.

Lemma gone_NoDup i fates : NoDup (gone i fates).
Proof.
  revert i. induction fates as [|f fates IH]; intros i; [constructor|]. cbn [gone]. apply NoDup_app. split; [destruct f; [constructor|apply NoDup_singleton]|].
  split; [|apply IH]. intros j Hj (k & Hk & _)%elem_of_gone. destruct f; [by apply elem_of_nil in Hj|]. apply list_elem_of_singleton in Hj. lia.
Qed.

(** The removals and the rewrites among the edits. *)
Fixpoint entry_removals (p : nat) (prev : option nat) (s : syntax) (b : list Z) (rest : list item) (fates : list fate) : list textEdit :=
  match fates with
  | [] => []
  | f :: fates =>
      match f with Some _ => [] | None => [removal_edit p prev s b rest] end ++
      match rest with
      | [] => []
      | (a2, s2, b2) :: rest =>
          entry_removals (p + length (spell s) + length b + 1 + length a2) (Some (p + length (spell s) + length b)) s2 b2 rest fates
      end
  end.

Definition fate_ids (f : fate) (n : node) : list textEdit := match f with Some id => id_edits id n | None => [] end.

Lemma item_length (a b : list Z) s : length (array_item (a, s, b)) = length a + length (spell s) + length b.
Proof. unfold array_item. cbn [fst snd]. rewrite !length_app. lia. Qed.

Lemma nodes_at_cons pos (a b : list Z) s (items : list item) :
  nodes_at pos ((a, s, b) :: items) = node_at (pos + length a) s :: nodes_at (pos + (length a + length (spell s) + length b) + 1) items.
Proof. unfold nodes_at. cbn [place fst snd]. by rewrite item_length. Qed.

Lemma entry_edits_split pos prev a s b rest fates :
  entry_edits (pos + length a) prev s b rest fates ≡ₚ
    entry_removals (pos + length a) prev s b rest fates ++ concat (zip_with fate_ids fates (nodes_at pos ((a, s, b) :: rest))).
Proof.
  revert pos prev a s b fates. induction rest as [|[[a2 s2] b2] rest IH]; intros pos prev a s b [|f fates]; [done| |done|]; cbn [entry_edits entry_removals].
  - rewrite nodes_at_cons. cbn [zip_with concat]. change (nodes_at _ []) with (@nil node). assert (concat (zip_with fate_ids fates []) = []) as -> by (by destruct fates).
    rewrite !app_nil_r. by destruct f.
  - rewrite nodes_at_cons. cbn [zip_with concat].
    replace (pos + length a + length (spell s) + length b + 1 + length a2) with (pos + (length a + length (spell s) + length b) + 1 + length a2) by lia.
    rewrite IH. destruct f as [id|]; cbn [fate_ids app]; [|done]. rewrite Permutation_app_swap_app. done.
Qed.

Lemma ahead_snoc (pre : list item) e : ahead array_item (pre ++ [e]) = ahead array_item pre ++ array_item e ++ [44%Z].
Proof. unfold ahead. rewrite fmap_app, concat_app. cbn [fmap list_fmap concat]. by rewrite app_nil_r. Qed.

(** The comma before an entry. *)
Definition comma_before (pos : nat) (pre : list item) : option nat :=
  match pre with [] => None | _ => Some (pos + length (ahead array_item pre)) end.

Lemma planned_removal pos ws pre a s b rest :
  planEntryRemoval (node_at pos (SArray ws (pre ++ (a, s, b) :: rest))) (length pre) =
    Some (removal_edit (pos + 1 + length (ahead array_item pre) + length a) (comma_before pos pre) s b rest).
Proof.
  set (before := pos + 1 + length (ahead array_item pre)). unfold planEntryRemoval.
  change (n_items (node_at pos (SArray ws (pre ++ (a, s, b) :: rest)))) with (nodes_at (pos + 1) (pre ++ (a, s, b) :: rest)).
  change (n_commas (node_at pos (SArray ws (pre ++ (a, s, b) :: rest)))) with (commas (λ e, length (array_item e)) (pos + 1) (pre ++ (a, s, b) :: rest)).
  assert (nodes_at (pos + 1) (pre ++ (a, s, b) :: rest) = nodes_at (pos + 1) pre ++ nodes_at before ((a, s, b) :: rest)) as ->.
  { unfold nodes_at. by rewrite (place_middle array_item). }
  assert (length (nodes_at (pos + 1) pre) = length pre) as Hlen by (unfold nodes_at; by rewrite place_length).
  rewrite nodes_at_cons, (list_lookup_middle (nodes_at (pos + 1) pre) _ _ (length pre)) by done.
  rewrite (lookup_app_r (nodes_at (pos + 1) pre) _ (length pre + 1)) by lia.
  replace (length pre + 1 - length (nodes_at (pos + 1) pre)) with 1 by lia. cbn [mbind option_bind lookup list_lookup].
  destruct rest as [|[[a2 s2] b2] rest]; cbn [removal_edit].
  - change (nodes_at _ []) with (@nil node). cbn [lookup list_lookup].
    rewrite (lookup_ge_None_2 _ (length pre)) by (rewrite commas_length, length_app; cbn [length]; lia).
    rewrite node_start, node_end. destruct pre as [|[[a0 s0] b0] pre _] using rev_ind; [done|].
    assert (length (pre ++ [(a0, s0, b0)]) = S (length pre)) as -> by (rewrite length_app; cbn [length]; lia).
    rewrite <-app_assoc. cbn [app]. rewrite (commas_middle array_item). cbn [mbind option_bind].
    assert (comma_before pos (pre ++ [(a0, s0, b0)]) = Some (pos + 1 + length (ahead array_item pre) + length (array_item (a0, s0, b0)))) as ->; [|done].
    unfold comma_before. rewrite ahead_snoc, !length_app. cbn [length]. destruct (pre ++ [(a0, s0, b0)]) eqn:E; [by destruct pre|]. f_equal. lia.
  - rewrite nodes_at_cons. cbn [lookup list_lookup fst]. rewrite !node_start. unfold cut. do 2 f_equal. lia.
Qed.

(** The removals are the planned ones, entry by entry. *)
Lemma entry_removals_planned pos ws pre a s b rest fates : length fates = S (length rest) →
  entry_removals (pos + 1 + length (ahead array_item pre) + length a) (comma_before pos pre) s b rest fates =
    gone (length pre) fates ≫= λ i, opt_list (planEntryRemoval (node_at pos (SArray ws (pre ++ (a, s, b) :: rest))) i).
Proof.
  revert pre a s b fates. induction rest as [|[[a2 s2] b2] rest IH]; intros pre a s b [|f fates] Hl; try done; cbn [entry_removals gone].
  - destruct fates; [|done]. cbn [gone]. rewrite !app_nil_r. destruct f; [done|]. cbn [mbind list_bind]. by rewrite planned_removal.
  - rewrite bind_app. f_equal.
    + destruct f; [done|]. cbn [mbind list_bind]. by rewrite planned_removal.
    + injection Hl as Hl. specialize (IH (pre ++ [(a, s, b)]) a2 s2 b2 fates Hl). rewrite <-app_assoc in IH. cbn [app] in IH.
      assert (length (pre ++ [(a, s, b)]) = S (length pre)) as El by (rewrite length_app; cbn [length]; lia). rewrite El in IH. rewrite <-IH. clear El. unfold comma_before. rewrite ahead_snoc, !length_app, item_length. cbn [length].
      destruct (pre ++ [(a, s, b)]) eqn:E; [by destruct pre|]. f_equal; [lia|f_equal; lia].
Qed.

Lemma planRemovals_all clients byEmail removes :
  (∀ email i, email ∈ removes → byEmail !! email = Some i → is_Some (planEntryRemoval clients i)) →
  planRemovals clients byEmail removes = Ok (omap (λ e, byEmail !! e) removes ≫= λ i, opt_list (planEntryRemoval clients i)).
Proof.
  induction removes as [|email removes IH]; intros Hall; [done|]. cbn [planRemovals omap list_omap].
  specialize (IH (λ e i He, Hall e i (list_elem_of_further _ _ _ He))).
  destruct (byEmail !! email) as [i|] eqn:E; [|done]. destruct (Hall email i) as [edit He]; [by left|done|].
  cbn [mbind list_bind]. by rewrite He, IH.
Qed.

(** The index the renderer has for an email: its last entry. *)
Lemma byEmail_index clients email i :
  byEmailOf clients !! email = Some i ↔
    (entry_email <$> n_items clients) !! i = Some (Some email) ∧ Some email ∉ drop (S i) (entry_email <$> n_items clients).
Proof.
  split.
  - intros (before & n & after & -> & <- & He & Hno)%byEmail_split. rewrite fmap_app, fmap_cons, <-(length_fmap entry_email before).
    rewrite list_lookup_middle, He by done. split; [done|]. rewrite drop_app_ge by lia.
    by replace (S (length (entry_email <$> before)) - length (entry_email <$> before)) with 1 by lia.
  - intros [Hi Hno]. destruct (byEmailOf clients !! email) as [j|] eqn:E.
    + apply byEmail_split in E as (before & n & after & Hn & <- & He & Hafter). rewrite Hn, fmap_app, fmap_cons, He in Hi, Hno.
      set (es := entry_email <$> before) in *. assert (length before = length es) as -> by (unfold es; by rewrite length_fmap).
      destruct (decide (i < length es)) as [Hlt|Hge].
      { destruct Hno. rewrite drop_app_le by lia. apply elem_of_app. right. by left. }
      destruct (decide (i = length es)) as [->|Hne]; [done|]. rewrite lookup_app_r in Hi by lia.
      destruct (i - length es) as [|k] eqn:Ek; [lia|]. by destruct Hafter; eapply list_elem_of_lookup_2.
    + pose proof (byEmail_last clients email) as Hl. rewrite E in Hl. symmetry in Hl. apply last_of_none in Hl. destruct Hl. by eapply list_elem_of_lookup_2.
Qed.

Lemma omap_NoDup {A B} (f : A → option B) l : NoDup l → (∀ x y z, f x = Some z → f y = Some z → x = y) → NoDup (omap f l).
Proof.
  intros Hnd Hinj. induction Hnd as [|x l Hx _ IH]; [constructor|]. cbn [omap list_omap]. destruct (f x) as [z|] eqn:E; [|done].
  constructor; [|done]. intros (y & Hy & Ey)%list_elem_of_omap. destruct Hx. by rewrite (Hinj x y z).
Qed.

Lemma gone_indices clients removes sets : NoDup removes →
  omap (λ e, byEmailOf clients !! e) removes ≡ₚ gone 0 (fates_of removes sets (entry_email <$> n_items clients)).
Proof.
  intros Hnd. apply NoDup_Permutation; [|apply gone_NoDup|].
  - apply omap_NoDup; [done|]. intros e1 e2 i [H1 _]%byEmail_index [H2 _]%byEmail_index. congruence.
  - intros i. rewrite list_elem_of_omap, elem_of_gone. setoid_rewrite fate_taken. split.
    + intros (email & Hin & [? ?]%byEmail_index). exists i. split; [done|]. by exists email.
    + intros (k & -> & email & ? & ? & ?). exists email. split; [done|]. by apply byEmail_index.
Qed.

(** A taken entry has no new id. *)
Lemma fates_ids removes sets emails ns : (∀ email, email ∈ removes → email ∉ co_email <$> sets) →
  concat (zip_with id_edits (new_ids sets emails) ns) = concat (zip_with fate_ids (fates_of removes sets emails) ns).
Proof.
  intros Happ. revert ns. induction emails as [|e emails IH]; intros [|n ns]; try done. cbn [new_ids fates_of zip_with concat]. rewrite IH. f_equal.
  destruct e as [email|]; [|done]. case_bool_decide; [done|]. case_bool_decide as Hin; [|done].
  assert (set_of sets email = None) as ->; [|done]. destruct (set_of sets email) as [op|] eqn:E; [|done]. destruct (Happ _ Hin).
  apply List.find_some in E as [Hop%list_elem_of_In <-%String.eqb_eq]. by apply list_elem_of_fmap_2.
Qed.

(** What an array's plan has, in the order of the text. *)
Lemma planned_edits depth pos ws items removes sets : Forall (item_ok depth) items → NoDup removes → NoDup (co_email <$> sets) →
  (∀ email, email ∈ removes → email ∉ co_email <$> sets) →
  let clients := node_at pos (SArray ws items) in
  ∃ removals, planRemovals clients (byEmailOf clients) removes = Ok removals ∧
    removals ++ (planSets clients (byEmailOf clients) sets).1 ≡ₚ
      items_edits (pos + 1) items (fates_of removes sets (json_email <$> values items)).
Proof.
  intros Hall Hr Hs Happ clients. pose proof (nodes_emails depth (pos + 1) items Hall) as Hem. change (nodes_at (pos + 1) items) with (n_items clients) in Hem.
  pose proof (planned_sets depth pos ws items sets Hall Hs) as Hsets. cbv zeta in Hsets. fold clients in Hsets.
  eexists. split.
  - apply planRemovals_all. intros email i _ [Hi _]%byEmail_index. rewrite Hem in Hi. apply list_lookup_fmap_Some in Hi as (j & _ & Hj).
    unfold values in Hj. apply list_lookup_fmap_Some in Hj as ([[a s] b] & _ & (pre & post & -> & ->)%list_elem_of_split_length).
    unfold clients. rewrite planned_removal. by eexists.
  - rewrite Hsets, (gone_indices clients removes sets Hr), Hem. destruct items as [|[[a s] b] rest]; [done|]. cbn [items_edits].
    rewrite entry_edits_split. unfold ids_edits. rewrite (fates_ids removes sets) by done. apply Permutation_app_tail.
    pose proof (entry_removals_planned pos ws [] a s b rest (fates_of removes sets (json_email <$> values ((a, s, b) :: rest)))) as Hp.
    cbn [ahead fmap list_fmap concat length app comma_before] in Hp. rewrite Nat.add_0_r in Hp. unfold clients. cbn [app] in Hp. rewrite Hp; [done|].
    rewrite fates_length. unfold values. cbn. by rewrite !length_fmap.
Qed.

End RenderFates.
