(* ===== verification/RenderMeaning.v ===== *)
(** * What a render means

    The edits of a plan, carried out on a file the reading side accepts, are
    one change of the JSON value the file denotes: in each named inbound the
    clients array has ids rewritten, or an entry less, and the new clients at
    its end. *)

From Stdlib Require Import Ascii String.
From S2P Require Import Prelude GoJson GoText GoDecode GoDecodeProps GoPrint Render RenderProps RenderTheorems JsonText JsonSyntax JsonScan XrayDecode RenderExamples RenderSyntax RenderEntries RenderFates.

Module RenderMeaning.
Import GoJson GoText GoDecode GoPrint Render RenderProps RenderTheorems JsonText JsonSyntax JsonScan RenderSyntax RenderEntries RenderFates.

(** ** The change of the value *)

(** One inbound's share of a plan. *)
Record change := { ch_adds : list ClientOp; ch_removes : list string; ch_sets : list ClientOp }.

Definition change_at (plan : RenderPlan) (tag : string) : option change :=
  match pl_adds plan !! tag, pl_removes plan !! tag, pl_sets plan !! tag with
  | None, None, None => None
  | adds, removes, sets => Some {| ch_adds := default [] adds; ch_removes := default [] removes; ch_sets := default [] sets |}
  end.

(** The clients that are put after the others: those no entry has the email of. *)
Definition remaining (c : change) (entries : list json) : list ClientOp :=
  filter (λ op, co_email op ∉ omap json_email entries) (ch_adds c ++ ch_sets c).

(** The fate of each entry, from its email. *)
Definition fates (c : change) (entries : list json) : list fate := fates_of (ch_removes c) (ch_sets c) (json_email <$> entries).

(** The entries that stay, under their new ids, and then the clients whose
    email no entry had. *)
Definition edit_clients (c : change) (entries : list json) : list json :=
  concat (zip_with outcome (fates c entries) entries) ++ (client_json <$> remaining c entries).

Definition edit_array (c : change) (j : json) : json := match j with JArray entries => JArray (edit_clients c entries) | _ => j end.

(** Settings without a clients array get one. *)
Definition edit_settings (c : change) (fields : list (string * json)) : list (string * json) :=
  match first_field "clients" fields with
  | None => fields ++ [("clients"%string, JArray (client_json <$> filter (λ op, co_email op ∉ ch_removes c) (ch_adds c ++ ch_sets c)))]
  | Some _ => on_first "clients" (edit_array c) fields
  end.

Definition edit_object (c : change) (j : json) : json := match j with JObject fields => JObject (edit_settings c fields) | _ => j end.

Definition edit_inbound (changes : string → option change) (inbound : json) : json :=
  match inbound with
  | JObject fields =>
      match first_field "tag" fields with
      | Some (JString tag) =>
          match changes tag with Some c => JObject (on_first "settings" (edit_object c) fields) | None => inbound end
      | _ => inbound
      end
  | _ => inbound
  end.

Definition edit_config (changes : string → option change) (config : json) : json :=
  match config with
  | JObject fields =>
      JObject (on_first "inbounds" (λ j, match j with JArray inbounds => JArray (edit_inbound changes <$> inbounds) | _ => j end) fields)
  | _ => config
  end.

(** Where the changes find what they need: each named inbound is VLESS, its
    settings are an object, and its clients, if it has any, an array. *)
Definition settings_take (j : json) : Prop :=
  match j with
  | JObject fields => match first_field "clients" fields with None | Some (JArray _) => True | _ => False end
  | _ => False
  end.

Definition inbound_takes `{GoRuntime} (changes : string → option change) (inbound : json) : Prop :=
  match inbound with
  | JObject fields =>
      match first_field "tag" fields with
      | Some (JString tag) =>
          is_Some (changes tag) →
            (∃ protocol, first_field "protocol" fields = Some protocol ∧ equal_fold (string_of protocol) "vless" = true) ∧
            match first_field "settings" fields with Some settings => settings_take settings | None => False end
      | _ => True
      end
  | _ => True
  end.

Definition config_takes `{GoRuntime} (changes : string → option change) (config : json) : Prop :=
  match config with
  | JObject fields =>
      match first_field "inbounds" fields with
      | Some (JArray inbounds) => Forall (inbound_takes changes) inbounds
      | _ => ∀ tag, changes tag = None
      end
  | _ => ∀ tag, changes tag = None
  end.

(** The changes of a plan that says one thing of each email: none is set or
    removed twice, none removed and also set or added, and every text is
    UTF-8. *)
Definition tame (c : change) : Prop :=
  Forall op_valid (ch_adds c) ∧ Forall op_valid (ch_sets c) ∧ NoDup (co_email <$> ch_sets c) ∧ NoDup (ch_removes c) ∧
  ∀ email, email ∈ ch_removes c → email ∉ co_email <$> (ch_adds c ++ ch_sets c).

(** Where the edits of the entries do not overlap: the last two entries are
    not both taken out, nor the only one while clients are added. *)
Definition untangled (c : change) (entries : list json) : bool :=
  match fates c entries with
  | [] => true
  | [None] => bool_decide (remaining c entries = [])
  | fates => apart fates
  end.

Definition settings_untangled (c : change) (settings : json) : bool :=
  match settings with
  | JObject fields => match first_field "clients" fields with Some (JArray entries) => untangled c entries | _ => true end
  | _ => true
  end.

Definition inbound_untangled (changes : string → option change) (inbound : json) : bool :=
  match inbound with
  | JObject fields =>
      match first_field "tag" fields with
      | Some (JString tag) =>
          match changes tag, first_field "settings" fields with Some c, Some settings => settings_untangled c settings | _, _ => true end
      | _ => true
      end
  | _ => true
  end.

Definition config_untangled (changes : string → option change) (config : json) : bool :=
  match config with
  | JObject fields => match first_field "inbounds" fields with Some (JArray inbounds) => forallb (inbound_untangled changes) inbounds | _ => true end
  | _ => true
  end.

(** A plan that takes nothing out is not tangled. *)
Lemma kept_apart sets emails : emails ≠ [] → apart (fates_of [] sets emails) = true ∧ fates_of [] sets emails ≠ [None].
Proof.
  induction emails as [|e emails IH]; [done|]. intros _. cbn [fates_of]. set (f := match e with Some _ => _ | None => _ end).
  assert (∃ id, f = Some id) as [id ->].
  { subst f. destruct e; [|by eexists]. case_bool_decide; [by eexists|]. rewrite bool_decide_eq_false_2 by apply not_elem_of_nil. by eexists. }
  destruct emails as [|e' emails]; [done|]. destruct IH as [Hap Hne]; [done|]. cbn [apart]. destruct (fates_of [] sets (e' :: emails)) as [|[] []]; done.
Qed.

Lemma additions_untangled changes config : (∀ tag c, changes tag = Some c → ch_removes c = []) → config_untangled changes config = true.
Proof.
  intros Hno. destruct config as [| | | | |fields]; try done. cbn [config_untangled]. destruct (first_field "inbounds" fields) as [[| | | |l|]|]; try done.
  apply forallb_forall. intros [| | | | |inbound] _; try done. cbn [inbound_untangled]. destruct (first_field "tag" inbound) as [[]|]; try done.
  destruct (changes _) as [c|] eqn:E; [|done]. destruct (first_field "settings" inbound) as [[| | | | |settings]|]; try done. cbn [settings_untangled].
  destruct (first_field "clients" settings) as [[| | | |entries|]|]; try done. unfold untangled, fates. rewrite (Hno _ _ E).
  destruct entries as [|e entries]; [done|]. destruct (kept_apart (ch_sets c) (json_email <$> e :: entries)) as [Hap Hne]; [done|].
  destruct (fates_of _ _ _) as [|[] []]; done.
Qed.

(** ** Planning the clients of an inbound *)

Section Plan.
Context {GR : GoRuntime} (doc : document).

(** What planInbound does once it has found the clients array. *)
Definition plan_array (c : change) (settings clients : node) : result renderError (list textEdit) :=
  let byEmail := byEmailOf clients in
  match planRemovals clients byEmail (ch_removes c) with
  | Err e => Err e
  | Ok removals =>
      let (rewrites, appends) := planSets clients byEmail (ch_sets c) in
      let appendOps := ch_adds c ++ appends in
      if bool_decide (appendOps = []) then Ok (removals ++ rewrites)
      else
        match planClientsInsert doc settings (dropEmails appendOps (emailsOf byEmail)) with
        | Err e => Err e
        | Ok insert => Ok (removals ++ rewrites ++ opt_list insert)
        end
  end.

Lemma omap_email email (entries : list json) : email ∈ omap json_email entries ↔ Some email ∈ json_email <$> entries.
Proof.
  rewrite list_elem_of_omap, list_elem_of_fmap. split; intros (j & H1 & H2); exists j; [by rewrite H2|by rewrite H1].
Qed.

Lemma remaining_valid c entries : tame c → Forall op_valid (remaining c entries).
Proof.
  intros (Ha & Hs & _). apply Forall_forall. intros op [_ Hin]%list_elem_of_filter.
  pose proof (Forall_app_2 _ _ _ Ha Hs) as Hall. rewrite Forall_forall in Hall. by apply Hall.
Qed.

Lemma fates_items c items : length (fates c (values items)) = length items.
Proof. unfold fates, values. by rewrite fates_length, !length_fmap. Qed.

Lemma single_removed depth pos ws a s b : valid (S depth) (SArray ws [(a, s, b)]) →
  performs (S depth) pos (SArray ws [(a, s, b)]) (items_edits (pos + 1) [(a, s, b)] [None]) (λ _, JArray []).
Proof.
  intros [Hws [(Ha & Hs & Hb) _]%Forall_cons]. cbn [fst snd] in *. cbn [items_edits entry_edits removal_edit app].
  exists (SArray (a ++ b) []). split_and!; [| |done].
  - assert (pos + 1 + length a = pos + length ([91%Z] ++ a)) as -> by (rewrite length_app; cbn; lia).
    apply (patched_cut pos ([91%Z] ++ a) (spell s) (b ++ [93%Z])); [|cbn [spell]; by rewrite <-!app_assoc].
    rewrite spell_array. cbn [app GoPrint.separated]. unfold array_item. cbn [fst snd]. by rewrite <-!app_assoc.
  - split; [by apply Forall_app|constructor].
Qed.

(** The edits of the entries, and the clients after them. *)
Lemma array_apart depth pos ws items fs ops : valid (S (S depth)) (SArray ws items) → items ≠ [] →
  Forall2 fits fs ((λ e, e.1.2) <$> items) → apart fs = true → Forall op_valid ops →
  let insert := match ops with [] => None | _ => planAppend doc (node_at pos (SArray ws items)) ops end in
  let es := items_edits (pos + 1) items fs ++ opt_list insert in
  performs (S (S depth)) pos (SArray ws items) es (λ _, JArray (concat (zip_with outcome fs (values items)) ++ (client_json <$> ops))) ∧
  StronglySorted before_edit es.
Proof.
  intros Hv Hne Hfit Hap Hops insert es. pose proof Hv as [Hws Hall].
  destruct ops as [|op ops].
  { unfold es. cbn [insert opt_list fmap list_fmap]. rewrite !app_nil_r. pose proof (items_performed_edited _ (pos + 1) items fs Hall Hfit Hap) as Hed.
    split; [by apply (array_edited _ _ _ _ _ _ Hws Hne)|]. by destruct Hed as (? & _ & _ & _ & _ & _ & ?). }
  destruct items as [|[[a s] b] pre _] using rev_ind; [done|].
  destruct (plan_append_more doc pos ws pre a s b op ops) as (text & next & He & Hn & Ht). unfold es, insert. rewrite He. cbn [opt_list].
  apply Forall_app in Hall as [Hpre [(Ha & Hs & Hb) _]%Forall_cons]. cbn [fst snd] in Ha, Hs, Hb.
  assert (Forall (item_ok (S depth)) (pre ++ [(a, s, [])])) as Hall' by (apply Forall_app; split; [done|]; by repeat constructor).
  assert (Forall2 fits fs ((λ e, e.1.2) <$> (pre ++ [(a, s, [])]))) as Hfit' by (by rewrite fmap_app in Hfit |- *).
  pose proof (items_performed_edited _ (pos + 1) _ fs Hall' Hfit' Hap) as Hed. pose proof (items_within _ (pos + 1) _ fs Hall' Hfit' Hap) as Hlt.
  rewrite (items_edits_last (pos + 1) pre a s b []).
  destruct (appended_after depth pos ws pre a s b _ _ text next op ops Hv Hops Hed) as (s' & Hp & Hvs & Hden & Hso); [|done|done|].
  { eapply Forall_impl; [exact Hlt|]. cbn beta. intros e. rewrite last_end_text, length_app. cbn [length]. lia. }
  split; [|done]. exists s'. split_and!; [done|done|]. rewrite Hden. unfold values. by rewrite !fmap_app.
Qed.

Lemma array_fates depth pos ws items c : valid (S (S depth)) (SArray ws items) → tame c → untangled c (values items) = true →
  let insert := match remaining c (values items) with [] => None | _ => planAppend doc (node_at pos (SArray ws items)) (remaining c (values items)) end in
  let es := items_edits (pos + 1) items (fates c (values items)) ++ opt_list insert in
  performs (S (S depth)) pos (SArray ws items) es (λ _, JArray (edit_clients c (values items))) ∧ StronglySorted before_edit es.
Proof.
  intros Hv Htame Hun insert es. pose proof Hv as [Hws Hall]. pose proof (fates_items c items) as Hlen. pose proof (remaining_valid c (values items) Htame) as Hops.
  assert (Forall2 fits (fates c (values items)) ((λ e, e.1.2) <$> items)) as Hfit by (eapply fates_fit; [exact Hall|by destruct Htame as (_ & ? & _)]).
  unfold untangled, edit_clients in *. unfold es, insert. clear es insert. set (ops := remaining c (values items)) in *.
  destruct items as [|[[a0 s0] b0] rest].
  { cbn [items_edits app]. assert (fates c (values []) = []) as -> by done. destruct ops as [|op ops].
    - cbn. split; [by apply performs_nothing|constructor].
    - destruct (plan_append_empty depth doc pos ws op ops Hv Hops) as (e & He & s' & Hp & Hvs & Hden). rewrite He.
      split; [|by repeat constructor]. exists s'. done. }
  destruct (decide (fates c (values ((a0, s0, b0) :: rest)) = [None])) as [Hone|Hmany].
  { rewrite Hone in *. assert (ops = []) as -> by (by apply bool_decide_eq_true in Hun). destruct rest; [|done].
    cbn [opt_list]. rewrite app_nil_r. split; [by apply single_removed|by repeat constructor]. }
  assert (apart (fates c (values ((a0, s0, b0) :: rest))) = true) as Hap.
  { destruct (fates c _) as [|[] []]; try done. }
  by apply array_apart.
Qed.

Lemma planned_appends depth pos ws items c : Forall (item_ok depth) items →
  let clients := node_at pos (SArray ws items) in
  valid (S depth) (SArray ws items) →
  dropEmails (ch_adds c ++ (planSets clients (byEmailOf clients) (ch_sets c)).2) (emailsOf (byEmailOf clients)) = remaining c (values items).
Proof.
  intros Hall clients Hv. unfold clients. rewrite (drop_present depth) by done. fold (values items). rewrite planSets_split. cbn [snd].
  unfold remaining, dropEmails. rewrite !filter_app. f_equal. rewrite list_filter_filter. apply list_filter_iff. intros op.
  change (n_items (node_at pos (SArray ws items))) with (nodes_at (pos + 1) items). rewrite (nodes_emails depth), omap_email by done. tauto.
Qed.

Definition performed (r : result renderError (list textEdit)) (depth pos : nat) (s : syntax) (f : json → json) : Prop :=
  match r with
  | Ok edits => ∃ es, edits ≡ₚ es ∧ performs depth pos s es f ∧ StronglySorted before_edit es
  | Err e => e ≠ IndexOutOfRange ∧ ∀ x, e ≠ ScanConfig x
  end.

Lemma performs_as depth pos s es f g : g (denotes s) = f (denotes s) → performs depth pos s es f → performs depth pos s es g.
Proof. intros Hf (s' & ? & ? & Hs'). exists s'. split_and!; [done|done|]. by rewrite Hs', Hf. Qed.

Lemma plan_array_performs depth pos ws items settings c : valid (S (S depth)) (SArray ws items) → tame c → untangled c (values items) = true →
  get settings "clients" = Some (node_at pos (SArray ws items)) →
  performed (plan_array c settings (node_at pos (SArray ws items))) (S (S depth)) pos (SArray ws items) (edit_array c).
Proof.
  intros Hv Htame Hun Hget. pose proof Hv as [_ Hall]. pose proof Htame as (_ & _ & Hnd & Hrem & Hboth). unfold plan_array. cbv zeta.
  set (clients := node_at pos (SArray ws items)) in *.
  pose proof (planned_appends (S depth) pos ws items c Hall Hv) as Happ. fold clients in Happ.
  destruct (planned_edits (S depth) pos ws items (ch_removes c) (ch_sets c) Hall Hrem Hnd) as (removals & Hplan & Hperm).
  { intros email He Hin. apply (Hboth email He). rewrite fmap_app. apply elem_of_app. by right. }
  fold clients in Hplan, Hperm. rewrite Hplan. fold (fates c (values items)) in Hperm.
  destruct (array_fates depth pos ws items c Hv Htame Hun) as [Hp Hso]. fold clients in Hp, Hso.
  assert (∀ edits, performs (S (S depth)) pos (SArray ws items) edits (λ _, JArray (edit_clients c (values items))) →
    performs (S (S depth)) pos (SArray ws items) edits (edit_array c)) as Has.
  { intros edits. apply performs_as. by rewrite denotes_array. }
  apply Has in Hp. destruct (planSets clients (byEmailOf clients) (ch_sets c)) as [rewrites appends]. cbn [fst snd] in Happ, Hperm.
  case_bool_decide as Hno.
  - assert (remaining c (values items) = []) as Er by (rewrite <-Happ, Hno; done). rewrite Er in Hp, Hso. cbn [opt_list] in Hp, Hso. rewrite app_nil_r in Hp, Hso.
    eexists. split; [exact Hperm|by split].
  - rewrite Happ. unfold planClientsInsert. rewrite Hget. change (n_kind clients) with KArray. cbn beta iota.
    assert (dropEmails (remaining c (values items)) (emailsOf (byEmailOf clients)) = remaining c (values items)) as ->.
    { rewrite <-Happ. apply dropEmails_idem. }
    destruct (remaining c (values items)) as [|op ops]; [rewrite bool_decide_eq_true_2 by done|rewrite bool_decide_eq_false_2 by done];
      (eexists; split; [rewrite app_assoc; apply Permutation_app_tail; exact Hperm|split; [exact Hp|exact Hso]]).
Qed.

(** ** Planning an inbound *)

(** What planInbound does with the settings once it has found them. *)
Definition plan_settings (c : change) (settings : node) : result renderError (list textEdit) :=
  match get settings "clients" with
  | None =>
      match planClientsInsert doc settings (dropEmails (ch_adds c ++ ch_sets c) (ch_removes c)) with
      | Err e => Err e | Ok insert => Ok (opt_list insert) end
  | Some clients => match n_kind clients with KArray => plan_array c settings clients | _ => Err ClientsNotArray end
  end.

Definition planned (r : result renderError (list textEdit)) (depth pos : nat) (s : syntax) (f : json → json) (takes : json → Prop) : Prop :=
  performed r depth pos s f ∧ match r with Ok _ => takes (denotes s) | Err _ => True end.

Lemma performed_nothing depth pos s f : valid depth s → f (denotes s) = denotes s → performed (Ok []) depth pos s f.
Proof. intros Hv Hf. exists []. split; [done|]. split; [by apply performs_nothing|constructor]. Qed.

Lemma plan_settings_performs depth pos ws items c : valid (S (S (S depth))) (SObject ws items) → tame c →
  settings_untangled c (denotes (SObject ws items)) = true →
  planned (plan_settings c (node_at pos (SObject ws items))) (S (S (S depth))) pos (SObject ws items) (edit_object c) settings_take.
Proof.
  intros Hv Htame Hun. pose proof (denotes_object ws items) as Hden. fold (field_values items) in Hden. unfold planned, plan_settings. rewrite Hden in Hun. cbn [settings_untangled] in Hun.
  destruct (find_member items "clients") as [(pre & h & s & b & post & -> & Hk & Hpre)|Hno].
  - pose proof (get_member pos ws pre h s b post "clients" Hk Hpre) as Hget. rewrite Hget. pose proof Hv as [_ Hall].
    apply Forall_app in Hall as [_ [(_ & Hs & _) _]%Forall_cons]. cbn [fst snd] in Hs. rewrite (node_kind _ _ _ Hs).
    destruct (field_found ws pre h s b post "clients" Hk Hpre) as [Hff _].
    destruct s as [d|body|cws citems|cws citems]; [by destruct d|done| |done].
    rewrite Hff, denotes_array in Hun. rewrite denotes_array. cbn [kind_of].
    pose proof (plan_array_performs depth _ _ _ _ _ Hs Htame Hun Hget) as Hp. destruct (plan_array c _ _) as [edits|e]; [|done].
    split; [|rewrite Hden; cbn [settings_take]; by rewrite Hff, denotes_array].
    destruct Hp as (es & Hperm & Hp & Hso). exists es. split; [done|]. split; [|done].
    eapply performs_as; [|eapply performs_member; [exact Hv|exact Hk|exact Hpre|exact Hp]].
    rewrite Hden. cbn [edit_object]. unfold edit_settings. by rewrite Hff.
  - rewrite get_none by done. unfold planClientsInsert. rewrite get_none by done.
    set (ops := dropEmails (ch_adds c ++ ch_sets c) (ch_removes c)).
    assert (Forall op_valid ops) as Hops by (destruct Htame as (? & ? & _); by apply dropEmails_valid, Forall_app).
    destruct (plan_key depth doc pos ws items ops Hv Hops) as (e & -> & s' & Hp & Hvs & Hd). cbn [opt_list].
    pose proof (proj1 (field_missing items "clients" id Hno)) as Hff. split; [|rewrite Hden; cbn [settings_take]; by rewrite Hff].
    exists [e]. split; [done|]. split; [|by repeat constructor]. exists s'. split_and!; [done|done|].
    rewrite Hd, Hden. cbn [edit_object]. unfold edit_settings. by rewrite Hff.
Qed.

Context (plan : RenderPlan) (Htame : ∀ tag c, change_at plan tag = Some c → tame c).

Lemma planInbound_settings inbound : planInbound doc plan inbound =
  match n_kind inbound, get inbound "tag" with
  | KObject, Some tag =>
      if negb (bool_decide (n_kind tag = KString)) then Ok [] else
      match change_at plan (n_value tag) with
      | None => Ok []
      | Some c =>
          if negb (match get inbound "protocol" with
                   | Some protocol => equal_fold (n_value protocol) "vless" | None => false end)
          then Err (NotVLESS (n_value tag)) else
          match get inbound "settings" with
          | None => Err (NoSettings (n_value tag))
          | Some settings =>
              match n_kind settings with KObject => plan_settings c settings | _ => Err (NoSettings (n_value tag)) end
          end
      end
  | _, _ => Ok []
  end.
Proof.
  unfold planInbound, change_at. destruct (n_kind inbound); try done. destruct (get inbound "tag") as [tag|]; [|done].
  destruct (negb _); [done|].
  destruct (pl_adds plan !! n_value tag) as [adds|], (pl_removes plan !! n_value tag) as [removes|], (pl_sets plan !! n_value tag) as [sets|];
    (rewrite bool_decide_eq_true_2 by done; done) || (rewrite bool_decide_eq_false_2 by (intros (? & ? & ?); done)); cbn [default];
    (destruct (negb _); [done|]); (destruct (get inbound "settings") as [settings|]; [|done]); (destruct (n_kind settings); try done);
    unfold plan_settings, plan_array; cbn [ch_adds ch_removes ch_sets]; unfold id; (destruct (get settings "clients") as [clients|]; [|done]); by destruct (n_kind clients).
Qed.

Lemma plan_inbound_performs depth pos s : valid (S (S (S (S depth)))) s → inbound_untangled (change_at plan) (denotes s) = true →
  planned (planInbound doc plan (node_at pos s)) (S (S (S (S depth)))) pos s (edit_inbound (change_at plan)) (inbound_takes (change_at plan)).
Proof.
  intros Hv Hun. rewrite planInbound_settings, (node_kind _ _ _ Hv). unfold planned.
  destruct s as [d|body|ws items|ws items].
  1: assert (word d) as Hw by done; destruct d; try done; (split; [by apply performed_nothing|done]).
  1,2: split; [by apply performed_nothing|done].
  pose proof (denotes_object ws items) as Hden. fold (field_values items) in Hden. rewrite Hden in Hun |- *. cbn [kind_of inbound_untangled] in *.
  pose proof (get_field _ pos ws items "tag" Hv) as Hg.
  destruct (get (node_at pos (SObject ws items)) "tag") as [tag|].
  2: { split; [|cbn [inbound_takes]; by rewrite Hg]. apply performed_nothing; [done|]. rewrite Hden. cbn [edit_inbound]. by rewrite Hg. }
  destruct Hg as (q & t & -> & Hvt & Hft). rewrite (node_kind _ _ _ Hvt).
  case_bool_decide as Hk; cbn [negb].
  2: { split; [|cbn [inbound_takes]; rewrite Hft; by destruct (denotes t)].
    apply performed_nothing; [done|]. rewrite Hden. cbn [edit_inbound]. rewrite Hft. by destruct (denotes t). }
  destruct (denotes t) as [| | |tagname| |] eqn:Et; try done. rewrite Hft, ?Et in Hun. rewrite (node_string _ _ _ _ Hvt Et).
  destruct (change_at plan tagname) as [c|] eqn:Ea.
  2: { split; [|cbn [inbound_takes]; rewrite Hft, Ea; by intros []]. apply performed_nothing; [done|]. rewrite Hden. cbn [edit_inbound]. by rewrite Hft, Ea. }
  pose proof (get_field _ pos ws items "protocol" Hv) as Hproto.
  destruct (get (node_at pos (SObject ws items)) "protocol") as [protocol|]; [|done].
  destruct Hproto as (qp & sp & -> & Hvp & Hfp). rewrite (node_value _ _ _ Hvp).
  destruct (equal_fold (string_of (denotes sp)) "vless") eqn:Evless; cbn [negb]; [|done].
  destruct (find_member items "settings") as [(pre & h & st & b & post & -> & Hkey & Hpre)|Hno]; [|by rewrite get_none].
  rewrite (get_member _ _ _ _ _ _ _ _ Hkey Hpre). pose proof Hv as [_ Hall].
  rewrite (proj1 (field_found ws pre h st b post "settings" Hkey Hpre)) in Hun.
  apply Forall_app in Hall as [_ [(_ & Hs & _) _]%Forall_cons]. cbn [fst snd] in Hs.
  destruct st as [d|body|sws sitems|sws sitems]; cbn [node_at n_kind leaf]; [done..|].
  change (Node KObject _ _ _ _ _ _ _ _) with (node_at (member_pos pos pre h) (SObject sws sitems)).
  pose proof (plan_settings_performs depth (member_pos pos pre h) sws sitems c Hs (Htame _ _ Ea) Hun) as [Hp Ht].
  destruct (plan_settings c _) as [edits|e]; [|done]. split.
  - destruct Hp as (es & Hperm & Hp & Hso). exists es. split; [done|]. split; [|done].
    eapply performs_as; [|eapply performs_member; [exact Hv|exact Hkey|exact Hpre|exact Hp]]. rewrite Hden. cbn [edit_inbound]. by rewrite Hft, Ea.
  - cbn [inbound_takes]. rewrite Hft. intros _. split; [by eexists|].
    by rewrite (proj1 (field_found ws pre h (SObject sws sitems) b post "settings" Hkey Hpre)).
Qed.

(** ** Planning the document *)

Lemma plan_inbounds_each depth pos items : Forall (item_ok (S (S (S (S depth))))) items →
  forallb (inbound_untangled (change_at plan)) (values items) = true →
  match planInbounds doc plan (nodes_at pos items) with
  | Ok edits => ∃ eds, edits ≡ₚ concat eds.*1 ∧ each_performs (S (S (S (S depth)))) pos items eds ∧
      eds.*2 = replicate (length items) (edit_inbound (change_at plan)) ∧ Forall (inbound_takes (change_at plan)) (values items)
  | Err e => e ≠ IndexOutOfRange ∧ ∀ x, e ≠ ScanConfig x
  end.
Proof.
  intros Hall. revert pos. induction Hall as [|[[a s] b] items (_ & Hs & _) _ IH]; intros pos Hun; [by exists []|].
  unfold values in Hun. cbn [fmap list_fmap forallb fst snd] in Hun. apply andb_true_iff in Hun as [Hus Hun].
  unfold nodes_at. cbn [place planInbounds fst snd] in *. pose proof (plan_inbound_performs depth (pos + length a) s Hs Hus) as [Hp Ht].
  destruct (planInbound doc plan _) as [es1|e]; [|done]. destruct Hp as (es & Hperm & Hp & Hso).
  specialize (IH (pos + length (array_item (a, s, b)) + 1) Hun). unfold nodes_at in IH. destruct (planInbounds doc plan _) as [es2|e]; [|done].
  destruct IH as (eds & Hperm2 & Heach & Hfs & Htakes). exists ((es, edit_inbound (change_at plan)) :: eds). split_and!.
  - change (concat ((es, edit_inbound (change_at plan)) :: eds).*1) with (es ++ concat eds.*1). by rewrite Hperm, Hperm2.
  - done.
  - cbn [fmap list_fmap snd length replicate]. f_equal. exact Hfs.
  - unfold values. cbn [fmap list_fmap]. by constructor.
Qed.

Lemma zip_replicate {A B} (f : A → B) l : zip_with (λ f j, f j) (replicate (length l) f) l = f <$> l.
Proof. induction l as [|x l IH]; [done|]. cbn. by rewrite IH. Qed.

Lemma plan_inbounds_performs depth pos items : Forall (item_ok (S (S (S (S depth))))) items →
  forallb (inbound_untangled (change_at plan)) (values items) = true →
  match planInbounds doc plan (nodes_at pos items) with
  | Ok edits => ∃ es, edits ≡ₚ es ∧ items_performed (S (S (S (S depth)))) pos items es (edit_inbound (change_at plan) <$> values items) ∧
      Forall (inbound_takes (change_at plan)) (values items)
  | Err e => e ≠ IndexOutOfRange ∧ ∀ x, e ≠ ScanConfig x
  end.
Proof.
  intros Hall Hun. pose proof (plan_inbounds_each depth pos items Hall Hun) as Hp. destruct (planInbounds doc plan _) as [edits|e]; [|done].
  destruct Hp as (eds & Hperm & Heach & Hfs & Ht). exists (concat eds.*1). split; [done|]. split; [|done].
  pose proof (side_by_side _ pos items eds Hall Heach) as Hside. rewrite Hfs in Hside.
  assert (length items = length (values items)) as El by (unfold values; by rewrite length_fmap). rewrite El, zip_replicate in Hside. exact Hside.
Qed.
End Plan.

(** ** Rendering the document *)

Lemma edit_nothing changes j : (∀ tag, changes tag = None) → edit_config changes j = j.
Proof.
  intros Hnone. assert (∀ i, edit_inbound changes i = i) as Hi.
  { intros [| | | | |fields]; try done. cbn [edit_inbound]. destruct (first_field "tag" fields) as [[]|]; try done. by rewrite Hnone. }
  destruct j as [| | | | |fields]; try done. cbn [edit_config]. f_equal. apply on_first_id. intros [| | | |l|]; try done.
  f_equal. transitivity (id <$> l); [|apply list_fmap_id]. apply list_fmap_ext. intros. apply Hi.
Qed.

Lemma take_nothing `{GoRuntime} changes j : (∀ tag, changes tag = None) → config_takes changes j.
Proof.
  intros Hnone. assert (∀ i, inbound_takes changes i) as Hi.
  { intros [| | | | |fields]; try done. cbn [inbound_takes]. destruct (first_field "tag" fields) as [[]|]; try done. rewrite Hnone. by intros []. }
  destruct j as [| | | | |fields]; try done. cbn [config_takes]. destruct (first_field "inbounds" fields) as [[]|]; try done. apply Forall_true, Hi.
Qed.

Lemma empty_changes plan : plan_empty plan = true → ∀ tag, change_at plan tag = None.
Proof.
  unfold plan_empty. intros [[Ha%bool_decide_eq_true Hr%bool_decide_eq_true]%andb_true_iff Hs%bool_decide_eq_true]%andb_true_iff tag.
  unfold change_at. by rewrite Ha, Hr, Hs, !lookup_empty.
Qed.

(** A render of tame changes: the value it writes, and what it found. *)
Lemma tame_render `{GR : GoRuntime} `{DescSort sort_edits} plan document d : parse_document document = Some d →
  (∀ tag c, change_at plan tag = Some c → tame c) → config_untangled (change_at plan) (XrayDecode.json_of d) = true →
  match RenderClients sort_edits (bytes_of document) plan with
  | Rendered rendered _ => (∃ d', parse_document (of_bytes rendered) = Some d' ∧
      XrayDecode.json_of d' = edit_config (change_at plan) (XrayDecode.json_of d)) ∧ config_takes (change_at plan) (XrayDecode.json_of d)
  | RenderFailed e => e ≠ IndexOutOfRange ∧ ∀ x, e ≠ ScanConfig x
  | Panics | Diverges => False
  end.
Proof.
  intros (a & s & b & Ha & Hv & Hb & <- & Hdoc)%document_syntax Htame Hun. rewrite Hdoc. fold (denotes s) in Hun |- *.
  assert (∀ s', valid maxNestingDepth s' → denotes s' = edit_config (change_at plan) (denotes s) →
    ∃ d', parse_document (of_bytes (a ++ spell s' ++ b)) = Some d' ∧ XrayDecode.json_of d' = edit_config (change_at plan) (denotes s)) as Hread.
  { intros s' Hv' He. exists (meaning s'). unfold parse_document. rewrite bytes_of_of_bytes.
    - by rewrite syntax_parses.
    - rewrite !Forall_app. split_and!; [by apply spaces_bytes|by eapply spell_bytes|by apply spaces_bytes]. }
  unfold RenderClients. destruct (plan_empty plan) eqn:Hempty.
  { pose proof (empty_changes _ Hempty) as Hnone. split; [apply Hread; [done|by rewrite edit_nothing]|by apply take_nothing]. }
  rewrite (document_scan _ _ _ _ Ha Hv Hb).
  assert (∃ n, maxNestingDepth = S (S (S (S (S (S n)))))) as [n Hn] by (exists (maxNestingDepth - 6); unfold maxNestingDepth; lia).
  rewrite Hn in *. clear Hn Hempty.
  destruct s as [w|body|ws items|ws items].
  1: destruct w; done.
  1,2: done.
  destruct (find_member items "inbounds") as [(pre & h & si & c & post & -> & Hkey & Hpre)|Hno]; [|by rewrite get_none].
  rewrite (get_member _ _ _ _ _ _ _ _ Hkey Hpre). pose proof Hv as [_ Hall].
  apply Forall_app in Hall as [_ [(_ & Hs & _) _]%Forall_cons]. cbn [fst snd] in Hs.
  destruct si as [w|body|iws inbounds|iws inbounds]; [assert (word w) by done; destruct w; done|done| |done].
  pose proof Hs as [Hiws Hin]. cbn [node_at n_kind n_items].
  rewrite denotes_object in Hun. fold (field_values (pre ++ (h, SArray iws inbounds, c) :: post)) in Hun. cbn [config_untangled] in Hun.
  rewrite (proj1 (field_found ws pre h _ c post "inbounds" Hkey Hpre)), denotes_array in Hun. fold (values inbounds) in Hun.
  set (doc := a ++ spell (SObject ws (pre ++ (h, SArray iws inbounds, c) :: post)) ++ b).
  pose proof (plan_inbounds_performs doc plan Htame n (member_pos (length a) pre h + 1) inbounds Hin Hun) as Hplan.
  unfold nodes_at in Hplan. destruct (planInbounds doc plan _) as [edits|e]; [|destruct Hplan as [Hi Hsc]; destruct e; done].
  destruct Hplan as (es & Hperm & Hplan & Htakes).
  assert (StronglySorted before_edit es) as Hsorted by (by destruct Hplan as (? & _ & _ & _ & _ & _ & _ & ?)).
  assert (config_takes (change_at plan) (denotes (SObject ws (pre ++ (h, SArray iws inbounds, c) :: post)))) as Ht.
  { rewrite denotes_object. fold (field_values (pre ++ (h, SArray iws inbounds, c) :: post)). cbn [config_takes].
    by rewrite (proj1 (field_found ws pre h _ c post "inbounds" Hkey Hpre)), denotes_array. }
  assert (performs (S (S (S (S (S n))))) (member_pos (length a) pre h) (SArray iws inbounds) es
    (λ j, match j with JArray l => JArray (edit_inbound (change_at plan) <$> l) | _ => j end)) as Harr.
  { destruct (array_performs _ _ iws _ _ _ Hiws Hplan) as (s' & ? & ? & Hden). exists s'. split_and!; [done|done|]. by rewrite Hden, denotes_array. }
  eapply performs_member in Harr; [|exact Hv|exact Hkey|exact Hpre].
  destruct (performed_document (sort_edits := sort_edits) _ a _ b edits es _ Harr Hperm Hsorted) as (s' & Hv' & Hden & Happly).
  specialize (Hread s' Hv' Hden). fold doc in Happly. destruct edits as [|e edits]; [|rewrite Happly; by split].
  assert (sort_edits [] = []) as E by (apply Permutation_nil; symmetry; apply sort_perm).
  rewrite E in Happly. unfold apply_edits in Happly. cbn [foldl] in Happly. apply (inj Some) in Happly. rewrite Happly. by split.
Qed.

(** C12: a render is one edit of the JSON value. On a file the reading side
    accepts, a plan that says one thing of each email (texts in UTF-8) and
    whose edits of one array do not meet (it takes out neither the last two
    entries, nor the only one while it adds clients) either leaves the file
    alone with an error, or writes a file the reading side accepts too, whose
    value is the old one with each named inbound's clients array changed: the
    last entry of every removed email is out, the last of every email that is
    set has its new id and everything else it had, and clients whose email no
    entry had are at the end, under a new key if there was no array. Nothing
    else of the value changes, and the render neither panics nor diverges. *)
Theorem tame_render_edits_the_value `{GR : GoRuntime} `{DescSort sort_edits} plan document d :
  parse_document document = Some d → (∀ tag c, change_at plan tag = Some c → tame c) →
  config_untangled (change_at plan) (XrayDecode.json_of d) = true →
  match RenderClients sort_edits (bytes_of document) plan with
  | Rendered rendered _ => ∃ d', parse_document (of_bytes rendered) = Some d' ∧
      XrayDecode.json_of d' = edit_config (change_at plan) (XrayDecode.json_of d)
  | RenderFailed e => e ≠ IndexOutOfRange ∧ ∀ x, e ≠ ScanConfig x
  | Panics | Diverges => False
  end.
Proof.
  intros Hd Ht Hun. pose proof (tame_render plan document d Hd Ht Hun) as Hr. by destruct (RenderClients sort_edits _ plan) as [? ?| | |]; [destruct Hr|..].
Qed.

(** ** At a concrete file *)

Module Examples.

#[local] Existing Instance AsciiRuntime.runtime.
#[local] Existing Instance RenderExamples.sort_edits_desc.
Local Open Scope string_scope.

Definition text (s : string) : string := of_bytes (RenderExamples.doc s).

(** Three VLESS inbounds, one of them without clients, and one of another
    protocol. *)
Definition server (clients settings others : string) : string := text (
  "{ 'log': null, 'inbounds': [{'tag': 'in', 'protocol': 'vless', 'settings': {'clients': [" +:+ clients +:+ "]}}," +:+
  " {'tag': 'new', 'protocol': 'VLESS', 'settings': {" +:+ settings +:+ "}}, {'tag': 'socks', 'protocol': 'socks'}, " +:+
  "{'tag': 'less', 'protocol': 'vless', 'settings': {'clients': [" +:+ others +:+ "], 'decryption': 'none'}}]}").

Definition before : string :=
  server "{'email': 'ann@x', 'id': 'old', 'flow': 'f'}, {'id': 'b', 'email': 'bob@x'}, {'email': 'eve@x', 'level': 0}" ""
    "{'email': 'ann@x', 'id': 'a'}, {'email': 'bob@x', 'id': 'b'}, {'email': 'hal@x', 'id': 'h'}, {'email': 'gil@x', 'id': 'g'}".

(** Clients added, ids set, and clients taken out, in one inbound all three. *)
Definition changing : RenderPlan := {|
  pl_adds := <["in" := [RenderExamples.client "cat@x" "c"]]> {["new" := [RenderExamples.client "dan@x" "d"]]};
  pl_removes := <["in" := ["bob@x"]]> {["less" := ["bob@x"; "gil@x"; "ann@x"]]};
  pl_sets := {["in" := [RenderExamples.client "eve@x" "e"; RenderExamples.client "ann@x" "new"; RenderExamples.client "fay@x" "f"]]} |}.

Definition value_of (s : string) : json := XrayDecode.json_of (default DNull (parse_document s)).

Example changing_the_value :
  edit_config (change_at changing) (value_of before) =
  value_of (server
    ("{'email': 'ann@x', 'id': 'new', 'flow': 'f'}, {'id': 'e', 'email': 'eve@x', 'level': 0}, " +:+
     "{'email': 'cat@x', 'id': 'c'}, {'email': 'fay@x', 'id': 'f'}") "'clients': [{'email': 'dan@x', 'id': 'd'}]"
    "{'email': 'hal@x', 'id': 'h'}").
Proof. vm_compute. reflexivity. Qed.

Lemma changing_tame tag c : change_at changing tag = Some c → tame c.
Proof.
  unfold change_at, changing. cbn [pl_adds pl_removes pl_sets].
  destruct (decide (tag = "in")) as [->|H1]; [|destruct (decide (tag = "new")) as [->|H2]; [|destruct (decide (tag = "less")) as [->|H3]]].
  4: by rewrite !lookup_insert_ne, !lookup_singleton_ne.
  all: intros [= <-]; split; [by repeat constructor|]; split; [by repeat constructor|]; split; [|split];
    [apply (bool_decide_unpack _); vm_compute; reflexivity|apply (bool_decide_unpack _); vm_compute; reflexivity|].
  all: apply Forall_forall, (bool_decide_unpack _); vm_compute; reflexivity.
Qed.

Lemma tame_render_edits_the_value_witness :
  match RenderClients RenderExamples.sort_edits (bytes_of before) changing with
  | Rendered rendered _ => ∃ d', parse_document (of_bytes rendered) = Some d' ∧
      XrayDecode.json_of d' = edit_config (change_at changing) (value_of before)
  | RenderFailed e => e ≠ IndexOutOfRange ∧ ∀ x, e ≠ ScanConfig x
  | Panics | Diverges => False
  end.
Proof.
  unfold value_of. apply (tame_render_edits_the_value changing before).
  - vm_compute. reflexivity.
  - apply changing_tame.
  - vm_compute. reflexivity.
Defined.

Lemma reader_and_renderer_agree_witness :
  ∃ root, parseJSONC (parse_fuel (bytes_of before)) (bytes_of before) = Some (Ok root) ∧
    shows (bytes_of before) root (default DNull (parse_document before)).
Proof. apply (reader_and_renderer_agree before). vm_compute. reflexivity. Defined.

End Examples.
End RenderMeaning.
