(* ===== verification/RenderReads.v ===== *)
(** * What the renderer writes, the reader reads

    The renderer (internal/xrayconfig/render.go) edits the config as text and
    the reader (xrayconfig.go beside it) decodes it with encoding/json. On a file where each
    object has each of its fields once, by its own name, the clients a render
    adds, removes and gives a new id are the clients the reader then has more,
    has less, and has under that id. *)

From Stdlib Require Import Ascii String.
From S2P Require Import Prelude GoJson GoText GoDecode GoPrint XrayConfig Render RenderTheorems JsonText XrayDecode XrayDecodeTheorems RenderExamples RenderSyntax RenderEntries RenderFates RenderMeaning.

Module RenderReads.
Import GoJson GoText GoDecode GoPrint Render RenderTheorems JsonText XrayDecode XrayDecodeTheorems RenderSyntax RenderEntries RenderFates RenderMeaning.

Section WithRuntime.
Context {GR : GoRuntime}.

(** ** Decoding a value *)

Lemma decode_string_value d old : decode_string (doc_of (json_of d)) old = decode_string d old.
Proof. by destruct d. Qed.

Lemma decode_items_value items old : decode_items ((doc_of ∘ json_of) <$> items) old = decode_items items old.
Proof. revert old. induction items as [|d items IH]; intros old; [done|]. cbn. rewrite decode_string_value. by rewrite IH. Qed.

Lemma decode_members_value ms m : decode_members ((λ f, (f.1, doc_of (json_of f.2))) <$> ms) m = decode_members ms m.
Proof. revert m. induction ms as [|[k d] ms IH]; intros m; [done|]. cbn. rewrite decode_string_value. by destruct (decode_string d ""); cbn. Qed.

(** The text of a document does not matter, but for what it denotes. *)
Lemma decode_by_value :
  (∀ t d old, decode_value t (doc_of (json_of d)) old = decode_value t d old) ∧
  (∀ fs name d vs, set_field fs name (doc_of (json_of d)) vs = set_field fs name d vs).
Proof.
  assert (∀ fs ns ms vs, (∀ name d vs, set_field fs name (doc_of (json_of d)) vs = set_field fs name d vs) →
    decode_fields false ns (set_field fs) ((λ f, (f.1, doc_of f.2)) <$> ((λ f, (f.1, json_of f.2)) <$> ms)) vs =
    decode_fields false ns (set_field fs) ms vs) as Hstruct.
  { intros fs ns ms vs Hset. revert vs. induction ms as [|[k d] ms IH]; intros vs; [done|]. cbn.
    destruct (field_of ns k); [|apply IH]. rewrite Hset. destruct (set_field fs s d vs); cbn; [apply IH|done]. }
  apply type_mutind; try done.
  - intros d old. apply decode_string_value.
  - by intros [].
  - intros d old. cbn. by rewrite json_of_doc_of.
  - intros d old. cbn. unfold UnmarshalJSON. rewrite decode_string_value. destruct d; try done. cbn.
    by rewrite <-list_fmap_compose, decode_items_value.
  - intros d old. destruct d; try done. cbn. by rewrite <-list_fmap_compose, decode_members_value.
  - intros fs IH d old. destruct d; try done. cbn. by rewrite Hstruct.
  - intros t IH d old. destruct d as [| | | |text items|]; try done. cbn [json_of doc_of decode_value]. destruct items as [|d items]; [done|].
    cbn [fmap list_fmap decode_slice]. change (doc_of (json_of d) :: _) with (doc_of <$> (json_of <$> d :: items)).
    rewrite <-list_fmap_compose. change (_ ++ _) with (sl_items old ++ sl_beyond old).
    generalize (sl_items old ++ sl_beyond old). intros cells. f_equal. revert cells. induction (d :: items) as [|d' items' IHi]; intros cells; [done|]. cbn. rewrite IH.
    destruct (decode_value t d' _); cbn; [by rewrite IHi|done].
  - intros fs IH d old. destruct d; try done. cbn. by rewrite Hstruct.
  - intros n t IHt fs IHfs name d [v vs]. cbn. destruct (String.eqb n name); [by rewrite IHt|by rewrite IHfs].
Qed.

(** A value decoded over nothing. *)
Definition read (t : type) (j : json) : option (denote t) := decode_value t (doc_of j) (zero t).

Lemma decode_read visit document d : parse_document document = Some d →
  decode visit document = to_config visit <$> read (TStruct config) (json_of d).
Proof.
  intros Hd. unfold decode, read. rewrite Hd. cbn [mbind option_bind]. by rewrite (proj1 decode_by_value).
Qed.

Lemma cells_read t items : decode_cells (decode_value t) (zero t) (doc_of <$> items) [] = (λ vs, (vs, [])) <$> mapM (read t) items.
Proof.
  induction items as [|j items IH]; [done|]. cbn. fold (read t j). destruct (read t j); [|done]. cbn. rewrite IH.
  by destruct (mapM (read t) items).
Qed.

Lemma slice_read t items : read (TSlice t) (JArray items) = (λ vs, {| sl_items := vs; sl_beyond := [] |}) <$> mapM (read t) items.
Proof.
  unfold read at 1. cbn [doc_of decode_value zero]. destruct items as [|j items]; [done|]. cbn [fmap list_fmap decode_slice].
  change (doc_of j :: _) with (doc_of <$> j :: items). cbn [sl_items sl_beyond nil_slice app]. rewrite cells_read.
  by destruct (mapM (read t) (j :: items)).
Qed.

(** ** Objects whose fields are told apart *)

(** Each field at most once, and under its own name. *)
Definition once (ns keys : list string) : bool :=
  forallb (λ key, match field_of ns key with Some name => String.eqb name key | None => true end) keys &&
  bool_decide (NoDup (omap (field_of ns) keys)).

Definition held (t : type) (o : option json) : option (denote t) :=
  match o with Some j => read t j | None => Some (zero t) end.

(** The fields, each from the value under its name. *)
Fixpoint gather (fs : fields) (look : string → option json) : option (tuple fs) :=
  match fs with
  | NoFields => Some ()
  | Field n t fs =>
      v ← held t (look n); vs ← gather fs look; Some (v, vs)
  end.

Lemma gather_some n t fs look v vs :
  gather (Field n t fs) look = Some (v, vs) ↔ held t (look n) = Some v ∧ gather fs look = Some vs.
Proof.
  cbn [gather]. destruct (held t (look n)) as [v'|]; cbn; [|naive_solver].
  destruct (gather fs look) as [vs'|]; cbn; naive_solver.
Qed.

(** The members of one field, one over the other. *)
Fixpoint member_over (ns : list string) (n : string) (t : type) (ms : list (string * doc)) (v : denote t) : option (denote t) :=
  match ms with
  | [] => Some v
  | (key, d) :: ms =>
      if bool_decide (field_of ns key = Some n) then v ← decode_value t d v; member_over ns n t ms v
      else member_over ns n t ms v
  end.

Lemma set_field_other fs n d vs : n ∉ names fs → set_field fs n d vs = Some vs.
Proof.
  induction fs as [|m t fs IH]; intros Hn; [done|]. destruct vs as [v vs]. cbn [names] in Hn. apply not_elem_of_cons in Hn as [Hne Hn].
  cbn. rewrite (proj2 (String.eqb_neq m n)) by congruence. by rewrite IH.
Qed.

Lemma fields_apart ns n t fs ms v vs : n ∉ names fs →
  decode_fields false ns (set_field (Field n t fs)) ms (v, vs) =
    (v ← member_over ns n t ms v; vs ← decode_fields false ns (set_field fs) ms vs; Some (v, vs)).
Proof.
  intros Hn. revert v vs. induction ms as [|[key d] ms IH]; intros v vs; [done|]. cbn [decode_fields member_over].
  destruct (field_of ns key) as [name|] eqn:E; [|by rewrite bool_decide_eq_false_2]. cbn [set_field].
  destruct (String.eqb_spec n name) as [<-|Hne].
  - rewrite bool_decide_eq_true_2 by done. rewrite set_field_other by done. cbn.
    destruct (decode_value t d v); cbn; [apply IH|done].
  - rewrite bool_decide_eq_false_2 by congruence. destruct (set_field fs name d vs); cbn; [apply IH|].
    by destruct (member_over ns n t ms v).
Qed.

Lemma member_over_none ns n t ms v : n ∉ omap (field_of ns) ms.*1 → member_over ns n t ms v = Some v.
Proof.
  intros Hn. induction ms as [|[key d] ms IH]; [done|]. cbn [member_over]. cbn [fmap list_fmap fst omap list_omap] in Hn.
  destruct (field_of ns key) as [name|] eqn:E; [|rewrite bool_decide_eq_false_2 by done; by apply IH].
  apply not_elem_of_cons in Hn as [Hne Hn]. rewrite bool_decide_eq_false_2 by congruence. by apply IH.
Qed.

Lemma once_cons ns key keys : once ns (key :: keys) = true →
  once ns keys = true ∧ ∀ n, field_of ns key = Some n → n = key ∧ n ∉ omap (field_of ns) keys.
Proof.
  unfold once. cbn [forallb omap list_omap]. intros [[Hk Hf]%andb_true_iff Hnd%bool_decide_eq_true]%andb_true_iff.
  destruct (field_of ns key) as [name|].
  - apply NoDup_cons in Hnd as [Hnot Hnd]. apply String.eqb_eq in Hk. split; [by rewrite Hf, bool_decide_eq_true_2|].
    by intros ? [= <-].
  - split; [by rewrite Hf, bool_decide_eq_true_2|done].
Qed.

Definition docs (fields : list (string * json)) : list (string * doc) := (λ f, (f.1, doc_of f.2)) <$> fields.

Lemma docs_keys fields : (docs fields).*1 = fields.*1.
Proof. unfold docs. by rewrite <-list_fmap_compose. Qed.

Lemma member_once ns n t fields v : n ∈ ns → once ns fields.*1 = true →
  member_over ns n t (docs fields) v =
    match first_field n fields with Some j => decode_value t (doc_of j) v | None => Some v end.
Proof.
  intros Hin. induction fields as [|[key j] fields IH]; intros Ho; [done|].
  destruct (once_cons _ _ _ Ho) as [Hrest Hkey]. cbn [docs fmap list_fmap member_over first_field fst snd].
  destruct (String.eqb_spec key n) as [->|Hne].
  - pose proof (field_of_elem _ _ Hin) as E. rewrite bool_decide_eq_true_2 by done. destruct (Hkey n E) as [_ Hno].
    destruct (decode_value t (doc_of j) v) as [v'|]; [|done]. apply member_over_none. by rewrite docs_keys.
  - rewrite bool_decide_eq_false_2; [by apply IH|]. intros E. by destruct (Hkey n E).
Qed.

Lemma fields_gather ns fs fields : distinct_fields fs = true → (∀ n, n ∈ names fs → n ∈ ns) → once ns fields.*1 = true →
  decode_fields false ns (set_field fs) (docs fields) (zeros fs) = gather fs (λ n, first_field n fields).
Proof.
  induction fs as [|n t fs IH]; intros Hd Hns Ho.
  { clear Ho. induction (docs fields) as [|[key d] ms IHm]; [done|]. cbn in *. by destruct (field_of ns key). }
  cbn [distinct_fields] in Hd. apply andb_true_iff in Hd as [[Hn _]%andb_true_iff Hd]. cbn [zeros gather].
  rewrite fields_apart, member_once, IH; [done|done| |done| |done|].
  - intros m Hm. apply Hns. by right.
  - apply Hns. by left.
  - intros Hin%list_elem_of_In. apply negb_true_iff in Hn. assert (existsb (String.eqb n) (names fs) = true); [|congruence].
    apply existsb_exists. exists n. by rewrite String.eqb_refl.
Qed.

Lemma object_read fs fields : distinct_fields fs = true → once (names fs) fields.*1 = true →
  read (TStruct fs) (JObject fields) = gather fs (λ n, first_field n fields).
Proof. intros Hd Ho. by apply fields_gather. Qed.

#[local] Ltac gather_split := repeat (apply gather_some; split).

(** *** A changed field *)

Lemma on_first_keys key f fields : (on_first key f fields).*1 = fields.*1.
Proof. induction fields as [|[k v] fields IH]; [done|]. cbn. destruct (String.eqb k key); cbn; [done|by rewrite <-IH]. Qed.

Lemma on_first_lookup key f fields n :
  first_field n (on_first key f fields) = if String.eqb key n then f <$> first_field n fields else first_field n fields.
Proof.
  induction fields as [|[k v] fields IH]; [by destruct (String.eqb key n)|]. cbn.
  destruct (String.eqb_spec k key) as [->|Hk]; cbn [first_field].
  - by destruct (String.eqb key n).
  - rewrite IH. destruct (String.eqb_spec key n) as [->|Hn]; [|done]. by rewrite (proj2 (String.eqb_neq k n)).
Qed.

(** ** The clients after a change *)

Definition op_client (op : ClientOp) : XrayConfig.clientConfig := {|
  XrayConfig.cc_email := co_email op; XrayConfig.cc_id := co_id op; XrayConfig.cc_flow := co_flow op; XrayConfig.cc_reverse := None |}.

(** A client under the id set for its email. *)
Definition set_client (sets : list ClientOp) (c : XrayConfig.clientConfig) : XrayConfig.clientConfig :=
  match set_of sets (XrayConfig.cc_email c) with
  | Some op => {|
      XrayConfig.cc_email := XrayConfig.cc_email c; XrayConfig.cc_id := co_id op; XrayConfig.cc_flow := XrayConfig.cc_flow c;
      XrayConfig.cc_reverse := XrayConfig.cc_reverse c |}
  | None => c
  end.

(** The clients that stay: the last client of each email is looked at. *)
Fixpoint clients_kept (c : change) (clients : list XrayConfig.clientConfig) : list XrayConfig.clientConfig :=
  match clients with
  | [] => []
  | k :: ks =>
      (if bool_decide (XrayConfig.cc_email k ∈ XrayConfig.cc_email <$> ks) then [k]
       else if bool_decide (XrayConfig.cc_email k ∈ ch_removes c) then [] else [set_client (ch_sets c) k]) ++ clients_kept c ks
  end.

Definition clients_after (c : change) (clients : list XrayConfig.clientConfig) : list XrayConfig.clientConfig :=
  clients_kept c clients ++ (op_client <$> filter (λ op, co_email op ∉ XrayConfig.cc_email <$> clients) (ch_adds c ++ ch_sets c)).

Definition settings_after (c : change) (s : XrayConfig.inboundSettings) : XrayConfig.inboundSettings := {|
  XrayConfig.is_clients := clients_after c (XrayConfig.is_clients s);
  XrayConfig.is_flow := XrayConfig.is_flow s; XrayConfig.is_decryption := XrayConfig.is_decryption s |}.

Definition inbound_after (changes : string → option change) (i : XrayConfig.inboundConfig) : XrayConfig.inboundConfig :=
  match changes (XrayConfig.ic_tag i) with
  | None => i
  | Some c => {|
      XrayConfig.ic_tag := XrayConfig.ic_tag i; XrayConfig.ic_protocol := XrayConfig.ic_protocol i; XrayConfig.ic_port := XrayConfig.ic_port i;
      XrayConfig.ic_settings := settings_after c (XrayConfig.ic_settings i); XrayConfig.ic_stream := XrayConfig.ic_stream i |}
  end.

Definition config_after (changes : string → option change) (c : XrayConfig.config) : XrayConfig.config :=
  {| XrayConfig.cfg_inbounds := inbound_after changes <$> XrayConfig.cfg_inbounds c |}.

(** Where the fields on the way to the clients are told apart. *)
Definition plain (fs : fields) (below : list (string * json) → bool) (j : json) : bool :=
  match j with JObject fields => once (names fs) fields.*1 && below fields | _ => true end.

Definition plain_items (item : json → bool) (key : string) (fields : list (string * json)) : bool :=
  match first_field key fields with Some (JArray items) => forallb item items | _ => true end.

Definition plain_client : json → bool := plain clientConfig (λ _, true).
Definition plain_settings : json → bool := plain inboundSettings (plain_items plain_client "clients").
Definition plain_inbound : json → bool := plain inboundConfig (λ fields, match first_field "settings" fields with Some j => plain_settings j | None => true end).
Definition plain_config : json → bool := plain config (plain_items plain_inbound "inbounds").

(** *** Clients *)

Lemma client_read op : read (TStruct clientConfig) (client_json op) = Some (of_client (op_client op)).
Proof.
  unfold client_json, of_client, op_client. destruct (String.eqb_spec (co_flow op) "") as [->|]; reflexivity.
Qed.

Lemma read_string j : read TString j = match j with JNull => Some ""%string | JString s => Some s | _ => None end.
Proof. by destruct j. Qed.

Lemma clients_read ops : mapM (read (TStruct clientConfig)) (client_json <$> ops) = Some (of_client <$> (op_client <$> ops)).
Proof. induction ops as [|op ops IH]; [done|]. cbn [fmap list_fmap mapM]. by rewrite client_read, IH. Qed.

(** An entry of the file and the client it is read as. *)
Definition reads_as (j : json) (k : XrayConfig.clientConfig) : Prop :=
  plain_client j = true ∧ read (TStruct clientConfig) j = Some (of_client k).

Lemma entries_read entries (vs : list (tuple clientConfig)) : forallb plain_client entries = true → mapM (read (TStruct clientConfig)) entries = Some vs →
  Forall2 reads_as entries (to_client <$> vs).
Proof.
  intros Hp Hm%mapM_Some. induction Hm as [|j v entries vs Hj Hm IH]; [constructor|].
  cbn [forallb] in Hp. apply andb_true_iff in Hp as [Hpj Hp]. constructor; [|by apply IH]. split; [done|].
  rewrite Hj. by destruct v as (? & ? & ? & ? & []).
Qed.

Lemma client_email j k e : reads_as j k → e ≠ ""%string → json_email j = Some e ↔ XrayConfig.cc_email k = e.
Proof.
  intros [Hp Hr] He. destruct j as [| | | | |fields]; try done.
  { assert (XrayConfig.cc_email k = ""%string) as -> by (unfold of_client in Hr; by injection Hr as <-).
    cbn. split; congruence. }
  apply andb_true_iff in Hp as [Ho _]. rewrite object_read in Hr by done. unfold of_client in Hr.
  apply gather_some in Hr as [Hr _]. cbn [json_email]. unfold held in Hr.
  destruct (first_field "email" fields) as [j|]; [rewrite read_string in Hr; destruct j|]; naive_solver.
Qed.

Lemma emails_read entries clients e : Forall2 reads_as entries clients → e ≠ ""%string →
  Some e ∈ json_email <$> entries ↔ e ∈ XrayConfig.cc_email <$> clients.
Proof.
  intros Hall He. induction Hall as [|j k entries clients Hj _ IH]; [cbn; by rewrite !elem_of_nil|].
  pose proof (client_email j k e Hj He) as Hc. rewrite !fmap_cons, !elem_of_cons, IH. naive_solver.
Qed.

Definition named (ops : list ClientOp) : Prop := Forall (λ op, co_email op ≠ ""%string) ops.

Lemma set_of_named sets email op : named sets → set_of sets email = Some op → email ≠ ""%string.
Proof.
  unfold set_of, named. rewrite Forall_forall. intros Hall [Hin <-%String.eqb_eq]%List.find_some. by apply Hall, list_elem_of_In.
Qed.

Lemma present_read ops entries clients : Forall2 reads_as entries clients → named ops →
  filter (λ op, co_email op ∉ omap json_email entries) ops = filter (λ op, co_email op ∉ XrayConfig.cc_email <$> clients) ops.
Proof.
  intros Hall Hops. induction Hops as [|op ops Hop _ IH]; [done|].
  pose proof (emails_read _ _ _ Hall Hop) as Hm. rewrite <-omap_email in Hm. rewrite !filter_cons, IH. by repeat case_decide; try tauto.
Qed.

(** A new id is read, wherever the entry had one before. *)
Lemma set_id_read id j k : reads_as j k → is_Some (json_email j) →
  read (TStruct clientConfig) (set_id id j) =
    Some (of_client {| XrayConfig.cc_email := XrayConfig.cc_email k; XrayConfig.cc_id := id; XrayConfig.cc_flow := XrayConfig.cc_flow k; XrayConfig.cc_reverse := XrayConfig.cc_reverse k |}).
Proof.
  intros [Hp Hr] [email He]. destruct j as [| | | | |fields]; try done. apply andb_true_iff in Hp as [Ho _].
  rewrite object_read in Hr by done. destruct k as [email' id' flow reverse]. unfold of_client in *. cbn [XrayConfig.cc_email XrayConfig.cc_id XrayConfig.cc_flow XrayConfig.cc_reverse] in *.
  apply gather_some in Hr as (Hemail & (Hid & (Hflow & (Hrev & Hu)%gather_some)%gather_some)%gather_some). cbn [set_id].
  destruct (first_field "id" fields) as [[| | |old| |]|] eqn:E.
  4: { rewrite object_read; [|done|by rewrite on_first_keys]. gather_split; rewrite ?on_first_lookup; try done. by rewrite E, String.eqb_refl. }
  all: try discriminate Hid.
  all: change (decode_fields false (names clientConfig) (set_field clientConfig) (docs fields) (""%string, (id, (""%string, (None, ())))) = Some (email', (id, (flow, (reverse, ()))))).
  all: unfold clientConfig at 2; rewrite !fields_apart by (cbn; set_solver).
  all: rewrite !member_once by (done || by apply (bool_decide_unpack _)); rewrite E.
  all: unfold held, read in Hemail, Hflow, Hrev; cbn [zero] in Hemail, Hflow, Hrev; rewrite Hemail, Hflow, Hrev.
  all: change () with (zeros NoFields) at 1; by rewrite fields_gather by (done || by intros n ?%elem_of_nil).
Qed.

Definition named_change (c : change) : Prop := named (ch_adds c) ∧ named (ch_sets c) ∧ Forall (λ e, e ≠ ""%string) (ch_removes c).

(** No change is about the empty email. *)
Lemma nameless c : named_change c → (""%string ∉ ch_removes c) ∧ set_of (ch_sets c) ""%string = None.
Proof.
  intros (_ & Hs & Hr). rewrite Forall_forall in Hr. split; [intros Hin; by destruct (Hr _ Hin)|].
  destruct (set_of (ch_sets c) ""%string) as [op|] eqn:E; [|done]. by destruct (set_of_named _ _ _ Hs E).
Qed.

(** What stays of the entries is what stays of the clients. *)
Lemma kept_read c entries clients : Forall2 reads_as entries clients → named_change c →
  mapM (read (TStruct clientConfig)) (concat (zip_with outcome (fates c entries) entries)) = Some (of_client <$> clients_kept c clients).
Proof.
  intros Hall Hc. destruct (nameless c Hc) as [Hnr Hns]. apply mapM_Some. unfold fates. induction Hall as [|j k entries clients Hj Hall IH]; [constructor|].
  cbn [fmap list_fmap fates_of zip_with concat clients_kept]. rewrite fmap_app. apply Forall2_app; [|exact IH]. clear IH.
  pose proof Hj as [_ Hread]. unfold set_client. destruct (decide (XrayConfig.cc_email k = ""%string)) as [He|Hne].
  - assert (∀ e, json_email j = Some e → e = ""%string) as Hempty.
    { intros e Hje. destruct (decide (e = ""%string)) as [|Hne]; [done|]. apply (client_email _ _ _ Hj Hne) in Hje. congruence. }
    rewrite He, (bool_decide_eq_false_2 (""%string ∈ ch_removes c)), Hns by done.
    assert ((if bool_decide (""%string ∈ XrayConfig.cc_email <$> clients) then [k] else [k]) = [k]) as -> by by case_bool_decide.
    destruct (json_email j) as [e|]; [rewrite (Hempty e eq_refl)|by repeat constructor].
    rewrite (bool_decide_eq_false_2 (""%string ∈ ch_removes c)), Hns by done. case_bool_decide; by repeat constructor.
  - rewrite (proj2 (client_email _ _ _ Hj Hne) eq_refl), (bool_decide_ext _ _ (emails_read _ _ _ Hall Hne)).
    case_bool_decide; [by repeat constructor|]. case_bool_decide; [constructor|]. constructor; [|constructor].
    destruct (set_of (ch_sets c) (XrayConfig.cc_email k)) as [op|]; [|done].
    apply set_id_read; [done|]. eexists. by apply (client_email _ _ _ Hj Hne).
Qed.

(** *** Settings *)

Lemma once_append ns key fields j : once ns fields.*1 = true → key ∈ ns → first_field key fields = None →
  once ns (fields ++ [(key, j)]).*1 = true ∧ ∀ n, first_field n (fields ++ [(key, j)]) = if String.eqb key n then Some j else first_field n fields.
Proof.
  intros Ho Hin. induction fields as [|[k v] fields IH]; cbn [first_field app fmap list_fmap fst] in *.
  - intros _. unfold once. cbn. rewrite (field_of_elem _ _ Hin), String.eqb_refl. by rewrite bool_decide_eq_true_2 by apply NoDup_singleton.
  - destruct (String.eqb_spec k key) as [|Hk]; [done|]. intros Hnone. destruct (once_cons _ _ _ Ho) as [Hrest Hkey].
    destruct (IH Hrest Hnone) as [IH1 IH2]. split.
    + unfold once in IH1 |- *. cbn [forallb omap list_omap]. apply andb_true_iff in IH1 as [Hf Hnd]. rewrite Hf.
      destruct (field_of ns k) as [n|] eqn:E; [|done]. destruct (Hkey n eq_refl) as [-> Hnot]. rewrite String.eqb_refl. cbn.
      apply bool_decide_eq_true in Hnd. apply bool_decide_eq_true. constructor; [|done].
      rewrite fmap_app, omap_app. cbn. rewrite (field_of_elem _ _ Hin). intros [?|?%list_elem_of_singleton]%elem_of_app; congruence.
    + intros n. rewrite IH2. destruct (String.eqb_spec k n) as [->|]; [|done]. by rewrite (proj2 (String.eqb_neq key n)) by done.
Qed.

(** A slice of entries is read as the clients, one by one. *)
Lemma array_read entries clients : mapM (read (TStruct clientConfig)) entries = Some (of_client <$> clients) →
  read (TSlice (TStruct clientConfig)) (JArray entries) = Some {| sl_items := of_client <$> clients; sl_beyond := [] |}.
Proof. intros Hm. etransitivity; [apply slice_read|]. exact (f_equal (fmap (λ vs, {| sl_items := vs; sl_beyond := [] |})) Hm). Qed.

Lemma of_clients_back (clients : list XrayConfig.clientConfig) : to_client <$> (of_client <$> clients) = clients.
Proof. rewrite <-list_fmap_compose. transitivity (id <$> clients); [|apply list_fmap_id]. apply list_fmap_ext. by intros ? []. Qed.

Lemma edit_clients_read c entries clients : Forall2 reads_as entries clients → named_change c →
  mapM (read (TStruct clientConfig)) (edit_clients c entries) = Some (of_client <$> clients_after c clients).
Proof.
  intros Hall Hc. pose proof Hc as (Ha & Hs & _). unfold edit_clients, clients_after, remaining. rewrite fmap_app, (present_read _ _ clients) by (done || by apply Forall_app_2).
  apply mapM_Some, Forall2_app; apply mapM_Some; [by apply kept_read|apply clients_read].
Qed.

Lemma filter_agree {A} (P Q : A → Prop) `{∀ x, Decision (P x)} `{∀ x, Decision (Q x)} (l : list A) : (∀ x, x ∈ l → P x ↔ Q x) → filter P l = filter Q l.
Proof.
  induction l as [|x l IH]; intros Hpq; [done|]. rewrite !filter_cons, IH by (intros y Hy; apply Hpq; by right).
  pose proof (Hpq x ltac:(by left)). by repeat case_decide; try tauto.
Qed.

Lemma settings_read c j v : settings_take j → plain_settings j = true → named_change c → tame c → read (TStruct inboundSettings) j = Some v →
  ∃ v', read (TStruct inboundSettings) (edit_object c j) = Some v' ∧ to_settings v' = settings_after c (to_settings v).
Proof.
  destruct j as [| | | | |fields]; try done. cbn [settings_take]. intros Ht [Ho Hp]%andb_true_iff Hc Htame. rewrite object_read by done.
  destruct v as (clients & flow & decryption & u). intros (Hcl & (Hf & (Hd & Hu)%gather_some)%gather_some)%gather_some.
  assert (∀ cells fields', mapM (read (TStruct clientConfig)) cells = Some (of_client <$> clients_after c (to_client <$> sl_items clients)) →
    once (names inboundSettings) fields'.*1 = true →
    (∀ n, first_field n fields' = if String.eqb "clients" n then Some (JArray cells) else first_field n fields) →
    ∃ v', read (TStruct inboundSettings) (JObject fields') = Some v' ∧
      to_settings v' = settings_after c (to_settings (clients, (flow, (decryption, u))))) as Hwrite.
  { intros cells fields' Hm Ho' Hlook. exists ({| sl_items := of_client <$> clients_after c (to_client <$> sl_items clients); sl_beyond := [] |}, (flow, (decryption, u))). split.
    - rewrite object_read by done. gather_split; rewrite ?Hlook; try done. by apply array_read.
    - unfold to_settings, settings_after. cbn [sl_items]. by rewrite of_clients_back. }
  cbn [edit_object]. unfold edit_settings. unfold plain_items in Hp.
  destruct (first_field "clients" fields) as [[| | | |entries|]|] eqn:E; try done.
  - cbn [held] in Hcl. rewrite slice_read in Hcl. apply fmap_Some in Hcl as (vs & Hm & ->).
    apply (Hwrite (edit_clients c entries)); [by apply edit_clients_read, Hc; apply entries_read|by rewrite on_first_keys|].
    intros n. rewrite on_first_lookup. destruct (String.eqb_spec "clients" n) as [<-|]; [by rewrite E|done].
  - injection Hcl as <-. set (cells := client_json <$> _).
    destruct (once_append (names inboundSettings) "clients" fields (JArray cells) Ho) as [Ho' Hlook]; [by left|done|].
    apply (Hwrite cells); [|done|done]. unfold cells, clients_after. rewrite clients_read. do 2 f_equal. cbn.
    destruct Htame as (_ & _ & _ & _ & Happ). f_equal. apply filter_agree. intros op Hin. split; [intros _; apply not_elem_of_nil|].
    intros _ Hrem. apply (Happ _ Hrem). by apply list_elem_of_fmap_2.
Qed.

(** *** Inbounds *)

Context (visit : gmap string string → list (string * string)) (changes : string → option change)
  (Hchanges : ∀ tag c, changes tag = Some c → tag ≠ ""%string ∧ named_change c ∧ tame c).

Lemma no_tag : changes ""%string = None.
Proof. destruct (changes ""%string) as [c|] eqn:E; [|done]. by destruct (Hchanges _ _ E). Qed.

Lemma inbound_read j v : inbound_takes changes j → plain_inbound j = true → read (TStruct inboundConfig) j = Some v →
  ∃ v', read (TStruct inboundConfig) (edit_inbound changes j) = Some v' ∧ to_inbound visit v' = inbound_after changes (to_inbound visit v).
Proof.
  destruct j as [| | | | |fields]; try done.
  { intros _ _ [= <-]. eexists. split; [reflexivity|]. unfold inbound_after. cbn. by rewrite no_tag. }
  cbn [inbound_takes]. intros Ht [Ho Hp]%andb_true_iff Hr. pose proof Hr as Hsame. rewrite object_read in Hr by done.
  destruct v as (tag & protocol & port & settings & stream & u).
  apply gather_some in Hr as (Htag & (Hproto & (Hport & (Hset & (Hstream & Hu)%gather_some)%gather_some)%gather_some)%gather_some).
  assert (first_field "tag" fields = Some (JString tag) ∨ tag = ""%string ∧
    edit_inbound changes (JObject fields) = JObject fields) as [Etag|[-> ->]].
  { cbn [edit_inbound]. unfold held in Htag. destruct (first_field "tag" fields) as [j|]; [rewrite read_string in Htag; destruct j|];
      try discriminate Htag; injection Htag as <-; auto. }
  2: { eexists. split; [exact Hsame|]. unfold inbound_after. cbn [to_inbound XrayConfig.ic_tag]. by rewrite no_tag. }
  rewrite Etag in Ht. cbn [edit_inbound]. rewrite Etag. unfold inbound_after. cbn [to_inbound XrayConfig.ic_tag].
  change (denote TString) with string in *.
  destruct (changes tag) as [c|] eqn:E; [|eexists; split; [exact Hsame|done]]. destruct (Hchanges _ _ E) as (_ & Hc & Htame). destruct (Ht ltac:(by eexists)) as [_ Hts].
  destruct (first_field "settings" fields) as [s|] eqn:Es; [|done].
  destruct (settings_read c s settings Hts Hp Hc Htame Hset) as (settings' & Hs' & Hto).
  exists (tag, (protocol, (port, (settings', (stream, u))))). split.
  - rewrite object_read; [|done|by rewrite on_first_keys]. gather_split; rewrite ?on_first_lookup; try done.
    by rewrite Es, String.eqb_refl.
  - cbn [to_inbound XrayConfig.ic_settings XrayConfig.ic_tag XrayConfig.ic_protocol XrayConfig.ic_port XrayConfig.ic_stream]. by rewrite Hto.
Qed.

Lemma inbounds_read l (vs : list (tuple inboundConfig)) : Forall (inbound_takes changes) l → forallb plain_inbound l = true →
  mapM (read (TStruct inboundConfig)) l = Some vs →
  ∃ vs' : list (tuple inboundConfig), mapM (read (TStruct inboundConfig)) (edit_inbound changes <$> l) = Some vs' ∧
    to_inbound visit <$> vs' = inbound_after changes <$> (to_inbound visit <$> vs).
Proof.
  intros Ht Hp Hm%mapM_Some. induction Hm as [|j v l vs Hj Hm IH]; [by exists []|].
  apply Forall_cons in Ht as [Htj Ht]. cbn [forallb] in Hp. apply andb_true_iff in Hp as [Hpj Hp].
  destruct (inbound_read j v Htj Hpj Hj) as (v' & Hv' & Hto). destruct (IH Ht Hp) as (vs' & Hvs' & Htos).
  exists (v' :: vs'). rewrite !fmap_cons, Hto, Htos. split; [|done]. cbn [mapM]. rewrite Hv'. cbn [mbind option_bind]. by rewrite Hvs'.
Qed.

Lemma config_after_read j v : config_takes changes j → plain_config j = true → read (TStruct config) j = Some v →
  ∃ v', read (TStruct config) (edit_config changes j) = Some v' ∧ to_config visit v' = config_after changes (to_config visit v).
Proof.
  assert ((∀ tag, changes tag = None) → ∀ c, config_after changes c = c) as Hnone.
  { intros Hno [inbounds]. unfold config_after. cbn. f_equal. transitivity (id <$> inbounds); [|apply list_fmap_id]. apply list_fmap_ext.
    intros _ i _. unfold inbound_after. by rewrite Hno. }
  destruct j as [| | | | |fields]; try done; cbn [config_takes edit_config].
  { intros Ha _ Hr. exists v. by rewrite Hnone. }
  intros Ht [Ho Hp]%andb_true_iff Hr. pose proof Hr as Hsame. rewrite object_read in Hr by done. destruct v as (inbounds & u).
  apply gather_some in Hr as [Hin Hu]. unfold plain_items in Hp.
  destruct (first_field "inbounds" fields) as [[| | | |l|]|] eqn:E.
  5: { cbn [held] in Hin. rewrite slice_read in Hin. apply fmap_Some in Hin as (vs & Hm & ->).
    destruct (inbounds_read l vs Ht Hp Hm) as (vs' & Hm' & Hto). exists ({| sl_items := vs'; sl_beyond := [] |}, u). split.
    - rewrite object_read; [|done|by rewrite on_first_keys]. gather_split; rewrite ?on_first_lookup; try done.
      rewrite E, String.eqb_refl. cbn [fmap option_fmap option_map held]. rewrite slice_read.
      exact (f_equal (fmap (λ vs, {| sl_items := vs; sl_beyond := [] |})) Hm').
    - unfold to_config, config_after. cbn in *. by rewrite Hto. }
  all: exists (inbounds, u); rewrite Hnone by done; split; [|done]; rewrite object_read; [|done|by rewrite on_first_keys];
    gather_split; rewrite ?on_first_lookup; try done; rewrite E; exact Hin.
Qed.

(** Only inbounds the Panel manages are changed. *)
Definition changes_managed (c : XrayConfig.config) : Prop :=
  Forall (λ i, is_Some (changes (XrayConfig.ic_tag i)) → XrayConfig.Managed (XrayConfig.buildInbound i) = true) (XrayConfig.cfg_inbounds c).

Lemma inbound_managed j v : inbound_takes changes j → plain_inbound j = true → read (TStruct inboundConfig) j = Some v →
  is_Some (changes (XrayConfig.ic_tag (to_inbound visit v))) → XrayConfig.Managed (XrayConfig.buildInbound (to_inbound visit v)) = true.
Proof.
  destruct j as [| | | | |fields]; try done.
  { intros _ _ [= <-] [c Hc]. by destruct (Hchanges _ _ Hc). }
  cbn [inbound_takes]. intros Ht [Ho _]%andb_true_iff. rewrite object_read by done. destruct v as (tag & protocol & port & settings & stream & u).
  intros [Htag [Hproto _]%gather_some]%gather_some. unfold XrayConfig.Managed. cbn [to_inbound XrayConfig.ic_tag XrayConfig.ic_protocol XrayConfig.buildInbound XrayConfig.ib_tag XrayConfig.ib_protocol].
  change (denote TString) with string in *. intros [c Hc]. destruct (Hchanges _ _ Hc) as [Hne _].
  rewrite (proj2 (String.eqb_neq tag "") Hne). unfold held in Htag, Hproto.
  destruct (first_field "tag" fields) as [j|]; [rewrite read_string in Htag; destruct j|]; try discriminate Htag; injection Htag as <-; try done.
  destruct Ht as [(p & Hp & Hvless) _]; [by eexists|]. rewrite Hp, read_string in Hproto.
  destruct p; try discriminate Hproto; by injection Hproto as <-.
Qed.

Lemma config_managed j v : config_takes changes j → plain_config j = true → read (TStruct config) j = Some v → changes_managed (to_config visit v).
Proof.
  assert ((∀ tag, changes tag = None) → ∀ c, changes_managed c) as Hnone.
  { intros E c. unfold changes_managed. apply Forall_true. intros i. rewrite E. by intros []. }
  destruct j as [| | | | |fields]; try (intros Ha _ _; by apply Hnone). cbn [config_takes].
  intros Ht [Ho Hp]%andb_true_iff. rewrite object_read by done. destruct v as (inbounds & u). intros [Hin _]%gather_some. unfold plain_items in Hp.
  destruct (first_field "inbounds" fields) as [[| | | |l|]|]; try by apply Hnone.
  cbn [held] in Hin. rewrite slice_read in Hin. apply fmap_Some in Hin as (vs & Hm%mapM_Some & ->).
  unfold changes_managed, to_config. cbn [XrayConfig.cfg_inbounds sl_items]. apply Forall_fmap.
  induction Hm as [|j v l vs Hj Hm IH]; [constructor|]. apply Forall_cons in Ht as [Htj Ht]. cbn [forallb] in Hp. apply andb_true_iff in Hp as [Hpj Hp].
  constructor; [exact (inbound_managed j v Htj Hpj Hj)|by apply IH].
Qed.

(** What a render of tame changes leaves for the reader. *)
Lemma tame_render_read `{DescSort sort_edits} plan document d cfg rendered changed : change_at plan = changes →
  config_untangled changes (json_of d) = true →
  parse_document document = Some d → plain_config (json_of d) = true → decode visit document = Some cfg →
  RenderClients sort_edits (bytes_of document) plan = Rendered rendered changed →
  decode visit (of_bytes rendered) = Some (config_after changes cfg) ∧ changes_managed cfg.
Proof.
  intros Hplan Hun Hd Hplain Hcfg Hr.
  assert (∀ tag c, change_at plan tag = Some c → tame c) as Htame by (rewrite Hplan; intros tag c Hc; by destruct (Hchanges _ _ Hc) as (_ & _ & ?)).
  rewrite <-Hplan in Hun. pose proof (tame_render plan document d Hd Htame Hun) as Hval. rewrite Hr, Hplan in Hval. destruct Hval as ((d' & Hd' & Hj) & Htakes).
  rewrite (decode_read _ _ _ Hd) in Hcfg. rewrite (decode_read _ _ _ Hd'), Hj. apply fmap_Some in Hcfg as (v & Hread & ->).
  split; [|by eapply config_managed]. destruct (config_after_read (json_of d) v Htakes Hplain Hread) as (v' & -> & Hto).
  cbn [fmap option_fmap option_map]. by rewrite Hto.
Qed.
End WithRuntime.

(** C4: what the renderer changes, the reader reads. On a config the reader
    accepts, where each object has each of the fields on the way to the
    clients once and under its own name, the file that a render of tame and
    untangled changes writes is accepted too, and decodes to the same config
    but for the clients: in each named inbound the last client of a removed
    email is gone, the last client of an email that is set has the new id,
    with its flow and reverse as they were, and the clients whose email no
    client had are at the end. Everything else the reader takes from the file
    is as it was. *)
Theorem rendered_changes_are_read `{GR : GoRuntime} `{DescSort sort_edits} visit plan document d cfg rendered changed :
  (∀ tag c, change_at plan tag = Some c → tag ≠ ""%string ∧ named_change c ∧ tame c) →
  config_untangled (change_at plan) (json_of d) = true →
  parse_document document = Some d → plain_config (json_of d) = true → decode visit document = Some cfg →
  RenderClients sort_edits (bytes_of document) plan = Rendered rendered changed →
  decode visit (of_bytes rendered) = Some (config_after (change_at plan) cfg).
Proof.
  intros Hc Hun Hd Hplain Hcfg Hr. by destruct (tame_render_read visit (change_at plan) Hc plan document d cfg rendered changed eq_refl Hun) as [? _].
Qed.

(** ** At a concrete file *)

Module Examples.
Import XrayDecodeTheorems.Examples.

#[local] Existing Instance AsciiRuntime.runtime.
#[local] Existing Instance RenderExamples.sort_edits_desc.
Local Open Scope string_scope.

Definition sample : string := server "secret" "{'key': ['k']}" "{'rules': []}".

Definition rendered_sample (plan : RenderPlan) : list Z :=
  match RenderClients RenderExamples.sort_edits (bytes_of sample) plan with Rendered rendered _ => rendered | _ => [] end.

Definition sample_clients (plan : RenderPlan) : option (list (list (string * string * string))) :=
  (λ c, (λ i, (λ k, (XrayConfig.cc_email k, XrayConfig.cc_id k, XrayConfig.cc_flow k)) <$> XrayConfig.is_clients (XrayConfig.ic_settings i)) <$>
     XrayConfig.cfg_inbounds c) <$> decode map_to_list (of_bytes (rendered_sample plan)).

(** A client added, one taken out, and one under a new id. *)
Definition changing : RenderPlan := {|
  pl_adds := {["in" := [{| co_email := "cat@x"; co_id := "c"; co_flow := "xtls-rprx-vision" |}]]};
  pl_removes := {["in" := ["ann@x"; "dan@x"]]}; pl_sets := {["in" := [RenderExamples.client "bob@x" "new"]]} |}.

Example changed_clients :
  sample_clients changing = Some [[("bob@x", "new", "xtls-rprx-vision"); ("cat@x", "c", "xtls-rprx-vision")]].
Proof. vm_compute. reflexivity. Qed.

Lemma changing_named tag c : change_at changing tag = Some c → tag ≠ "" ∧ named_change c ∧ tame c.
Proof.
  unfold change_at, changing. cbn [pl_adds pl_removes pl_sets]. destruct (decide (tag = "in")) as [->|Ht]; [|by rewrite !lookup_singleton_ne].
  intros [= <-]. split; [done|]. split; [by repeat constructor|]. split; [by repeat constructor|]. split; [by repeat constructor|].
  split; [apply (bool_decide_unpack _); vm_compute; reflexivity|]. split; [apply (bool_decide_unpack _); vm_compute; reflexivity|].
  apply Forall_forall, (bool_decide_unpack _). vm_compute. reflexivity.
Qed.

Lemma rendered_changes_are_read_witness :
  decode map_to_list (of_bytes (rendered_sample changing)) = Some (config_after (change_at changing) server_config).
Proof.
  apply (rendered_changes_are_read (sort_edits := RenderExamples.sort_edits) map_to_list changing sample (parsed sample) server_config _ true).
  - apply changing_named.
  - vm_compute. reflexivity.
  - vm_compute. reflexivity.
  - vm_compute. reflexivity.
  - vm_compute. reflexivity.
  - vm_compute. reflexivity.
Defined.

(** Under another spelling the two part ways: the reader takes "Clients" for
    the clients, the renderer does not, and adds an array beside it. The
    reader then has only what the later array shows: bob, who was there, is
    gone, and ann's entry lends its flow to the client that takes its place. *)
Definition spelled (clients : string) : string := doc_text (
  "{'inbounds': [{'tag': 'in', 'protocol': 'vless', 'settings': {'Clients': [" +:+
  "{'email': 'ann@x', 'id': 'a', 'flow': 'xtls-rprx-vision'}, {'email': 'bob@x', 'id': 'b'}]" +:+ clients +:+ "}}]}").

Definition clients_read (document : string) : option (list (list (string * string * string))) :=
  (λ c, (λ i, (λ k, (XrayConfig.cc_email k, XrayConfig.cc_id k, XrayConfig.cc_flow k)) <$> XrayConfig.is_clients (XrayConfig.ic_settings i)) <$>
     XrayConfig.cfg_inbounds c) <$> decode map_to_list document.

Lemma other_spelling_loses_clients :
  clients_read (spelled "") = Some [[("ann@x", "a", "xtls-rprx-vision"); ("bob@x", "b", "")]] ∧
  match RenderClients RenderExamples.sort_edits (bytes_of (spelled ""))
          {| pl_adds := {["in" := [RenderExamples.client "cat@x" "c"]]}; pl_removes := ∅; pl_sets := ∅ |} with
  | Rendered rendered _ => clients_read (of_bytes rendered) = Some [[("cat@x", "c", "xtls-rprx-vision")]]
  | _ => False
  end.
Proof. vm_compute. done. Qed.

End Examples.
End RenderReads.
