(* ===== verification/RenderParses.v ===== *)
(** * What a render leaves in the roster's parse

    The roster takes every user's labels, client ID and inbounds from the
    config (buildRosterParse in internal/xrayconfig). Here that parse of the
    file a render writes, user by user: those a plan does not name, those it
    takes out, and those it gives a new id. *)

From Stdlib Require Import Ascii String.
From S2P Require Import Prelude GoJson GoText GoDecode GoPrint XrayConfig Render RenderTheorems JsonText XrayDecode XrayDecodeTheorems RenderExamples RenderSyntax RenderEntries RenderFates RenderMeaning RenderReads.

Module RenderParses.
Import GoJson GoText GoDecode GoPrint XrayConfig Render RenderTheorems JsonText XrayDecode RenderSyntax RenderEntries RenderFates RenderMeaning RenderReads.

(** ** One user's clients in an inbound *)

Definition own (email : string) (clients : list XrayConfig.clientConfig) : list XrayConfig.clientConfig :=
  filter (λ k, cc_email k = email) clients.

Lemma own_in email clients : email ∈ cc_email <$> clients ↔ own email clients ≠ [].
Proof.
  unfold own. split.
  - intros (k & -> & Hk)%list_elem_of_fmap Hn. assert (k ∈ filter (λ x, cc_email x = cc_email k) clients) as Hin by (by apply list_elem_of_filter).
    rewrite Hn in Hin. by apply elem_of_nil in Hin.
  - intros Hn. destruct (filter _ clients) as [|k l] eqn:E; [done|].
    assert (k ∈ filter (λ x, cc_email x = email) clients) as [<- Hk]%list_elem_of_filter by (rewrite E; by left). by apply list_elem_of_fmap_2.
Qed.

Lemma own_cons email k clients : own email (k :: clients) = if decide (cc_email k = email) then k :: own email clients else own email clients.
Proof. unfold own. by rewrite filter_cons. Qed.

Lemma own_app email l1 l2 : own email (l1 ++ l2) = own email l1 ++ own email l2.
Proof. apply filter_app. Qed.

Lemma own_emails email clients : own email (own email clients) = own email clients.
Proof. unfold own. rewrite list_filter_filter. apply list_filter_iff. tauto. Qed.

Lemma own_kept c email clients : own email (clients_kept c clients) = clients_kept c (own email clients).
Proof.
  induction clients as [|k clients IH]; [done|]. cbn [clients_kept]. rewrite own_app, IH, own_cons.
  assert (∀ l, Forall (λ x, cc_email x = cc_email k) l → own email l = if decide (cc_email k = email) then l else []) as Hown.
  { intros l Hl. induction Hl as [|x l Hx _ IHl]; [by case_decide|]. rewrite own_cons, Hx, IHl. by case_decide. }
  rewrite Hown.
  - case_decide as He; [|done]. cbn [clients_kept].
    rewrite (bool_decide_ext (cc_email k ∈ cc_email <$> clients) (cc_email k ∈ cc_email <$> own email clients)); [done|].
    by rewrite He, !own_in, own_emails.
  - repeat case_bool_decide; repeat constructor. unfold set_client. by destruct (set_of (ch_sets c) (cc_email k)).
Qed.

Lemma own_added email (ops : list ClientOp) : own email (op_client <$> ops) = op_client <$> filter (λ op, co_email op = email) ops.
Proof. induction ops as [|op ops IH]; [done|]. rewrite fmap_cons, own_cons, filter_cons, IH. cbn [op_client cc_email]. by case_decide. Qed.

(** A user's clients after a change, from those before. *)
Lemma own_after c email clients : own email (clients_after c clients) =
  clients_kept c (own email clients) ++
  match own email clients with [] => op_client <$> filter (λ op, co_email op = email) (ch_adds c ++ ch_sets c) | _ => [] end.
Proof.
  unfold clients_after. rewrite own_app, own_kept, own_added, list_filter_filter. f_equal. pose proof (own_in email clients) as Hin.
  destruct (own email clients).
  - f_equal. apply list_filter_iff. intros op. split; [tauto|]. intros <-. split; [done|]. tauto.
  - enough (filter (λ op, co_email op = email ∧ co_email op ∉ cc_email <$> clients) (ch_adds c ++ ch_sets c) = []) as -> by done.
    apply elem_of_nil_inv. intros op [[<- Hn] _]%list_elem_of_filter. by apply Hn, Hin.
Qed.

Lemma kept_all c clients : (∀ k, k ∈ clients → (cc_email k ∉ ch_removes c) ∧ set_of (ch_sets c) (cc_email k) = None) → clients_kept c clients = clients.
Proof.
  induction clients as [|k clients IH]; [done|]. intros Hno. cbn [clients_kept]. rewrite IH by (intros; apply Hno; by right).
  destruct (Hno k) as [Hr Hs]; [by left|]. unfold set_client. rewrite Hs, (bool_decide_eq_false_2 _ Hr). by case_bool_decide.
Qed.

Lemma kept_one c k : clients_kept c [k] = if bool_decide (cc_email k ∈ ch_removes c) then [] else [set_client (ch_sets c) k].
Proof. cbn. case_bool_decide as Hin; [by apply elem_of_nil in Hin|]. by case_bool_decide. Qed.

Lemma set_of_nobody sets email : email ∉ co_email <$> sets → set_of sets email = None.
Proof.
  intros Hno. destruct (set_of sets email) as [op|] eqn:E; [|done]. destruct Hno.
  apply List.find_some in E as [Hin%list_elem_of_In <-%String.eqb_eq]. by apply list_elem_of_fmap_2.
Qed.

(** ** What a plan does to a user in an inbound *)

Section Changes.
Context {GR : GoRuntime} (changes : string → option change).

Definition clients_in (email : string) (ib : XrayConfig.inboundConfig) : list XrayConfig.clientConfig := own email (is_clients (ic_settings ib)).

(** The plan has nothing for the user there, or only a client they have. *)
Definition keeps (email : string) (ib : XrayConfig.inboundConfig) : Prop :=
  ∀ c, changes (ic_tag ib) = Some c →
    (email ∉ co_email <$> ch_adds c ∨ clients_in email ib ≠ []) ∧ (email ∉ co_email <$> ch_sets c) ∧ email ∉ ch_removes c.

(** It takes out the one client the user has there, if there is one. *)
Definition leaves (email : string) (ib : XrayConfig.inboundConfig) : Prop :=
  clients_in email ib = [] ∧ keeps email ib ∨
  ∃ k c, clients_in email ib = [k] ∧ changes (ic_tag ib) = Some c ∧ email ∈ ch_removes c.

(** It gives the one client the user has there a new id. *)
Definition rotates (email id : string) (ib : XrayConfig.inboundConfig) : Prop :=
  clients_in email ib = [] ∧ keeps email ib ∨
  ∃ k c op, clients_in email ib = [k] ∧ changes (ic_tag ib) = Some c ∧ set_of (ch_sets c) email = Some op ∧ co_id op = id ∧ email ∉ ch_removes c.

Definition under_id (id : string) (k : XrayConfig.clientConfig) : XrayConfig.clientConfig :=
  {| cc_email := cc_email k; cc_id := id; cc_flow := cc_flow k; cc_reverse := cc_reverse k |}.

Lemma inbound_same ib : let ib' := inbound_after changes ib in
  ic_tag ib' = ic_tag ib ∧ ic_protocol ib' = ic_protocol ib ∧ ic_stream ib' = ic_stream ib.
Proof. unfold inbound_after. by destruct (changes (ic_tag ib)). Qed.

Lemma keeps_clients email ib : keeps email ib → clients_in email (inbound_after changes ib) = clients_in email ib.
Proof.
  unfold keeps, clients_in, inbound_after. destruct (changes (ic_tag ib)) as [c|]; [|done]. intros Hc. destruct (Hc c eq_refl) as (Hadds & Hsets & Hrem).
  cbn [ic_settings settings_after is_clients]. rewrite own_after, kept_all.
  - unfold clients_in in Hadds. destruct (own email (is_clients (ic_settings ib))); [|by rewrite app_nil_r].
    enough (filter (λ op, co_email op = email) (ch_adds c ++ ch_sets c) = []) as -> by done.
    apply elem_of_nil_inv. intros op [<- [Hin|Hin]%elem_of_app]%list_elem_of_filter; [destruct Hadds as [Hadds|]; [|done]; apply Hadds|apply Hsets]; by apply list_elem_of_fmap_2.
  - intros k [-> _]%list_elem_of_filter. split; [done|]. by apply set_of_nobody.
Qed.

Lemma one_client email ib k c : clients_in email ib = [k] → changes (ic_tag ib) = Some c →
  cc_email k = email ∧ clients_in email (inbound_after changes ib) = if bool_decide (email ∈ ch_removes c) then [] else [set_client (ch_sets c) k].
Proof.
  unfold clients_in, inbound_after. intros Hone ->. cbn [ic_settings settings_after is_clients].
  assert (k ∈ own email (is_clients (ic_settings ib))) as [Hke _]%list_elem_of_filter by (rewrite Hone; by left).
  by rewrite own_after, Hone, kept_one, Hke, app_nil_r.
Qed.

Lemma leaves_clients email ib : leaves email ib → clients_in email (inbound_after changes ib) = [].
Proof.
  intros [[Hnone Hk]|(k & c & Hone & Hc & Hin)]; [by rewrite keeps_clients|].
  destruct (one_client email ib k c Hone Hc) as [_ ->]. by rewrite bool_decide_eq_true_2.
Qed.

Lemma rotates_clients email id ib : rotates email id ib → clients_in email (inbound_after changes ib) = under_id id <$> clients_in email ib.
Proof.
  intros [[Hnone Hk]|(k & c & op & Hone & Hc & Hset & <- & Hrem)]; [by rewrite keeps_clients, Hnone|].
  destruct (one_client email ib k c Hone Hc) as [Hke ->]. rewrite bool_decide_eq_false_2, Hone by done.
  unfold set_client. rewrite <-Hke in Hset. by rewrite Hset.
Qed.

(** ** The entries of the config *)

(** Two entries at one place of the config, the second under the id [f] gives it. *)
Definition moved (f : string → string) (p q : XrayConfig.inboundConfig * XrayConfig.clientConfig) : Prop :=
  ic_tag q.1 = ic_tag p.1 ∧ ic_protocol q.1 = ic_protocol p.1 ∧ ic_stream q.1 = ic_stream p.1 ∧
  cc_flow q.2 = cc_flow p.2 ∧ cc_id q.2 = f (cc_id p.2).

Lemma moved_user f es es' : Forall2 (moved f) es es' → user_of es' = user_of es.
Proof.
  intros Hall. assert ((λ p, client_label p.1 p.2) <$> es' = (λ p, client_label p.1 p.2) <$> es) as Hl.
  { induction Hall as [|p q es es' (_ & Hp & Hs & Hf & _) _ IH]; [done|]. rewrite !fmap_cons, IH. f_equal. unfold client_label. by rewrite Hp, Hs, Hf. }
  unfold user_of, labels_of. rewrite Hl. by destruct Hall.
Qed.

Lemma moved_vless f es es' : Forall2 (moved f) es es' → Forall2 (moved f) (filter vless_entry es) (filter vless_entry es').
Proof.
  induction 1 as [|p q es es' Hpq _ IH]; [constructor|]. rewrite !filter_cons.
  assert (vless_entry q ↔ vless_entry p) as Hv by (unfold vless_entry; by destruct Hpq as (_ & -> & _)).
  repeat case_decide; by try constructor; try tauto.
Qed.

Lemma moved_client f es es' : Forall2 (moved f) es es' →
  client_of es' = (λ c, {| c_client_id := f (c_client_id c); c_inbounds := c_inbounds c |}) <$> client_of es.
Proof.
  intros Hall. assert (tags_of es' = tags_of es) as Ht.
  { unfold tags_of. do 2 f_equal. induction Hall as [|p q es es' (Ht & _) _ IH]; [done|]. by rewrite !fmap_cons, IH, Ht. }
  revert Ht. destruct Hall as [|p q es es' (_ & _ & _ & _ & Hid) _]; [done|]. intros Ht. unfold client_of. rewrite Ht, Hid. done.
Qed.

Lemma entries_by_inbound email inbounds : entries_for email (entries inbounds) =
  inbounds ≫= λ ib, if String.eqb (ic_protocol ib) "" then [] else pair ib <$> clients_in email ib.
Proof.
  induction inbounds as [|ib l IH]; [done|]. unfold entries, entries_for in *. cbn [mbind list_bind]. rewrite filter_app. f_equal; [|exact IH].
  destruct (String.eqb _ _); [done|]. unfold clients_in, own.
  induction (is_clients (ic_settings ib)) as [|c cs IHc]; [done|]. rewrite fmap_cons, !filter_cons, IHc. cbn [snd]. by case_decide.
Qed.

Lemma entries_moved f email inbounds :
  Forall (λ ib, clients_in email (inbound_after changes ib) = (λ k, under_id (f (cc_id k)) k) <$> clients_in email ib) inbounds →
  Forall2 (moved f) (entries_for email (entries inbounds)) (entries_for email (entries (inbound_after changes <$> inbounds))).
Proof.
  rewrite !entries_by_inbound. induction 1 as [|ib l Hib _ IH]; [constructor|]. rewrite fmap_cons, !bind_cons. apply Forall2_app; [|exact IH].
  destruct (inbound_same ib) as (Ht & Hp & Hs). rewrite Hp, Hib. destruct (String.eqb _ _); [constructor|].
  clear Hib. induction (clients_in email ib) as [|k ks IHk]; [constructor|]. rewrite !fmap_cons. constructor; [by unfold moved; cbn; rewrite ?Ht, ?Hp, ?Hs|exact IHk].
Qed.

(** ** The parse *)

(** What the roster's parse has of a user. *)
Definition parsed_user (cfg : XrayConfig.config) (email : string) : option User * option Client :=
  (default ∅ (rp_labels (buildRosterParse cfg)) !! email, rp_clients (buildRosterParse cfg) !! email).

Lemma parsed_user_of cfg email : email ≠ ""%string →
  parsed_user cfg email = (user_of (entries_for email (entries (cfg_inbounds cfg))), client_of (filter vless_entry (entries_for email (entries (cfg_inbounds cfg))))).
Proof.
  intros He. unfold parsed_user. destruct (buildRosterParse_spec cfg email) as (labels & -> & Hl & ->).
  apply String.eqb_neq in He. rewrite He in Hl |- *. change (default ∅ (Some labels)) with labels. by rewrite Hl.
Qed.

Lemma parsed_moved f email cfg : email ≠ ""%string →
  Forall (λ ib, clients_in email (inbound_after changes ib) = (λ k, under_id (f (cc_id k)) k) <$> clients_in email ib) (cfg_inbounds cfg) →
  parsed_user (config_after changes cfg) email =
    ((parsed_user cfg email).1, (λ c, {| c_client_id := f (c_client_id c); c_inbounds := c_inbounds c |}) <$> (parsed_user cfg email).2).
Proof.
  intros He Hall. rewrite !parsed_user_of by done. cbn [fst snd config_after cfg_inbounds]. pose proof (entries_moved f email _ Hall) as Hm.
  by rewrite (moved_user f _ _ Hm), (moved_client f _ _ (moved_vless f _ _ Hm)).
Qed.

Lemma under_own_id k : under_id (cc_id k) k = k.
Proof. by destruct k. Qed.

Lemma parsed_kept email cfg : email ≠ ""%string → Forall (keeps email) (cfg_inbounds cfg) →
  parsed_user (config_after changes cfg) email = parsed_user cfg email.
Proof.
  intros He Hall. rewrite (parsed_moved id) by (done || (eapply Forall_impl; [exact Hall|]; intros ib Hk; cbn beta; rewrite (keeps_clients _ _ Hk);
    symmetry; transitivity (id <$> clients_in email ib); [apply list_fmap_ext; intros; apply under_own_id|apply list_fmap_id])).
  destruct (parsed_user cfg email) as [u [[]|]]; done.
Qed.

Lemma parsed_left email cfg : email ≠ ""%string → Forall (leaves email) (cfg_inbounds cfg) →
  parsed_user (config_after changes cfg) email = (None, None).
Proof.
  intros He Hall. rewrite parsed_user_of by done.
  assert (entries_for email (entries (cfg_inbounds (config_after changes cfg))) = []) as ->; [|done].
  rewrite entries_by_inbound. cbn [config_after cfg_inbounds]. induction Hall as [|ib l Hib _ IH]; [done|].
  rewrite fmap_cons, bind_cons, IH, (leaves_clients _ _ Hib). by destruct (String.eqb _ _).
Qed.

Lemma parsed_rotated email id cfg : email ≠ ""%string → Forall (rotates email id) (cfg_inbounds cfg) →
  parsed_user (config_after changes cfg) email =
    ((parsed_user cfg email).1, (λ c, {| c_client_id := id; c_inbounds := c_inbounds c |}) <$> (parsed_user cfg email).2).
Proof.
  intros He Hall. apply (parsed_moved (λ _, id)); [done|]. eapply Forall_impl; [exact Hall|]. intros ib. apply rotates_clients.
Qed.
End Changes.

(** C5: a render moves only the users its plan names, on a plainly written
    config: [plain_config] asks that the config, each inbound, its settings
    and each client have every key the reader knows at most once and in the
    reader's own spelling. (On another config it can fail: the reader takes
    keys in any case and the renderer only the exact one,
    [other_spelling_loses_clients].) There, when a render of changes that say
    one thing of each email ([tame]) and whose edits of an array do not meet
    ([config_untangled]) succeeds on a config the reader accepts, the file it
    leaves parses, and in the roster's parse of it a user the plan does not
    name has the labels, client ID and inbounds they had; one who is taken out
    wherever they were, once per inbound, is gone from it; and one who is
    given a new id wherever they were has that client ID, and the labels and
    inbounds from before. *)
Theorem render_moves_only_the_named `{GR : GoRuntime} `{DescSort sort_edits} visit plan document d cfg rendered changed :
  let changes := change_at plan in
  (∀ tag c, changes tag = Some c → tag ≠ ""%string ∧ named_change c ∧ tame c) → config_untangled changes (json_of d) = true →
  parse_document document = Some d → plain_config (json_of d) = true → decode visit document = Some cfg →
  RenderClients sort_edits (bytes_of document) plan = Rendered rendered changed →
  ∃ cfg', decode visit (of_bytes rendered) = Some cfg' ∧ ∀ email, email ≠ ""%string →
    (Forall (keeps changes email) (cfg_inbounds cfg) → parsed_user cfg' email = parsed_user cfg email) ∧
    (Forall (leaves changes email) (cfg_inbounds cfg) → parsed_user cfg' email = (None, None)) ∧
    ∀ id, Forall (rotates changes email id) (cfg_inbounds cfg) →
      parsed_user cfg' email = ((parsed_user cfg email).1, (λ c, {| c_client_id := id; c_inbounds := c_inbounds c |}) <$> (parsed_user cfg email).2).
Proof.
  intros changes Hc Hun Hd Hplain Hcfg Hr. destruct (tame_render_read visit changes Hc plan document d cfg rendered changed eq_refl Hun) as [Hdec _]; try done.
  exists (config_after changes cfg). split; [done|]. intros email He. split; [by apply parsed_kept|]. split; [by apply parsed_left|]. intros id. by apply parsed_rotated.
Qed.

(** ** At a concrete file *)

Module Examples.
Import XrayDecodeTheorems.Examples RenderReads.Examples.

#[local] Existing Instance AsciiRuntime.runtime.
#[local] Existing Instance RenderExamples.sort_edits_desc.
Local Open Scope string_scope.

Lemma ann_left ib : ib ∈ cfg_inbounds server_config → leaves (change_at changing) "ann@x" ib.
Proof. intros ->%list_elem_of_singleton. right. do 2 eexists. split_and!; [vm_compute; reflexivity|reflexivity|by left]. Qed.

Lemma bob_rotated ib : ib ∈ cfg_inbounds server_config → rotates (change_at changing) "bob@x" "new" ib.
Proof.
  intros ->%list_elem_of_singleton. right. do 3 eexists. split_and!; [vm_compute; reflexivity|reflexivity|vm_compute; reflexivity|done|].
  apply (bool_decide_unpack _). vm_compute. reflexivity.
Qed.

Lemma render_moves_only_the_named_witness :
  ∃ cfg', decode map_to_list (of_bytes (rendered_sample changing)) = Some cfg' ∧
    parsed_user cfg' "ann@x" = (None, None) ∧
    parsed_user cfg' "bob@x" = ((parsed_user server_config "bob@x").1, (λ c, {| c_client_id := "new"; c_inbounds := c_inbounds c |}) <$> (parsed_user server_config "bob@x").2).
Proof.
  destruct (render_moves_only_the_named (sort_edits := RenderExamples.sort_edits) map_to_list changing sample (parsed sample) server_config
    (rendered_sample changing) true) as (cfg' & Hdec & Hall).
  - apply changing_named.
  - vm_compute. reflexivity.
  - vm_compute. reflexivity.
  - vm_compute. reflexivity.
  - vm_compute. reflexivity.
  - vm_compute. reflexivity.
  - exists cfg'. split; [exact Hdec|]. split.
    + apply Hall; [done|]. apply Forall_forall, ann_left.
    + apply Hall; [done|]. apply Forall_forall, bob_rotated.
Defined.

Example users_before_and_after :
  parsed_user server_config "bob@x" =
    (Some {| u_labels := [{| l_protocol := "VLESS"; l_security := "XTLS-Reality"; l_transport := "tcp" |}] |},
     Some {| c_client_id := "b"; c_inbounds := ["in"] |}) ∧
  (λ cfg, parsed_user cfg <$> ["ann@x"; "bob@x"; "cat@x"]) <$> decode map_to_list (of_bytes (rendered_sample changing)) =
    Some [(None, None);
          (Some {| u_labels := [{| l_protocol := "VLESS"; l_security := "XTLS-Reality"; l_transport := "tcp" |}] |}, Some {| c_client_id := "new"; c_inbounds := ["in"] |});
          (Some {| u_labels := [{| l_protocol := "VLESS"; l_security := "XTLS-Reality"; l_transport := "tcp" |}] |}, Some {| c_client_id := "c"; c_inbounds := ["in"] |})].
Proof. vm_compute. done. Qed.

End Examples.
End RenderParses.
