(* ===== verification/RosterQueue.v ===== *)
(** * From the queue to the file

    The roster (internal/roster) keeps the changes it owes in a queue, plans a
    render from it, and the renderer (internal/xrayconfig) carries the plan
    out on the config. Here the three together: what the file says of each
    user once a pass has rendered the queue. *)

From Stdlib Require Import Ascii String.
From S2P Require Import Prelude GoJson GoText GoDecode GoPrint XrayConfig Store Handler Render RenderProps RenderTheorems JsonText XrayDecode XrayDecodeTheorems RenderExamples RenderSyntax RenderEntries RenderFates RenderMeaning RenderReads RenderParses Roster RosterProps RosterTheorems RosterInstances RosterExamples.

Module RosterQueue.
Import GoJson GoText GoDecode GoPrint XrayConfig Store Render RenderTheorems JsonText XrayDecode RenderSyntax RenderEntries RenderFates RenderMeaning RenderReads RenderParses Roster RosterTheorems.

Section WithRuntime.
Context `{GR : GoRuntime}.

(** ** The queue *)

(** A queued change: one operation per inbound, texts in UTF-8. *)
Definition orderly_change (e : string * pendingChange) : Prop :=
  e.1 ≠ ""%string ∧ utf8_valid e.1 = true ∧ utf8_valid (pc_id e.2) = true ∧ NoDup (po_tag <$> pc_ops e.2) ∧
  Forall (λ op, po_tag op ≠ ""%string ∧ utf8_valid (po_flow op) = true) (pc_ops e.2).

Definition orderly (pending : list (string * pendingChange)) : Prop := NoDup pending.*1 ∧ Forall orderly_change pending.

(** The operation a queue has for a user on an inbound. *)
Definition owed (pending : list (string * pendingChange)) (email tag : string) (change : pendingChange) (op : pushOp) : Prop :=
  (email, change) ∈ pending ∧ op ∈ pc_ops change ∧ po_tag op = tag.

Lemma NoDup_key {A B} (key : A → B) (l : list A) x y : NoDup (key <$> l) → x ∈ l → y ∈ l → key x = key y → x = y.
Proof.
  intros Hnd. induction l as [|z l IH]; [by intros ?%elem_of_nil|]. rewrite fmap_cons, NoDup_cons in Hnd. destruct Hnd as [Hz Hnd].
  rewrite !elem_of_cons. intros [->|Hx] [->|Hy] Hk; [done| | |by apply IH].
  - destruct Hz. rewrite Hk. by apply list_elem_of_fmap_2.
  - destruct Hz. rewrite <-Hk. by apply list_elem_of_fmap_2.
Qed.

Lemma owed_one pending email tag change op change' op' : orderly pending →
  owed pending email tag change op → owed pending email tag change' op' → change' = change ∧ op' = op.
Proof.
  intros [Hnd Hall] (Hc & Ho & Ht) (Hc' & Ho' & Ht'). pose proof (NoDup_key fst pending _ _ Hnd Hc Hc' eq_refl) as [= ->].
  rewrite Forall_forall in Hall. destruct (Hall _ Hc) as (_ & _ & _ & Htags & _). cbn [snd] in Htags. split; [done|].
  apply (NoDup_key po_tag (pc_ops change')); [done..|congruence].
Qed.

(** *** The plan, inbound by inbound *)

Lemma elem_of_planned {A} (f : string → pendingChange → pushOp → A) kind tag pending x :
  x ∈ planned f kind tag pending ↔ ∃ email change op, x = f email change op ∧ owed pending email tag change op ∧ po_kind op = kind.
Proof.
  unfold planned, owed. rewrite list_elem_of_bind. split.
  - intros ([email change] & (op & -> & [[Hk Ht] Ho]%list_elem_of_filter)%list_elem_of_fmap & He). by exists email, change, op.
  - intros (email & change & op & -> & (He & Ho & Ht) & Hk). exists (email, change). split; [|done]. apply list_elem_of_fmap_2, list_elem_of_filter. done.
Qed.

Lemma planned_NoDup {A} (f : string → pendingChange → pushOp → A) (key : A → string) kind tag pending :
  (∀ email change op, key (f email change op) = email) → orderly pending → NoDup (key <$> planned f kind tag pending).
Proof.
  intros Hkey [Hnd Hall]. unfold planned. induction Hall as [|[email change] pending (_ & _ & _ & Htags & _) Hall IH]; [constructor|].
  cbn [fmap list_fmap fst snd] in *. apply NoDup_cons in Hnd as [Hnot Hnd]. rewrite bind_cons, fmap_app. apply NoDup_app. cbn [fst snd].
  split; [|split; [|by apply IH]].
  - clear -Htags Hkey. induction (pc_ops change) as [|op ops IH]; [constructor|]. rewrite fmap_cons, NoDup_cons in Htags. destruct Htags as [Hnot Hnd].
    rewrite filter_cons. case_decide as Hop; [|by apply IH]. rewrite !fmap_cons. constructor; [|by apply IH].
    assert (filter (λ op, po_kind op = kind ∧ po_tag op = tag) ops = []) as ->; [|apply not_elem_of_nil].
    apply elem_of_nil_inv. intros op' [[_ Ht] Hin]%list_elem_of_filter. destruct Hnot. destruct Hop as [_ ->]. rewrite <-Ht. by apply list_elem_of_fmap_2.
  - intros e (x & -> & (op & -> & _)%list_elem_of_fmap)%list_elem_of_fmap (y & He & ([email' change'] & (op' & -> & _)%list_elem_of_fmap & Hin)%list_elem_of_bind)%list_elem_of_fmap.
    cbn [fst snd] in He. rewrite !Hkey in He. subst email'. destruct Hnot. by apply (list_elem_of_fmap_2 fst) in Hin.
Qed.

Definition queue_change (pending : list (string * pendingChange)) (tag : string) : change := {|
  ch_adds := planned client_op opAttach tag pending; ch_removes := planned (λ email _ _, email) opDetach tag pending;
  ch_sets := planned client_op opRotate tag pending |}.

Lemma queue_change_at pending tag :
  change_at (render_plan pending) tag = Some (queue_change pending tag) ∨
  change_at (render_plan pending) tag = None ∧ queue_change pending tag = {| ch_adds := []; ch_removes := []; ch_sets := [] |}.
Proof.
  unfold queue_change. destruct (render_plan_is_the_pushes pending tag) as (<- & <- & <-). unfold change_at.
  destruct (pl_adds _ !! tag) as [adds|], (pl_removes _ !! tag) as [removes|], (pl_sets _ !! tag) as [sets|]; auto.
Qed.

Lemma plan_other_tag pending tag : (∀ email change op, ¬ owed pending email tag change op) → change_at (render_plan pending) tag = None.
Proof.
  unfold render_plan. assert (change_at emptyPlan tag = None) as Hp by (unfold change_at; cbn; by rewrite !lookup_empty). revert Hp. generalize emptyPlan.
  induction pending as [|[email change] pending IH]; intros p Hp Hno; [done|]. cbn [foldl]. apply IH.
  - unfold plan_change. cbn [fst snd]. assert (∀ op, op ∈ pc_ops change → po_tag op ≠ tag) as Hops.
    { intros op Hop Ht. apply (Hno email change op). split; [by left|done]. }
    clear Hno IH. revert p Hp. induction (pc_ops change) as [|op ops IHo]; intros p Hp; [done|]. cbn [foldl].
    apply IHo; [intros op' Hop'; apply Hops; by right|]. assert (po_tag op ≠ tag) as Hne by (apply Hops; by left). rewrite <-Hp.
    unfold change_at, plan_op. destruct (po_kind op); cbn [pl_adds pl_removes pl_sets]; unfold push_back; by rewrite lookup_insert_ne.
  - intros email' change' op [Hin Ho]. apply (Hno email' change' op). split; [by right|done].
Qed.

(** The plan of a queue says one thing of each user. *)
Lemma queue_tame pending tag : orderly pending → named_change (queue_change pending tag) ∧ tame (queue_change pending tag).
Proof.
  intros Hord. pose proof Hord as [_ Hall]. rewrite Forall_forall in Hall.
  assert (∀ kind, Forall (λ op, co_email op ≠ ""%string ∧ op_valid op) (planned client_op kind tag pending)) as Hops.
  { intros kind. apply Forall_forall. intros x (email & change & op & -> & (He & Ho & _) & _)%elem_of_planned.
    destruct (Hall _ He) as (Hne & Hv & Hid & _ & Hf). rewrite Forall_forall in Hf. by destruct (Hf _ Ho). }
  assert (∀ kind, Forall op_valid (planned client_op kind tag pending)) as Hvalid.
  { intros kind. eapply Forall_impl; [apply Hops|]. by intros ? [_ ?]. }
  assert (∀ kind, named (planned client_op kind tag pending)) as Hnamed.
  { intros kind. eapply Forall_impl; [apply Hops|]. by intros ? [? _]. }
  split; [split; [apply Hnamed|split; [apply Hnamed|]]|split_and!; [apply Hvalid|apply Hvalid|by apply planned_NoDup| |]].
  - apply Forall_forall. intros e (email & change & op & -> & (He & _) & _)%elem_of_planned. by destruct (Hall _ He).
  - rewrite <-(list_fmap_id (ch_removes _)). by apply (planned_NoDup (λ email _ _, email) id).
  - intros e (email & change & op & -> & Howed & Hk)%elem_of_planned. rewrite fmap_app.
    intros [(x & Hx & (email' & change' & op' & -> & Howed' & Hk')%elem_of_planned)%list_elem_of_fmap|(x & Hx & (email' & change' & op' & -> & Howed' & Hk')%elem_of_planned)%list_elem_of_fmap]%elem_of_app;
      cbn in Hx; subst email'; destruct (owed_one _ _ _ _ _ _ _ Hord Howed Howed') as [_ ->]; congruence.
Qed.

Lemma queue_changes_fine pending tag c : orderly pending → change_at (render_plan pending) tag = Some c → tag ≠ ""%string ∧ named_change c ∧ tame c.
Proof.
  intros Hord Hc. destruct (queue_change_at pending tag) as [E|[E _]]; rewrite E in Hc; [|done]. injection Hc as <-. split; [|by apply queue_tame].
  intros ->. rewrite plan_other_tag in E; [done|]. intros email change op (He & Ho & Ht). destruct Hord as [_ Hall]. rewrite Forall_forall in Hall.
  destruct (Hall _ He) as (_ & _ & _ & _ & Hf). rewrite Forall_forall in Hf. by destruct (Hf _ Ho).
Qed.

(** *** Why there is one operation per inbound *)

Lemma stays_tags (f : string → option pushOp) tags : (∀ tag op, f tag = Some op → po_tag op = tag) → NoDup tags →
  NoDup (po_tag <$> omap f tags) ∧ ∀ tag, tag ∈ po_tag <$> omap f tags → tag ∈ tags.
Proof.
  intros Hf Hnd. assert (∀ (tag : string) (l : list string), tag ∈ po_tag <$> omap f l → tag ∈ l) as Hin.
  { intros tag l (op & -> & (t & Ht & Hop)%list_elem_of_omap)%list_elem_of_fmap. by rewrite (Hf _ _ Hop). }
  split; [|intros tag; apply Hin]. induction Hnd as [|tag tags Htag _ IH]; [constructor|]. cbn [omap list_omap]. destruct (f tag) as [op|] eqn:E; [|done].
  rewrite fmap_cons, (Hf _ _ E). constructor; [|done]. intros ?%Hin. done.
Qed.

Lemma detach_tags tags : po_tag <$> detachOps tags = tags.
Proof. unfold detachOps. rewrite <-list_fmap_compose. apply list_fmap_id. Qed.

(** An edit's plan has each inbound once, if the records and the unfinished
    change have, and keeps the shape: what it detaches is out of the record. *)
Lemma diffOps_once before after flows prev : NoDup (rec_inbounds before) → NoDup (rec_inbounds after) → NoDup (po_tag <$> pc_ops prev) →
  (∀ op, op ∈ pc_ops prev → po_kind op = opDetach → po_tag op ∉ rec_inbounds before) →
  NoDup (po_tag <$> diffOps before after flows prev) ∧
  ∀ op, op ∈ diffOps before after flows prev → po_kind op = opDetach → po_tag op ∉ rec_inbounds after.
Proof.
  intros Hb Ha Hp Hdis. unfold diffOps. rewrite !fmap_app, !detach_tags.
  match goal with |- context [omap ?f (rec_inbounds after)] => set (stay := f) end.
  assert (∀ tag op, stay tag = Some op → po_tag op = tag ∧ po_kind op ≠ opDetach) as Hstay.
  { unfold stay. intros tag op Hs. by repeat match type of Hs with (if ?b then _ else _) = _ => destruct b end; simplify_eq. }
  destruct (stays_tags stay (rec_inbounds after)) as [Hnd Hin]; [by intros tag op []%Hstay|done|].
  assert (NoDup (po_tag <$> filter (λ op, po_kind op = opDetach ∧ bool_decide (po_tag op ∈ rec_inbounds after) = false) (pc_ops prev))) as Howed.
  { clear -Hp. induction (pc_ops prev) as [|op ops IH]; [constructor|]. rewrite fmap_cons, NoDup_cons in Hp. destruct Hp as [Hop Hp].
    rewrite filter_cons. case_decide; [|by apply IH]. rewrite fmap_cons. constructor; [|by apply IH].
    intros (op' & E & [_ Hin]%list_elem_of_filter)%list_elem_of_fmap. destruct Hop. rewrite E. by apply list_elem_of_fmap_2. }
  split.
  - apply NoDup_app. split; [by apply NoDup_filter|]. split.
    + intros tag [Hk Hbef]%list_elem_of_filter [(op & -> & [[Hd _] Hop]%list_elem_of_filter)%list_elem_of_fmap|Hs%Hin]%elem_of_app.
      * by apply (Hdis op).
      * by apply bool_decide_eq_false in Hk.
    + apply NoDup_app. split; [done|]. split; [|done]. intros tag (op & -> & [[_ Hk] _]%list_elem_of_filter)%list_elem_of_fmap Hs%Hin.
      by apply bool_decide_eq_false in Hk.
  - intros op [Hop|[Hop|Hop]%elem_of_app]%elem_of_app Hk.
    + apply list_elem_of_fmap in Hop as (tag & -> & [Ht _]%list_elem_of_filter). by apply bool_decide_eq_false in Ht.
    + apply list_elem_of_fmap in Hop as (tag & -> & (op' & -> & [[_ Ht] _]%list_elem_of_filter)%list_elem_of_fmap). by apply bool_decide_eq_false in Ht.
    + apply list_elem_of_omap in Hop as (tag & _ & [_ Hs]%Hstay). done.
Qed.

(** ** What the file is to say *)

Definition owed_op (pending : list (string * pendingChange)) (email tag : string) : option (pendingChange * pushOp) :=
  match List.find (λ e, String.eqb e.1 email) pending with
  | Some e => pair e.2 <$> List.find (λ op, String.eqb (po_tag op) tag) (pc_ops e.2)
  | None => None
  end.

(** A user's clients on an inbound after a pass, from those before: gone for
    a detach, there for an attach, there under the queued id for a rotation,
    and as they were when the queue owes nothing. *)
Definition landed (pending : list (string * pendingChange)) (email tag : string) (before : list XrayConfig.clientConfig) : list XrayConfig.clientConfig :=
  match owed_op pending email tag with
  | None => before
  | Some (change, op) =>
      match po_kind op, before with
      | opDetach, _ => []
      | opAttach, _ :: _ => before
      | opRotate, _ :: _ => under_id (pc_id change) <$> before
      | _, [] => [op_client (client_op email change op)]
      end
  end.

Lemma owed_op_some pending email tag change op : owed_op pending email tag = Some (change, op) → owed pending email tag change op.
Proof.
  unfold owed_op. destruct (List.find _ pending) as [[e c]|] eqn:E; [|done]. intros Ho. apply fmap_Some in Ho as (o & Ho & [= -> ->]).
  apply List.find_some in E as [Hin%list_elem_of_In He%String.eqb_eq], Ho as [Hop%list_elem_of_In Ht%String.eqb_eq]. cbn [fst] in He. by subst.
Qed.

Lemma owed_op_none pending email tag change op : orderly pending → owed_op pending email tag = None → ¬ owed pending email tag change op.
Proof.
  intros [Hnd _] Hno (He & Ho & Ht). unfold owed_op in Hno. destruct (List.find _ pending) as [e|] eqn:E.
  - apply List.find_some in E as [Hin%list_elem_of_In Hk%String.eqb_eq]. pose proof (NoDup_key fst pending _ _ Hnd Hin He Hk) as ->.
    cbn [snd] in Hno. destruct (List.find _ (pc_ops change)) eqn:E'; [done|].
    apply list_elem_of_In in Ho. by apply (List.find_none _ _ E'), String.eqb_neq in Ho.
  - apply list_elem_of_In in He. apply (List.find_none _ _ E) in He. cbn in He. by rewrite String.eqb_refl in He.
Qed.

(** A user's part of what the plan has for an inbound. *)
Lemma filter_one {A} (key : A → string) (l : list A) x : NoDup (key <$> l) → x ∈ l → filter (λ y, key y = key x) l = [x].
Proof.
  intros Hnd Hx. induction l as [|y l IH]; [by apply elem_of_nil in Hx|]. rewrite fmap_cons, NoDup_cons in Hnd. destruct Hnd as [Hy Hnd].
  rewrite filter_cons. apply elem_of_cons in Hx as [->|Hx].
  - rewrite decide_True by done. f_equal. apply elem_of_nil_inv. intros z [Hz Hin]%list_elem_of_filter. destruct Hy. rewrite <-Hz. by apply list_elem_of_fmap_2.
  - rewrite decide_False; [by apply IH|]. intros E. destruct Hy. rewrite E. by apply list_elem_of_fmap_2.
Qed.

Lemma filter_planned pending email tag kind : orderly pending →
  filter (λ op, co_email op = email) (planned client_op kind tag pending) =
    match owed_op pending email tag with
    | Some (change, op) => if decide (po_kind op = kind) then [client_op email change op] else []
    | None => []
    end.
Proof.
  intros Hord. assert (∀ l, (∀ x, x ∈ planned client_op kind tag pending → co_email x = email → x ∈ l) → l = [] →
    filter (λ op, co_email op = email) (planned client_op kind tag pending) = []) as Hnone.
  { intros l Hl ->. apply elem_of_nil_inv. intros x [Hx Hin]%list_elem_of_filter. by eapply (elem_of_nil x), Hl. }
  destruct (owed_op pending email tag) as [[change op]|] eqn:E.
  - apply owed_op_some in E. case_decide as Hk.
    + apply (filter_one co_email _ (client_op email change op)); [by apply planned_NoDup|]. apply elem_of_planned. by exists email, change, op.
    + apply (Hnone []); [|done]. intros x (email' & change' & op' & -> & Howed & Hk')%elem_of_planned Hx. cbn in Hx. subst email'.
      destruct (owed_one _ _ _ _ _ _ _ Hord E Howed) as [_ ->]. congruence.
  - apply (Hnone []); [|done]. intros x (email' & change' & op' & -> & Howed & _)%elem_of_planned Hx. cbn in Hx. subst email'.
    by destruct (owed_op_none _ _ _ change' op' Hord E).
Qed.

Lemma elem_of_removes pending email tag : orderly pending →
  email ∈ planned (λ email _ _, email) opDetach tag pending ↔ ∃ change op, owed_op pending email tag = Some (change, op) ∧ po_kind op = opDetach.
Proof.
  intros Hord. rewrite elem_of_planned. split.
  - intros (e & change & op & -> & Howed & Hk). destruct (owed_op pending e tag) as [[c o]|] eqn:E; [|by destruct (owed_op_none _ _ _ change op Hord E)].
    destruct (owed_one _ _ _ _ _ _ _ Hord Howed (owed_op_some _ _ _ _ _ E)) as [-> ->]. by exists change, op.
  - intros (change & op & E%owed_op_some & Hk). by exists email, change, op.
Qed.

Lemma set_of_filter sets email : set_of sets email = head (filter (λ op, co_email op = email) sets).
Proof.
  unfold set_of. induction sets as [|op sets IH]; [done|]. cbn [List.find]. rewrite filter_cons. destruct (String.eqb_spec (co_email op) email) as [He|He].
  - by rewrite decide_True.
  - by rewrite decide_False.
Qed.

(** The queue's change of one inbound, for one user. *)
Lemma queue_lands pending email tag clients : orderly pending → length (own email clients) ≤ 1 →
  own email (clients_after (queue_change pending tag) clients) = landed pending email tag (own email clients).
Proof.
  intros Hord Hlen. rewrite own_after. cbn [queue_change ch_adds ch_sets]. rewrite filter_app, !filter_planned by done. unfold landed.
  destruct (own email clients) as [|k [|]] eqn:Hown; [|rewrite app_nil_r|cbn in Hlen; lia].
  - cbn [clients_kept app]. destruct (owed_op pending email tag) as [[change op]|]; [|done]. by destruct (po_kind op).
  - assert (k ∈ own email clients) as [Hke _]%list_elem_of_filter by (rewrite Hown; by left).
    rewrite kept_one, Hke. cbn [queue_change ch_removes ch_sets]. unfold set_client. rewrite Hke, set_of_filter, filter_planned by done.
    pose proof (elem_of_removes pending email tag Hord) as Hrem. destruct (owed_op pending email tag) as [[change op]|].
    + assert (email ∈ planned (λ email _ _, email) opDetach tag pending ↔ po_kind op = opDetach) as Hdetach.
      { rewrite Hrem. split; [by intros (? & ? & [= <- <-] & ?)|by exists change, op]. }
      rewrite (bool_decide_ext _ _ Hdetach). destruct (po_kind op); [done|done|]. cbn. unfold under_id. by rewrite Hke.
    + rewrite bool_decide_eq_false_2; [done|]. rewrite Hrem. by intros (? & ? & ? & ?).
Qed.

(** What the queue's changes leave of an inbound. *)
Lemma inbound_lands pending email ib : orderly pending → length (clients_in email ib) ≤ 1 →
  clients_in email (inbound_after (change_at (render_plan pending)) ib) = landed pending email (ic_tag ib) (clients_in email ib).
Proof.
  unfold clients_in. intros Hord Hlen. rewrite <-queue_lands by done. unfold inbound_after.
  destruct (queue_change_at pending (ic_tag ib)) as [->|[-> E]]; [done|]. rewrite E. rewrite own_after, kept_all.
  - by destruct (own email _); [|rewrite app_nil_r].
  - intros k _. split; [apply not_elem_of_nil|done].
Qed.

(** A render that succeeds leaves what RenderClients made. *)
Lemma file_render_rendered sort_edits fails plan file f changed : FileRender sort_edits fails plan file = (f, FileResult changed) →
  ∃ again, RenderClients sort_edits (cf_config file) plan = Rendered (cf_config f) again.
Proof.
  unfold FileRender. destruct (bool_decide _); [done|]. destruct (RenderClients sort_edits (cf_config file) plan) as [rendered again| | |] eqn:E; try done.
  destruct again.
  - repeat (destruct (bool_decide _); [done|]). intros [= <- <-]. by eexists.
  - intros [= <- <-]. exists false. destruct (render_inv sort_edits (cf_config file) plan) as [[e Hr]|[Hr|[Hr|(ib & _ & [[_ Hr]|(edits & _ & _ & Hr)])]]]; try congruence.
    rewrite Hr in E. by destruct (apply_edits _ _).
Qed.

(** What a pass leaves on disk, as the reader has it. *)
Lemma queue_render_read `{DescSort sort_edits} visit pending document d cfg fails temp f changed : orderly pending →
  config_untangled (change_at (render_plan pending)) (json_of d) = true →
  parse_document document = Some d → plain_config (json_of d) = true → decode visit document = Some cfg →
  FileRender sort_edits fails (render_plan pending) {| cf_config := bytes_of document; cf_temp := temp |} = (f, FileResult changed) →
  decode visit (of_bytes (cf_config f)) = Some (config_after (change_at (render_plan pending)) cfg) ∧ changes_managed (change_at (render_plan pending)) cfg.
Proof.
  intros Hord Hun Hd Hplain Hcfg [again Hr]%file_render_rendered. cbn [cf_config] in Hr.
  by apply (tame_render_read visit _ (λ tag c, queue_changes_fine pending tag c Hord) (render_plan pending) document d cfg _ again).
Qed.

(** C3: the queue lands in the file, when the config is plainly written:
    [plain_config] asks that the config, each inbound, its settings and each
    client have every key the reader knows at most once and in the reader's
    own spelling. (On another config it can fail: the reader takes keys in any
    case and the renderer only the exact one,
    [other_spelling_loses_clients].) There, when the render of a queue
    succeeds (one change per user, one operation per inbound, texts in UTF-8,
    and no two edits of an array
    that meet) on a config the reader accepts, the file on disk parses, has
    the inbounds it had, and every user who was on an inbound at most once is
    on it as the queue says: gone if a detach is owed, there if an attach is,
    there under the queue's Client ID if a rotation is, and exactly as before
    if nothing is. Whoever was not there and is attached or rotated has one
    client, with the queue's ID and the operation's flow. *)
Theorem queue_lands_in_the_file `{DescSort sort_edits} visit pending document d cfg fails temp f changed : orderly pending →
  config_untangled (change_at (render_plan pending)) (json_of d) = true →
  parse_document document = Some d → plain_config (json_of d) = true → decode visit document = Some cfg →
  FileRender sort_edits fails (render_plan pending) {| cf_config := bytes_of document; cf_temp := temp |} = (f, FileResult changed) →
  ∃ cfg', decode visit (of_bytes (cf_config f)) = Some cfg' ∧
    Forall2 (λ ib ib', (ic_tag ib' = ic_tag ib ∧ ic_protocol ib' = ic_protocol ib ∧ ic_port ib' = ic_port ib ∧ ic_stream ib' = ic_stream ib) ∧
      ∀ email, length (clients_in email ib) ≤ 1 → clients_in email ib' = landed pending email (ic_tag ib) (clients_in email ib))
      (cfg_inbounds cfg) (cfg_inbounds cfg').
Proof.
  intros Hord Hun Hd Hplain Hcfg Hr. destruct (queue_render_read visit pending document d cfg fails temp f changed Hord Hun Hd Hplain Hcfg Hr) as [Hdec _].
  eexists. split; [exact Hdec|]. cbn [config_after cfg_inbounds]. apply Forall2_fmap_r, Forall_Forall2_diag, Forall_forall. intros ib _. split.
  - unfold inbound_after. by destruct (change_at _ _).
  - intros email. by apply inbound_lands.
Qed.
End WithRuntime.

(** ** At a concrete file *)

Module Examples.
Import XrayDecodeTheorems.Examples.

#[local] Existing Instance AsciiRuntime.runtime.
#[local] Existing Instance RenderExamples.sort_edits_desc.
Local Open Scope string_scope.

Definition queued (kind : opKind) (id flow : string) : pendingChange :=
  {| pc_id := id; pc_ops := [PushOp kind "in" flow]; pc_gen := 1; pc_purge := false |}.

(** Two users of the file, one deleted and one with a new id, and a new one. *)
Definition queue : list (string * pendingChange) :=
  [("cat@x", queued opAttach "c" "xtls-rprx-vision"); ("ann@x", queued opDetach "" ""); ("bob@x", queued opRotate "new" "")].

Definition sample : string := server "secret" "{'key': ['k']}" "{'rules': []}".
Definition on_disk : configFile := {| cf_config := bytes_of sample; cf_temp := None |}.

Definition written : configFile := (FileRender RenderExamples.sort_edits None (render_plan queue) on_disk).1.

Example the_clients_on_disk :
  (λ cfg, (λ ib, (λ k, (cc_email k, cc_id k, cc_flow k)) <$> is_clients (ic_settings ib)) <$> cfg_inbounds cfg) <$>
    decode map_to_list (of_bytes (cf_config written)) = Some [[("bob@x", "new", "xtls-rprx-vision"); ("cat@x", "c", "xtls-rprx-vision")]].
Proof. vm_compute. reflexivity. Qed.

Lemma queue_orderly : orderly queue.
Proof.
  split; [apply (bool_decide_unpack _); vm_compute; reflexivity|].
  repeat constructor; try discriminate; try (apply (bool_decide_unpack _); vm_compute; reflexivity).
Qed.

Lemma queue_lands_in_the_file_witness :
  ∃ cfg', decode map_to_list (of_bytes (cf_config written)) = Some cfg' ∧
    Forall2 (λ ib ib', (ic_tag ib' = ic_tag ib ∧ ic_protocol ib' = ic_protocol ib ∧ ic_port ib' = ic_port ib ∧ ic_stream ib' = ic_stream ib) ∧
      ∀ email, (length (clients_in email ib) ≤ 1)%nat → clients_in email ib' = landed queue email (ic_tag ib) (clients_in email ib))
      (cfg_inbounds server_config) (cfg_inbounds cfg').
Proof.
  apply (queue_lands_in_the_file (sort_edits := RenderExamples.sort_edits) map_to_list queue sample (parsed sample) server_config None None written true).
  - apply queue_orderly.
  - vm_compute. reflexivity.
  - vm_compute. reflexivity.
  - vm_compute. reflexivity.
  - vm_compute. reflexivity.
  - vm_compute. reflexivity.
Defined.

End Examples.

(** ** An inbound named twice *)

Module Repeated.
Import Store Handler RosterInstances RosterExamples Handler.Xray.

#[local] Existing Instance AsciiRuntime.runtime.
#[local] Existing Instance RenderExamples.sort_edits_desc.
#[local] Existing Instance RosterExamples.uuids.
#[local] Existing Instance RosterExamples.file_renderer.
Local Open Scope string_scope.

(** Add drops repeated inbounds from a request, Edit keeps them. *)
Definition twice : EditRequest := {| er_client_id := ""; er_inbounds := Some ["in-2"; "in-2"] |}.

Definition two_inbounds (first second : string) : string := RenderMeaning.Examples.text (
  "{'inbounds': [{'tag': 'in-1', 'protocol': 'vless', 'settings': {'clients': [" +:+ first +:+ "]}}, " +:+
  "{'tag': 'in-2', 'protocol': 'vless', 'settings': {'clients': [" +:+ second +:+ "]}}]}").

Definition emails_read (document : string) : option (list (list string)) :=
  (λ cfg, (λ ib, cc_email <$> is_clients (ic_settings ib)) <$> cfg_inbounds cfg) <$> decode map_to_list document.

(** What a world's queue makes of a config. *)
Definition rendered_by (w : RosterExamples.world) (document : string) : Render.outcome :=
  RenderClients RenderExamples.sort_edits (bytes_of document) (render_plan (map_to_list (sv_pending (w_svc w)))).

Definition text_of (r : Render.outcome) : string := match r with Rendered rendered _ => of_bytes rendered | _ => "" end.

(** An edit that names an inbound twice queues two attaches of it, and the
    config gets the user twice. A delete then plans the removal of the last of
    the two twice: the second is carried out on the text the first has
    shortened, here past its end. *)
Lemma repeated_inbound_panics :
  let edited := RosterExamples.exec (Edit "alice@x" twice) (RosterExamples.start false []) in
  let document := text_of (rendered_by edited (two_inbounds "{'email': 'alice@x', 'id': 'id-a'}, {'email': 'bob@x', 'id': 'b'}" "{'email': 'bob@x', 'id': 'b'}")) in
  let deleted := RosterExamples.exec (Delete "alice@x") (RosterExamples.exec apply edited) in
  emails_read document = Some [["bob@x"]; ["bob@x"; "alice@x"; "alice@x"]] ∧
  rendered_by deleted document = Panics.
Proof. vm_compute. done. Qed.

End Repeated.
End RosterQueue.
