(* ===== verification/RosterReads.v ===== *)
(** * From the queue to the parsed labels

    The roster (internal/roster) seeds a user's table labels when it stores a
    mutation, renders the queue into the config, and takes the labels from the
    file again when the reader (internal/xrayconfig) next parses it. Here the
    three meet: the plan made of a queue of new users, carried out by the
    renderer on the file and read back. *)

From Stdlib Require Import Ascii String.
From S2P Require Import Prelude GoJson GoText GoDecode GoPrint XrayConfig Store Handler Render RenderProps RenderTheorems JsonText XrayDecode XrayDecodeTheorems RenderExamples RenderSyntax RenderEntries RenderFates RenderMeaning RenderReads RenderParses Roster RosterProps RosterTheorems RosterQueue RosterInstances.

Module RosterReads.
Import GoJson GoText GoDecode GoPrint XrayConfig Render RenderTheorems JsonText XrayDecode RenderSyntax RenderEntries RenderFates RenderMeaning RenderReads RenderParses Roster RosterTheorems RosterQueue RosterInstances.

Section WithRuntime.
Context `{GoRuntimeLaws}.

(** ** One user's operations *)

Definition attaches (change : pendingChange) : Prop := Forall (λ op, po_kind op = opAttach) (pc_ops change).

Lemma tag_op_unique tag ops : NoDup (po_tag <$> ops) →
  filter (λ op, po_tag op = tag) ops = [] ∨ ∃ op, filter (λ op, po_tag op = tag) ops = [op] ∧ op ∈ ops.
Proof.
  induction ops as [|op ops IH]; [by left|]. rewrite fmap_cons, NoDup_cons. intros [Hnot Hnd]. rewrite filter_cons.
  case_decide as Ht.
  - right. exists op. split; [|by left]. f_equal. destruct (IH Hnd) as [->|(op' & Hf & Hin)]; [done|].
    assert (op' ∈ filter (λ op, po_tag op = tag) ops) as [Ht' _]%list_elem_of_filter by (rewrite Hf; by left).
    destruct Hnot. rewrite Ht, <-Ht'. by apply list_elem_of_fmap_2.
  - destruct (IH Hnd) as [->|(op' & -> & Hin)]; [by left|right]. exists op'. split; [done|by right].
Qed.

Lemma attach_flows_last ops tag : Forall (λ op, po_kind op = opAttach) ops →
  attach_flows ops !! tag = po_flow <$> last (filter (λ op, po_tag op = tag) ops).
Proof.
  induction ops as [|op ops IH] using rev_ind; [done|]. intros [Hall [Hop _]%Forall_cons]%Forall_app.
  unfold attach_flows. rewrite foldl_app. cbn [foldl]. fold (attach_flows ops). rewrite Hop, filter_app, filter_cons, filter_nil.
  case_decide as Ht; [rewrite Ht, lookup_insert_eq, last_snoc; done|]. rewrite lookup_insert_ne by done. cbn. rewrite app_nil_r. by apply IH.
Qed.

(** What a queue owes a user who is only attached. *)
Lemma owed_attach pending email change tag : orderly pending → (email, change) ∈ pending → attaches change →
  match owed_op pending email tag with
  | Some (change', op) => change' = change ∧ po_kind op = opAttach ∧ attach_flows (pc_ops change) !! tag = Some (po_flow op)
  | None => attach_flows (pc_ops change) !! tag = None
  end.
Proof.
  intros Hord Hin Hatt. rewrite (attach_flows_last _ _ Hatt). pose proof Hord as [_ Hall]. rewrite Forall_forall in Hall.
  destruct (Hall _ Hin) as (_ & _ & _ & Htags & _). cbn [snd] in Htags.
  destruct (tag_op_unique tag (pc_ops change) Htags) as [Hnone|(op & Hone & Hop)].
  - destruct (owed_op pending email tag) as [[change' op]|] eqn:E; [|by rewrite Hnone].
    apply owed_op_some in E as (He & Ho & Ht). destruct Hord as [Hnd _]. pose proof (NoDup_key fst pending _ _ Hnd Hin He eq_refl) as [= <-].
    assert (op ∈ filter (λ op, po_tag op = tag) (pc_ops change)) as Hf by (by apply list_elem_of_filter). rewrite Hnone in Hf. by apply elem_of_nil in Hf.
  - assert (op ∈ filter (λ op, po_tag op = tag) (pc_ops change)) as [Ht _]%list_elem_of_filter by (rewrite Hone; by left).
    assert (owed pending email tag change op) as Howed by done. destruct (owed_op pending email tag) as [[change' op']|] eqn:E.
    + destruct (owed_one _ _ _ _ _ _ _ Hord Howed (owed_op_some _ _ _ _ _ E)) as [-> ->]. rewrite Hone. split_and!; [done| |done].
      unfold attaches in Hatt. rewrite Forall_forall in Hatt. by apply Hatt.
    + by destruct (owed_op_none _ _ _ change op Hord E).
Qed.

(** ** The labels *)

Lemma after_view changes ib : ib_tag (buildInbound (inbound_after changes ib)) = ib_tag (buildInbound ib) ∧
  Managed (buildInbound (inbound_after changes ib)) = Managed (buildInbound ib) ∧
  ∀ flow, inbound_label flow (buildInbound (inbound_after changes ib)) = inbound_label flow (buildInbound ib).
Proof. unfold inbound_after. by destruct (changes (ic_tag ib)). Qed.

(** Other clients leave the seeded labels as they are. *)
Lemma seed_after changes cfg ops : seedLabels (buildView (config_after changes cfg)) ops = seedLabels (buildView cfg) ops.
Proof.
  unfold seedLabels, buildView, config_after. cbn [v_inbounds cfg_inbounds]. generalize (@nil Label).
  induction (cfg_inbounds cfg) as [|ib l IH]; intros acc; [done|]. cbn [fmap list_fmap foldl].
  destruct (after_view changes ib) as (-> & -> & Hl). rewrite IH. f_equal. destruct (attach_flows ops !! _) as [flow|]; [|done]. by rewrite Hl.
Qed.

(** A user of the queue is on an inbound that takes the queue's clients as
    the user's operations say. *)
Lemma after_carries pending email change ib : orderly pending → (email, change) ∈ pending → attaches change →
  email ∉ cc_email <$> is_clients (ic_settings ib) →
  (is_Some (change_at (render_plan pending) (ic_tag ib)) → Managed (buildInbound ib) = true) →
  carries email (attach_flows (pc_ops change)) (inbound_after (change_at (render_plan pending)) ib).
Proof.
  intros Hord Hin Hatt Hnew Hman. assert (clients_in email ib = []) as Hnone.
  { unfold clients_in. destruct (own email _) eqn:E; [done|]. destruct Hnew. apply own_in. by rewrite E. }
  pose proof (inbound_lands pending email ib Hord) as Hland. rewrite Hnone in Hland. specialize (Hland ltac:(cbn; lia)).
  unfold carries. destruct (after_view (change_at (render_plan pending)) ib) as (Htag & Hmanaged & _). cbn [buildInbound ib_tag] in Htag.
  rewrite Htag, Hmanaged. unfold clients_in, own in Hland. rewrite Hland. unfold landed.
  pose proof (owed_attach pending email change (ic_tag ib) Hord Hin Hatt) as Howed.
  destruct (owed_op pending email (ic_tag ib)) as [[change' op]|] eqn:E; [|by rewrite Howed].
  destruct Howed as (-> & Hk & ->). rewrite Hk, Hman; [by eexists|].
  destruct (queue_change_at pending (ic_tag ib)) as [->|[_ Hempty]]; [by eexists|]. injection Hempty as Hadds _ _. exfalso.
  pose proof (filter_planned pending email (ic_tag ib) opAttach Hord) as Hf. by rewrite E, Hadds, decide_True in Hf.
Qed.

(** A queued user the config does not have yet. *)
Definition new_user (cfg : XrayConfig.config) (e : string * pendingChange) : Prop :=
  orderly_change e ∧ attaches e.2 ∧ Forall (λ ib, e.1 ∉ cc_email <$> is_clients (ic_settings ib)) (cfg_inbounds cfg).

Lemma new_users_orderly cfg pending : NoDup pending.*1 → Forall (new_user cfg) pending → orderly pending.
Proof. intros Hnd Hall. split; [done|]. eapply Forall_impl; [exact Hall|]. by intros ? (? & _). Qed.

(** Nothing is taken out, so nothing meets. *)
Lemma new_users_untangled cfg pending j : Forall (new_user cfg) pending → config_untangled (change_at (render_plan pending)) j = true.
Proof.
  intros Hall. apply additions_untangled. intros tag c Hc. destruct (queue_change_at pending tag) as [E|[E _]]; rewrite E in Hc; [|done]. injection Hc as <-.
  apply elem_of_nil_inv. intros x (email & change & op & _ & (Hin & Hop & _) & Hk)%elem_of_planned. rewrite Forall_forall in Hall.
  destruct (Hall _ Hin) as (_ & Hatt & _). unfold attaches in Hatt. rewrite Forall_forall in Hatt. specialize (Hatt _ Hop). congruence.
Qed.

(** C2: a user added is parsed back with the labels it was seeded with, on a
    plainly written config: [plain_config] asks that the config, each inbound,
    its settings and each client have every key the reader knows at most once
    and in the reader's own spelling. (On another config it can fail: the
    reader takes keys in any case and the renderer only the exact one,
    [other_spelling_loses_clients].) There, when the queue holds new users
    only (one change per email, only attaches, one per inbound, texts in
    UTF-8, no client of that email in the config) and the render of its plan
    succeeds, the
    config on disk is one the reader accepts, and the labels its parse gives
    each of those users are the labels the roster stored with the mutation,
    worked out from the view the mutation saw: the table shows the same before
    and after the file is read back. *)
Theorem new_users_parse_as_seeded `{DescSort sort_edits} visit pending document d cfg fails temp f changed :
  NoDup pending.*1 → Forall (new_user cfg) pending →
  parse_document document = Some d → plain_config (json_of d) = true → decode visit document = Some cfg →
  FileRender sort_edits fails (render_plan pending) {| cf_config := bytes_of document; cf_temp := temp |} = (f, FileResult changed) →
  ∃ cfg', decode visit (of_bytes (cf_config f)) = Some cfg' ∧
    ∀ email change, (email, change) ∈ pending →
      default [] (u_labels <$> (default ∅ (rp_labels (buildRosterParse cfg')) !! email)) = seedLabels (buildView cfg) (pc_ops change).
Proof.
  intros Hnd Hnew Hd Hplain Hcfg Hr. pose proof (new_users_orderly cfg pending Hnd Hnew) as Hord.
  destruct (queue_render_read visit pending document d cfg fails temp f changed Hord (new_users_untangled cfg pending _ Hnew) Hd Hplain Hcfg Hr) as [Hdec Hman].
  eexists. split; [exact Hdec|]. intros email change Hin. rewrite Forall_forall in Hnew.
  destruct (Hnew _ Hin) as ((Hne & _) & Hatt & Habsent). cbn [fst snd] in *.
  rewrite <-(seed_after (change_at (render_plan pending))). apply seed_is_the_resync; [done|]. unfold config_after. cbn [cfg_inbounds]. apply Forall_fmap.
  unfold changes_managed in Hman. rewrite Forall_forall in Hman, Habsent |- *. intros ib Hib. apply after_carries; auto.
Qed.
End WithRuntime.

(** ** At a concrete file *)

Module Examples.
Import XrayDecodeTheorems.Examples.

#[local] Existing Instance AsciiRuntime.runtime.
#[local] Existing Instance AsciiRuntime.runtime_laws.
#[local] Existing Instance RenderExamples.sort_edits_desc.
Local Open Scope string_scope.

Definition queued (id flow : string) : pendingChange :=
  {| pc_id := id; pc_ops := [PushOp opAttach "in" flow]; pc_gen := 1; pc_purge := false |}.

Definition queue : list (string * pendingChange) := [("cat@x", queued "c" "xtls-rprx-vision"); ("dan@x", queued "d" "")].

Definition sample : string := server "secret" "{'key': ['k']}" "{'rules': []}".
Definition on_disk : configFile := {| cf_config := bytes_of sample; cf_temp := None |}.

Definition written : configFile := (FileRender RenderExamples.sort_edits None (render_plan queue) on_disk).1.

Lemma new_users_parse_as_seeded_witness :
  ∃ cfg', decode map_to_list (of_bytes (cf_config written)) = Some cfg' ∧
    ∀ email change, (email, change) ∈ queue →
      default [] (u_labels <$> (default ∅ (rp_labels (buildRosterParse cfg')) !! email)) = seedLabels (buildView server_config) (pc_ops change).
Proof.
  apply (new_users_parse_as_seeded map_to_list queue sample (parsed sample) server_config None None written true).
  - apply (bool_decide_unpack _). vm_compute. reflexivity.
  - repeat constructor; try discriminate; try (apply (bool_decide_unpack _); vm_compute; reflexivity).
  - vm_compute. reflexivity.
  - vm_compute. reflexivity.
  - vm_compute. reflexivity.
  - vm_compute. reflexivity.
Defined.

Example the_labels :
  (λ cfg', (λ email, default [] (u_labels <$> (default ∅ (rp_labels (buildRosterParse cfg')) !! email))) <$> ["cat@x"; "dan@x"; "ann@x"])
    <$> decode map_to_list (of_bytes (cf_config written)) =
  Some [[{| l_protocol := "VLESS"; l_security := "XTLS-Reality"; l_transport := "tcp" |}];
        [{| l_protocol := "VLESS"; l_security := "Reality"; l_transport := "tcp" |}];
        [{| l_protocol := "VLESS"; l_security := "Reality"; l_transport := "tcp" |}]].
Proof. vm_compute. reflexivity. Qed.

End Examples.
End RosterReads.
