(* ===== verification/Shutdown.v ===== *)
(** * The Panel's end (cmd/xform/main.go)

    After its gates main serves on a listener beside a goroutine that waits
    for the signal and calls the server's Shutdown; when Serve returns, the
    deferred calls close the listener and the database and the process is
    gone. Here that end is a machine whose steps are those of main, of the
    goroutine and of the connections, in any interleaving: Serve and Shutdown
    as net/http has them, with the server's mutex, the listener it tracks and
    the close-once wrapper, and the listener's Close as its transport has it.

    Theorems: whatever the interleaving, a signalled Panel never gets stuck
    and ends after a few steps of its own, the listener is closed, its socket
    removed, before the database is, and what main did is the trace [Main.main]
    has. Two things main does not get right are shown by runs: it does not wait
    for Shutdown, so requests are cut, and on TCP its second Close is logged as
    an error at every clean stop. *)

From Stdlib Require Import String.
From S2P Require Import Prelude GoJson Journal Listener XrayStatus Auth AuthTheorems Startup.

Module Shutdown.
Import Main.

(** ** State *)

(** What Serve ends with: the error that means Shutdown was called, or that of
    an Accept. *)
Inductive served := ErrServerClosed | AcceptError.

(** Where main is: at the call of Serve, in its accept loop, at the loop's two
    deferred calls (the listener is untracked, then closed), returned, at each
    of main's deferred calls or at its exit, and gone: with status 0 or 1. *)
Inductive mainAt :=
| ToServe | Accepting | Untracking (r : served) | Returning (r : served) | Served (r : served)
| ToCloseDatabase | ToStop | ToExit | Exited (ok : bool).

(** Where the goroutine is: before the signal, in Shutdown before and after it
    has the server's mutex, waiting for the tracked listeners, polling the
    connections, and returned. *)
Inductive goroutineAt := Waiting | Marked | ClosingListeners | WaitingServe | Polling | Returned.

(** The close-once wrapper Serve puts around the listener. *)
Inductive once := Unused | Running | Ran.

(** The listener: its first Close begun, and that Close's answer. *)
Inductive inner := Open | Closing | Closed (failed : bool).

(** The errors that are logged. *)
Inductive logged := ShutDownServer | CloseXformListener | ServeXform.

Record state := {
  s_main : mainAt; s_goroutine : goroutineAt; s_signalled : bool;
  s_inShutdown : bool; s_tracked : bool; s_wrapper : once; s_inner : inner; s_lnerr : bool;
  s_idle : nat; s_busy : nat;        (* connections between requests, and in one *)
  s_elapsed : Z;                     (* of the Shutdown's context, in seconds *)
  s_database : bool; s_log : list logged; s_trace : list event;
}.

(** When main reaches Serve: the database is open and the services run. *)
Definition serving : state := {|
  s_main := ToServe; s_goroutine := Waiting; s_signalled := false;
  s_inShutdown := false; s_tracked := false; s_wrapper := Unused; s_inner := Open; s_lnerr := false;
  s_idle := 0; s_busy := 0; s_elapsed := 0; s_database := true; s_log := []; s_trace := [] |}.

Definition at_main (m : mainAt) (s : state) : state := {|
  s_main := m; s_goroutine := s_goroutine s; s_signalled := s_signalled s;
  s_inShutdown := s_inShutdown s; s_tracked := s_tracked s; s_wrapper := s_wrapper s; s_inner := s_inner s; s_lnerr := s_lnerr s;
  s_idle := s_idle s; s_busy := s_busy s; s_elapsed := s_elapsed s; s_database := s_database s; s_log := s_log s; s_trace := s_trace s |}.

Definition at_goroutine (g : goroutineAt) (s : state) : state := {|
  s_main := s_main s; s_goroutine := g; s_signalled := s_signalled s;
  s_inShutdown := s_inShutdown s; s_tracked := s_tracked s; s_wrapper := s_wrapper s; s_inner := s_inner s; s_lnerr := s_lnerr s;
  s_idle := s_idle s; s_busy := s_busy s; s_elapsed := s_elapsed s; s_database := s_database s; s_log := s_log s; s_trace := s_trace s |}.

Definition with_server (inShutdown tracked : bool) (s : state) : state := {|
  s_main := s_main s; s_goroutine := s_goroutine s; s_signalled := s_signalled s;
  s_inShutdown := inShutdown; s_tracked := tracked; s_wrapper := s_wrapper s; s_inner := s_inner s; s_lnerr := s_lnerr s;
  s_idle := s_idle s; s_busy := s_busy s; s_elapsed := s_elapsed s; s_database := s_database s; s_log := s_log s; s_trace := s_trace s |}.

Definition with_listener (w : once) (i : inner) (lnerr : bool) (s : state) : state := {|
  s_main := s_main s; s_goroutine := s_goroutine s; s_signalled := s_signalled s;
  s_inShutdown := s_inShutdown s; s_tracked := s_tracked s; s_wrapper := w; s_inner := i; s_lnerr := lnerr;
  s_idle := s_idle s; s_busy := s_busy s; s_elapsed := s_elapsed s; s_database := s_database s; s_log := s_log s; s_trace := s_trace s |}.

Definition with_conns (idle busy : nat) (s : state) : state := {|
  s_main := s_main s; s_goroutine := s_goroutine s; s_signalled := s_signalled s;
  s_inShutdown := s_inShutdown s; s_tracked := s_tracked s; s_wrapper := s_wrapper s; s_inner := s_inner s; s_lnerr := s_lnerr s;
  s_idle := idle; s_busy := busy; s_elapsed := s_elapsed s; s_database := s_database s; s_log := s_log s; s_trace := s_trace s |}.

Definition with_signal (signalled : bool) (elapsed : Z) (s : state) : state := {|
  s_main := s_main s; s_goroutine := s_goroutine s; s_signalled := signalled;
  s_inShutdown := s_inShutdown s; s_tracked := s_tracked s; s_wrapper := s_wrapper s; s_inner := s_inner s; s_lnerr := s_lnerr s;
  s_idle := s_idle s; s_busy := s_busy s; s_elapsed := elapsed; s_database := s_database s; s_log := s_log s; s_trace := s_trace s |}.

Definition log_when (b : bool) (line : logged) (s : state) : state := {|
  s_main := s_main s; s_goroutine := s_goroutine s; s_signalled := s_signalled s;
  s_inShutdown := s_inShutdown s; s_tracked := s_tracked s; s_wrapper := s_wrapper s; s_inner := s_inner s; s_lnerr := s_lnerr s;
  s_idle := s_idle s; s_busy := s_busy s; s_elapsed := s_elapsed s; s_database := s_database s;
  s_log := if b then s_log s ++ [line] else s_log s; s_trace := s_trace s |}.

Definition did (e : event) (s : state) : state := {|
  s_main := s_main s; s_goroutine := s_goroutine s; s_signalled := s_signalled s;
  s_inShutdown := s_inShutdown s; s_tracked := s_tracked s; s_wrapper := s_wrapper s; s_inner := s_inner s; s_lnerr := s_lnerr s;
  s_idle := s_idle s; s_busy := s_busy s; s_elapsed := s_elapsed s;
  s_database := match e with CloseDatabase => false | _ => s_database s end; s_log := s_log s; s_trace := s_trace s ++ [e] |}.

(** ** Steps *)

Section WithListener.
Variable listener : Listener.listening.

(** A Unix listener's Close runs once and answers the same again; a TCP
    listener's is refused the second time. *)
Definition closes_once : bool := match listener with Listener.OnUnix _ => true | Listener.OnTCP _ | Listener.OnLoopback _ => false end.

(** Close of the listener itself, by main: [failed] is what it answers where
    it is the first to run. On a Unix listener it waits, [None], for one that
    runs. *)
Definition Close (failed : bool) (i : inner) : option (inner * bool) :=
  match i with
  | Open => Some (Closed failed, failed)
  | Closing => if closes_once then None else Some (Closing, true)
  | Closed first => Some (Closed first, if closes_once then first else true)
  end.

(** The server's mutex: Shutdown holds it while it closes the listeners. *)
Definition unlocked (s : state) : bool := match s_goroutine s with ClosingListeners => false | _ => true end.

(** What the deferred call and the path of a failed Serve do next. *)
Definition after_close (r : served) : mainAt := match r with ErrServerClosed => ToCloseDatabase | AcceptError => ToExit end.

(** The next step of main; [failed] answers a Close that is the first. *)
Definition main_step (failed : bool) (s : state) : option state :=
  match s_main s with
  | ToServe =>
      if negb (unlocked s) then None
      else if s_inShutdown s then Some (at_main (Returning ErrServerClosed) (did Serve s))
      else Some (at_main Accepting (with_server (s_inShutdown s) true (did Serve s)))
  | Accepting =>
      match s_inner s with
      | Open => None
      | _ => Some (at_main (Untracking (if s_inShutdown s then ErrServerClosed else AcceptError)) s)
      end
  | Untracking r => if unlocked s then Some (at_main (Returning r) (with_server (s_inShutdown s) false s)) else None
  | Returning r =>
      match s_wrapper s with
      | Unused => '(i, _) ← Close failed (s_inner s); Some (at_main (Served r) (with_listener Ran i (s_lnerr s) s))
      | Running => None
      | Ran => Some (at_main (Served r) s)
      end
  | Served r =>
      '(i, err) ← Close failed (s_inner s);
      Some (at_main (after_close r)
        (log_when (match r with ErrServerClosed => err | AcceptError => false end) CloseXformListener
          (did CloseListener (with_listener (s_wrapper s) i (s_lnerr s) s))))
  | ToCloseDatabase => Some (at_main ToStop (did CloseDatabase s))
  | ToStop => Some (at_main (Exited true) s)
  | ToExit => Some (at_main (Exited false) (log_when true ServeXform s))
  | Exited _ => None
  end.

(** The seconds Shutdown has. *)
Definition shutdownTimeout : Z := 10.

(** The next step of the goroutine. Shutdown closes the idle connections at
    every poll and ends when no other is left, or with its context. *)
Definition goroutine_step (failed : bool) (s : state) : option state :=
  match s_goroutine s with
  | Waiting => if s_signalled s then Some (at_goroutine Marked (with_server true (s_tracked s) (with_signal true 0 s))) else None
  | Marked =>
      if s_tracked s then
        match s_wrapper s with
        | Unused => Some (at_goroutine ClosingListeners (with_listener Running Closing (s_lnerr s) s))
        | Running => None
        | Ran => Some (at_goroutine WaitingServe s)
        end
      else Some (at_goroutine WaitingServe s)
  | ClosingListeners => Some (at_goroutine WaitingServe (with_listener Ran (Closed failed) failed s))
  | WaitingServe => if s_tracked s then None else Some (at_goroutine Polling s)
  | Polling =>
      if (s_busy s =? 0)%nat then Some (at_goroutine Returned (log_when (s_lnerr s) ShutDownServer (with_conns 0 0 s)))
      else if (shutdownTimeout <=? s_elapsed s)%Z then Some (at_goroutine Returned (log_when true ShutDownServer (with_conns 0 (s_busy s) s)))
      else None
  | Returned => None
  end.

(** What happens: the signal, time, an Accept that fails for good, connections
    that come, ask, are answered and go, and the two threads. *)
Inductive action :=
| Signal | Tick (seconds : Z) | AcceptFails | Connect | Begin | Answered | Hangup | ByMain (failed : bool) | ByGoroutine (failed : bool).

Definition of_panel (a : action) : bool := match a with ByMain _ | ByGoroutine _ => true | _ => false end.

(** A process that is gone does nothing. After Shutdown has begun, an answered
    connection is not kept. *)
Definition act (a : action) (s : state) : option state :=
  match s_main s with
  | Exited _ => None
  | _ =>
      match a with
      | Signal => Some (with_signal true (s_elapsed s) s)
      | Tick d => if (0 <? d)%Z then Some (with_signal (s_signalled s) (s_elapsed s + d) s) else None
      | AcceptFails =>
          match s_main s with
          | Accepting => Some (at_main (Untracking (if s_inShutdown s then ErrServerClosed else AcceptError)) s)
          | _ => None
          end
      | Connect =>
          match s_main s, s_inner s with
          | Accepting, Open => Some (with_conns (s_idle s) (S (s_busy s)) s)
          | _, _ => None
          end
      | Begin => match s_idle s with O => None | S n => Some (with_conns n (S (s_busy s)) s) end
      | Answered =>
          match s_busy s with
          | O => None
          | S n => Some (with_conns (if s_inShutdown s then s_idle s else S (s_idle s)) n s)
          end
      | Hangup => match s_idle s with O => None | S n => Some (with_conns n (s_busy s) s) end
      | ByMain failed => main_step failed s
      | ByGoroutine failed => goroutine_step failed s
      end
  end.

Fixpoint run (actions : list action) (s : state) : option state :=
  match actions with [] => Some s | a :: actions => s' ← act a s; run actions s' end.

Definition step (s s' : state) : Prop := ∃ a, act a s = Some s'.

(** The states the Panel can be in once it serves. *)
Definition reachable : state → Prop := rtc step serving.

(** ** The invariant *)

(** What main has done when it is where it is. *)
Definition done_at (m : mainAt) : list event :=
  match m with
  | ToServe => []
  | Accepting | Untracking _ | Returning _ | Served _ => [Serve]
  | ToCloseDatabase | ToExit | Exited false => [Serve; CloseListener]
  | ToStop | Exited true => [Serve; CloseListener; CloseDatabase]
  end.

Definition in_loop (m : mainAt) : bool := match m with Accepting | Untracking _ => true | _ => false end.

(** Main has come past the deferred Close of Serve. *)
Definition past_serve (m : mainAt) : bool :=
  match m with ToServe | Accepting | Untracking _ | Returning _ => false | _ => true end.

(** Main has made its own Close on the clean path. *)
Definition past_close (m : mainAt) : bool := match m with ToCloseDatabase | ToStop | Exited true => true | _ => false end.

(** Main is on the path of a clean end, which only Shutdown opens. *)
Definition clean (m : mainAt) : bool :=
  match m with
  | Untracking ErrServerClosed | Returning ErrServerClosed | Served ErrServerClosed => true
  | _ => past_close m
  end.

(** The listener, the wrapper and the goroutine agree. *)
Definition agrees (w : once) (i : inner) (g : goroutineAt) : bool :=
  match w, i, g with
  | Unused, Open, ClosingListeners => false
  | Unused, Open, _ => true
  | Running, Closing, ClosingListeners => true
  | Ran, Closed _, ClosingListeners => false
  | Ran, Closed _, _ => true
  | _, _, _ => false
  end.

(** The second Close of a closed listener is refused. *)
Definition close_refused (i : inner) : bool := match i with Closed failed => if closes_once then failed else true | _ => false end.

(** Shutdown has closed the listeners it found. *)
Definition has_closed (g : goroutineAt) : bool := match g with WaitingServe | Polling | Returned => true | _ => false end.

Record inv (s : state) : Prop := {
  inv_trace : s_trace s = done_at (s_main s);
  inv_tracked : s_tracked s = in_loop (s_main s);
  inv_marked : s_inShutdown s = match s_goroutine s with Waiting => false | _ => true end;
  inv_signalled : s_inShutdown s = true → s_signalled s = true;
  inv_agrees : agrees (s_wrapper s) (s_inner s) (s_goroutine s) = true;
  inv_closing : s_goroutine s = ClosingListeners → in_loop (s_main s) = true;
  inv_start : s_main s = ToServe → s_wrapper s = Unused;
  inv_found : in_loop (s_main s) = true → has_closed (s_goroutine s) = match s_wrapper s with Ran => true | _ => false end;
  inv_past : past_serve (s_main s) = true → s_wrapper s = Ran;
  inv_clean : clean (s_main s) = true → s_inShutdown s = true;
  inv_database : s_database s = match s_main s with ToStop | Exited true => false | _ => true end;
  inv_log : CloseXformListener ∈ s_log s ↔ past_close (s_main s) && close_refused (s_inner s) = true;
}.

Lemma inv_serving : inv serving.
Proof. split; try done. cbn. split; [intros H; inversion H|done]. Qed.

(** Lines of the log that are not, and that may be, of main's Close. *)
Lemma logged_other (b : bool) (line : logged) (lg : list logged) : line ≠ CloseXformListener →
  CloseXformListener ∈ (if b then lg ++ [line] else lg) ↔ CloseXformListener ∈ lg.
Proof. destruct b; set_solver. Qed.

Lemma logged_close (b : bool) (lg : list logged) : (CloseXformListener ∈ lg ↔ false = true) →
  CloseXformListener ∈ (if b then lg ++ [CloseXformListener] else lg) ↔ b = true.
Proof. destruct b; set_solver. Qed.

(** What the invariant says where main and the goroutine are. *)
Ltac open_inv H :=
  match type of H with inv ?s => destruct H as [Ht Htr Hm Hs Ha Hc Hst Hf Hp Hcl Hd Hl]; destruct s as [m g sg sh tr w i ln idle busy el db lg t] end;
  cbn in *; subst.

Ltac close_inv :=
  repeat match goal with
  | H : true = true → _ |- _ => specialize (H eq_refl)
  | H : ClosingListeners = ClosingListeners → _ |- _ => specialize (H eq_refl)
  | H : ToServe = ToServe → _ |- _ => specialize (H eq_refl)
  end; subst; cbn in *; try discriminate;
  split; cbn; try match goal with E : closes_once = _ |- _ => rewrite E end;
  first [done|intros; discriminate|assumption|by (intros; case_match)
        |by apply (logged_close true)|by apply logged_close|by rewrite logged_other|by rewrite (logged_other true)].

Lemma inv_main failed s s' : inv s → main_step failed s = Some s' → inv s'.
Proof.
  intros Hi H. open_inv Hi. unfold main_step, unlocked, Close in H; cbn in H.
  destruct m; repeat case_match; simplify_eq/=; close_inv.
Qed.

Lemma inv_goroutine failed s s' : inv s → goroutine_step failed s = Some s' → inv s'.
Proof.
  intros Hi H. open_inv Hi. unfold goroutine_step in H; cbn in H.
  destruct g; repeat case_match; simplify_eq/=; close_inv.
Qed.

(** The connections, the time and a signal leave the invariant. *)
Lemma inv_conns idle busy s : inv s → inv (with_conns idle busy s).
Proof. by intros []. Qed.

Lemma inv_time signalled elapsed s : (s_signalled s = true → signalled = true) → inv s → inv (with_signal signalled elapsed s).
Proof. intros Hs []. split; cbn; auto. Qed.

Lemma inv_accept s : s_main s = Accepting → inv s → inv (at_main (Untracking (if s_inShutdown s then ErrServerClosed else AcceptError)) s).
Proof. intros Hat Hi. open_inv Hi. destruct g; close_inv. Qed.

Lemma act_alive a s s' : act a s = Some s' →
  match a with
  | Signal => s' = with_signal true (s_elapsed s) s
  | Tick d => s' = with_signal (s_signalled s) (s_elapsed s + d) s
  | AcceptFails => s_main s = Accepting ∧ s' = at_main (Untracking (if s_inShutdown s then ErrServerClosed else AcceptError)) s
  | Connect | Begin | Answered | Hangup => ∃ idle busy, s' = with_conns idle busy s
  | ByMain failed => main_step failed s = Some s'
  | ByGoroutine failed => goroutine_step failed s = Some s'
  end.
Proof. unfold act. destruct a; repeat case_match; intros; simplify_eq; eauto. Qed.

Lemma inv_act a s s' : inv s → act a s = Some s' → inv s'.
Proof.
  intros Hi H%act_alive. destruct a; [subst| subst|destruct H as [Hm ->]|destruct H as (idle & busy & ->)..| |];
    eauto using inv_conns, inv_time, inv_accept, inv_main, inv_goroutine.
Qed.

Lemma inv_reachable s : reachable s → inv s.
Proof.
  revert s. refine (rtc_ind_r inv serving inv_serving _). intros x y _ [a Ha] Hi. by eapply inv_act.
Qed.

(** ** How far from its end *)

Definition main_left (m : mainAt) : nat :=
  match m with
  | ToServe => 7 | Accepting => 6 | Untracking _ => 5 | Returning _ => 4 | Served _ => 3 | ToCloseDatabase => 2
  | ToStop | ToExit => 1 | Exited _ => 0
  end.

Definition goroutine_left (g : goroutineAt) : nat :=
  match g with Waiting => 5 | Marked => 4 | ClosingListeners => 3 | WaitingServe => 2 | Polling => 1 | Returned => 0 end.

Definition left (s : state) : nat := main_left (s_main s) + goroutine_left (s_goroutine s).

Definition panel_actions (actions : list action) : nat := length (List.filter of_panel actions).

Lemma left_main failed s s' : main_step failed s = Some s' → (left s' < left s)%nat.
Proof.
  destruct s as [m g sg sh tr w i ln idle busy el db lg t]. unfold main_step, left, after_close, unlocked, Close; cbn.
  destruct m; repeat case_match; intros; simplify_eq/=; lia.
Qed.

Lemma left_goroutine failed s s' : goroutine_step failed s = Some s' → (left s' < left s)%nat.
Proof.
  destruct s as [m g sg sh tr w i ln idle busy el db lg t]. unfold goroutine_step, left; cbn.
  destruct g; repeat case_match; intros; simplify_eq/=; lia.
Qed.

Lemma left_act a s s' : act a s = Some s' → ((if of_panel a then 1 else 0) + left s' ≤ left s)%nat.
Proof.
  intros H%act_alive. destruct a; [subst|subst|destruct H as [Hm ->]|destruct H as (idle & busy & ->)..| |]; try done.
  - unfold left. rewrite Hm. cbn. lia.
  - apply left_main in H. cbn. lia.
  - apply left_goroutine in H. cbn. lia.
Qed.

Lemma left_run actions s s' : run actions s = Some s' → (panel_actions actions + left s' ≤ left s)%nat.
Proof.
  revert s. induction actions as [|a actions IH]; intros s; cbn; [intros [= ->]; done|].
  intros (s1 & Ha & Hr)%bind_Some. apply IH in Hr. apply left_act in Ha. unfold panel_actions in *. cbn.
  destruct (of_panel a); cbn; lia.
Qed.

Lemma left_bound s : (left s ≤ 12)%nat.
Proof. unfold left. destruct (s_main s), (s_goroutine s); cbn; lia. Qed.

(** ** A signalled Panel moves *)

Definition exited (s : state) : bool := match s_main s with Exited _ => true | _ => false end.

Lemma signal_stays a s s' : act a s = Some s' → s_signalled s = true → s_signalled s' = true.
Proof.
  intros H%act_alive Hs. destruct a; [subst|subst|destruct H as [_ ->]|destruct H as (idle & busy & ->)..| |]; try done; revert H.
  - unfold main_step, Close. destruct (s_main s); repeat case_match; intros; by simplify_eq/=.
  - unfold goroutine_step. destruct (s_goroutine s); repeat case_match; intros; by simplify_eq/=.
Qed.

Lemma moves s : inv s → s_signalled s = true → exited s = false → ∃ a s', of_panel a = true ∧ act a s = Some s'.
Proof.
  intros Hi Hsig Hx.
  assert (is_Some (act (ByMain false) s) ∨ is_Some (act (ByGoroutine false) s)) as [[s' H]|[s' H]];
    [|by exists (ByMain false), s'|by exists (ByGoroutine false), s'].
  open_inv Hi. unfold exited, act, main_step, goroutine_step, unlocked, Close in *; cbn in *.
  destruct m, g, w, i; cbn in *; try discriminate; try done; try (by left); try (by right).
  all: repeat case_match; simplify_eq/=; try done; try (by left); try (by right); by specialize (Hf eq_refl).
Qed.
(** ** What a clean end needs *)

(** Main is on the path of a failed Serve. *)
Definition failing (m : mainAt) : bool :=
  match m with Untracking AcceptError | Returning AcceptError | Served AcceptError | ToExit | Exited false => true | _ => false end.

(** Only an Accept that fails for good leads there. *)
Lemma failing_act a s s' : inv s → act a s = Some s' → a ≠ AcceptFails → failing (s_main s) = false → failing (s_main s') = false.
Proof.
  intros Hi H%act_alive Hne Hf. destruct a; [subst|subst|done|destruct H as (idle & busy & ->)..| |]; try done.
  - pose proof (inv_agrees s Hi) as Ha. pose proof (inv_marked s Hi) as Hm. pose proof (inv_found s Hi) as Hw. revert H Hf Ha Hm Hw. clear.
    destruct s as [m g sg sh tr w i ln idle busy el db lg t]. unfold main_step, Close; cbn.
    destruct m; repeat case_match; intros; simplify_eq/=; try done.
    all: repeat case_match; simplify_eq/=; try done; try destruct w; naive_solver.
  - revert H. unfold goroutine_step. destruct (s_goroutine s); repeat case_match; intros; by simplify_eq/=.
Qed.

Lemma failing_run actions s s' : inv s → run actions s = Some s' → AcceptFails ∉ actions →
  failing (s_main s) = false → failing (s_main s') = false.
Proof.
  revert s. induction actions as [|a actions IH]; intros s Hi; cbn; [by intros [= ->]|].
  intros (s1 & Ha & Hr)%bind_Some [Hne Hin]%not_elem_of_cons Hf.
  eapply IH; [by eapply inv_act|done..|]. by eapply failing_act.
Qed.

Lemma inv_run actions s s' : inv s → run actions s = Some s' → inv s'.
Proof.
  revert s. induction actions as [|a actions IH]; intros s Hi; cbn; [by intros [= ->]|].
  intros (s1 & Ha & Hr)%bind_Some. eapply IH; [|done]. by eapply inv_act.
Qed.

Lemma signal_run actions s s' : run actions s = Some s' → s_signalled s = true → s_signalled s' = true.
Proof.
  revert s. induction actions as [|a actions IH]; intros s; cbn; [by intros [= ->]|].
  intros (s1 & Ha & Hr)%bind_Some Hs. eapply IH; [done|]. by eapply signal_stays.
Qed.

(** ** The end *)

Section WithHost.
Context `{GoRuntime} `{NetRuntime} `{Auth.AuthRuntime} `{HostFiles} `{SystemdBus}.

(** What main does up to Serve does not depend on how Serve ends. *)
Lemma main_serves h : Serve ∈ (main h).1 →
  ∃ before, main h = (before ++ done_at (Exited (h_serves h)), if h_serves h then Done else FailedServe).
Proof.
  unfold main. destruct (Config.Load _) as [cfg|]; [|by inversion 1].
  destruct (Auth.New _ _); [|by inversion 1]. destruct (journalXrayUnit cfg); [|by inversion 1].
  destruct (h_opens h); cbn [negb]; [|set_solver].
  destruct (h_listens _ _ _); cbn [negb]; [|unfold services; set_solver].
  intros _. destruct (h_serves h); by eexists.
Qed.

Lemma exit_ordered s ok : inv s → s_main s = Exited ok →
  (∃ failed, s_inner s = Closed failed) ∧ s_tracked s = false ∧ s_database s = negb ok ∧
  (∀ h, Serve ∈ (main h).1 → h_serves h = ok →
    ∃ before, main h = (before ++ s_trace s, if ok then Done else FailedServe)).
Proof.
  intros [Ht Htr _ _ Ha _ _ _ Hp _ Hd _] Hm. rewrite Hm in *. split_and!.
  - rewrite Hp in Ha by done. destruct (s_inner s); [done..|by eexists].
  - done.
  - by rewrite Hd; destruct ok.
  - intros h Hs Hok. rewrite Ht. destruct (main_serves h Hs) as [before Hb]. rewrite Hok in Hb. by exists before.
Qed.

(** C37: a signalled Panel ends, in order, and nothing can hold it. From any
    state it can be in once it serves, however main, the goroutine that calls
    Shutdown, the connections and time interleave after the signal: at most
    twelve steps are the Panel's own, and until the process is gone one of them
    can be taken, whatever requests are open. When it is gone the listener has
    been closed to the end, so a socket has been removed, before the database
    was, and main has done exactly what [Main.main] says; with status 0 unless
    an Accept failed for good. *)
Theorem signalled_panel_ends s actions s' :
  reachable s → s_signalled s = true → run actions s = Some s' →
  (panel_actions actions ≤ 12)%nat ∧
  match s_main s' with
  | Exited ok =>
      (∃ failed, s_inner s' = Closed failed) ∧ s_tracked s' = false ∧ s_database s' = negb ok ∧
      (∀ h, Serve ∈ (main h).1 → h_serves h = ok →
        ∃ before, main h = (before ++ s_trace s', if ok then Done else FailedServe)) ∧
      (failing (s_main s) = false → AcceptFails ∉ actions → ok = true)
  | _ => ∃ a s'', of_panel a = true ∧ act a s' = Some s''
  end.
Proof.
  intros Hr Hsig Hrun. pose proof (inv_reachable s Hr) as Hi. pose proof (inv_run actions s s' Hi Hrun) as Hi'.
  split; [pose proof (left_run actions s s' Hrun); pose proof (left_bound s); lia|].
  pose proof (moves s' Hi' (signal_run _ _ _ Hrun Hsig)) as Hmove. unfold exited in Hmove.
  destruct (s_main s') eqn:Em; try by apply Hmove.
  destruct (exit_ordered s' ok Hi' Em) as (Hin & Htr & Hdb & Hmain). split_and!; try done.
  intros Hf Ha. pose proof (failing_run _ _ _ Hi Hrun Ha Hf) as Hx. rewrite Em in Hx. by destruct ok.
Qed.
End WithHost.

(** The database is closed only after the listener, and nothing else closes
    it. *)
Lemma database_outlives_listener s : reachable s → s_database s = false → (∃ failed, s_inner s = Closed failed) ∧ s_tracked s = false.
Proof.
  intros [Ht Htr _ _ Ha _ _ _ Hp _ Hd _]%inv_reachable Hdb. rewrite Hdb in Hd. rewrite Htr.
  destruct (s_main s) as [| | | | | | | |[]]; try done; rewrite Hp in Ha by done; (split; [|done]); destruct (s_inner s); try done; by eexists.
Qed.

(** *** What the end does not get right *)

(** Every clean end on TCP logs an error: Shutdown has closed the listener, and
    main closes it again. On a Unix socket it does so only when the first Close
    failed. *)
Lemma clean_end_logs s : reachable s → s_main s = Exited true →
  CloseXformListener ∈ s_log s ↔ closes_once = false ∨ s_inner s = Closed true.
Proof.
  intros Hi%inv_reachable Hm. rewrite (inv_log s Hi), Hm. pose proof (inv_past s Hi) as Hp. rewrite Hm in Hp.
  pose proof (inv_agrees s Hi) as Ha. rewrite Hp in Ha by done. cbn.
  destruct (s_inner s) as [| |[]]; try done; cbn; destruct closes_once; naive_solver.
Qed.

Lemma run_reachable actions s : run actions serving = Some s → reachable s.
Proof.
  unfold reachable. generalize serving. induction actions as [|a actions IH]; intros s0; cbn; [by intros [= ->]|].
  intros (s1 & Ha & Hr)%bind_Some. eapply rtc_l; [by exists a|by apply IH].
Qed.

(** A request, the signal, and the process: Serve returns as soon as Shutdown
    has closed the listener, and main does not wait for Shutdown, which still
    has its ten seconds for the request. *)
Definition cut_short : list action :=
  [ByMain false; Connect; Signal; ByGoroutine false; ByGoroutine false; ByGoroutine false;
   ByMain false; ByMain false; ByMain false; ByMain false; ByMain false; ByMain false].

Lemma exit_cuts_requests : ∃ s, run cut_short serving = Some s ∧ reachable s ∧
  s_main s = Exited true ∧ s_busy s = 1%nat ∧ s_elapsed s = 0%Z ∧ s_goroutine s = WaitingServe ∧ s_database s = false.
Proof.
  destruct (run cut_short serving) as [s|] eqn:E; [|by vm_compute in E].
  exists s. split; [done|]. split; [by eapply run_reachable|]. revert E. vm_compute. by intros [= <-].
Qed.
End WithListener.

(** *** An end, concretely *)

Module Examples.
Import AsciiRuntime.
#[local] Existing Instance AuthTheorems.Examples.plain_runtime.
#[local] Existing Instance StartupTheorems.Examples.net.

Local Open Scope string_scope.

#[local] Instance files : HostFiles := {
  eval_stat path := if String.eqb path "/usr/bin/journalctl"
    then Some {| fi_regular := true; fi_mode := 493; fi_uid := 0; fi_gid := 0 |} else None;
  geteuid := 1000%Z; getegid := 1000%Z; getgroups := Some [1000%Z] }.

#[local] Instance bus : SystemdBus := {
  DialSystem := None; DialPrivate := None;
  GetUnitProperties _ _ := Ok {["Id" := VString "xray.service"]}; GetServiceProperties _ _ := Ok ∅ }.

(** A host whose main comes to serve. *)
Definition panel : host := {|
  h_getenv name := if String.eqb name "XFORM_PASSWORD" then "secret" else "";
  h_opens := true; h_exists _ := false; h_loads _ := false; h_listens _ _ := true; h_serves := true |}.

Example panel_serves : Serve ∈ (main panel).1 ∧ (main panel).2 = Done.
Proof. split; [|by vm_compute]. vm_compute. by repeat first [apply list_elem_of_here|apply list_elem_of_further]. Qed.

Definition tcp : Listener.listening := Listener.OnTCP 3.

(** A request is open and the signal has come. *)
Definition asked : state := default serving (run tcp (take 3 cut_short) serving).

Definition gone : state := default serving (run tcp (drop 3 cut_short) asked).

Lemma signalled_panel_ends_witness :
  (panel_actions (drop 3 cut_short) ≤ 12)%nat ∧
  match s_main gone with
  | Exited ok =>
      (∃ failed, s_inner gone = Closed failed) ∧ s_tracked gone = false ∧ s_database gone = negb ok ∧
      (∀ h, Serve ∈ (main h).1 → h_serves h = ok →
        ∃ before, main h = (before ++ s_trace gone, if ok then Done else FailedServe)%list) ∧
      (failing (s_main asked) = false → AcceptFails ∉ drop 3 cut_short → ok = true)
  | _ => ∃ a s'', of_panel a = true ∧ act tcp a gone = Some s''
  end.
Proof.
  apply (signalled_panel_ends tcp asked (drop 3 cut_short) gone).
  - apply (run_reachable tcp (take 3 cut_short)). vm_compute. reflexivity.
  - vm_compute. reflexivity.
  - vm_compute. reflexivity.
Defined.

(** The same end on both transports: on TCP with an error logged. *)
Example ends :
  (λ s, (s_main s, s_trace s, s_log s)) <$> run tcp cut_short serving =
    Some (Exited true, [Serve; CloseListener; CloseDatabase], [CloseXformListener]) ∧
  (λ s, (s_main s, s_trace s, s_log s)) <$> run (Listener.OnUnix {| Listener.ol_listener := 3; Listener.ol_socket :=
      {| Listener.sp_path := "/run/xform.sock"; Listener.sp_name := "xform.sock"; Listener.sp_parent := 4;
         Listener.sp_identity := {| Listener.dev := 1; Listener.ino := 2; Listener.uid := 1000 |} |};
      Listener.ol_closed := None |}) cut_short serving =
    Some (Exited true, [Serve; CloseListener; CloseDatabase], []).
Proof. split; vm_compute; reflexivity. Qed.
End Examples.
End Shutdown.
