(* ===== verification/Wiring.v ===== *)
(** * What main wires together (cmd/xform/main.go, profiles/profiles.go,
      api/handler.go)

    The two watched sources as the evaluator of profiles and the roster
    service see them, and the Panel's own identity. Theorems: a profile shown
    as available is of the last config and the last settings that parsed. *)

From Stdlib Require Import String.
From S2P Require Import Prelude Reconcile Collector Auth XrayConfig Advertisements FileSource FileSourceTheorems Watchers Profiles ProfileTheorems Api Startup.

Module Wiring.
Import FileSource FileSourceTheorems Watchers Profiles.

Local Open Scope Z_scope.

(** An instant, counted from time.Time's zero value. *)
Definition instant (at_ : Z) : Z := at_ - zero_time.

(** The same error, as the evaluator passes it on. *)
Definition source_error (e : FileSource.SourceError) : Profiles.fileError :=
  {| Profiles.fe_reason := FileSource.fe_reason e; Profiles.fe_message := FileSource.fe_message e |}.

Definition SourcesFromSnapshots (xray : Snapshot XrayConfig.Parsed) (advertised : Snapshot Advertisements.View) : Sources := {|
  so_xray_view := XrayConfig.p_view (sn_value xray); so_xray_available := sn_available xray;
  so_xray_loaded_at := instant (sn_loaded_at xray); so_xray_stale := sn_stale xray;
  so_xray_error := source_error <$> sn_error xray;
  so_ads_view := sn_value advertised; so_ads_configured := sn_configured advertised; so_ads_available := sn_available advertised;
  so_ads_loaded_at := instant (sn_loaded_at advertised); so_ads_stale := sn_stale advertised;
  so_ads_error := source_error <$> sn_error advertised |}.

(** currentProfileSources. *)
Record currentProfileSources := { cs_xray : Watcher XrayConfig.Parsed; cs_advertisements : Watcher Advertisements.View }.

Definition Current (s : currentProfileSources) : Sources :=
  SourcesFromSnapshots (snapshot_of (cs_xray s)) (snapshot_of (cs_advertisements s)).

(** configViewSource.View. *)
Definition View (watcher : Watcher XrayConfig.Parsed) : XrayConfig.View := XrayConfig.p_view (sn_value (snapshot_of watcher)).

(** The configuration's own identity of the Panel, and its uptime: [start] and
    [now] are readings of the monotonic clock. *)
Section WithRuntime.
Context `{GoRuntime}.

(** The time since a process start is not negative, where int64 and uint64 of
    a float agree. *)
Definition UptimeSeconds (start now : Z) : Z := Reconcile.uint64_of_float (Reconcile.Seconds (Collector.time_sub now start)).

(** newHandler's PanelInfo at a request. *)
Definition panel (version : string) (cfg : Config.Config) (processStart now : Z) : Api.PanelInfo := {|
  Api.pi_version := version; Api.pi_api_endpoint := Config.XrayAPIAddress cfg;
  Api.pi_sign_out_url := Config.TrustedProxySignOutURL cfg; Api.pi_uptime := UptimeSeconds processStart now |}.
End WithRuntime.

(** ** Theorems *)

Section WithHosts.
Context `{GoRuntime} `{HostRuntime} `{ProfileRuntime}.
Variable diagnostic : string → string.
Variable decode : string → option XrayConfig.config.

(** The two watchers after some loads of each file. *)
Definition watching (xray_path : string) (xray_loads : list (file * Z)) (ads_path : string) (ads_loads : list (file * Z)) :
    currentProfileSources := {|
  cs_xray := reload_all (xray_parse diagnostic decode) xray_messages (NewXrayWatcher xray_path) xray_loads;
  cs_advertisements := reload_all (advertisement_parse diagnostic) advertisement_messages (NewAdvertisementWatcher ads_path) ads_loads |}.

(** What is worth keeping of each file's loads. *)
Definition xray_history (loads_ : list (file * Z)) : @history XrayConfig.Parsed :=
  foldl (loads (xray_parse diagnostic decode) XrayConfig.zeroParsed) no_history loads_.

Definition ads_history (loads_ : list (file * Z)) : @history Advertisements.View :=
  foldl (loads (advertisement_parse diagnostic) {| Advertisements.advertisements := [] |}) no_history loads_.

Lemma current_sources xp xl ap al :
  Current (watching xp xl ap al) =
  SourcesFromSnapshots (shown xray_messages XrayConfig.zeroParsed xp (xray_history xl))
    (shown advertisement_messages {| Advertisements.advertisements := [] |} ap (ads_history al)).
Proof.
  unfold Current, watching, NewXrayWatcher, NewAdvertisementWatcher. cbn [cs_xray cs_advertisements].
  destruct (reload_all_shown (xray_parse diagnostic decode) xray_messages XrayConfig.zeroParsed xp xl) as (_ & -> & _).
  by destruct (reload_all_shown (advertisement_parse diagnostic) advertisement_messages
    {| Advertisements.advertisements := [] |} ap al) as (_ & -> & _).
Qed.

(** C40: the profiles of a User are those of the last config and the last
    settings that parsed, whatever loads of the two files came before. Until a
    config has parsed, an enabled User's sources are unavailable and nothing is
    listed; an available profile is offered by an inbound of the last config
    that parsed and an advertisement of the last settings that parsed; and the
    collection is stale exactly when one of the two is kept past a failed
    load. *)
Theorem profiles_of_last_valid email xp xl ap al :
  let c := Evaluate email false (Current (watching xp xl ap al)) in
  (good (xray_history xl) = None → co_state c = StateSourceUnavailable ∧ co_items c = []) ∧
  (∀ i a, co_items c !! i = Some (ItemAvailable a) →
    ∃ parsed at_x view at_a inbound ad,
      good (xray_history xl) = Some (parsed, at_x) ∧ good (ads_history al) = Some (view, at_a) ∧ ap ≠ ""%string ∧
      inbound ∈ XrayConfig.v_inbounds (XrayConfig.p_view parsed) ∧ ad ∈ Advertisements.advertisements view ∧
      ProfileTheorems.offered email inbound ad a) ∧
  (co_stale c = true ↔
    is_Some (good (xray_history xl)) ∧ is_Some (failed (xray_history xl)) ∨
    is_Some (good (ads_history al)) ∧ is_Some (failed (ads_history al))).
Proof.
  cbv zeta. rewrite current_sources. set (hx := xray_history xl). set (ha := ads_history al).
  set (sources := SourcesFromSnapshots _ _). split_and!.
  - intros Hg. unfold Evaluate, sources. cbn. by rewrite Hg.
  - intros i a Hi. destruct (good hx) as [[parsed at_x]|] eqn:Ex.
    2:{ unfold Evaluate, sources in Hi. cbn in Hi. by rewrite Ex in Hi. }
    assert (so_xray_available sources = true) as Hav by (unfold sources; cbn; by rewrite Ex).
    rewrite ProfileTheorems.Evaluate_items in Hi by done. apply list_lookup_fmap_Some in Hi as (inbound & He & Hl). symmetry in He.
    apply ProfileTheorems.evaluateInbound_sound in He as (_ & Hg & Ha & ad & Hs & Ho).
    unfold sources in Ha, Hg. cbn in Ha, Hg. apply bool_decide_eq_true in Ha as [[view at_a] Ea].
    assert (inbound ∈ XrayConfig.v_inbounds (so_xray_view sources)) as Hin.
    { apply list_elem_of_lookup_2 in Hl. by apply list_elem_of_filter in Hl as [_ ?]. }
    assert (ad ∈ Advertisements.advertisements (so_ads_view sources)) as Had.
    { unfold selectedAdvertisements in Hs. destruct (so_ads_available sources); [|done].
      assert (ad ∈ [ad]) as Hx by set_solver. rewrite <-Hs in Hx. by apply list_elem_of_filter in Hx as [_ ?]. }
    unfold sources in Hin, Had. cbn in Hin, Had. rewrite Ex in Hin. rewrite Ea in Had.
    exists parsed, at_x, view, at_a, inbound, ad. split_and!; try done. by destruct (String.eqb_spec ap "").
  - unfold Evaluate, sources. destruct (negb _); [|destruct (matchingInbounds _ _)]; cbn;
      by rewrite orb_true_iff, !andb_true_iff, !bool_decide_eq_true.
Qed.
End WithHosts.
End Wiring.
